(* ===== verification/_CoqProject ===== *)
-Q . S2P
Prelude.v
Errors.v
Json.v
Scalars.v
EthTypes.v
Logs.v
Block.v
Config.v
Duration.v
Rpc.v
CallCenter.v
Subscription.v
Backer.v
Validator.v
Doctor.v
Latency.v
Cluster.v
HeadStore.v
BlockStore.v
Chainblock.v
LookBack.v
HeadReplacer.v
Cacher.v
TagLogs.v
Stalker.v
Clusters.v
Forger.v
Subcenter.v
Pipeline.v
Ingress.v
Node.v
Fleet.v
Supply.v
Whole.v
Rediblock.v
Services.v
Origin.v
Gateway.v
Lease.v
Election.v
Agreement.v
Oracles.v
BlockOracle.v
Dashboard.v
Html.v
Templates.v
Pages.v
Wiring.v
Proxier.v
BlockRef.v
