(* ===== verification/Prelude.v ===== *)
(** * venn, verified

    venn is a proxy for Ethereum JSON-RPC.  A node has, for every chain, a
    cluster of remotes; it sends requests to the remotes in turn, checks their
    answers, caches blocks and logs, follows the head of the chain and serves
    subscriptions.  A gateway stands between the clients and nodes.  This
    library models the Go program under src/ and proves what makes its parts,
    and their composition, correct, or shows where they are not.

    ** How the code is modelled

    Go integers are [Z] with the wrap-arounds written out ([u64], [i64]).  A
    call returns, panics or blocks ([outcome]); expected errors are values
    ([res], and [option] where only an error is returned).  Code with state is
    a [prog W A] over a world [W], of which each component owns a part through
    a [Lens], so that components compose over one world.  A handler takes a
    request and gives the replies it sent ([Rpc.handler]); middlewares are
    functions of handlers, composed as in the source.  What happens in any
    order -- a timer and a request, two processes, a client and an engine -- is
    a step relation or a list of operations that theorems quantify over.
    Where the order in which Go visits a map matters it is an argument.

    Code of other packages is a class with its documented laws, and an instance
    of the laws for the witnesses: go-ethereum ([EthTypes.Eth]), jx and sonic
    ([Json.Jx], [Rpc.Sonic]), jrpc ([Errors.Jrpc]), golang-lru, semaphores,
    redis, Lua numbers, redsync, uuid, chi, rolling windows, net/url, cel-go,
    templ, fx.

    ** The parts, in the order of the files

    - [Prelude]: integers, outcomes, programs, lenses, slices, strings, and the
      tactics and hints for them.
    - [Errors] (lib/util/error.go, lib/callcenter/errors.go): Go errors with
      their wrapping, and the classifiers that decide whether another remote is
      tried.  [Json]: JSON values and what encoding/json does with them.
      [Scalars] (lib/config/util.go, url.go): variables of the environment,
      URLs, the choice of the log.  [EthTypes], [BlockRef], [Logs] and [Block]
      (lib/ethtypes): block numbers and tags, filters, references to blocks,
      matching of logs, and the structs of blocks, transactions and receipts
      as encoding/json codes them.  [Config] (lib/config): the records and the
      parsers' validation; [Duration] (duration.go): durations and their text.
    - [Rpc] (lib/subctx, lib/jrpcutil): contexts, requests, handlers, internal
      calls.  [Subscription] (lib/jrpcutil/subscribe.go): subscriptions made
      inside the process.
    - A remote, from the inside out: [Proxier] (lib/callcenter/proxier.go), the
      connection; [CallCenter], the middlewares without state; [Validator],
      [Backer], [Doctor] and [Latency], what is known of its answers, its
      errors and its health; [LookBack], the limit of its history.  [Clusters]
      (svc/node/quarks/cluster) stacks them, [Cluster] (lib/callcenter/cluster.go)
      chooses among remotes.
    - What a node knows: [HeadStore], the heads; [BlockStore], stores of blocks
      in memory and the compound of several; [Rediblock], the one in redis;
      [Chainblock], the one that asks the remotes.
    - A node's middlewares: [HeadReplacer] (the tag "latest"), [Cacher],
      [Forger] (block receipts), [Subcenter] (subscriptions), [Ingress]
      (identities, limits, the count of running requests).  [TagLogs] has the
      cache over its stores, for the tags.  [Node]
      (svc/app/node/api.go) puts them together and mounts the routes.
    - The composition: [Fleet], the clusters of all chains over all their
      remotes in one world; [Supply], the block store of a node over them;
      [Whole], the node over both; [Pipeline], from the stalker of the leader
      through the head store to a subscriber of another node.
    - Beside the requests: [Stalker] polls the heads; [Lease] and [Election]
      (lib/election, svc/node/atoms/election) see to it that one node of a
      deployment does, which [Agreement] puts together for any number of nodes;
      [Dashboard] collects the state that is shown and exports the gauges,
      [Templates] (dashboard/templates) writes the pages of HTML, which [Html]
      escapes and reads back, and [Pages] serves them; [Services] has the
      redis and nats clients, the metrics and the head logger; [Oracles] combines
      answers, [BlockOracle] gets one from a JSON document.
    - [Wiring] (cmd/venn, and the parameters, results and hooks of all
      components): how a process is put together, started and stopped.
    - The gateway: [Origin] (lib/util/origin) and [Gateway] (svc/app/gateway,
      the telemetry, the websocket pool and the proxy to a node).

    In a file, a module has the operations with the names of the source, one
    or more modules [...Facts] have lemmas, [...Props] the properties, and
    [...Witness] shows for each property that its hypotheses can hold.

    ** What is shown

    - Composition: the whole node replies once to every request, with few
      exceptions, whether its remotes answer or fail, if the logs they give can
      be decoded ([WholeProps.node_replies]), and never makes up a block or a
      log ([WholeProps.node_blocks_true], [WholeProps.node_logs_true]); the
      heads the leader polls reach the subscribers of every node, in order,
      with the blocks up to them that can be fetched
      ([PipelineProps.heads_reach_subscribers]); at most one node leads
      ([AgreementProps.one_leader]); what a client of the node gets for the
      latest block ([NodeProps.node_latest_block]); that one request can bring it down
      ([NodeProps.node_getLogs_panics]); that the configured paths are served
      ([NodeProps.routes_of_config]); what passes the gateway and what it
      reaches ([GatewayProps]).
    - Failover: a cluster implements the search by priority and rotation
      ([ClusterProps.cluster_refines]) and answers whenever a remote can
      ([ClusterProps.cluster_available]); a remote answers exactly once
      ([ClustersProps.remote_answers]); its backoff ends, its checks stay
      within their bounds, stale heads are refused ([BackerProps],
      [DoctorProps], [ValidatorProps]).
    - Data: stores give what was asked for and nothing else, the one over the
      remotes what these answered to the requests for it, with the labels it
      checks and those it does not ([BlockStoreProps], [ChainblockProps]); a reorganisation removes
      what it contradicts, entries survive redis ([RediblockProps]); log
      filtering is the documented one but for logs with too few topics
      ([LogsProps], [CacherProps]); encodings
      round trip ([EthTypesProps], [BlockRefProps], [BlockProps],
      [ScalarsProps], [DurationProps], the last through 64-bit floating-point
      numbers, bit by bit).
    - Over time: heads only rise, subscribers miss nothing
      ([HeadStoreProps], [SubcenterProps]); leases follow the leadership and a
      dead leader is replaced ([LeaseProps], [ElectionProps]); the stalker
      never stops ([StalkerProps]); a shut-down waits for the running requests
      and holds up new ones ([IngressProps]).
    - The process: in whatever order fx calls the constructors, the server only
      listens when every remote is in its cluster, and at the end the running
      requests are waited for before the remotes and redis are closed
      ([WiringProps.node_lifecycle]).  The dashboard: a page reads as its data,
      and nothing a remote or a configuration says can become markup
      ([TemplatesProps.pages_read], [PagesProps.chain_page]).
    - Where the code does not do what it means to, a theorem says what it does
      instead: for example [TagLogsProps.tag_logs_stale],
      [GatewayProps.telemetry_stalls],
      [LeaseProps.alwaysleader_stuck], [ElectionProps.split_brain],
      [DashboardProps.dashboard_starves].

    ** Fuel

    Recursion is structural where the code's loops are over data.  Elsewhere
    fuel stands for a bound of the loop: the bytes of a text and one more, in
    [Errors] ([contains_loop_total]) and [Json.unescape]; the length of the
    slice, in the binary search of [Cluster] ([bsearch_spec]); the 16 digits of
    a word, in [EthTypes.hex_str]; the entries a cache can hold and one more,
    in [BlockStore] ([range_loop_total]); the blocks of a range, in [Rediblock]
    and [Subcenter]; and one turn, in [Doctor.CanUse], which asks
    again once, after the first check ([CanUse_total]); the bytes of the text,
    in [Time.parts] ([parts_fuel]), and the 20 digits of a word, in
    [Time.fmtInt]; the number of functions, in [Wiring.arrange], which calls one
    a turn.  [Election] uses
    interaction trees, since discovery need not end; a run, [Exec.returns], is
    one with some fuel, and the theorems on a takeover show that there is
    enough.

    ** Not modelled

    YAML, files, the command line and socket options are calls of libraries.
    [Regexp] only passes on what re2 compiles.  Logs
    and traces leave no mark; metrics only where a component reads them back.
    The floating-point numbers of rates and averages are rational numbers; those
    of [ParseDuration] are not.  What a remote may truthfully say of its chain,
    in [WholeProps.node_blocks_true] and [node_logs_true], is an argument
    ([SupplyFacts.truthful]); it covers the tag "pending", whose block the cache
    keeps under its number. *)
From stdpp Require Export base option list gmap strings numbers sorting pretty.
From Stdlib Require Export ZArith Lia String Ascii.

#[export] Set Default Goal Selector "!".
#[export] Set Warnings "-register-all,-clear-no-such-hyp".
#[global] Open Scope string_scope.
#[global] Open Scope list_scope.
#[global] Open Scope Z_scope.

Declare Scope venn_scope.
Delimit Scope venn_scope with venn.
#[global] Open Scope venn_scope.

(** ** Go integers

    A Go integer is a [Z]; every arithmetic operation of the source that can
    leave its width is followed by one of these wrap-around functions. *)

Definition two63 : Z := 9223372036854775808.
Definition two64 : Z := 18446744073709551616.
Definition max_int64 : Z := 9223372036854775807.

(** Conversion to [uint64]. *)
Definition u64 (z : Z) : Z := z mod two64.

(** Conversion to [int64] (and to [int] on the 64-bit targets). *)
Definition i64 (z : Z) : Z := (z + two63) mod two64 - two63.

Definition in_u64 (z : Z) : Prop := 0 <= z < two64.
Definition in_i64 (z : Z) : Prop := - two63 <= z < two63.

Create HintDb venn.
Create Rewrite HintDb venn_simpl.

Lemma u64_small z : in_u64 z → u64 z = z.
Proof. intros ?. by apply Z.mod_small. Qed.

Lemma i64_small z : in_i64 z → i64 z = z.
Proof.
  unfold in_i64, i64, two63, two64. intros ?.
  rewrite Z.mod_small; lia.
Qed.

Lemma u64_range z : in_u64 (u64 z).
Proof. apply Z.mod_pos_bound. reflexivity. Qed.

Lemma i64_range z : in_i64 (i64 z).
Proof.
  unfold in_i64, i64. pose proof (Z.mod_pos_bound (z + two63) two64 eq_refl).
  unfold two63, two64 in *. lia.
Qed.

Lemma u64_idemp z : u64 (u64 z) = u64 z.
Proof. apply u64_small, u64_range. Qed.

(** A negative number as a word. *)
Lemma u64_neg z : - two64 <= z < 0 → u64 z = two64 + z.
Proof.
  intros Hz. unfold u64. rewrite <- (Z.mod_add z 1 two64) by done.
  rewrite Z.mod_small; [lia|]. unfold two64 in *. lia.
Qed.

#[export] Hint Resolve u64_range i64_range : venn.
#[export] Hint Rewrite u64_idemp : venn_simpl.

(** Solve a goal about Go integers: unfold the width constants, then [lia]. *)
Ltac go_lia :=
  unfold in_u64, in_i64, two63, two64, max_int64 in *; lia.

(** Remove the wrap-arounds whose argument is provably in range. *)
Ltac unwrap :=
  repeat first
    [ rewrite u64_small by go_lia | rewrite i64_small by go_lia ].

(** ** Outcomes of a Go call

    A call returns, panics, or never returns.  Expected failures are ordinary
    values of type [res], the [(T, error)] convention of the source. *)

Inductive outcome (A : Type) : Type :=
  | Return (a : A)
  | Panic (why : string)
  | Blocks.
Arguments Return {A} _.
Arguments Panic {A} _.
Arguments Blocks {A}.

Inductive res (E A : Type) : Type :=
  | Ok (a : A)
  | Err (e : E).
Arguments Ok {E A} _.
Arguments Err {E A} _.

#[export] Instance res_ret {E} : MRet (res E) := λ A a, Ok a.
#[export] Instance res_bind {E} : MBind (res E) := λ A B f m,
  match m with Ok a => f a | Err e => Err e end.
#[export] Instance res_fmap {E} : FMap (res E) := λ A B f m,
  match m with Ok a => Ok (f a) | Err e => Err e end.

#[export] Instance outcome_ret : MRet outcome := λ A a, Return a.
#[export] Instance outcome_bind : MBind outcome := λ A B f m,
  match m with Return a => f a | Panic w => Panic w | Blocks => Blocks end.

(** Stateful Go code: the world is threaded through, and survives a panic. *)
Definition prog (W A : Type) : Type := W → outcome A * W.

#[export] Instance prog_ret {W} : MRet (prog W) := λ A a w, (Return a, w).
#[export] Instance prog_bind {W} : MBind (prog W) := λ A B f m w,
  match m w with
  | (Return a, w') => f a w'
  | (Panic s, w') => (Panic s, w')
  | (Blocks, w') => (Blocks, w')
  end.

Definition panic {W A} (why : string) : prog W A := λ w, (Panic why, w).
Definition block {W A} : prog W A := λ w, (Blocks, w).

Section prog_lemmas.
Context {W : Type}.

Lemma prog_ret_bind {A B} (a : A) (k : A → prog W B) w :
  (mret a ≫= k) w = k a w.
Proof. done. Qed.

Lemma prog_bind_return {A B} (m : prog W A) (k : A → prog W B) a w w' :
  m w = (Return a, w') → (m ≫= k) w = k a w'.
Proof. unfold mbind, prog_bind. by intros ->. Qed.

Lemma prog_bind_assoc {A B C} (m : prog W A) (k : A → prog W B) (l : B → prog W C) w :
  ((m ≫= k) ≫= l) w = (m ≫= λ a, k a ≫= l) w.
Proof. unfold mbind, prog_bind. by destruct (m w) as [[?|?|] ?]. Qed.

Lemma prog_bind_inv {A B} (m : prog W A) (k : A → prog W B) b w w2 :
  (m ≫= k) w = (Return b, w2) →
  ∃ a w1, m w = (Return a, w1) ∧ k a w1 = (Return b, w2).
Proof.
  unfold mbind, prog_bind. destruct (m w) as [[a|?|] w1]; try done. eauto.
Qed.

Lemma prog_ret_inv {A} (a b : A) (w w2 : W) :
  (mret a : prog W A) w = (Return b, w2) → a = b ∧ w = w2.
Proof. by intros [= -> ->]. Qed.
End prog_lemmas.

(** [m] returns from every world with the invariant [I], and keeps it. *)
Definition steady {W A} (I : W → Prop) (m : prog W A) : Prop :=
  ∀ w, I w → ∃ a w', m w = (Return a, w') ∧ I w'.

Section steady_lemmas.
Context {W : Type} (I : W → Prop).

Lemma steady_ret {A} (a : A) : steady I (mret a : prog W A).
Proof. intros w Hw. by exists a, w. Qed.

Lemma steady_bind {A B} (m : prog W A) (k : A → prog W B) :
  steady I m → (∀ a, steady I (k a)) → steady I (m ≫= k).
Proof.
  intros Hm Hk w Hw. destruct (Hm w Hw) as (a & w1 & H & H1).
  destruct (Hk a w1 H1) as (b & w2 & H' & H2). exists b, w2. split; [|done].
  by rewrite (prog_bind_return _ _ _ _ _ H).
Qed.
End steady_lemmas.
#[export] Hint Resolve steady_ret steady_bind : venn.

(** Take a returning run of a program apart, one bind at a time. *)
Ltac prog_inv H :=
  let a := fresh "a" in let w := fresh "w" in let Hm := fresh "Hm" in
  apply prog_bind_inv in H as (a & w & Hm & H).

(** A run has one result: identify the results of two descriptions of it. *)
Ltac same_run :=
  repeat match goal with
  | H1 : ?m = (?a, ?w1), H2 : ?m = (?b, ?w2) |- _ => rewrite H1 in H2; simplify_eq
  end.

(** ** Lenses: the part of the world that one component owns *)

Class Lens (S W : Type) := {
  lget : W → S;
  lput : S → W → W;
  lget_lput : ∀ s w, lget (lput s w) = s;
  lput_lput : ∀ s s' w, lput s (lput s' w) = lput s w;
  lput_lget : ∀ w, lput (lget w) w = w;
}.
#[export] Hint Rewrite @lget_lput @lput_lput @lput_lget : venn_simpl.

#[export] Instance lens_id S : Lens S S.
Proof. by refine {| lget := id; lput := λ s _, s |}. Defined.
#[export] Instance lens_fst S W : Lens S (S * W).
Proof.
  by refine {| lget := fst; lput := λ s w, (s, w.2) |}; [intros; simpl | intros; simpl | intros []; simpl].
Defined.
#[export] Instance lens_snd S W W' `{!Lens S W} : Lens S (W' * W).
Proof.
  refine {| lget := λ w, lget w.2; lput := λ s w, (w.1, lput s w.2) |}.
  - intros; simpl. apply lget_lput.
  - intros; simpl. by rewrite lput_lput.
  - intros []; simpl. by rewrite lput_lget.
Defined.

(** The part of a part. *)
Definition lens_comp {S T W} (L1 : Lens S T) (L2 : Lens T W) : Lens S W.
Proof.
  refine {| lget := λ w, @lget S T L1 (lget w); lput := λ s w, lput (@lput S T L1 s (lget w)) w |}.
  - intros. by rewrite lget_lput, lget_lput.
  - intros. by rewrite lget_lput, lput_lput, lput_lput.
  - intros. by rewrite lput_lget, lput_lget.
Defined.

Definition read {S W} `{!Lens S W} : prog W S := λ w, (Return (lget w), w).
Definition write {S W} `{!Lens S W} (s : S) : prog W () :=
  λ w, (Return (), lput s w).
Definition modify {S W} `{!Lens S W} (f : S → S) : prog W () :=
  λ w, (Return (), lput (f (lget w)) w).

(** ** Slices *)

(** [s[i]] of a Go slice, an index of type [int]: a panic out of range. *)
Definition index {A} (l : list A) (i : Z) : outcome A :=
  if i <? 0 then Panic "index out of range"
  else match l !! Z.to_nat i with
       | Some a => Return a
       | None => Panic "index out of range"
       end.

(** A loop that appends several elements a turn. *)
Lemma mjoin_fmap_cons {A B} (f : A → list B) x l :
  mjoin (f <$> x :: l) = f x ++ mjoin (f <$> l).
Proof. done. Qed.

(** Run a call that keeps no state of its own inside a program. *)
Definition lift {W A} (o : outcome A) : prog W A := λ w, (o, w).

(** ** Strings

    A Go string is a [string] of bytes. *)

(** [strings.HasPrefix(s, p)]. *)
Definition has_prefix (p s : string) : bool := String.prefix p s.

(** [strings.Contains(s, sub)]. *)
Fixpoint str_contains (sub s : string) : bool :=
  String.prefix sub s
  || match s with
     | EmptyString => false
     | String _ s' => str_contains sub s'
     end.

(** The string without its first [n] bytes, [s[n:]]. *)
Fixpoint str_drop (n : nat) (s : string) : string :=
  match n, s with
  | O, _ => s
  | S n', String _ s' => str_drop n' s'
  | S _, EmptyString => EmptyString
  end.

(** [strings.HasSuffix(s, p)] and [strings.TrimSuffix(s, p)]. *)
Definition has_suffix (p s : string) : bool :=
  bool_decide (String.length p ≤ String.length s)%nat
  && bool_decide (str_drop (String.length s - String.length p) s = p).

Lemma str_drop_length n s :
  String.length (str_drop n s) = (String.length s - n)%nat.
Proof.
  revert s. induction n as [|n IH]; intros [|c s]; simpl; auto.
Qed.

Lemma str_app_length s t :
  String.length (s +:+ t) = (String.length s + String.length t)%nat.
Proof. induction s; simpl; auto. Qed.

Lemma str_app_assoc s t u : (s +:+ t) +:+ u = s +:+ t +:+ u.
Proof.
  induction s as [|c s IH]; [done|].
  change (String c ((s +:+ t) +:+ u) = String c (s +:+ t +:+ u)). by rewrite IH.
Qed.

Lemma prefix_app p s : String.prefix p s = true ↔ ∃ t, s = p +:+ t.
Proof.
  revert s. induction p as [|c p IH]; intros [|d s]; simpl.
  - split; eauto. - split; eauto.
  - split; [done|]. by intros [? ?].
  - destruct (Ascii.ascii_dec c d) as [->|Hne].
    + rewrite IH. split; intros [t Ht]; exists t; [by rewrite Ht | by injection Ht].
    + split; [done|]. intros [t Ht]. by injection Ht as ??; subst.
Qed.

Lemma str_contains_spec sub s :
  str_contains sub s = true ↔ ∃ a b, s = a +:+ sub +:+ b.
Proof.
  induction s as [|c s IH]; cbn [str_contains].
  - rewrite orb_false_r, prefix_app. split.
    + intros [t Ht]. exists "", t. done.
    + intros (a & b & H). destruct a; simplify_eq/=. eauto.
  - rewrite orb_true_iff, prefix_app, IH. split.
    + intros [[t Ht]|(a & b & ->)]; [by exists "", t|by exists (String c a), b].
    + intros (a & b & H). destruct a as [|d a];
        [left; by exists b | right; injection H as ??; by exists a, b].
Qed.
