(* ===== verification/Errors.v ===== *)
(** * Errors: [lib/util/error.go], [lib/callcenter/errors.go]

    Go error values with their wrapping structure, [errors.Is] and
    [errors.As], and the three classifiers the call centre steers by:
    [IsUserError], [IsTimeoutError] and [IsNodeError], with the
    case-insensitive substring search they share. *)
From S2P Require Import Prelude.

(** ** Error values *)

(** The package-level error variables, compared by identity. *)
Inductive sentinel : Type :=
  (* lib/callcenter/errors.go *)
  | ErrRatelimited | ErrUnhealthy | ErrMethodNotAllowed
  | ErrHeadJumpedBackwards | ErrHeadOld
  (* lib/util/error.go *)
  | ErrChainNotFound | UserError
  (* lib/subctx, lib/ratelimit, lib/election *)
  | ErrNoChain | ErrNoEndpointPath | ErrNoEndpointSpec
  | ErrNoIdentifier | ErrLostLeadership
  (* package context, package net, package subscription of jrpc *)
  | DeadlineExceeded | Canceled | ErrClosed | ErrNotificationsUnsupported.

#[export] Instance sentinel_eq_dec : EqDecision sentinel.
Proof. solve_decision. Defined.

(** What the jrpc library decides: the codes of its error constructors, the
    text of its errors, and whether its own sentinel is a [jsonrpc.Error]. *)
Class Jrpc := {
  code_internal_error : Z;
  code_invalid_request : Z;
  code_invalid_params : Z;
  rpc_text : Z → string → string;
  http_text : Z → string → string;
  notifications_unsupported_code : option Z;
}.

(** The JSON-RPC 2.0 specification fixes the three codes. *)
Class JrpcSpec `{J : Jrpc} : Prop := {
  internal_error_spec : code_internal_error = -32603;
  invalid_request_spec : code_invalid_request = -32600;
  invalid_params_spec : code_invalid_params = -32602;
}.

Inductive goerr : Type :=
  | ESentinel (s : sentinel)
  | ERpc (code : Z) (msg : string)                (* *jsonrpc.JsonError *)
  | EHttp (status : Z) (body : string)            (* *jsonrpc.HTTPError *)
  | EText (msg : string)                          (* errors.New *)
  | EWrap (pre : string) (e : goerr) (post : string)  (* fmt.Errorf, one %w *)
  | EJoin (l r : goerr).                          (* multierr.Append *)

#[export] Instance goerr_eq_dec : EqDecision goerr.
Proof. solve_decision. Defined.

(** [multierr.Append(l, r)]. *)
Definition multierr_append (l : option goerr) (r : goerr) : option goerr :=
  Some (match l with None => r | Some e => EJoin e r end).

Section errors.
Context `{J : Jrpc}.

Definition NewInternalError (msg : string) : goerr := ERpc code_internal_error msg.
Definition NewInvalidRequestError (msg : string) : goerr := ERpc code_invalid_request msg.
Definition NewInvalidParamsError (msg : string) : goerr := ERpc code_invalid_params msg.

(** The sentinels that are [jsonrpc.Error]s: their code and message. *)
Definition sentinel_rpc (s : sentinel) : option (Z * string) :=
  match s with
  | ErrRatelimited => Some (code_internal_error, "remote is rate limited")
  | ErrUnhealthy => Some (code_internal_error, "remote is unhealthy")
  | ErrMethodNotAllowed => Some (code_invalid_request, "method not allowed")
  | ErrHeadJumpedBackwards => Some (code_internal_error, "head jumped backwards")
  | ErrHeadOld => Some (code_internal_error, "head old")
  | ErrNotificationsUnsupported =>
      (λ c, (c, "notifications not supported")) <$> notifications_unsupported_code
  | _ => None
  end.

Definition sentinel_text (s : sentinel) : string :=
  match s with
  | ErrChainNotFound => "chain not found"
  | UserError => "user error"
  | ErrNoChain => "no chain specified"
  | ErrNoEndpointPath => "no endpoint path specified"
  | ErrNoEndpointSpec => "no endpoint spec specified"
  | ErrNoIdentifier => "no valid ratelimit identifier for request"
  | ErrLostLeadership => "lost leadership"
  | DeadlineExceeded => "context deadline exceeded"
  | Canceled => "context canceled"
  | ErrClosed => "use of closed network connection"
  | s => match sentinel_rpc s with
         | Some (c, m) => rpc_text c m
         | None => "notifications not supported"
         end
  end.

(** [err.Error()]. *)
Fixpoint error_text (e : goerr) : string :=
  match e with
  | ESentinel s => sentinel_text s
  | ERpc c m => rpc_text c m
  | EHttp c b => http_text c b
  | EText m => m
  | EWrap pre e post => pre +:+ error_text e +:+ post
  | EJoin l r => error_text l +:+ "; " +:+ error_text r
  end.

(** [errors.Is(err, s)] for a package-level error [s]. *)
Fixpoint errors_is (e : goerr) (s : sentinel) : bool :=
  match e with
  | ESentinel s' => bool_decide (s' = s)
  | EWrap _ e _ => errors_is e s
  | EJoin l r => errors_is l s || errors_is r s
  | _ => false
  end.

(** [errors.As(err, &codecError)] with a [jsonrpc.Error]: the code and the
    text of the first one in the tree. *)
Fixpoint as_rpc (e : goerr) : option (Z * string) :=
  match e with
  | ESentinel s => (λ '(c, m), (c, rpc_text c m)) <$> sentinel_rpc s
  | ERpc c m => Some (c, rpc_text c m)
  | EWrap _ e _ => as_rpc e
  | EJoin l r => match as_rpc l with Some x => Some x | None => as_rpc r end
  | _ => None
  end.

(** [errors.As(err, &httpError)] with a [*jsonrpc.HTTPError]. *)
Fixpoint as_http (e : goerr) : option Z :=
  match e with
  | EHttp status _ => Some status
  | EWrap _ e _ => as_http e
  | EJoin l r => match as_http l with Some x => Some x | None => as_http r end
  | _ => None
  end.
End errors.

(** ** The case-insensitive search of [lib/util/error.go] *)

Module Search.

Definition RuneError : Z := 65533.

Definition byte_of (c : ascii) : Z := Z.of_N (Ascii.N_of_ascii c).

Definition cont_byte (lo hi b : Z) : bool := (lo <=? b) && (b <=? hi).

(** [utf8.DecodeRuneInString]: the rune and the number of bytes it takes;
    malformed input is [(RuneError, 1)], the empty string [(RuneError, 0)]. *)
Definition decode_rune (s : string) : Z * nat :=
  match s with
  | EmptyString => (RuneError, 0%nat)
  | String c0 s1 =>
      let b0 := byte_of c0 in
      if b0 <? 128 then (b0, 1%nat)
      else if (194 <=? b0) && (b0 <=? 223) then
        match s1 with
        | String c1 _ =>
            let b1 := byte_of c1 in
            if cont_byte 128 191 b1
            then ((b0 - 192) * 64 + (b1 - 128), 2%nat) else (RuneError, 1%nat)
        | _ => (RuneError, 1%nat)
        end
      else if (224 <=? b0) && (b0 <=? 239) then
        match s1 with
        | String c1 (String c2 _) =>
            let b1 := byte_of c1 in let b2 := byte_of c2 in
            let lo := if b0 =? 224 then 160 else 128 in
            let hi := if b0 =? 237 then 159 else 191 in
            if cont_byte lo hi b1 && cont_byte 128 191 b2
            then ((b0 - 224) * 4096 + (b1 - 128) * 64 + (b2 - 128), 3%nat)
            else (RuneError, 1%nat)
        | _ => (RuneError, 1%nat)
        end
      else if (240 <=? b0) && (b0 <=? 244) then
        match s1 with
        | String c1 (String c2 (String c3 _)) =>
            let b1 := byte_of c1 in let b2 := byte_of c2 in
            let b3 := byte_of c3 in
            let lo := if b0 =? 240 then 144 else 128 in
            let hi := if b0 =? 244 then 143 else 191 in
            if cont_byte lo hi b1 && cont_byte 128 191 b2 && cont_byte 128 191 b3
            then ((b0 - 240) * 262144 + (b1 - 128) * 4096
                  + (b2 - 128) * 64 + (b3 - 128), 4%nat)
            else (RuneError, 1%nat)
        | _ => (RuneError, 1%nat)
        end
      else (RuneError, 1%nat)
  end.

(** [unicode.ToUpper], as far as a comparison with the upper case of an
    ASCII letter can tell: the ASCII letters, and the two other runes whose
    upper case is an ASCII letter.  Every needle of the program is ASCII. *)
Definition to_upper (r : Z) : Z :=
  if (97 <=? r) && (r <=? 122) then r - 32
  else if r =? 305 then 73      (* dotless i *)
  else if r =? 383 then 83      (* long s *)
  else r.

(** The runes a [range] loop over a string yields. *)
Fixpoint runes (fuel : nat) (s : string) : list Z :=
  match fuel, s with
  | O, _ | _, EmptyString => []
  | S fuel, s =>
      let '(r, size) := decode_rune s in r :: runes fuel (str_drop size s)
  end.

Fixpoint match_runes (haystack : string) (needle : list Z) : bool :=
  match needle with
  | [] => true
  | expected :: needle =>
      let '(actual, size) := decode_rune haystack in
      if actual =? RuneError then false
      else if negb (to_upper actual =? to_upper expected) then false
      else match_runes (str_drop size haystack) needle
  end.

Definition startsWithIgnoreCase (haystack needle : string) : bool :=
  if bool_decide (String.length haystack < String.length needle)%nat then false
  else match_runes haystack (runes (String.length needle) needle).

Fixpoint contains_loop (fuel : nat) (haystack needle : string) : option bool :=
  match fuel with
  | O => None
  | S fuel =>
      if bool_decide (String.length haystack < String.length needle)%nat
      then Some false
      else if startsWithIgnoreCase haystack needle then Some true
      else
        let '(r, size) := decode_rune haystack in
        if r =? RuneError then Some false
        else contains_loop fuel (str_drop size haystack) needle
  end.

(** The loop drops at least one byte a turn, so one more turn than there
    are bytes is enough: [contains_loop_total]. *)
Definition containsIgnoreCase (haystack needle : string) : bool :=
  default false (contains_loop (S (String.length haystack)) haystack needle).

(** *** Termination of the search *)

Lemma decode_rune_size s :
  (decode_rune s).1 ≠ RuneError → (1 ≤ (decode_rune s).2)%nat.
Proof.
  destruct s as [|c s]; [done|]. intros _. unfold decode_rune.
  repeat case_match; simpl; lia.
Qed.

Lemma contains_loop_total fuel h n :
  (String.length h < fuel)%nat → is_Some (contains_loop fuel h n).
Proof.
  revert h. induction fuel as [|fuel IH]; intros h Hlt; [lia|]. simpl.
  case_bool_decide; [by eexists|].
  destruct (startsWithIgnoreCase h n) eqn:Hs; [by eexists|].
  destruct (decode_rune h) as [r size] eqn:Hd.
  destruct (Z.eqb_spec r RuneError); [by eexists|].
  pose proof (decode_rune_size h) as Hsz. rewrite Hd in Hsz. simpl in Hsz.
  apply IH. rewrite str_drop_length.
  destruct h; simpl in *; [injection Hd; congruence|].
  specialize (Hsz ltac:(done)). lia.
Qed.

(** *** What the search finds in ASCII text *)

Definition is_ascii_char (c : ascii) : bool := byte_of c <? 128.
Fixpoint is_ascii (s : string) : bool :=
  match s with EmptyString => true | String c s => is_ascii_char c && is_ascii s end.

Definition upper_char (c : ascii) : ascii :=
  if (97 <=? byte_of c) && (byte_of c <=? 122)
  then Ascii.ascii_of_N (Z.to_N (byte_of c - 32)) else c.

(** Reference definition: the string with its ASCII letters in upper case. *)
Fixpoint upper (s : string) : string :=
  match s with
  | EmptyString => EmptyString
  | String c s => String (upper_char c) (upper s)
  end.
End Search.

(** ** The classifiers *)

Section classify.
Context `{J : Jrpc}.

(** [NewErrChainNotFound] and [GetChain] of [lib/util/error.go]. *)
Definition NewErrChainNotFound (chain : string) : goerr :=
  EWrap "" (ESentinel ErrChainNotFound) (": " +:+ chain).

Definition util_GetChain {T} (chain : string) (m : gmap string T) : res goerr T :=
  match m !! chain with
  | Some c => Ok c
  | None => Err (NewErrChainNotFound chain)
  end.

(** The codes of EIP-1474 that are never the caller's fault. *)
Definition node_side_codes : list Z := [-32601; -32603; -32001; -32002; -32005].

Definition IsUserError (err : option goerr) : bool :=
  match err with
  | None => false
  | Some e =>
      if errors_is e UserError then true
      else if errors_is e ErrNotificationsUnsupported then true
      else match as_rpc e with
           | Some (code, text) =>
               if bool_decide (code ∈ node_side_codes) then false
               else if code =? -32000 then negb (str_contains "not found" text)
               else true
           | None => errors_is e DeadlineExceeded || errors_is e Canceled
           end
  end.

Definition IsTimeoutError (err : option goerr) : bool :=
  match err with
  | None => false
  | Some e =>
      if bool_decide ((fst <$> as_rpc e) = Some (-32005)) then true
      else if bool_decide (as_http e = Some 429) then true
      else Search.containsIgnoreCase (error_text e) "limit"
           || Search.containsIgnoreCase (error_text e) "rate"
  end.

Definition IsNodeError (err : option goerr) : bool :=
  match err with
  | None => false
  | Some e =>
      match as_rpc e with
      | Some _ => false
      | None =>
          match as_http e with
          | Some status => negb (bool_decide (status ∈ [429; 400; 413]))
          | None => true
          end
      end
  end.
End classify.

#[global] Arguments IsUserError {J} err : simpl never.
#[global] Arguments IsTimeoutError {J} err : simpl never.
#[global] Arguments IsNodeError {J} err : simpl never.

(** ** Lemmas on the search *)

Import Search.

Lemma decode_rune_ascii c s :
  is_ascii_char c = true → decode_rune (String c s) = (byte_of c, 1%nat).
Proof. unfold is_ascii_char, decode_rune. by intros ->. Qed.

Lemma byte_of_inj c d : byte_of c = byte_of d → c = d.
Proof.
  unfold byte_of. intros H%(inj Z.of_N).
  by rewrite <- (ascii_N_embedding c), <- (ascii_N_embedding d), H.
Qed.

Lemma to_upper_ascii c :
  is_ascii_char c = true → to_upper (byte_of c) = byte_of (upper_char c).
Proof.
  destruct c as [[] [] [] [] [] [] [] []]; vm_compute; intros; congruence.
Qed.

Lemma to_upper_eqb c d :
  is_ascii_char c = true → is_ascii_char d = true →
  (to_upper (byte_of c) =? to_upper (byte_of d)) = bool_decide (upper_char c = upper_char d).
Proof.
  intros Hc Hd. rewrite !to_upper_ascii by done.
  case_bool_decide as Heq; [rewrite Heq; apply Z.eqb_refl|].
  apply Z.eqb_neq. by intros ?%byte_of_inj.
Qed.

Fixpoint bytes_of (s : string) : list Z :=
  match s with EmptyString => [] | String c s => byte_of c :: bytes_of s end.

Lemma runes_ascii fuel s :
  is_ascii s = true → (String.length s ≤ fuel)%nat → runes fuel s = bytes_of s.
Proof.
  revert s. induction fuel as [|fuel IH]; intros [|c s]; simpl;
    [done|lia|done|].
  intros [Hc Hs]%andb_true_iff ?.
  pose proof (decode_rune_ascii c s Hc) as Hd. simpl in Hd. rewrite Hd.
  simpl. f_equal. apply IH; [done|lia].
Qed.

Lemma match_runes_ascii h n :
  is_ascii h = true → is_ascii n = true →
  match_runes h (bytes_of n) = String.prefix (upper n) (upper h).
Proof.
  revert h. induction n as [|d n IH]; intros h Hh Hn; [by destruct h|].
  destruct h as [|c h]; [done|].
  apply andb_true_iff in Hh as [Hc Hh]. apply andb_true_iff in Hn as [Hd Hn].
  cbn [bytes_of match_runes]. rewrite decode_rune_ascii by done.
  destruct (Z.eqb_spec (byte_of c) RuneError) as [He|_].
  { exfalso. unfold is_ascii_char, RuneError in *. rewrite He in Hc. done. }
  rewrite to_upper_eqb by done. simpl.
  destruct (ascii_dec (upper_char d) (upper_char c)) as [->|Hne].
  - rewrite bool_decide_true by done. simpl. by apply IH.
  - rewrite bool_decide_false by congruence. done.
Qed.

Lemma upper_length s : String.length (upper s) = String.length s.
Proof. induction s; simpl; congruence. Qed.

Lemma upper_app s t : upper (s +:+ t) = upper s +:+ upper t.
Proof.
  induction s as [|c s IH]; [done|].
  change (upper (String c s +:+ t)) with (String (upper_char c) (upper (s +:+ t))).
  by rewrite IH.
Qed.

Lemma upper_split s p q :
  upper s = p +:+ q → ∃ a b, s = a +:+ b ∧ upper a = p ∧ upper b = q.
Proof.
  revert s. induction p as [|c p IH]; intros s Hs; [by exists "", s|].
  destruct s as [|d s]; [done|]. injection Hs as Hc Hs.
  destruct (IH s Hs) as (a & b & -> & Ha & Hb). exists (String d a), b.
  split_and!; [done|simpl; congruence|done].
Qed.

Lemma str_contains_length sub s :
  str_contains sub s = true → (String.length sub ≤ String.length s)%nat.
Proof.
  intros (a & b & ->)%str_contains_spec. rewrite !str_app_length. lia.
Qed.

Lemma contains_loop_ascii fuel h n :
  is_ascii h = true → is_ascii n = true → (String.length h < fuel)%nat →
  contains_loop fuel h n = Some (str_contains (upper n) (upper h)).
Proof.
  revert h. induction fuel as [|fuel IH]; intros h Hh Hn Hf; [lia|].
  cbn [contains_loop]. case_bool_decide as Hlen.
  { destruct (str_contains _ _) eqn:E; [|done].
    apply str_contains_length in E. rewrite !upper_length in E. lia. }
  unfold startsWithIgnoreCase. rewrite bool_decide_false by lia.
  rewrite runes_ascii, match_runes_ascii by done.
  destruct h as [|c h]; [destruct n; [done|simpl in Hlen; lia]|].
  cbn [upper str_contains]. destruct (String.prefix _ _); [done|].
  apply andb_true_iff in Hh as [Hc Hh].
  rewrite decode_rune_ascii by done.
  destruct (Z.eqb_spec (byte_of c) RuneError) as [He|_].
  { exfalso. unfold is_ascii_char, RuneError in *. rewrite He in Hc. done. }
  simpl. apply IH; [done..|simpl in Hf; lia].
Qed.

Lemma containsIgnoreCase_ascii h n :
  is_ascii h = true → is_ascii n = true →
  containsIgnoreCase h n = str_contains (upper n) (upper h).
Proof.
  intros Hh Hn. unfold containsIgnoreCase.
  by rewrite contains_loop_ascii by (done || lia).
Qed.

(** ** Concrete codes, and properties *)

Module StdJrpc.
#[export] Instance std_jrpc : Jrpc := {|
  code_internal_error := -32603;
  code_invalid_request := -32600;
  code_invalid_params := -32602;
  rpc_text code msg := msg;
  http_text status body := pretty status +:+ ": " +:+ body;
  notifications_unsupported_code := None;
|}.
#[export] Instance std_jrpc_spec : JrpcSpec.
Proof. by split. Qed.
End StdJrpc.

(** The first [jsonrpc.Error] in an error's tree is the sentinel [s], and no
    other package-level error is in it: [fmt.Errorf] around [s], any number of
    times. *)
Inductive wraps (s : sentinel) : goerr → Prop :=
  | wraps_here : wraps s (ESentinel s)
  | wraps_wrap pre e post : wraps s e → wraps s (EWrap pre e post).

Lemma wraps_is s e s' : wraps s e → errors_is e s' = bool_decide (s = s').
Proof. by induction 1. Qed.

Lemma wraps_rpc `{J : Jrpc} s e :
  wraps s e → as_rpc e = (λ '(c, m), (c, rpc_text c m)) <$> sentinel_rpc s.
Proof. by induction 1. Qed.

(** The failures the call centre itself finds in a remote. *)
Definition remote_failures : list sentinel :=
  [ErrRatelimited; ErrUnhealthy; ErrHeadJumpedBackwards; ErrHeadOld].

Lemma remote_failure_not_user `{J : Jrpc} `{JS : !JrpcSpec} s e :
  s ∈ remote_failures → wraps s e → IsUserError (Some e) = false.
Proof.
  intros Hs Hw. unfold IsUserError.
  rewrite !(wraps_is _ _ _ Hw), (wraps_rpc _ _ Hw).
  apply list_elem_of_In in Hs. destruct Hs as [<-|[<-|[<-|[<-|[]]]]];
    simpl; rewrite internal_error_spec; reflexivity.
Qed.

Module ErrorsProps.
(** on ASCII texts the hand-written search finds a needle exactly when it
    occurs in the haystack up to the case of letters. *)
Theorem containsIgnoreCase_spec h n :
  is_ascii h = true → is_ascii n = true →
  containsIgnoreCase h n = true ↔
  ∃ a m b, h = a +:+ m +:+ b ∧ upper m = upper n.
Proof.
  intros Hh Hn. rewrite containsIgnoreCase_ascii, str_contains_spec by done.
  split.
  - intros (a & b & Hu). clear Hh Hn.
    apply upper_split in Hu as (a' & r & -> & _ & Hu).
    apply (upper_split _ _ b) in Hu as (m & b' & -> & Hm & _). by exists a', m, b'.
  - intros (a & m & b & -> & Hm). exists (upper a), (upper b).
    by rewrite !upper_app, Hm.
Qed.

(** C25: whatever context the code wraps them in, the failures the call centre
    detects in a remote (rate limited, unhealthy, head old, head jumped
    backwards) are nobody's user error, so a cluster goes on to the next
    remote; a method refused by a remote's filter is one. *)
Theorem failure_classes `{J : Jrpc} `{JS : !JrpcSpec} e s :
  wraps s e →
  (s ∈ remote_failures → IsUserError (Some e) = false) ∧
  (s = ErrMethodNotAllowed → IsUserError (Some e) = true).
Proof.
  intros Hw. split; [intros Hs; by eapply remote_failure_not_user|].
  intros ->. unfold IsUserError.
  rewrite !(wraps_is _ _ _ Hw), (wraps_rpc _ _ Hw). simpl.
  rewrite invalid_request_spec. reflexivity.
Qed.
End ErrorsProps.

Module ErrorsWitness.
Import StdJrpc ErrorsProps.

Lemma containsIgnoreCase_witness : ∃ a m b,
  "429 Too Many Requests: Rate exceeded" = a +:+ m +:+ b ∧ upper m = upper "rate".
Proof.
  apply (containsIgnoreCase_spec "429 Too Many Requests: Rate exceeded" "rate");
    vm_compute; reflexivity.
Defined.

Lemma failure_classes_witness :
  IsUserError (Some (EWrap "" (ESentinel ErrHeadJumpedBackwards) ": 7 -> 5")) = false.
Proof.
  refine (proj1 (failure_classes _ ErrHeadJumpedBackwards _) _).
  - apply wraps_wrap, wraps_here.
  - by apply (bool_decide_eq_true_1 _).
Defined.
End ErrorsWitness.
