(* ===== verification/Json.v ===== *)
(** * JSON values: what [encoding/json], jx and sonic see

    A [json.RawMessage] is modelled as the JSON value it holds; insignificant
    white space is not represented, every scalar keeps its source text.
    [encoding/json] belongs to the language and is defined here.  The jx and
    sonic libraries are the parameters [Jx] and [Sonic], with what the code
    relies on as the laws [JxSpec]. *)
From S2P Require Import Prelude Errors.

(** ** Values *)

Inductive json : Type :=
  | JNull
  | JBool (b : bool)
  | JNum (text : string)
  | JStr (body : string)                   (* the bytes between the quotes *)
  | JArr (l : list json)
  | JObj (fs : list (string * json))       (* decoded keys, in source order *)
  | JBad (text : string).                  (* not a JSON document *)

Fixpoint json_rect' (P : json → Prop)
    (Hnull : P JNull) (Hbool : ∀ b, P (JBool b)) (Hnum : ∀ t, P (JNum t))
    (Hstr : ∀ s, P (JStr s)) (Harr : ∀ l, Forall P l → P (JArr l))
    (Hobj : ∀ fs, Forall (λ kv, P kv.2) fs → P (JObj fs))
    (Hbad : ∀ t, P (JBad t)) (v : json) {struct v} : P v :=
  let rec := json_rect' P Hnull Hbool Hnum Hstr Harr Hobj Hbad in
  match v with
  | JNull => Hnull
  | JBool b => Hbool b
  | JNum t => Hnum t
  | JStr s => Hstr s
  | JArr l => Harr l ((fix go l := match l return Forall P l with
                       | [] => Forall_nil_2 P
                       | v :: l => Forall_cons_2 P v l (rec v) (go l)
                       end) l)
  | JObj fs => Hobj fs ((fix go fs := match fs return Forall (λ kv, P kv.2) fs with
                       | [] => Forall_nil_2 _
                       | kv :: fs => Forall_cons_2 (λ kv, P kv.2) kv fs (rec kv.2) (go fs)
                       end) fs)
  | JBad t => Hbad t
  end.

(** [json.Valid]. *)
Fixpoint json_valid (v : json) : bool :=
  match v with
  | JArr l => forallb json_valid l
  | JObj fs => forallb (λ kv, json_valid kv.2) fs
  | JBad _ => false
  | _ => true
  end.

Definition dquote : string := String "034"%char EmptyString.
Definition quoted (s : string) : string := dquote +:+ s +:+ dquote.

(** The text of a value, as an [UnmarshalJSON] method receives it. *)
Fixpoint render (v : json) : string :=
  match v with
  | JNull => "null"
  | JBool b => if b then "true" else "false"
  | JNum t => t
  | JStr s => quoted s
  | JArr l => "[" +:+ String.concat "," (map render l) +:+ "]"
  | JObj fs =>
      "{" +:+ String.concat "," (map (λ kv, quoted kv.1 +:+ ":" +:+ render kv.2) fs)
          +:+ "}"
  | JBad t => t
  end.

(** ** [encoding/json] *)

(** The error [json.Unmarshal] returns; its text is not modelled. *)
Definition json_error : goerr := EText "json: cannot unmarshal".

Definition hex_val (c : ascii) : option Z :=
  let b := Search.byte_of c in
  if (48 <=? b) && (b <=? 57) then Some (b - 48)
  else if (97 <=? b) && (b <=? 102) then Some (b - 87)
  else if (65 <=? b) && (b <=? 70) then Some (b - 55)
  else None.

Definition chr (b : Z) : ascii := Ascii.ascii_of_N (Z.to_N b).
Definition str1 (b : Z) (s : string) : string := String (chr b) s.

(** [utf8.AppendRune] for a rune below U+10000. *)
Definition utf8_encode (r : Z) (rest : string) : string :=
  if r <? 128 then str1 r rest
  else if r <? 2048 then str1 (192 + r / 64) (str1 (128 + r mod 64) rest)
  else str1 (224 + r / 4096)
         (str1 (128 + (r / 64) mod 64) (str1 (128 + r mod 64) rest)).

Definition utf8_encode4 (r : Z) (rest : string) : string :=
  str1 (240 + r / 262144) (str1 (128 + (r / 4096) mod 64)
    (str1 (128 + (r / 64) mod 64) (str1 (128 + r mod 64) rest))).

Definition hex4 (a b c d : ascii) : option Z :=
  a ← hex_val a; b ← hex_val b; c ← hex_val c; d ← hex_val d;
  Some (((a * 16 + b) * 16 + c) * 16 + d).

(** The string a JSON string literal denotes; [None] for a bad escape. *)
Fixpoint unescape (fuel : nat) (s : string) : option string :=
  match fuel with
  | O => None
  | S fuel =>
      match s with
      | EmptyString => Some EmptyString
      | String "\" (String "u" (String a (String b (String c (String d s))))) =>
          r ← hex4 a b c d;
          if (55296 <=? r) && (r <? 56320) then
            match s with
            | String "\" (String "u" (String a' (String b' (String c' (String d' s'))))) =>
                r' ← hex4 a' b' c' d';
                if (56320 <=? r') && (r' <? 57344)
                then utf8_encode4 ((r - 55296) * 1024 + (r' - 56320) + 65536)
                       <$> unescape fuel s'
                else utf8_encode 65533 <$> unescape fuel s
            | _ => utf8_encode 65533 <$> unescape fuel s
            end
          else if (56320 <=? r) && (r <? 57344)
          then utf8_encode 65533 <$> unescape fuel s
          else utf8_encode r <$> unescape fuel s
      | String "\" (String e s) =>
          let b := Search.byte_of e in
          c ← (if bool_decide (b ∈ [34; 92; 47]) then Some b      (* \dquote \\ \/ *)
               else if b =? 98 then Some 8                         (* \b *)
               else if b =? 102 then Some 12                       (* \f *)
               else if b =? 110 then Some 10                       (* \n *)
               else if b =? 114 then Some 13                       (* \r *)
               else if b =? 116 then Some 9                        (* \t *)
               else None);
          str1 c <$> unescape fuel s
      | String c s => String c <$> unescape fuel s
      end
  end.

Definition unescape_body (s : string) : option string :=
  unescape (S (String.length s)) s.

(** Text without a backslash escapes nothing. *)
Fixpoint no_backslash (s : string) : bool :=
  match s with
  | EmptyString => true
  | String c s => negb (bool_decide (c = "\"%char)) && no_backslash s
  end.

Lemma unescape_plain fuel s :
  no_backslash s = true → (String.length s < fuel)%nat → unescape fuel s = Some s.
Proof.
  revert s. induction fuel as [|fuel IH]; intros s Hs Hf; [simpl in Hf; lia|].
  destruct s as [|c s]; [done|]. simpl in Hs.
  apply andb_true_iff in Hs as [Hc%negb_true_iff%bool_decide_eq_false Hs].
  assert (unescape fuel s = Some s) as He by (apply IH; [done|simpl in Hf; lia]).
  cbn [unescape]. rewrite He.
  destruct c as [[] [] [] [] [] [] [] []]; try done.
Qed.

(** [json.Unmarshal(v, &x)] for a [[]json.RawMessage] (a [nil] slice first). *)
Definition unmarshal_raws (v : json) : res goerr (list json) :=
  if json_valid v then
    match v with
    | JArr l => Ok l
    | JNull => Ok []
    | _ => Err json_error
    end
  else Err json_error.

(** ... for a [map[string]json.RawMessage]: the last of equal keys stays. *)
Definition unmarshal_map (v : json) : res goerr (gmap string json) :=
  if json_valid v then
    match v with
    | JObj fs => Ok (foldl (λ m kv, <[kv.1 := kv.2]> m) ∅ fs)
    | JNull => Ok ∅
    | _ => Err json_error
    end
  else Err json_error.

(** ... for a [bool], from its zero value. *)
Definition unmarshal_bool (v : json) : res goerr bool :=
  match v with
  | JBool b => Ok b
  | JNull => Ok false
  | _ => Err json_error
  end.

(** ... for a [string], from its zero value. *)
Definition unmarshal_string (v : json) : res goerr string :=
  match v with
  | JStr s => match unescape_body s with Some t => Ok t | None => Err json_error end
  | JNull => Ok ""
  | _ => Err json_error
  end.

(** Elements of a slice whose element type has its own decoder [f]. *)
Fixpoint unmarshal_elems {A} (f : json → res goerr A) (l : list json)
    : res goerr (list A) :=
  match l with
  | [] => Ok []
  | v :: l => x ← f v; xs ← unmarshal_elems f l; mret (x :: xs)
  end.

Definition unmarshal_slice {A} (f : json → res goerr A) (v : json)
    : res goerr (list A) :=
  if json_valid v then
    match v with
    | JArr l => unmarshal_elems f l
    | JNull => Ok []
    | _ => Err json_error
    end
  else Err json_error.

(** ... for an array [[1]T] with zero value [z]: missing elements are zero,
    further ones are skipped. *)
Definition unmarshal_array1 {A} (f : json → res goerr A) (z : A) (v : json)
    : res goerr A :=
  if json_valid v then
    match v with
    | JArr [] => Ok z
    | JArr (v :: _) => f v
    | JNull => Ok z
    | _ => Err json_error
    end
  else Err json_error.

(** The value a struct field named [name] takes: object members are matched
    to the field exactly or up to case, and a later member overwrites. *)
Definition field_match (name key : string) : bool :=
  bool_decide (Search.upper key = Search.upper name).

Definition struct_field (name : string) (fs : list (string * json)) : option json :=
  foldl (λ acc kv, if field_match name kv.1 then Some kv.2 else acc) None fs.

(** [json.Unmarshal(v, &s)] for a struct with a field [name] whose type has
    the decoder [f] and the zero value [z]; a struct of several fields decodes
    them one by one, in any order. *)
Definition unmarshal_field {A} (name : string) (f : json → res goerr A) (z : A) (v : json)
    : res goerr A :=
  if json_valid v then
    match v with
    | JObj fs =>
        foldl (λ acc kv, a ← acc; if field_match name kv.1 then f kv.2 else Ok a) (Ok z) fs
    | JNull => Ok z
    | _ => Err json_error
    end
  else Err json_error.

(** ** jx and sonic *)

(** One call of a [jx.Writer] method. *)
Inductive wtok : Type :=
  | WObjStart | WObjEnd | WArrStart | WArrEnd | WComma
  | WKey (k : string)         (* ByteStr(k); RawStr(":"), or FieldStart(k) *)
  | WRaw (v : json).          (* Raw(v) *)

(** The decoder of jx positioned at a value, and the buffer of its writer.
    [jx_obj] and [jx_arr] give the members the iterator yields before its
    [Next] returns false; the source never looks at the iterator's error. *)
Inductive jx_type : Type := JxNull | JxArray | JxOther.

Class Jx := {
  jx_next : json → jx_type;                           (* Next *)
  jx_obj : json → res goerr (list (string * json));   (* ObjIter, Next, Key *)
  jx_arr : json → res goerr (list json);              (* ArrIter, Next *)
  jx_raw : json → res goerr json;                     (* Raw *)
  jx_skip : json → option goerr;                      (* Skip *)
  jx_str : json → res goerr string;                   (* StrBytes *)
  jx_buf : list wtok → json;                          (* Writer.Buf *)
}.

(** A document written with the writer: some values raw, the others element
    by element. *)
Inductive doc : Type :=
  | DRaw (v : json)
  | DArr (l : list doc)
  | DObj (fs : list (string * doc)).

Fixpoint doc_json (d : doc) : json :=
  match d with
  | DRaw v => v
  | DArr l => JArr (map doc_json l)
  | DObj fs => JObj (map (λ kd, (kd.1, doc_json kd.2)) fs)
  end.

Fixpoint wjoin (l : list (list wtok)) : list wtok :=
  match l with
  | [] => []
  | [x] => x
  | x :: l => x ++ WComma :: wjoin l
  end.

(** The calls that write it: commas between members and nowhere else. *)
Fixpoint doc_tokens (d : doc) : list wtok :=
  match d with
  | DRaw v => [WRaw v]
  | DArr l => WArrStart :: wjoin (map doc_tokens l) ++ [WArrEnd]
  | DObj fs =>
      WObjStart :: wjoin (map (λ kd, WKey kd.1 :: doc_tokens kd.2) fs) ++ [WObjEnd]
  end.

(** The same with a flag for the first member, as the loops of the code do. *)
Fixpoint sepj (first : bool) (l : list (list wtok)) : list wtok :=
  match l with
  | [] => []
  | x :: l => (if first then [] else [WComma]) ++ x ++ sepj false l
  end.

Lemma sepj_false l : sepj false l = match l with [] => [] | _ => WComma :: wjoin l end.
Proof.
  induction l as [|x l IH]; [done|]. cbn [sepj app]. rewrite IH.
  destruct l; [by rewrite app_nil_r|done].
Qed.

Lemma sepj_wjoin l : sepj true l = wjoin l.
Proof.
  destruct l as [|x l]; [done|]. cbn [sepj app]. rewrite sepj_false.
  destruct l; [by rewrite app_nil_r|done].
Qed.

Lemma sepj_app first l k : sepj first (l ++ k) = sepj first l ++ sepj (match l with [] => first | _ => false end) k.
Proof.
  revert first. induction l as [|x l IH]; intros first; [done|].
  cbn [app sepj]. rewrite IH. rewrite <- !app_assoc. by destruct l.
Qed.

(** The documented behaviour the code relies on. *)
Definition json_type (v : json) : jx_type :=
  match v with JNull => JxNull | JArr _ => JxArray | _ => JxOther end.

Class JxSpec `{X : Jx} : Prop := {
  jx_next_spec v : json_valid v = true → jx_next v = json_type v;
  jx_obj_spec fs : json_valid (JObj fs) = true → jx_obj (JObj fs) = Ok fs;
  jx_arr_spec l : json_valid (JArr l) = true → jx_arr (JArr l) = Ok l;
  jx_raw_spec v : json_valid v = true → jx_raw v = Ok v;
  jx_skip_spec v : json_valid v = true → jx_skip v = None;
  jx_str_spec s t : unescape_body s = Some t → jx_str (JStr s) = Ok t;
  jx_buf_spec d : jx_buf (doc_tokens d) = doc_json d;
}.

(** *** An implementation of the laws *)

Module StdJx.
Fixpoint p_val (fuel : nat) (ts : list wtok) : option (json * list wtok) :=
  match fuel with
  | O => None
  | S fuel =>
      match ts with
      | WRaw v :: r => Some (v, r)
      | WArrStart :: WArrEnd :: r => Some (JArr [], r)
      | WArrStart :: r => '(l, r) ← p_elems fuel r; Some (JArr l, r)
      | WObjStart :: WObjEnd :: r => Some (JObj [], r)
      | WObjStart :: r => '(fs, r) ← p_fields fuel r; Some (JObj fs, r)
      | _ => None
      end
  end
with p_elems (fuel : nat) (ts : list wtok) : option (list json * list wtok) :=
  match fuel with
  | O => None
  | S fuel =>
      '(v, r) ← p_val fuel ts;
      match r with
      | WComma :: r => '(l, r) ← p_elems fuel r; Some (v :: l, r)
      | WArrEnd :: r => Some ([v], r)
      | _ => None
      end
  end
with p_fields (fuel : nat) (ts : list wtok)
    : option (list (string * json) * list wtok) :=
  match fuel with
  | O => None
  | S fuel =>
      match ts with
      | WKey k :: ts =>
          '(v, r) ← p_val fuel ts;
          match r with
          | WComma :: r => '(fs, r) ← p_fields fuel r; Some ((k, v) :: fs, r)
          | WObjEnd :: r => Some ([(k, v)], r)
          | _ => None
          end
      | _ => None
      end
  end.

Definition buf (ts : list wtok) : json :=
  match p_val (2 * List.length ts) ts with
  | Some (v, []) => v
  | _ => JBad ""
  end.

#[export] Instance std_jx : Jx := {|
  jx_next := json_type;
  jx_obj v := match v with JObj fs => Ok fs | _ => Err (EText "jx: object expected") end;
  jx_arr v := match v with JArr l => Ok l | _ => Err (EText "jx: array expected") end;
  jx_raw v := if json_valid v then Ok v else Err (EText "jx: bad value");
  jx_skip v := if json_valid v then None else Some (EText "jx: bad value");
  jx_str v := match v with
              | JStr s => match unescape_body s with
                          | Some t => Ok t
                          | None => Err (EText "jx: bad escape")
                          end
              | _ => Err (EText "jx: string expected")
              end;
  jx_buf := buf;
|}.

Definition round (d : doc) : Prop :=
  ∀ fuel r, (2 * List.length (doc_tokens d) ≤ fuel)%nat →
    p_val fuel (doc_tokens d ++ r) = Some (doc_json d, r).

Fixpoint doc_ind' (P : doc → Prop) (Hraw : ∀ v, P (DRaw v))
    (Harr : ∀ l, Forall P l → P (DArr l))
    (Hobj : ∀ fs, Forall (λ kd, P kd.2) fs → P (DObj fs)) (d : doc) {struct d} : P d :=
  match d with
  | DRaw v => Hraw v
  | DArr l => Harr l ((fix go l := match l return Forall P l with
      | [] => Forall_nil_2 P
      | d :: l => Forall_cons_2 P d l (doc_ind' P Hraw Harr Hobj d) (go l) end) l)
  | DObj fs => Hobj fs ((fix go fs := match fs return Forall (λ kd, P kd.2) fs with
      | [] => Forall_nil_2 _
      | kd :: fs => Forall_cons_2 (λ kd, P kd.2) kd fs
                      (doc_ind' P Hraw Harr Hobj kd.2) (go fs) end) fs)
  end.

Lemma wjoin_cons x y l : wjoin (x :: y :: l) = x ++ WComma :: wjoin (y :: l).
Proof. done. Qed.

Lemma doc_tokens_pos d : (1 ≤ List.length (doc_tokens d))%nat.
Proof. destruct d; simpl; lia. Qed.

Lemma p_elems_round l fuel r :
  Forall round l → l ≠ [] →
  (2 * List.length (wjoin (map doc_tokens l)) + 1 ≤ fuel)%nat →
  p_elems fuel (wjoin (map doc_tokens l) ++ WArrEnd :: r)
  = Some (map doc_json l, r).
Proof.
  intros Hl. revert fuel. induction Hl as [|d l Hd Hl IH]; intros fuel Hne Hf; [done|].
  destruct fuel as [|fuel]; [lia|]. destruct l as [|d' l].
  - simpl in *. by rewrite Hd by lia.
  - cbn [map] in *. rewrite wjoin_cons in *. rewrite length_app in Hf.
    cbn [p_elems]. rewrite <- app_assoc. rewrite Hd by lia.
    cbn [mbind option_bind app]. cbn [List.length] in Hf.
    pose proof (doc_tokens_pos d). rewrite IH; [done|done|lia].
Qed.

Lemma p_fields_round fs fuel r :
  Forall (λ kd : string * doc, round kd.2) fs → fs ≠ [] →
  (2 * List.length (wjoin (map (λ kd, WKey kd.1 :: doc_tokens kd.2) fs)) + 1 ≤ fuel)%nat →
  p_fields fuel (wjoin (map (λ kd, WKey kd.1 :: doc_tokens kd.2) fs) ++ WObjEnd :: r)
  = Some (map (λ kd, (kd.1, doc_json kd.2)) fs, r).
Proof.
  intros Hl. revert fuel. induction Hl as [|d l Hd Hl IH]; intros fuel Hne Hf; [done|].
  destruct fuel as [|fuel]; [lia|]. destruct l as [|d' l].
  - simpl in *. by rewrite Hd by lia.
  - cbn [map] in *. rewrite wjoin_cons in *. rewrite length_app in Hf.
    cbn [app p_fields]. cbn [List.length] in Hf. rewrite <- app_assoc.
    rewrite Hd by lia. cbn [mbind option_bind app].
    pose proof (doc_tokens_pos d.2). rewrite IH; [done|done|lia].
Qed.

Lemma p_val_round d : round d.
Proof.
  induction d as [v|l IH|fs IH] using doc_ind'; intros fuel r Hf.
  - destruct fuel; simpl in *; [lia|done].
  - destruct fuel as [|fuel]; [simpl in Hf; lia|].
    destruct (decide (l = [])) as [->|Hne]; [done|].
    pose proof (p_elems_round l fuel r IH Hne) as He.
    cbn [doc_tokens] in *. cbn [List.length] in Hf. rewrite length_app in Hf.
    cbn [app]. rewrite <- app_assoc. cbn [app]. simpl in Hf.
    destruct l as [|d' l']; [done|].
    assert (∃ t ts, wjoin (map doc_tokens (d' :: l')) ++ WArrEnd :: r = t :: ts
              ∧ t ≠ WArrEnd) as (t & ts & Ht & Hn).
    { destruct d', l'; simpl; eauto. }
    cbn [p_val]. rewrite Ht in *. rewrite He by lia.
    destruct t; done.
  - destruct fuel as [|fuel]; [simpl in Hf; lia|].
    destruct (decide (fs = [])) as [->|Hne]; [done|].
    pose proof (p_fields_round fs fuel r IH Hne) as He.
    cbn [doc_tokens] in *. cbn [List.length] in Hf. rewrite length_app in Hf.
    cbn [app]. rewrite <- app_assoc. cbn [app]. simpl in Hf.
    destruct fs as [|[k d'] fs']; [done|].
    assert (∃ ts, wjoin (map (λ kd, WKey kd.1 :: doc_tokens kd.2) ((k, d') :: fs'))
              ++ WObjEnd :: r = WKey k :: ts) as (ts & Ht).
    { destruct fs'; simpl; eauto. }
    cbn [p_val]. rewrite Ht in *. by rewrite He by lia.
Qed.

#[export] Instance std_jx_spec : JxSpec.
Proof.
  split; try done.
  - intros v Hv. simpl. by rewrite Hv.
  - intros v Hv. simpl. by rewrite Hv.
  - intros s t Ht. simpl. by rewrite Ht.
  - intros d. simpl. unfold buf. pose proof (p_val_round d) as Hd.
    specialize (Hd (2 * List.length (doc_tokens d))%nat [] (le_n _)).
    rewrite app_nil_r in Hd. by rewrite Hd.
Qed.
End StdJx.
