(* ===== verification/Scalars.v ===== *)
(** * Scalars of the configuration: [lib/config/util.go] and [url.go], and the
    choice of the log in the two file parsers

    Strings with variables of the environment ([os.ExpandEnv], of the standard
    library), URLs, and the detection of a container.  Parsing an URL
    ([net/url]) is a class. *)
From S2P Require Import Prelude Errors Json.

(** ** [os.Expand] *)

Module Expand.
Definition byte_in (lo hi : Z) (c : ascii) : bool :=
  (lo <=? Search.byte_of c) && (Search.byte_of c <=? hi).

Definition digit (c : ascii) : bool := byte_in 48 57 c.

(** [isShellSpecialVar] and [isAlphaNum]. *)
Definition isShellSpecialVar (c : ascii) : bool :=
  digit c || bool_decide (c ∈ ["*"; "#"; "$"; "@"; "!"; "?"; "-"]%char).
Definition isAlphaNum (c : ascii) : bool :=
  bool_decide (c = "_"%char) || digit c || byte_in 97 122 c || byte_in 65 90 c.

(** The text before a closing brace, if there is one. *)
Fixpoint to_brace (s : string) : option string :=
  match s with
  | EmptyString => None
  | String c s => if bool_decide (c = "}"%char) then Some ""
                  else String c <$> to_brace s
  end.

Fixpoint alphanums (s : string) : string :=
  match s with
  | String c s => if isAlphaNum c then String c (alphanums s) else ""
  | EmptyString => ""
  end.

(** The name at the start of what follows a dollar, and how much it takes. *)
Definition getShellName (s : string) : string * nat :=
  match s with
  | EmptyString => ("", 0%nat)
  | String c rest =>
      if bool_decide (c = "{"%char) then
        match rest with
        | String d (String "}" _) =>
            if isShellSpecialVar d then (String d "", 3%nat)
            else if bool_decide (d = "}"%char) then ("", 2%nat) else (String d "", 3%nat)
        | _ =>
            match to_brace rest with
            | Some "" => ("", 2%nat)
            | Some name => (name, (String.length name + 2)%nat)
            | None => ("", 1%nat)
            end
        end
      else if isShellSpecialVar c then (String c "", 1%nat)
      else (alphanums s, String.length (alphanums s))
  end.

(** The loop over the bytes, of which the next [skip] belong to a name. *)
Fixpoint expand (mapping : string → string) (skip : nat) (s : string) : string :=
  match s with
  | EmptyString => ""
  | String c s =>
      match skip with
      | S skip => expand mapping skip s
      | O =>
          if bool_decide (c = "$"%char) && negb (bool_decide (s = "")) then
            let '(name, w) := getShellName s in
            (if bool_decide (name = "") then if (0 <? w)%nat then "" else "$"
             else mapping name) +:+ expand mapping w s
          else String c (expand mapping 0 s)
      end
  end.

Definition ExpandEnv (Getenv : string → string) (s : string) : string := expand Getenv 0 s.
End Expand.

(** ** [json.Marshal] of a string *)

Module JsonString.
Definition hex_digit (n : Z) : ascii := chr (if n <? 10 then 48 + n else 87 + n).
Definition u_escape (hi lo : string) (b : Z) : string :=
  "\u" +:+ hi +:+ lo +:+ String (hex_digit (b / 16)) (String (hex_digit (b mod 16)) "").

(** A byte below 128. *)
Definition escape_ascii (c : ascii) : string :=
  let b := Search.byte_of c in
  if bool_decide (b ∈ [34; 92]) then String "\" (String c "")
  else if b =? 8 then "\b" else if b =? 12 then "\f" else if b =? 10 then "\n"
  else if b =? 13 then "\r" else if b =? 9 then "\t"
  else if (b <? 32) || bool_decide (b ∈ [60; 62; 38]) then u_escape "0" "0" b
  else String c "".

(** The next [skip] bytes belong to a rune: they are kept or left out. *)
Fixpoint escape (keep : bool) (skip : nat) (s : string) : string :=
  match s with
  | EmptyString => ""
  | String c t =>
      match skip with
      | S skip => if keep then String c (escape keep skip t) else escape keep skip t
      | O =>
          if Search.byte_of c <? 128 then escape_ascii c +:+ escape keep 0 t
          else
            let '(r, size) := Search.decode_rune s in
            if (r =? Search.RuneError) && (size =? 1)%nat then "\ufffd" +:+ escape true 0 t
            else if r =? 8232 then "\u2028" +:+ escape false (size - 1) t
            else if r =? 8233 then "\u2029" +:+ escape false (size - 1) t
            else String c (escape true (size - 1) t)
      end
  end.

(** The value of the encoding. *)
Definition Marshal (s : string) : json := JStr (escape true 0 s).
End JsonString.

(** ** [util.go] *)

(** net/url: a URL, with its scheme and its host. *)
Class NetUrl (U : Type) := {
  url_Parse : string → res goerr U;
  url_String : U → string;
  url_Scheme : U → string;
  url_Host : U → string;
}.
Definition ascii_string (s : string) : Prop :=
  ∀ i c, String.get i s = Some c → Search.byte_of c < 128.

(** A URL that was parsed is printed in a form that is parsed and printed the
    same. *)
Class NetUrlSpec (U : Type) `{N : NetUrl U} : Prop := {
  url_reparse s u : url_Parse s = Ok u →
    ∃ u', url_Parse (url_String u) = Ok u' ∧ url_String u' = url_String u ∧
      url_Scheme u' = url_Scheme u ∧ url_Host u' = url_Host u;
}.

Module EnvExpandable.
Definition MarshalText (T : option string) : string := default "<nil>" T.
Definition MarshalJSON (T : string) : json := JsonString.Marshal T.
Definition UnmarshalJSON (Getenv : string → string) (v : json) : res goerr string :=
  s ← unmarshal_string v; mret (Expand.ExpandEnv Getenv s).
End EnvExpandable.

Module SafeUrl.
Section url.
Context {U : Type} `{N : NetUrl U}.

Definition MarshalText (u : option string) : res goerr string :=
  match u with
  | None => Ok "<nil>"
  | Some u => urls ← url_Parse (U := U) u; mret (url_Scheme urls +:+ "://" +:+ url_Host urls)
  end.

Definition MarshalJSON (u : string) : json := JsonString.Marshal u.

Definition UnmarshalJSON (Getenv : string → string) (v : json) : res goerr string :=
  s ← EnvExpandable.UnmarshalJSON Getenv v;
  urls ← url_Parse (U := U) s;
  mret (url_String urls).
End url.
Arguments MarshalText U {N} _.
Arguments UnmarshalJSON U {N} _ _.
End SafeUrl.

(** [url.go]: a URL kept parsed.  Its encoding is the text of the URL, which is
    no JSON. *)
Module Url.
Section url.
Context {U : Type} `{N : NetUrl U}.
Definition UnmarshalJSON (v : json) : res goerr U :=
  s ← unmarshal_string v; url_Parse s.
Definition MarshalJSON (u : U) : json := JBad (url_String u).
End url.
End Url.

(** ** The log of a process *)

Module Logging.
(** The environment, the files, and the configured format and level. *)
Record env := {
  Getenv : string → string;
  dockerenv : bool;            (* [os.Stat] finds "/.dockerenv" *)
  cgroup : option string;      (* "/proc/1/cgroup" *)
}.

Definition isContainerEnvironment (e : env) : bool :=
  if dockerenv e then true
  else if match cgroup e with
          | Some s => str_contains "docker" s || str_contains "containerd" s
                      || str_contains "kubepods" s || str_contains "lxc" s
          | None => false
          end then true
  else negb (bool_decide (Getenv e "KUBERNETES_SERVICE_HOST" = "")).

(** [strings.ToLower], of which only ASCII results are compared. *)
Fixpoint ToLower (s : string) : string :=
  match s with
  | EmptyString => ""
  | String c s => String (if Expand.byte_in 65 90 c then chr (Search.byte_of c + 32) else c)
                    (ToLower s)
  end.

Definition LevelDebug : Z := -4.

Definition level (e : env) (configured : Z) : Z :=
  let ll := ToLower (Getenv e "SLOG_LEVEL") in
  if bool_decide (ll ∈ ["debug"; "0"]) then LevelDebug else configured.

Inductive format : Type := FJson | FTint.

Definition log_format (e : env) (configured : string) : format :=
  let ll := Getenv e "SLOG_FORMAT" in
  let logFormat := if bool_decide (ll = "") then configured else ll in
  let logFormat := if bool_decide (logFormat = "")
                   then (if isContainerEnvironment e then "json" else "tint") else logFormat in
  if bool_decide (logFormat = "json") then FJson else FTint.
End Logging.

(** ** Lemmas: expansion *)

Module ScalarsFacts.
Import Expand.

(** Templates: text, and variables with and without braces. *)
Inductive piece : Type :=
  | Lit (c : ascii)
  | Braced (name : string)
  | Plain (name : string).

Definition print1 (p : piece) : string :=
  match p with
  | Lit c => String c ""
  | Braced name => "${" +:+ name +:+ "}"
  | Plain name => "$" +:+ name
  end.
Definition print (ps : list piece) : string := foldr (λ p s, print1 p +:+ s) "" ps.

Definition value1 (Getenv : string → string) (p : piece) : string :=
  match p with Lit c => String c "" | Braced name | Plain name => Getenv name end.
Definition value (Getenv : string → string) (ps : list piece) : string :=
  foldr (λ p s, value1 Getenv p +:+ s) "" ps.

Fixpoint all_bytes (f : ascii → bool) (s : string) : bool :=
  match s with EmptyString => true | String c s => f c && all_bytes f s end.

(** What may follow a name without braces: no character of a name. *)
Definition ends_name (s : string) : bool :=
  match s with EmptyString => true | String c _ => negb (isAlphaNum c) end.

Definition plain_name (s : string) : bool :=
  match s with
  | EmptyString => false
  | String c _ => negb (digit c) && all_bytes isAlphaNum s
  end.

Fixpoint template (ps : list piece) : bool :=
  match ps with
  | [] => true
  | p :: ps =>
      match p with
      | Lit c => negb (bool_decide (c = "$"%char))
      | Braced name => negb (bool_decide (name = ""))
                       && all_bytes (λ c, negb (bool_decide (c = "}"%char))) name
      | Plain name => plain_name name && ends_name (print ps)
      end && template ps
  end.

Lemma expand_skip f s t : expand f (String.length s) (s +:+ t) = expand f 0 t.
Proof. induction s as [|c s IH]; [done|]. apply IH. Qed.

Lemma to_brace_name name t :
  all_bytes (λ c, negb (bool_decide (c = "}"%char))) name = true →
  to_brace (name +:+ "}" +:+ t) = Some name.
Proof.
  induction name as [|c name IH]; [done|].
  change (String c name +:+ "}" +:+ t) with (String c (name +:+ "}" +:+ t)).
  cbn [all_bytes to_brace]. intros [Hc%negb_true_iff Hn]%andb_true_iff. by rewrite Hc, IH.
Qed.

(** The name in braces. *)
Lemma getShellName_braced name t :
  name ≠ "" → all_bytes (λ c, negb (bool_decide (c = "}"%char))) name = true →
  getShellName ("{" +:+ name +:+ "}" +:+ t) = (name, (String.length name + 2)%nat).
Proof.
  intros Hn Hb. pose proof (to_brace_name name t Hb) as Ht.
  destruct name as [|c [|d name]]; [done| |].
  - cbn [all_bytes] in Hb. apply andb_true_iff in Hb as [Hb%negb_true_iff _].
    change ("{" +:+ String c "" +:+ "}" +:+ t) with (String "{" (String c (String "}" t))).
    unfold getShellName. rewrite bool_decide_eq_true_2 by done. rewrite Hb.
    by destruct (isShellSpecialVar c).
  - change ("{" +:+ String c (String d name) +:+ "}" +:+ t)
      with (String "{" (String c (String d (name +:+ "}" +:+ t)))).
    change (String c (String d name) +:+ "}" +:+ t)
      with (String c (String d (name +:+ "}" +:+ t))) in Ht.
    assert (d ≠ "}"%char) as Hd.
    { intros ->. cbn [all_bytes] in Hb. rewrite (bool_decide_eq_true_2 ("}"%char = _)) in Hb by done.
      by rewrite andb_false_r in Hb. }
    unfold getShellName. rewrite bool_decide_eq_true_2 by done.
    rewrite Ht. by destruct d as [[] [] [] [] [] [] [] []].
Qed.

Lemma alphanums_app s t :
  all_bytes isAlphaNum s = true → ends_name t = true → alphanums (s +:+ t) = s.
Proof.
  intros Hs Ht. induction s as [|c s IH].
  - destruct t as [|c t]; [done|]. apply negb_true_iff in Ht.
    change ("" +:+ String c t) with (String c t). cbn [alphanums]. by rewrite Ht.
  - change (String c s +:+ t) with (String c (s +:+ t)).
    cbn [all_bytes alphanums] in *. apply andb_true_iff in Hs as [Hc Hs]. by rewrite Hc, IH.
Qed.

(** A letter, or an underscore, is no special character. *)
Lemma plain_first c : isAlphaNum c = true → digit c = false →
  bool_decide (c = "{"%char) = false ∧ isShellSpecialVar c = false.
Proof. destruct c as [[] [] [] [] [] [] [] []]; vm_compute; by intros. Qed.

Lemma getShellName_plain name t :
  plain_name name = true → ends_name t = true →
  getShellName (name +:+ t) = (name, String.length name).
Proof.
  destruct name as [|c name]; [done|]. unfold plain_name.
  intros [Hd%negb_true_iff Ha]%andb_true_iff Ht. pose proof (alphanums_app _ t Ha Ht) as He.
  cbn [all_bytes] in Ha. apply andb_true_iff in Ha as [Hc _].
  destruct (plain_first c Hc Hd) as [H1 H2].
  change (String c name +:+ t) with (String c (name +:+ t)) in *.
  unfold getShellName. by rewrite H1, H2, He.
Qed.

Lemma expand_dollar f s name w :
  s ≠ "" → getShellName s = (name, w) → name ≠ "" →
  expand f 0 (String "$" s) = f name +:+ expand f w s.
Proof.
  intros Hs Hg Hn. cbn [expand]. rewrite Hg, (bool_decide_eq_true_2 ("$"%char = _)) by done.
  by rewrite !bool_decide_eq_false_2.
Qed.

Lemma expand_print f ps : template ps = true → expand f 0 (print ps) = value f ps.
Proof.
  induction ps as [|p ps IH]; [done|]. cbn [template]. intros [Hp Hps]%andb_true_iff.
  specialize (IH Hps). destruct p as [c|name|name]; cbn [value foldr value1]; fold (value f ps).
  - change (print (Lit c :: ps)) with (String c (print ps)). cbn [expand].
    apply negb_true_iff in Hp. by rewrite Hp, IH.
  - apply andb_true_iff in Hp as [Hn%negb_true_iff%bool_decide_eq_false Hb].
    assert (print (Braced name :: ps) = String "$" ("{" +:+ name +:+ "}" +:+ print ps)) as ->.
    { cbn [print foldr print1]. fold (print ps). by rewrite !str_app_assoc. }
    rewrite (expand_dollar _ _ name (String.length name + 2)) by first [done|by apply getShellName_braced].
    rewrite <- IH. f_equal.
    assert ("{" +:+ name +:+ "}" +:+ print ps = ("{" +:+ name +:+ "}") +:+ print ps) as ->
      by by rewrite !str_app_assoc.
    rewrite <- (expand_skip f ("{" +:+ name +:+ "}")). f_equal. rewrite !str_app_length. cbn. lia.
  - apply andb_true_iff in Hp as [Hn He].
    change (print (Plain name :: ps)) with (String "$" (name +:+ print ps)).
    assert (name ≠ "") as Hne by by destruct name.
    rewrite (expand_dollar _ _ name (String.length name));
      [by rewrite <- IH, expand_skip|by destruct name|by apply getShellName_plain|done].
Qed.

(** Text without a dollar is itself. *)
Lemma expand_plain f s : all_bytes (λ c, negb (bool_decide (c = "$"%char))) s = true →
  expand f 0 s = s.
Proof.
  induction s as [|c s IH]; [done|]. cbn [all_bytes expand].
  intros [Hc%negb_true_iff Hs]%andb_true_iff. by rewrite Hc, IH.
Qed.

(** ** Lemmas: strings in JSON *)

Definition is_ascii (s : string) : bool := all_bytes (λ c, Search.byte_of c <? 128) s.

(** A byte is decoded from its encoding. *)
Lemma unescape_ascii fuel c s : (Search.byte_of c <? 128) = true →
  unescape (S fuel) (JsonString.escape_ascii c +:+ s) = String c <$> unescape fuel s.
Proof. destruct c as [[] [] [] [] [] [] [] []]; try done; intros _; reflexivity. Qed.

Lemma escape_ascii_length c : (1 ≤ String.length (JsonString.escape_ascii c))%nat.
Proof. destruct c as [[] [] [] [] [] [] [] []]; vm_compute; lia. Qed.

Lemma unescape_escape s fuel : is_ascii s = true →
  (String.length (JsonString.escape true 0 s) < fuel)%nat →
  unescape fuel (JsonString.escape true 0 s) = Some s.
Proof.
  revert fuel. induction s as [|c s IH]; intros [|fuel]; [lia|done|lia|].
  unfold is_ascii. cbn [all_bytes JsonString.escape]. intros [Hc Hs]%andb_true_iff. rewrite Hc.
  rewrite str_app_length. intros Hl. pose proof (escape_ascii_length c).
  rewrite unescape_ascii by done. rewrite IH; [done|done|lia].
Qed.

Lemma unmarshal_Marshal s : is_ascii s = true → unmarshal_string (JsonString.Marshal s) = Ok s.
Proof.
  intros Hs. unfold unmarshal_string, JsonString.Marshal, unescape_body.
  rewrite unescape_escape; [done|done|lia].
Qed.
End ScalarsFacts.

(** ** What holds *)

Module ScalarsProps.
Import ScalarsFacts.

(** A template is expanded to its text with the values of its variables, with
    and without braces. *)
Theorem expand_template Getenv ps :
  template ps = true → Expand.ExpandEnv Getenv (print ps) = value Getenv ps.
Proof. apply expand_print. Qed.

Section url.
Context {U : Type} `{N : NetUrl U, !NetUrlSpec U}.

(** What [SafeUrl] reads it writes, and reads back the same, in any
    environment, if it is ASCII and has no dollar; written as text it shows the
    scheme and the host of the URL and nothing else of it. *)
Theorem safe_url_roundtrip Getenv Getenv' v s url u :
  unmarshal_string v = Ok s → url_Parse (Expand.ExpandEnv Getenv s) = Ok url → u = url_String url →
  is_ascii u = true → all_bytes (λ c, negb (bool_decide (c = "$"%char))) u = true →
  SafeUrl.UnmarshalJSON U Getenv v = Ok u ∧
  SafeUrl.UnmarshalJSON U Getenv' (SafeUrl.MarshalJSON u) = Ok u ∧
  SafeUrl.MarshalText U (Some u) = Ok (url_Scheme url +:+ "://" +:+ url_Host url).
Proof.
  intros Hv Hp -> Ha Hd. destruct (url_reparse _ _ Hp) as (u' & Hp' & Hs & Hsc & Hh).
  unfold SafeUrl.UnmarshalJSON, EnvExpandable.UnmarshalJSON, SafeUrl.MarshalJSON, SafeUrl.MarshalText.
  rewrite Hv, unmarshal_Marshal by done. cbn. rewrite Hp. cbn.
  unfold Expand.ExpandEnv at 1. rewrite expand_plain by done. rewrite Hp'. cbn.
  by rewrite Hs, Hsc, Hh.
Qed.

(** The JSON of a [URL] is not valid, whatever the URL. *)
Theorem url_json_invalid (u : U) : json_valid (Url.MarshalJSON u) = false.
Proof. done. Qed.
End url.

Import Logging.

(** The format is the environment's, else the configured one, else that of the
    place where the process runs; a level is only ever lowered to debugging. *)
Theorem log_choice e fmt lvl :
  (Getenv e "SLOG_FORMAT" ≠ "" →
     log_format e fmt = if bool_decide (Getenv e "SLOG_FORMAT" = "json") then FJson else FTint) ∧
  (Getenv e "SLOG_FORMAT" = "" → fmt ≠ "" →
     log_format e fmt = if bool_decide (fmt = "json") then FJson else FTint) ∧
  (Getenv e "SLOG_FORMAT" = "" → fmt = "" →
     log_format e fmt = if isContainerEnvironment e then FJson else FTint) ∧
  (level e lvl = lvl ∨ level e lvl = LevelDebug).
Proof.
  unfold log_format, level. split_and!.
  - intros Hf. rewrite (bool_decide_eq_false_2 _ Hf). by rewrite (bool_decide_eq_false_2 _ Hf).
  - intros -> Hf. cbn. by rewrite (bool_decide_eq_false_2 _ Hf).
  - intros -> ->. cbn. by destruct (isContainerEnvironment e).
  - case_bool_decide; auto.
Qed.
End ScalarsProps.

Module ScalarsWitness.
Import Expand ScalarsFacts ScalarsProps.

Definition env0 (name : string) : string :=
  if bool_decide (name = "PASS") then "p&w" else if bool_decide (name = "PORT") then "6379" else "".

(** [redis://u:$PASS@h:${PORT}]. *)
Definition template0 : list piece :=
  (Lit <$> list_ascii_of_string "redis://u:") ++ [Plain "PASS"; Lit "@"; Lit "h"; Lit ":"; Braced "PORT"].

Lemma expand_template_witness : ExpandEnv env0 (print template0) = "redis://u:p&w@h:6379".
Proof. rewrite (expand_template env0 template0); reflexivity. Defined.

(** URLs of the form scheme://user@host, kept as text and its parts. *)
Fixpoint before (sep s : string) : option (string * string) :=
  if has_prefix sep s then Some ("", str_drop (String.length sep) s)
  else match s with
       | EmptyString => None
       | String c s => (λ x, (String c x.1, x.2)) <$> before sep s
       end.
#[local] Instance std_url : NetUrl (string * string * string) := {|
  url_Parse s :=
    match before "://" s with
    | Some (scheme, rest) =>
        Ok (s, scheme, match before "@" rest with Some (_, host) => host | None => rest end)
    | None => Err (EText "missing protocol scheme")
    end;
  url_String u := u.1.1;
  url_Scheme u := u.1.2;
  url_Host u := u.2;
|}.
#[local] Instance std_url_spec : NetUrlSpec (string * string * string).
Proof.
  split. intros s u. cbn. destruct (before "://" s) as [[sch rest]|] eqn:Hb; [|done].
  intros [= <-]. exists (s, sch, match before "@" rest with Some (_, h) => h | None => rest end).
  cbn. by rewrite Hb.
Qed.

Definition value0 : json := JStr (print template0).
Definition url0 : string := "redis://u:p&w@h:6379".

Lemma safe_url_roundtrip_witness :
  SafeUrl.MarshalJSON url0 = JStr "redis://u:p\u0026w@h:6379" ∧
  SafeUrl.UnmarshalJSON (string * string * string) env0 (SafeUrl.MarshalJSON url0) = Ok url0 ∧
  SafeUrl.MarshalText (string * string * string) (Some url0) = Ok "redis://h:6379".
Proof.
  split; [reflexivity|].
  refine (proj2 (safe_url_roundtrip env0 env0 value0 (print template0) (url0, "redis", "h:6379") url0
    _ _ _ _ _)); vm_compute; reflexivity.
Defined.
End ScalarsWitness.
