(* ===== verification/EthTypes.v ===== *)
(** * Ethereum data: [lib/ethtypes/rpc.go], [lib/ethtypes/filter.go]

    Block numbers and tags with their JSON encoding, log filters with theirs,
    and the encoders of go-ethereum as the parameter [Eth].  A hash is its 32
    bytes, an address its 20 bytes. *)
From S2P Require Import Prelude Errors Json.

(** ** Bytes of go-ethereum *)

Abbreviation hash := (list Z).
Abbreviation address := (list Z).

Definition HashLength : nat := 32.
Definition AddressLength : nat := 20.
Definition zero_hash : hash := replicate HashLength 0.
Definition zero_address : address := replicate AddressLength 0.

(** [hexutil], [common.Hash] and [common.Address] of go-ethereum. *)
Class Eth := {
  EncodeUint64 : Z → string;
  uint64_unmarshal : json → res goerr Z;
  hexutil_Decode : string → res goerr (list Z);
  BytesToHash : list Z → hash;
  hash_marshal : hash → json;
  hash_unmarshal : json → res goerr hash;
  address_marshal : address → json;
  address_unmarshal : json → res goerr address;
}.

(** ** Hexadecimal digits *)

Definition hex_char (d : Z) : ascii := if d <? 10 then chr (48 + d) else chr (87 + d).

Fixpoint hex_str (fuel : nat) (n : Z) (acc : string) : string :=
  match fuel with
  | O => acc
  | S fuel =>
      if n <? 16 then String (hex_char n) acc
      else hex_str fuel (n / 16) (String (hex_char (n mod 16)) acc)
  end.

(** The hexadecimal text of a 64-bit number. *)
Definition hex_text (n : Z) : string := "0x" +:+ hex_str 16 n "".

Definition is_bytes (n : nat) (l : list Z) : Prop :=
  List.length l = n ∧ Forall (λ b, 0 <= b < 256) l.

(** The documented encodings the code relies on: numbers are encoded in
    hexadecimal, hashes and addresses as the strings their decoders read. *)
Class EthSpec `{E : Eth} : Prop := {
  EncodeUint64_spec n : in_u64 n → EncodeUint64 n = hex_text n;
  uint64_roundtrip n : in_u64 n → uint64_unmarshal (JStr (hex_text n)) = Ok n;
  hash_roundtrip h : is_bytes HashLength h → hash_unmarshal (hash_marshal h) = Ok h;
  hash_text h : is_bytes HashLength h →
    ∃ s, hash_marshal h = JStr s ∧ unescape_body s = Some s ∧ hexutil_Decode s = Ok h;
  BytesToHash_id h : is_bytes HashLength h → BytesToHash h = h;
  address_roundtrip a :
    is_bytes AddressLength a → address_unmarshal (address_marshal a) = Ok a;
  address_text a : ∃ s, address_marshal a = JStr s;
}.

(** ** [strconv] and [math/big] *)

(** [strconv.ParseUint(s, 10, 64)]; [None] is any error. *)
Fixpoint parse_digits (s : string) (acc : Z) : option Z :=
  match s with
  | EmptyString => Some acc
  | String c s =>
      let b := Search.byte_of c in
      if (48 <=? b) && (b <=? 57) then parse_digits s (acc * 10 + (b - 48)) else None
  end.

Definition ParseUint10 (s : string) : option Z :=
  match s with
  | EmptyString => None
  | _ => n ← parse_digits s 0; if n <? two64 then Some n else None
  end.

(** The digit a character stands for in bases up to 36. *)
Definition digit_val (c : ascii) : Z :=
  let b := Search.byte_of c in
  if (48 <=? b) && (b <=? 57) then b - 48
  else if (97 <=? b) && (b <=? 122) then b - 87
  else if (65 <=? b) && (b <=? 90) then b - 55
  else 63.

(** What the digit scanner of [big.Int] saw last: nothing, a digit (or the
    leading zero of a prefix), a separator. *)
Inductive scan_prev : Type := PNone | PDigit | PSep.

(** The digits of a number up to the first other character: the value, the
    number of digits, whether a separator is misplaced, the unread text. *)
Fixpoint scan_digits (base : Z) (s : string) (acc : Z) (count : nat)
    (prev : scan_prev) (inval : bool) : Z * nat * bool * string :=
  match s with
  | EmptyString => (acc, count, inval || match prev with PSep => true | _ => false end, s)
  | String c s' =>
      if bool_decide (c = "_"%char) then
        scan_digits base s' acc count PSep
          (inval || match prev with PDigit => false | _ => true end)
      else if digit_val c <? base then
        scan_digits base s' (acc * base + digit_val c) (S count) PDigit inval
      else (acc, count, inval || match prev with PSep => true | _ => false end, s)
  end.

(** [nat.scan] for base 0: the value, an error flag, the unread text. *)
Definition nat_scan (s : string) : Z * bool * string :=
  match s with
  | String "0" EmptyString => (0, false, EmptyString)
  | String "0" (String c s') =>
      let prefixed base :=
        let '(v, n, bad, rest) := scan_digits base s' 0 0 PDigit false in
        (v, bad || bool_decide (n = 0%nat), rest) in
      if bool_decide (c ∈ ["b"; "B"]%char) then prefixed 2
      else if bool_decide (c ∈ ["o"; "O"]%char) then prefixed 8
      else if bool_decide (c ∈ ["x"; "X"]%char) then prefixed 16
      else
        let '(v, n, bad, rest) := scan_digits 8 (String c s') 0 0 PDigit false in
        (v, bad, rest)
  | _ =>
      let '(v, n, bad, rest) := scan_digits 10 s 0 0 PNone false in
      (v, bad || bool_decide (n = 0%nat), rest)
  end.

(** The value [a] holds after [a.SetString(s, 0)], whose result the code
    ignores: after a scanning error the magnitude scanned so far, after
    trailing text the number before it. *)
Definition big_SetString (s : string) : Z :=
  let '(neg, s') := match s with
                    | String "-" t => (true, t)
                    | String "+" t => (false, t)
                    | _ => (false, s)
                    end in
  let '(v, bad, _) := nat_scan s' in
  if neg && negb bad then - v else v.

(** [a.Uint64()]: the low 64 bits. *)
Definition big_Uint64 (a : Z) : Z := u64 a.

(** ** [lib/ethtypes/rpc.go] *)

Module BlockNumber.

Definition LatestExecutedBlockNumber : Z := -5.
Definition FinalizedBlockNumber : Z := -4.
Definition SafeBlockNumber : Z := -3.
Definition PendingBlockNumber : Z := -2.
Definition LatestBlockNumber : Z := -1.
Definition EarliestBlockNumber : Z := 0.

Definition is_space (c : ascii) : bool :=
  bool_decide (Search.byte_of c ∈ [9; 10; 11; 12; 13; 32]).

Fixpoint trim_left (s : string) : string :=
  match s with
  | String c s' => if is_space c then trim_left s' else s
  | EmptyString => s
  end.

Fixpoint trim_right (s : string) : string :=
  match s with
  | EmptyString => EmptyString
  | String c s' =>
      match trim_right s' with
      | EmptyString => if is_space c then EmptyString else String c EmptyString
      | t => String c t
      end
  end.

(** [bytes.TrimSpace], for ASCII text. *)
Definition TrimSpace (s : string) : string := trim_right (trim_left s).

(** A slice without its last byte, if that is [c]. *)
Fixpoint strip_last (c : ascii) (s : string) : option string :=
  match s with
  | EmptyString => None
  | String d EmptyString => if bool_decide (d = c) then Some EmptyString else None
  | String d s' => String d <$> strip_last c s'
  end.

Fixpoint trimChar (data : string) (chars : list ascii) : string :=
  match chars with
  | [] => data
  | char :: chars =>
      match data with
      | String d data' =>
          if bool_decide (d = char) then
            match strip_last char data' with
            | Some t => t
            | None => trimChar data chars
            end
          else trimChar data chars
      | EmptyString => trimChar data chars
      end
  end.

Section codec.
Context `{E : Eth}.

Definition MarshalJSON (bn : Z) : json :=
  if bn =? EarliestBlockNumber then JStr "earliest"
  else if bn =? LatestBlockNumber then JStr "latest"
  else if bn =? PendingBlockNumber then JStr "pending"
  else if bn =? SafeBlockNumber then JStr "safe"
  else if bn =? FinalizedBlockNumber then JStr "finalized"
  else if bn =? LatestExecutedBlockNumber then JStr "latestExecuted"
  else JStr (EncodeUint64 (u64 bn)).
End codec.

Definition UnmarshalJSON (data : string) : res goerr Z :=
  let input := trimChar (TrimSpace data) ["034"; "'"]%char in
  if bool_decide (input = "earliest") then Ok EarliestBlockNumber
  else if bool_decide (input = "latest") then Ok LatestBlockNumber
  else if bool_decide (input = "pending") then Ok PendingBlockNumber
  else if bool_decide (input = "safe") then Ok SafeBlockNumber
  else if bool_decide (input = "finalized") then Ok FinalizedBlockNumber
  else if bool_decide (input = "latestExecuted") then Ok LatestExecutedBlockNumber
  else if bool_decide (input = "null") then Ok LatestBlockNumber
  else
    let blckNum := match ParseUint10 input with
                   | Some n => n
                   | None => big_Uint64 (big_SetString input)
                   end in
    if max_int64 <? blckNum then Err (EText "block number larger than int64")
    else Ok blckNum.

(** [json.Unmarshal] into a [BlockNumber]. *)
Definition unmarshal (v : json) : res goerr Z :=
  if json_valid v then UnmarshalJSON (render v) else Err json_error.
End BlockNumber.

(** ** [lib/ethtypes/filter.go] *)

(** [OneOrArray[T].UnmarshalJSON], with the decoder of [T]. *)
Definition OneOrArray_UnmarshalJSON `{X : Jx} {T} (f : json → res goerr T) (b : json)
    : res goerr (list T) :=
  match jx_next b with
  | JxNull => Ok []
  | JxArray =>
      l ← jx_arr b;
      unmarshal_elems (λ v, raw ← jx_raw v; f raw) l
  | JxOther => v ← f b; mret [v]
  end.

Definition OneOrArray_MarshalJSON {T} (f : T → json) (o : list T) : json :=
  match o with
  | [v] => f v
  | _ => JArr (map f o)
  end.

Section filters.
Context `{E : Eth} `{X : Jx}.

Definition decodeTopic (s : string) : res goerr hash :=
  b ← hexutil_Decode s;
  if bool_decide (List.length b ≠ HashLength)
  then Err (EText "hex has invalid length after decoding")
  else mret (BytesToHash b).

(** The alternatives of one position; a null accepts anything. *)
Fixpoint decode_alternatives (l : list json) (acc : list hash) : res goerr (list hash) :=
  match l with
  | [] => Ok acc
  | JNull :: _ => Ok []
  | JStr s :: l =>
      t ← unmarshal_string (JStr s);
      parsed ← decodeTopic t;
      decode_alternatives l (acc ++ [parsed])
  | _ :: _ => Err (EText "invalid topic(s)")
  end.

Definition decode_position (t : json) : res goerr (list hash) :=
  match t with
  | JNull => Ok []
  | JStr s => t ← unmarshal_string (JStr s); top ← decodeTopic t; mret [top]
  | JArr l => decode_alternatives l []
  | _ => Err (EText "invalid topic(s)")
  end.

(** [FilterQueryTopics.UnmarshalJSON]. *)
Definition Topics_UnmarshalJSON (v : json) : res goerr (list (list hash)) :=
  raw ← unmarshal_raws v;
  unmarshal_elems decode_position raw.

(** The encoding of a [[][]common.Hash] whose empty rows are nil. *)
Definition Topics_marshal (topics : list (list hash)) : json :=
  JArr (map (λ row, match row with
                    | [] => JNull
                    | _ => JArr (map hash_marshal row)
                    end) topics).

Record FilterQuery := {
  BlockHash : option hash;
  FromBlock : option Z;
  ToBlock : option Z;
  Addresses : list address;
  Topics : list (list hash);
}.

Definition empty_query : FilterQuery :=
  {| BlockHash := None; FromBlock := None; ToBlock := None; Addresses := []; Topics := [] |}.

(** A pointer field: null is nil. *)
Definition unmarshal_ptr {A} (f : json → res goerr A) (v : json) : res goerr (option A) :=
  match v with
  | JNull => Ok None
  | v => x ← f v; mret (Some x)
  end.

(** One object member decoded into the struct. *)
Definition FilterQuery_member (q : FilterQuery) (kv : string * json) : res goerr FilterQuery :=
  let '(k, v) := kv in
  if field_match "blockHash" k then
    h ← unmarshal_ptr hash_unmarshal v;
    mret {| BlockHash := h; FromBlock := FromBlock q; ToBlock := ToBlock q;
            Addresses := Addresses q; Topics := Topics q |}
  else if field_match "fromBlock" k then
    n ← unmarshal_ptr BlockNumber.unmarshal v;
    mret {| BlockHash := BlockHash q; FromBlock := n; ToBlock := ToBlock q;
            Addresses := Addresses q; Topics := Topics q |}
  else if field_match "toBlock" k then
    n ← unmarshal_ptr BlockNumber.unmarshal v;
    mret {| BlockHash := BlockHash q; FromBlock := FromBlock q; ToBlock := n;
            Addresses := Addresses q; Topics := Topics q |}
  else if field_match "address" k then
    a ← OneOrArray_UnmarshalJSON address_unmarshal v;
    mret {| BlockHash := BlockHash q; FromBlock := FromBlock q; ToBlock := ToBlock q;
            Addresses := a; Topics := Topics q |}
  else if field_match "topics" k then
    t ← Topics_UnmarshalJSON v;
    mret {| BlockHash := BlockHash q; FromBlock := FromBlock q; ToBlock := ToBlock q;
            Addresses := Addresses q;
            Topics := match t with [] => Topics q | _ => t end |}
  else Ok q.

Fixpoint FilterQuery_members (q : FilterQuery) (fs : list (string * json))
    : res goerr FilterQuery :=
  match fs with
  | [] => Ok q
  | kv :: fs => q' ← FilterQuery_member q kv; FilterQuery_members q' fs
  end.

(** [json.Unmarshal] into a [FilterQuery] from its zero value. *)
Definition FilterQuery_unmarshal (v : json) : res goerr FilterQuery :=
  match v with
  | JObj fs => FilterQuery_members empty_query fs
  | JNull => Ok empty_query
  | _ => Err json_error
  end.

Definition opt_field {A} (k : string) (f : A → json) (x : option A) : list (string * json) :=
  match x with Some x => [(k, f x)] | None => [] end.

Definition list_field {A} (k : string) (f : list A → json) (l : list A)
    : list (string * json) :=
  match l with [] => [] | _ => [(k, f l)] end.

(** [json.Marshal] of a [FilterQuery]; every field is [omitempty]. *)
Definition FilterQuery_marshal (q : FilterQuery) : json :=
  JObj (opt_field "blockHash" hash_marshal (BlockHash q)
    ++ opt_field "fromBlock" BlockNumber.MarshalJSON (FromBlock q)
    ++ opt_field "toBlock" BlockNumber.MarshalJSON (ToBlock q)
    ++ list_field "address" (OneOrArray_MarshalJSON address_marshal) (Addresses q)
    ++ list_field "topics" Topics_marshal (Topics q)).
End filters.

(** ** Lemmas: quoted text *)

Module BlockNumberFacts.
Import BlockNumber.

Lemma trim_right_app_dquote s : trim_right (s +:+ dquote) = s +:+ dquote.
Proof.
  induction s as [|c s IH]; [done|]. simpl. rewrite IH. by destruct s.
Qed.

Lemma strip_last_app c s : strip_last c (s +:+ String c "") = Some s.
Proof.
  induction s as [|d s IH]; simpl; [by rewrite bool_decide_true|].
  rewrite IH. by destruct s.
Qed.

Lemma trim_quoted s :
  trimChar (TrimSpace (quoted s)) ["034"; "'"]%char = s.
Proof.
  unfold quoted, TrimSpace.
  change (trim_left (dquote +:+ s +:+ dquote)) with ((dquote +:+ s) +:+ dquote).
  rewrite trim_right_app_dquote.
  change ((dquote +:+ s) +:+ dquote) with (String "034" (s +:+ String "034" "")).
  cbn [trimChar]. rewrite bool_decide_true by done. by rewrite strip_last_app.
Qed.

Lemma unmarshal_max v n : unmarshal v = Ok n → n <= max_int64.
Proof.
  unfold unmarshal, UnmarshalJSON. destruct (json_valid v); [|done].
  repeat (case_bool_decide; [intros [= <-]; vm_compute; congruence|]).
  cbv zeta. set (m := match ParseUint10 _ with Some n => n | None => _ end).
  destruct (Z.ltb_spec max_int64 m); [done|]. by intros [= <-].
Qed.

(** What a JSON string is decoded to, its text without the quotes. *)
Definition parse_input (input : string) : res goerr Z :=
  let blckNum := match ParseUint10 input with
                 | Some n => n
                 | None => big_Uint64 (big_SetString input)
                 end in
  if max_int64 <? blckNum then Err (EText "block number larger than int64")
  else Ok blckNum.

Definition tags : list string :=
  ["earliest"; "latest"; "pending"; "safe"; "finalized"; "latestExecuted"; "null"].

Lemma unmarshal_str_number s : s ∉ tags → unmarshal (JStr s) = parse_input s.
Proof.
  intros Hs. unfold unmarshal. simpl. unfold UnmarshalJSON. rewrite trim_quoted.
  unfold tags in Hs.
  by repeat (rewrite bool_decide_false; [|intros ->; apply Hs; set_solver]).
Qed.

Lemma digit_val_hex_char d : 0 <= d < 16 → digit_val (hex_char d) = d.
Proof.
  intros H. assert (d ∈ seqZ 0 16) as Hin by (apply elem_of_seqZ; lia).
  revert Hin. clear H. unfold seqZ. simpl.
  intros Hin. repeat (apply elem_of_cons in Hin as [->|Hin]; [done|]).
  by apply elem_of_nil in Hin.
Qed.

Lemma hex_char_not_sep d : 0 <= d < 16 → hex_char d ≠ "_"%char.
Proof.
  intros H Heq. pose proof (digit_val_hex_char d H) as Hd.
  rewrite Heq in Hd. vm_compute in Hd. lia.
Qed.

Lemma scan_hex_char d s acc n prev inval :
  0 <= d < 16 →
  scan_digits 16 (String (hex_char d) s) acc n prev inval
  = scan_digits 16 s (acc * 16 + d) (S n) PDigit inval.
Proof.
  intros Hd. cbn [scan_digits].
  rewrite bool_decide_false by by apply hex_char_not_sep.
  rewrite digit_val_hex_char by done.
  rewrite (proj2 (Z.ltb_lt _ _)) by lia. done.
Qed.

Lemma scan_hex_str fuel n s prev inval :
  0 <= n < 16 ^ Z.of_nat fuel → fuel ≠ 0%nat →
  ∃ k, scan_digits 16 (hex_str fuel n s) 0 0 prev inval
       = scan_digits 16 s n (S k) PDigit inval.
Proof.
  revert n s. induction fuel as [|fuel IH]; intros n s Hn Hf; [done|].
  cbn [hex_str]. destruct (Z.ltb_spec n 16) as [Hlt|Hge].
  { exists 0%nat. rewrite scan_hex_char by lia. by rewrite Z.mul_0_l, Z.add_0_l. }
  rewrite Nat2Z.inj_succ, Z.pow_succ_r in Hn by lia.
  destruct fuel as [|fuel]; [simpl in Hn; lia|].
  pose proof (Z.div_mod n 16 ltac:(lia)) as Hdm.
  pose proof (Z.mod_pos_bound n 16 ltac:(lia)) as Hmod.
  destruct (IH (n / 16) (String (hex_char (n mod 16)) s)) as [k ->]; [|done|].
  { split; [apply Z.div_pos; lia|apply Z.div_lt_upper_bound; lia]. }
  exists (S k). rewrite scan_hex_char by done. f_equal. lia.
Qed.

(** A hexadecimal string denotes its number modulo [2 ^ 64]. *)
Lemma parse_hex fuel n :
  0 <= n < 16 ^ Z.of_nat fuel → fuel ≠ 0%nat →
  parse_input ("0x" +:+ hex_str fuel n "")
  = if max_int64 <? u64 n then Err (EText "block number larger than int64")
    else Ok (u64 n).
Proof.
  intros Hn Hf. unfold parse_input.
  change (ParseUint10 ("0x" +:+ hex_str fuel n "")) with (@None Z). cbv iota.
  unfold big_SetString. change ("0x" +:+ hex_str fuel n "")
    with (String "0" (String "x" (hex_str fuel n ""))). cbn [nat_scan].
  unfold nat_scan.
  destruct (scan_hex_str fuel n "" PDigit false Hn Hf) as [k ->]. done.
Qed.

Lemma hex_not_tag s : ("0x" +:+ s) ∉ tags.
Proof.
  unfold tags. rewrite !not_elem_of_cons. repeat split; try done.
  apply not_elem_of_nil.
Qed.

Lemma unmarshal_MarshalJSON `{ES : EthSpec} bn :
  LatestExecutedBlockNumber <= bn <= max_int64 →
  unmarshal (MarshalJSON bn) = Ok bn.
Proof.
  unfold LatestExecutedBlockNumber. intros Hbn.
  assert (bn ∈ [-5; -4; -3; -2; -1; 0] ∨ 0 < bn) as [Hin|Hpos].
  { rewrite !elem_of_cons. lia. }
  { repeat (apply elem_of_cons in Hin as [->|Hin]; [by vm_compute|]).
    by apply elem_of_nil in Hin. }
  unfold MarshalJSON, EarliestBlockNumber, LatestBlockNumber, PendingBlockNumber,
    SafeBlockNumber, FinalizedBlockNumber, LatestExecutedBlockNumber.
  repeat (case_match eqn:Hq; [apply Z.eqb_eq in Hq; lia|clear Hq]).
  rewrite u64_small by go_lia. rewrite EncodeUint64_spec by go_lia.
  rewrite unmarshal_str_number by apply hex_not_tag.
  unfold hex_text. rewrite (parse_hex 16) by (go_lia || done). rewrite u64_small by go_lia.
  by rewrite (proj2 (Z.ltb_ge _ _)) by lia.
Qed.

Lemma MarshalJSON_text `{E : Eth} bn : ∃ s, MarshalJSON bn = JStr s.
Proof. unfold MarshalJSON. repeat case_match; by eexists. Qed.
End BlockNumberFacts.

(** ** An implementation of the encodings *)

Module StdEth.
Fixpoint hex_bytes (l : list Z) : string :=
  match l with
  | [] => EmptyString
  | b :: l => String (hex_char (b / 16)) (String (hex_char (b mod 16)) (hex_bytes l))
  end.

Fixpoint unhex (s : string) : option (list Z) :=
  match s with
  | EmptyString => Some []
  | String a (String b s) =>
      a ← hex_val a; b ← hex_val b; l ← unhex s; Some (a * 16 + b :: l)
  | _ => None
  end.

Definition decode (s : string) : res goerr (list Z) :=
  match s with
  | String "0" (String "x" t) =>
      match unhex t with Some l => Ok l | None => Err (EText "invalid hex string") end
  | _ => Err (EText "hex string without 0x prefix")
  end.

Definition fixed (n : nat) (v : json) : res goerr (list Z) :=
  match v with
  | JStr s =>
      l ← decode s;
      if bool_decide (List.length l = n) then Ok l else Err (EText "invalid length")
  | _ => Err (EText "non-string")
  end.

Definition uint64 (v : json) : res goerr Z :=
  match v with
  | JStr (String "0" (String "x" t)) =>
      match scan_digits 16 t 0 0 PNone false with
      | (n, S _, false, EmptyString) =>
          if bool_decide (0 <= n < two64) then Ok n else Err (EText "hex number > 64 bits")
      | _ => Err (EText "invalid hex number")
      end
  | _ => Err (EText "non-string")
  end.

Lemma uint64_hex n : in_u64 n → uint64 (JStr (hex_text n)) = Ok n.
Proof.
  intros Hn. pose proof (BlockNumberFacts.scan_hex_str 16 n "" PNone false) as Hs.
  destruct Hs as [k Hk]; [go_lia|done|].
  unfold uint64, hex_text. change ("0x" +:+ hex_str 16 n "")
    with (String "0" (String "x" (hex_str 16 n ""))). cbv iota.
  rewrite Hk. simpl. unfold in_u64 in Hn. by rewrite bool_decide_true.
Qed.

Lemma uint64_range v n : uint64 v = Ok n → in_u64 n.
Proof.
  unfold uint64. intros H. repeat case_match; try done. simplify_eq.
  match goal with Hb : bool_decide _ = true |- _ => by apply bool_decide_eq_true in Hb end.
Qed.

#[export] Instance std_eth : Eth := {|
  EncodeUint64 := hex_text;
  uint64_unmarshal := uint64;
  hexutil_Decode := decode;
  BytesToHash l := l;
  hash_marshal h := JStr ("0x" +:+ hex_bytes h);
  hash_unmarshal := fixed HashLength;
  address_marshal a := JStr ("0x" +:+ hex_bytes a);
  address_unmarshal := fixed AddressLength;
|}.

Lemma hex_val_char d : 0 <= d < 16 → hex_val (hex_char d) = Some d.
Proof.
  intros H. assert (d ∈ seqZ 0 16) as Hin by (apply elem_of_seqZ; lia).
  revert Hin. clear H. unfold seqZ. simpl.
  intros Hin. repeat (apply elem_of_cons in Hin as [->|Hin]; [done|]).
  by apply elem_of_nil in Hin.
Qed.

Lemma nibbles b : 0 <= b < 256 → 0 <= b / 16 < 16 ∧ 0 <= b mod 16 < 16.
Proof.
  intros Hb. split; [|apply Z.mod_pos_bound; lia].
  split; [apply Z.div_pos|apply Z.div_lt_upper_bound]; lia.
Qed.

Lemma unhex_hex l : Forall (λ b, 0 <= b < 256) l → unhex (hex_bytes l) = Some l.
Proof.
  induction 1 as [|b l Hb _ IH]; [done|]. cbn [hex_bytes unhex].
  pose proof (Z.div_mod b 16 ltac:(lia)). destruct (nibbles b Hb).
  rewrite !hex_val_char by done. rewrite IH. simpl. do 2 f_equal. lia.
Qed.

Lemma decode_hex l :
  Forall (λ b, 0 <= b < 256) l → decode ("0x" +:+ hex_bytes l) = Ok l.
Proof.
  intros Hl. change ("0x" +:+ hex_bytes l) with (String "0" (String "x" (hex_bytes l))).
  unfold decode. by rewrite unhex_hex.
Qed.

Lemma hex_char_no_backslash d : 0 <= d < 16 → hex_char d ≠ "\"%char.
Proof.
  intros H Heq. pose proof (hex_val_char d H) as Hd. by rewrite Heq in Hd.
Qed.

Lemma hex_bytes_no_backslash l :
  Forall (λ b, 0 <= b < 256) l → no_backslash (hex_bytes l) = true.
Proof.
  induction 1 as [|b l Hb _ IH]; [done|]. simpl.
  destruct (nibbles b Hb).
  by rewrite !bool_decide_false, IH by (by apply hex_char_no_backslash).
Qed.

Lemma fixed_hex n l : is_bytes n l → fixed n (JStr ("0x" +:+ hex_bytes l)) = Ok l.
Proof.
  intros [Hn Hl]. unfold fixed. rewrite decode_hex by done.
  simpl. by rewrite bool_decide_true.
Qed.

#[export] Instance std_eth_spec : EthSpec.
Proof.
  split.
  - done.
  - exact uint64_hex.
  - intros h Hh. by apply fixed_hex.
  - intros h [Hn Hh]. eexists. split; [done|]. split; [|by apply decode_hex].
    apply unescape_plain; [|lia]. simpl. by apply hex_bytes_no_backslash.
  - done.
  - intros a Ha. by apply fixed_hex.
  - intros a. by eexists.
Qed.
End StdEth.

(** ** Lemmas: the encoding of a filter *)

Section filter_facts.
Context `{ES : EthSpec} `{XS : JxSpec}.

Definition bn_ok (n : Z) : Prop :=
  BlockNumber.LatestExecutedBlockNumber <= n <= max_int64.

(** The filters whose encoding is exact. *)
Definition query_ok (q : FilterQuery) : Prop :=
  (∀ h, BlockHash q = Some h → is_bytes HashLength h) ∧
  (∀ n, FromBlock q = Some n → bn_ok n) ∧
  (∀ n, ToBlock q = Some n → bn_ok n) ∧
  Forall (is_bytes AddressLength) (Addresses q) ∧
  Forall (Forall (is_bytes HashLength)) (Topics q).

Lemma FilterQuery_members_app q fs gs :
  FilterQuery_members q (fs ++ gs)
  = (q' ← FilterQuery_members q fs; FilterQuery_members q' gs).
Proof.
  revert q. induction fs as [|f fs IH]; intros q; [done|]. simpl.
  destruct (FilterQuery_member q f); simpl; [apply IH|done].
Qed.

Lemma unmarshal_elems_map {A B} (g : A → json) (f : json → res goerr B) (k : A → B) l :
  Forall (λ x, f (g x) = Ok (k x)) l → unmarshal_elems f (map g l) = Ok (map k l).
Proof. induction 1 as [|x l Hx _ IH]; [done|]. simpl. by rewrite Hx, IH. Qed.

Lemma address_valid a : json_valid (address_marshal a) = true.
Proof. by destruct (address_text a) as [s ->]. Qed.

Lemma OneOrArray_roundtrip l :
  Forall (is_bytes AddressLength) l → l ≠ [] →
  OneOrArray_UnmarshalJSON address_unmarshal (OneOrArray_MarshalJSON address_marshal l)
  = Ok l.
Proof.
  intros Hl Hne. unfold OneOrArray_UnmarshalJSON, OneOrArray_MarshalJSON.
  destruct l as [|a [|b l]]; [done| |].
  - rewrite jx_next_spec by apply address_valid.
    destruct (address_text a) as [s Hs]. rewrite Hs at 1. simpl.
    apply Forall_cons in Hl as [Ha _]. by rewrite address_roundtrip.
  - assert (json_valid (JArr (map address_marshal (a :: b :: l))) = true) as Hv.
    { apply forallb_forall. intros v (x & <- & _)%in_map_iff. apply address_valid. }
    rewrite jx_next_spec, jx_arr_spec by done. cbn [json_type mbind res_bind].
    rewrite (unmarshal_elems_map _ _ id); [by rewrite map_id|].
    eapply Forall_impl; [done|]. intros x Hx. simpl.
    rewrite jx_raw_spec by apply address_valid. by apply address_roundtrip.
Qed.

Lemma hash_valid h : is_bytes HashLength h → json_valid (hash_marshal h) = true.
Proof. intros Hh. by destruct (hash_text h Hh) as (s & -> & _). Qed.

Lemma decode_alternatives_hashes l acc :
  Forall (is_bytes HashLength) l →
  decode_alternatives (map hash_marshal l) acc = Ok (acc ++ l).
Proof.
  intros Hl. revert acc. induction Hl as [|h l Hh Hl IH]; intros acc; simpl.
  { by rewrite app_nil_r. }
  destruct (hash_text h Hh) as (s & Hs & Hu & Hd). rewrite Hs. simpl.
  rewrite Hu. simpl. unfold decodeTopic. rewrite Hd. simpl.
  rewrite bool_decide_false by (by destruct Hh as [-> _]; intros ?).
  simpl. rewrite BytesToHash_id by done. rewrite IH. by rewrite <- app_assoc.
Qed.

Lemma Topics_roundtrip t :
  Forall (Forall (is_bytes HashLength)) t →
  Topics_UnmarshalJSON (Topics_marshal t) = Ok t.
Proof.
  intros Ht. unfold Topics_UnmarshalJSON, Topics_marshal, unmarshal_raws.
  match goal with |- context [json_valid ?v] => assert (json_valid v = true) as -> end.
  - simpl. apply forallb_forall. intros v (row & <- & Hin)%in_map_iff.
    apply list_elem_of_In in Hin. rewrite Forall_forall in Ht.
    specialize (Ht _ Hin). destruct row as [|h row]; [done|].
    apply forallb_forall. intros v (x & <- & Hx%list_elem_of_In)%in_map_iff.
    rewrite Forall_forall in Ht. auto using hash_valid.
  - cbn [mbind res_bind]. rewrite (unmarshal_elems_map _ _ id); [by rewrite map_id|].
    eapply Forall_impl; [done|]. intros row Hrow. destruct row as [|h row]; [done|].
    unfold decode_position. by apply (decode_alternatives_hashes _ []).
Qed.

(** *** One member at a time *)

Lemma FilterQuery_blockHash f t a to h :
  (∀ x, h = Some x → is_bytes HashLength x) →
  FilterQuery_members (Build_FilterQuery None f t a to)
    (opt_field "blockHash" hash_marshal h) = Ok (Build_FilterQuery h f t a to).
Proof.
  intros Hh. destruct h as [h|]; [|done]. specialize (Hh h eq_refl).
  assert (unmarshal_ptr hash_unmarshal (hash_marshal h) = Ok (Some h)) as Hp.
  { pose proof (hash_roundtrip h Hh) as Hr. destruct (hash_text h Hh) as (s & Hs & _).
    rewrite Hs in *. simpl. by rewrite Hr. }
  change (opt_field "blockHash" hash_marshal (Some h)) with [("blockHash", hash_marshal h)].
  cbn [FilterQuery_members].
  change (FilterQuery_member (Build_FilterQuery None f t a to) ("blockHash", hash_marshal h))
    with (x ← unmarshal_ptr hash_unmarshal (hash_marshal h); Ok (Build_FilterQuery x f t a to)).
  by rewrite Hp.
Qed.

Lemma unmarshal_ptr_bn n :
  bn_ok n → unmarshal_ptr BlockNumber.unmarshal (BlockNumber.MarshalJSON n) = Ok (Some n).
Proof.
  intros Hn. pose proof (BlockNumberFacts.unmarshal_MarshalJSON n Hn) as Hr.
  destruct (BlockNumberFacts.MarshalJSON_text n) as [s Hs]. rewrite Hs in *.
  cbn [unmarshal_ptr]. by rewrite Hr.
Qed.

Lemma FilterQuery_fromBlock h t a to n :
  (∀ x, n = Some x → bn_ok x) →
  FilterQuery_members (Build_FilterQuery h None t a to)
    (opt_field "fromBlock" BlockNumber.MarshalJSON n) = Ok (Build_FilterQuery h n t a to).
Proof.
  intros Hn. destruct n as [n|]; [|done]. cbn [opt_field FilterQuery_members].
  change (FilterQuery_member (Build_FilterQuery h None t a to)
            ("fromBlock", BlockNumber.MarshalJSON n))
    with (x ← unmarshal_ptr BlockNumber.unmarshal (BlockNumber.MarshalJSON n);
          Ok (Build_FilterQuery h x t a to)).
  by rewrite unmarshal_ptr_bn by auto.
Qed.

Lemma FilterQuery_toBlock h f a to n :
  (∀ x, n = Some x → bn_ok x) →
  FilterQuery_members (Build_FilterQuery h f None a to)
    (opt_field "toBlock" BlockNumber.MarshalJSON n) = Ok (Build_FilterQuery h f n a to).
Proof.
  intros Hn. destruct n as [n|]; [|done]. cbn [opt_field FilterQuery_members].
  change (FilterQuery_member (Build_FilterQuery h f None a to)
            ("toBlock", BlockNumber.MarshalJSON n))
    with (x ← unmarshal_ptr BlockNumber.unmarshal (BlockNumber.MarshalJSON n);
          Ok (Build_FilterQuery h f x a to)).
  by rewrite unmarshal_ptr_bn by auto.
Qed.

Lemma FilterQuery_address h f t to a :
  Forall (is_bytes AddressLength) a →
  FilterQuery_members (Build_FilterQuery h f t [] to)
    (list_field "address" (OneOrArray_MarshalJSON address_marshal) a)
  = Ok (Build_FilterQuery h f t a to).
Proof.
  intros Ha. destruct (decide (a = [])) as [->|Hne]; [done|].
  pose proof (OneOrArray_roundtrip a Ha Hne) as Hr. destruct a as [|x a]; [done|].
  cbn [list_field]. set (v := OneOrArray_MarshalJSON _ _) in *. cbn [FilterQuery_members].
  change (FilterQuery_member (Build_FilterQuery h f t [] to) ("address", v))
    with (x ← OneOrArray_UnmarshalJSON address_unmarshal v; Ok (Build_FilterQuery h f t x to)).
  by rewrite Hr.
Qed.

Lemma FilterQuery_topics h f t a to :
  Forall (Forall (is_bytes HashLength)) to →
  FilterQuery_members (Build_FilterQuery h f t a [])
    (list_field "topics" Topics_marshal to)
  = Ok (Build_FilterQuery h f t a to).
Proof.
  intros Hto. destruct (decide (to = [])) as [->|Hne]; [done|].
  pose proof (Topics_roundtrip to Hto) as Hr. destruct to as [|x to]; [done|].
  cbn [list_field]. set (v := Topics_marshal _) in *. cbn [FilterQuery_members].
  change (FilterQuery_member (Build_FilterQuery h f t a []) ("topics", v))
    with (x ← Topics_UnmarshalJSON v;
          Ok (Build_FilterQuery h f t a match x with [] => [] | _ => x end)).
  by rewrite Hr.
Qed.

Lemma FilterQuery_unmarshal_marshal q :
  query_ok q → FilterQuery_unmarshal (FilterQuery_marshal q) = Ok q.
Proof.
  intros (Hh & Hf & Ht & Ha & Hto). destruct q as [h f t a to]. simpl in *.
  unfold FilterQuery_unmarshal, FilterQuery_marshal. cbn [BlockHash FromBlock ToBlock Addresses Topics].
  unfold empty_query.
  rewrite FilterQuery_members_app, FilterQuery_blockHash by done. cbn [mbind res_bind].
  rewrite FilterQuery_members_app, FilterQuery_fromBlock by done. cbn [mbind res_bind].
  rewrite FilterQuery_members_app, FilterQuery_toBlock by done. cbn [mbind res_bind].
  rewrite FilterQuery_members_app, FilterQuery_address by done. cbn [mbind res_bind].
  by apply FilterQuery_topics.
Qed.

(** The numbers of a decoded query, and what an encoded one keeps. *)
Lemma FilterQuery_range v q n :
  FilterQuery_unmarshal v = Ok q → FromBlock q = Some n ∨ ToBlock q = Some n → n <= max_int64.
Proof.
  assert (∀ w x, unmarshal_ptr BlockNumber.unmarshal w = Ok (Some x) → x <= max_int64) as Hp.
  { intros w x. unfold unmarshal_ptr. destruct w; [done|..]; intros Hx;
      (destruct (BlockNumber.unmarshal _) eqn:Hn; [|done]);
      injection Hx as <-; by eapply BlockNumberFacts.unmarshal_max. }
  assert (∀ fs q0 q1, FilterQuery_members q0 fs = Ok q1 →
    (FromBlock q0 = Some n ∨ ToBlock q0 = Some n → n <= max_int64) →
    FromBlock q1 = Some n ∨ ToBlock q1 = Some n → n <= max_int64) as Hm.
  { intros fs. induction fs as [|[k w] fs IH]; intros q0 q1; [by intros [= <-]|].
    cbn [FilterQuery_members]. destruct (FilterQuery_member q0 (k, w)) as [q2|] eqn:H2; [|done].
    intros H1 H0. apply (IH q2 q1 H1). revert H2. unfold FilterQuery_member.
    unfold mbind, res_bind.
    repeat case_match; try done; intros [= <-]; cbn; try exact H0; intros [Hn|Hn]; subst;
      auto; by eapply Hp. }
  unfold FilterQuery_unmarshal. destruct v; try done.
  - intros [= <-]. by intros [|].
  - intros Hv. apply (Hm _ _ _ Hv). by intros [|].
Qed.

Lemma FilterQuery_marshal_range q q' :
  (∀ n, FromBlock q = Some n → bn_ok n) → (∀ n, ToBlock q = Some n → bn_ok n) →
  BlockHash q = None → FilterQuery_unmarshal (FilterQuery_marshal q) = Ok q' →
  FromBlock q' = FromBlock q ∧ ToBlock q' = ToBlock q.
Proof.
  intros Hf Ht Hh. destruct q as [h f t a to]. simpl in *. subst h.
  unfold FilterQuery_unmarshal, FilterQuery_marshal. cbn [BlockHash FromBlock ToBlock Addresses Topics].
  unfold empty_query. cbn [opt_field app].
  rewrite FilterQuery_members_app, FilterQuery_fromBlock by done. cbn [mbind res_bind].
  rewrite FilterQuery_members_app, FilterQuery_toBlock by done. cbn [mbind res_bind].
  assert (∀ fs q0 q1, Forall (λ kv, kv.1 = "address" ∨ kv.1 = "topics") fs →
    FilterQuery_members q0 fs = Ok q1 → FromBlock q1 = FromBlock q0 ∧ ToBlock q1 = ToBlock q0) as Hm.
  { intros fs. induction fs as [|[k v] fs IH]; intros q0 q1; [by intros _ [= <-]|].
    intros [Hk Hfs]%Forall_cons. cbn [FilterQuery_members].
    destruct (FilterQuery_member q0 (k, v)) as [q2|] eqn:H2; [|done]. intros H1.
    destruct (IH q2 q1 Hfs H1) as [-> ->]. revert H2. simpl in Hk.
    destruct Hk as [->| ->].
    - change (FilterQuery_member q0 ("address", v)) with
        (x ← OneOrArray_UnmarshalJSON address_unmarshal v;
         Ok (Build_FilterQuery (BlockHash q0) (FromBlock q0) (ToBlock q0) x (Topics q0))).
      destruct (OneOrArray_UnmarshalJSON _ v); [|done]. by intros [= <-].
    - change (FilterQuery_member q0 ("topics", v)) with
        (x ← Topics_UnmarshalJSON v;
         Ok (Build_FilterQuery (BlockHash q0) (FromBlock q0) (ToBlock q0) (Addresses q0)
               match x with [] => Topics q0 | _ => x end)).
      destruct (Topics_UnmarshalJSON v); [|done]. by intros [= <-]. }
  apply Hm. destruct a, to; simpl; rewrite ?Forall_cons, ?Forall_nil; simpl; auto.
Qed.
End filter_facts.

(** ** Properties *)

Module EthTypesProps.
Import BlockNumber BlockNumberFacts.

(** every block number the program handles survives its JSON encoding:
    the six tags and all numbers up to the largest int64 decode to
    themselves. *)
Theorem BlockNumber_roundtrip `{ES : EthSpec} bn :
  LatestExecutedBlockNumber <= bn <= max_int64 →
  unmarshal (MarshalJSON bn) = Ok bn.
Proof. apply unmarshal_MarshalJSON. Qed.

(** a block tag the decoder does not know is not an error: every JSON
    string that starts with a letter and is no tag denotes block 0, the
    earliest block. *)
Theorem BlockNumber_unknown_tag c s :
  10 <= digit_val c < 36 → String c s ∉ tags →
  unmarshal (JStr (String c s)) = Ok EarliestBlockNumber.
Proof.
  intros Hc Ht. rewrite unmarshal_str_number by done. unfold parse_input.
  assert (c ≠ "0"%char ∧ c ≠ "-"%char ∧ c ≠ "+"%char ∧ c ≠ "_"%char) as (H0 & H1 & H2 & H3).
  { split_and!; intros ->; destruct Hc as [Hc1 Hc2]; vm_compute in Hc1, Hc2; congruence. }
  assert (ParseUint10 (String c s) = None) as ->.
  { unfold ParseUint10. cbn [parse_digits]. unfold digit_val in Hc. cbv zeta in *.
    destruct ((48 <=? Search.byte_of c) && (Search.byte_of c <=? 57)) eqn:E; [|done].
    apply andb_true_iff in E as [?%Z.leb_le ?%Z.leb_le]. lia. }
  assert (big_SetString (String c s) = 0) as ->; [|done].
  assert (nat_scan (String c s) = (0, true, String c s)) as Hn.
  { assert (scan_digits 10 (String c s) 0 0 PNone false = (0, 0%nat, false, String c s)) as Hs.
    { cbn [scan_digits]. rewrite bool_decide_false by done.
      by rewrite (proj2 (Z.ltb_ge _ _)) by lia. }
    unfold nat_scan. rewrite Hs.
    destruct c as [[] [] [] [] [] [] [] []]; try done. }
  unfold big_SetString. 
  destruct c as [[] [] [] [] [] [] [] []]; try done; by rewrite Hn.
Qed.

(** a hexadecimal block number is range-checked only after it has been cut
    to 64 bits: a number of any size is accepted as its remainder modulo
    [2 ^ 64] when that is at most the largest int64, and refused otherwise. *)
Theorem BlockNumber_hex_truncated fuel n :
  0 <= n < 16 ^ Z.of_nat fuel → fuel ≠ 0%nat →
  unmarshal (JStr ("0x" +:+ hex_str fuel n ""))
  = if max_int64 <? n mod two64 then Err (EText "block number larger than int64")
    else Ok (n mod two64).
Proof.
  intros Hn Hf. rewrite unmarshal_str_number by apply hex_not_tag.
  by apply parse_hex.
Qed.

(** C26: a log filter survives its JSON encoding, so that re-encoding a request
    changes nothing but the fields that were assigned: every filter with
    proper hashes, addresses and block numbers decodes to itself. *)
Theorem FilterQuery_roundtrip `{ES : EthSpec} `{XS : JxSpec} q :
  query_ok q → FilterQuery_unmarshal (FilterQuery_marshal q) = Ok q.
Proof. apply FilterQuery_unmarshal_marshal. Qed.
End EthTypesProps.

(** ** Witnesses *)

Module EthTypesWitness.
Import BlockNumber BlockNumberFacts EthTypesProps StdEth StdJx.

Lemma BlockNumber_roundtrip_witness :
  unmarshal (MarshalJSON 4660) = Ok 4660 ∧ unmarshal (MarshalJSON (-5)) = Ok (-5).
Proof.
  split; apply BlockNumber_roundtrip; unfold max_int64; vm_compute; split; congruence.
Defined.

Lemma BlockNumber_unknown_tag_witness : unmarshal (JStr "lattest") = Ok EarliestBlockNumber.
Proof.
  apply (BlockNumber_unknown_tag "l" "attest").
  - vm_compute. split; congruence.
  - refine (bool_decide_eq_true_1 _ _). vm_compute. reflexivity.
Defined.

Lemma BlockNumber_hex_truncated_witness :
  unmarshal (JStr ("0x" +:+ hex_str 17 (two64 + 7) "")) = Ok 7.
Proof.
  refine (BlockNumber_hex_truncated 17 (two64 + 7) _ _); [|discriminate].
  vm_compute. split; congruence.
Defined.

Definition query0 : FilterQuery := {|
  BlockHash := None; FromBlock := Some 256; ToBlock := Some LatestBlockNumber;
  Addresses := [replicate AddressLength 18];
  Topics := [[replicate HashLength 1]; []; [replicate HashLength 2; replicate HashLength 3]] |}.

Lemma FilterQuery_roundtrip_witness :
  FilterQuery_unmarshal (FilterQuery_marshal query0) = Ok query0.
Proof.
  apply FilterQuery_roundtrip. unfold query_ok, bn_ok. split_and!.
  - discriminate.
  - intros n [= <-]. vm_compute. split; congruence.
  - intros n [= <-]. vm_compute. split; congruence.
  - repeat constructor; lia.
  - repeat constructor; lia.
Defined.
End EthTypesWitness.
