(* ===== verification/Logs.v ===== *)
(** * Log filters: [lib/ethtypes/logs.go]

    The compiled form of a log filter, the rule it decides, and where that is
    the rule [lib/ethtypes/filter.go] documents. *)
From S2P Require Import Prelude Errors Json EthTypes.

(** ** Data *)

(** [None] is the nil slice. *)
Record LogAddressTopics := {
  log_Address : address;
  log_TopicSlice : option (list hash);
}.

Definition log_Topics (l : LogAddressTopics) : list hash := default [] (log_TopicSlice l).

Record Log := {
  log_header : LogAddressTopics;
  log_Data : list Z;
  log_TransactionHash : hash;
  log_TransactionIndex : Z;
  log_BlockHash : hash;
  log_BlockNumber : Z;
  log_Index : Z;
  log_Removed : bool;
  log_Timestamp : Z;
}.

(** The slices of the source are kept; a nil topic map is the empty set. *)
Record CompiledFilter := {
  cf_Addresses : list address;
  cf_Topics : list (list hash);
  cf_AddrMap : gset address;
  cf_TopicMap : list (gset hash);
}.

(** ** Operations *)

(** [CompileFilter]; [None] is the nil filter. *)
Definition CompileFilter (addresses : list address) (topics : list (list hash))
    : option CompiledFilter :=
  match addresses, topics with
  | [], [] => None
  | _, _ => Some {|
      cf_Addresses := addresses;
      cf_Topics := topics;
      cf_AddrMap := foldl (λ m v, {[v]} ∪ m) ∅ addresses;
      cf_TopicMap := map (foldl (λ m v, {[v]} ∪ m) ∅) topics |}
  end.

(** The loop of [Check] over the topic map, from index [idx]. *)
Fixpoint check_topics (topicMap : list (gset hash)) (idx : nat) (topics : list hash) : bool :=
  match topicMap with
  | [] => true
  | topicSet :: topicMap =>
      if decide (topicSet = ∅) then check_topics topicMap (S idx) topics
      else match topics !! idx with
           | None => false
           | Some t =>
               if decide (t ∈ topicSet) then check_topics topicMap (S idx) topics else false
           end
  end.

Definition Check_filter (c : option CompiledFilter) (l : LogAddressTopics) : bool :=
  match c with
  | None => true
  | Some c =>
      if negb (bool_decide (cf_AddrMap c = ∅)) && negb (bool_decide (log_Address l ∈ cf_AddrMap c))
      then false
      else check_topics (cf_TopicMap c) 0 (log_Topics l)
  end.

(** [CompiledFilter.Filter]. *)
Definition Filter_logs (c : option CompiledFilter) (logs : list Log) : list Log :=
  match c with
  | None => logs
  | Some _ =>
      foldl (λ o v, if Check_filter c (log_header v) then o ++ [v] else o) [] logs
  end.

(** [Logs.Filter]. *)
Definition Logs_Filter (logs : list Log) (addresses : list address)
    (topics : list (list hash)) : list Log :=
  Filter_logs (CompileFilter addresses topics) logs.

(** ** Two rules *)

(** The rule of the code.  No addresses accept any; otherwise the address is
    listed.  A position without alternatives accepts anything, also a missing
    topic; otherwise the log has a topic there and it is one of the
    alternatives. *)
Definition matches (addresses : list address) (topics : list (list hash))
    (l : LogAddressTopics) : Prop :=
  (addresses = [] ∨ log_Address l ∈ addresses) ∧
  ∀ i row, topics !! i = Some row →
    row = [] ∨ ∃ t, log_Topics l !! i = Some t ∧ t ∈ row.

(** The rule of the doc of [FilterQueryTopics]: "topics matches a prefix of that
    list", so that the log has a topic at every position, and a position without
    alternatives accepts any. *)
Definition documented (addresses : list address) (topics : list (list hash))
    (l : LogAddressTopics) : Prop :=
  (addresses = [] ∨ log_Address l ∈ addresses) ∧
  ∀ i row, topics !! i = Some row → ∃ t, log_Topics l !! i = Some t ∧ (row = [] ∨ t ∈ row).

(** ** Lemmas *)

(** They differ on a log with fewer topics than the filter has positions. *)
Lemma documented_matches addresses topics l :
  documented addresses topics l ↔
  matches addresses topics l ∧ (List.length topics ≤ List.length (log_Topics l))%nat.
Proof.
  split.
  - intros [Ha Ht]. split; [split; [done|]|].
    + intros i row Hi. destruct (Ht i row Hi) as (t & ? & [?|?]); [by left|right; by exists t].
    + destruct (decide (List.length topics ≤ List.length (log_Topics l))%nat) as [|Hlt]; [done|].
      destruct (lookup_lt_is_Some_2 topics (List.length (log_Topics l))) as [row Hrow]; [lia|].
      destruct (Ht _ _ Hrow) as (t & Hs & _). apply lookup_lt_Some in Hs. lia.
  - intros [[Ha Ht] Hl]. split; [done|]. intros i row Hi.
    destruct (Ht i row Hi) as [->|(t & ? & ?)]; [|exists t; auto].
    apply lookup_lt_Some in Hi. destruct (lookup_lt_is_Some_2 (log_Topics l) i) as [t Hs]; [lia|].
    exists t. auto.
Qed.

Lemma elem_of_foldl_union (l : list (list Z)) (x : list Z) (m : gset (list Z)) :
  x ∈ foldl (λ m v, {[v]} ∪ m) m l ↔ x ∈ l ∨ x ∈ m.
Proof.
  revert m. induction l as [|v l IH]; intros m; simpl; [set_solver|].
  rewrite IH. set_solver.
Qed.

Lemma foldl_union_empty (l : list (list Z)) :
  foldl (λ m v, {[v]} ∪ m) (∅ : gset (list Z)) l = ∅ ↔ l = [].
Proof.
  split; [|by intros ->]. intros H. destruct l as [|v l]; [done|].
  assert (v ∈ (∅ : gset (list Z))) as []%elem_of_empty.
  rewrite <- H. apply elem_of_foldl_union. set_solver.
Qed.

Lemma check_topics_spec rows idx topics :
  check_topics (map (foldl (λ m v, {[v]} ∪ m) ∅) rows) idx topics = true ↔
  ∀ i row, rows !! i = Some row →
    row = [] ∨ ∃ t, topics !! (idx + i)%nat = Some t ∧ t ∈ row.
Proof.
  revert idx. induction rows as [|r rows IH]; intros idx; [by split|].
  cbn [map check_topics].
  assert ((∀ i row, (r :: rows) !! i = Some row →
             row = [] ∨ ∃ t, topics !! (idx + i)%nat = Some t ∧ t ∈ row) ↔
          (r = [] ∨ ∃ t, topics !! idx = Some t ∧ t ∈ r) ∧
          check_topics (map (foldl (λ m v, {[v]} ∪ m) ∅) rows) (S idx) topics = true) as ->.
  { rewrite IH. split.
    - intros H. split.
      + rewrite <- (Nat.add_0_r idx). by apply (H 0%nat).
      + intros i row Hi. replace (S idx + i)%nat with (idx + S i)%nat by lia. by apply (H (S i)).
    - intros [H0 H] [|i] row Hi.
      + injection Hi as <-. by rewrite Nat.add_0_r.
      + replace (idx + S i)%nat with (S idx + i)%nat by lia. by apply H. }
  destruct (decide (_ = ∅)) as [He|He]; rewrite foldl_union_empty in He.
  { naive_solver. }
  destruct (topics !! idx) as [t|]; [|naive_solver].
  destruct (decide (t ∈ _)) as [Hin|Hin]; rewrite elem_of_foldl_union in Hin; set_solver.
Qed.

Lemma Filter_logs_filter c logs :
  Filter_logs c logs = List.filter (λ v, Check_filter c (log_header v)) logs.
Proof.
  destruct c as [c|]; unfold Filter_logs.
  2: { induction logs as [|v logs IH]; [done|]. 
       cbn [List.filter]. f_equal. exact IH. }
  assert (∀ o, foldl (λ o v, if Check_filter (Some c) (log_header v) then o ++ [v] else o) o logs
    = o ++ List.filter (λ v, Check_filter (Some c) (log_header v)) logs) as H.
  { induction logs as [|v logs IH]; intros o; cbn [foldl List.filter]; [by rewrite app_nil_r|].
    rewrite IH. destruct (Check_filter _ _); [by rewrite <- app_assoc|done]. }
  apply (H []).
Qed.

Lemma Check_filter_spec addresses topics l :
  Check_filter (CompileFilter addresses topics) l = true ↔ matches addresses topics l.
Proof.
  assert (Check_filter (Some {|
      cf_Addresses := addresses; cf_Topics := topics;
      cf_AddrMap := foldl (λ m v, {[v]} ∪ m) ∅ addresses;
      cf_TopicMap := map (foldl (λ m v, {[v]} ∪ m) ∅) topics |}) l = true
    ↔ matches addresses topics l) as Hsome.
  { unfold Check_filter, matches. simpl.
    rewrite <- (check_topics_spec topics 0 (log_Topics l)).
    rewrite <- (foldl_union_empty addresses).
    assert (log_Address l ∈ addresses ↔
      log_Address l ∈ foldl (λ m v, {[v]} ∪ m) (∅ : gset address) addresses) as ->.
    { rewrite elem_of_foldl_union. set_solver. }
    repeat case_bool_decide; simpl; naive_solver. }
  destruct addresses, topics; exact Hsome.
Qed.

#[export] Instance matches_dec addresses topics l : Decision (matches addresses topics l).
Proof.
  refine (cast_if (decide (Check_filter (CompileFilter addresses topics) l = true)));
    by rewrite <- Check_filter_spec.
Defined.

#[export] Instance documented_dec addresses topics l : Decision (documented addresses topics l).
Proof.
  refine (cast_if (decide (matches addresses topics l ∧
    (List.length topics ≤ List.length (log_Topics l))%nat))); by rewrite documented_matches.
Defined.

(** ** Properties *)

Module LogsProps.
(** the filter {{A}, {}} asks for a second topic, whichever it is; it accepts
    a log that has the topic A alone. *)
Theorem empty_position_missing a (l : LogAddressTopics) :
  log_Topics l = [a] →
  Check_filter (CompileFilter [] [[a]; []]) l = true ∧ ¬ documented [] [[a]; []] l.
Proof.
  intros Hl. rewrite Check_filter_spec, documented_matches, Hl. split; [|intros [_ ?]; simpl in *; lia].
  split; [by left|]. rewrite Hl. intros [|[|i]] row [= <-]; [right|by left].
  exists a. split; [done|by left].
Qed.

(** filtering logs with a compiled filter keeps, in order, exactly the
    logs that satisfy the rule of the code: the address is listed or none is,
    and at every position with alternatives the log has one of them. *)
Theorem Logs_Filter_spec logs addresses topics :
  Logs_Filter logs addresses topics
  = filter (λ v, matches addresses topics (log_header v)) logs.
Proof.
  unfold Logs_Filter. rewrite Filter_logs_filter.
  induction logs as [|v logs IH]; [done|]. cbn [List.filter]. rewrite filter_cons, IH.
  destruct (decide (matches _ _ _)) as [Hm|Hm].
  - apply Check_filter_spec in Hm. by rewrite Hm.
  - destruct (Check_filter _ _) eqn:E; [|done]. by apply Check_filter_spec in E.
Qed.
End LogsProps.
