(* ===== verification/Block.v ===== *)
(** * Blocks, transactions, receipts and logs as JSON: [lib/ethtypes/block.go],
    [logs.go]

    How [encoding/json] codes a Go struct is written once, over the list of the
    struct's fields; the wire types of the source are then their fields, in
    the order of the declarations. *)
From S2P Require Import Prelude Errors Json EthTypes Logs.

(** ** Structs as [encoding/json] codes them *)

(** How a type is encoded and decoded.  An encoder is told whether the value
    is addressable, since methods with a pointer receiver are only called then;
    a decoder is given the value that it overwrites. *)
Record codec (A : Type) := Codec {
  zero : A;
  encode : bool → A → json;
  decode : json → A → res goerr A;
}.
Arguments Codec {A} _ _ _.
Arguments zero {A} _.
Arguments encode {A} _ _ _.
Arguments decode {A} _ _ _.

(** A field of [T]: its tag, and whether a value of it is left out. *)
Record slot (T : Type) := Slot {
  sl_type : Type;
  sl_key : string;
  sl_omit : sl_type → bool;
  sl_codec : codec sl_type;
  sl_get : T → sl_type;
  sl_set : sl_type → T → T;
}.
Arguments Slot {T} _ _ _ _ _ _.
Arguments sl_type {T} _.
Arguments sl_key {T} _.
Arguments sl_omit {T} _ _.
Arguments sl_codec {T} _.
Arguments sl_get {T} _ _.
Arguments sl_set {T} _ _ _.

(** A record by its fields, and the setters found from that. *)
Class Eta (T : Type) := eta : T → T.
Class Setter {T A} (get : T → A) := field_set : A → T → T.

Ltac solve_setter :=
  match goal with
  | |- @Setter ?T ?A ?get =>
      let f := constr:(λ t : T, ltac:(
        let e := eval unfold eta in (eta t) in
        let e := eval hnf in e in
        match eval pattern (get t) in e with
        | ?g _ => exact g
        end)) in
      let f := eval cbv beta in (λ (a : A) (t : T), f t a) in exact f
  end.
#[export] Hint Extern 1 (Setter _) => solve_setter : typeclass_instances.

Definition field {T A} (key : string) (get : T → A) `{S : !Setter get} (C : codec A) : slot T :=
  Slot A key (λ _, false) C get S.

(** [omitempty]. *)
Definition field_omit {T A} (key : string) (get : T → A) `{S : !Setter get} (C : codec A)
    (empty : A → bool) : slot T :=
  Slot A key empty C get S.

(** The fields of an embedded struct are fields of the struct. *)
Definition promote {S T} (get : T → S) `{St : !Setter get} (s : slot S) : slot T :=
  Slot (sl_type s) (sl_key s) (sl_omit s) (sl_codec s)
    (λ t, sl_get s (get t)) (λ a t, field_set (sl_set s a (get t)) t).

Section struct.
Context {T : Type} (fs : list (slot T)).

(** The field a member belongs to, by its tag up to case. *)
Definition find_field (key : string) : option (slot T) :=
  List.find (λ f, field_match (sl_key f) key) fs.

Fixpoint decode_members (kvs : list (string * json)) (t : T) : res goerr T :=
  match kvs with
  | [] => Ok t
  | (k, v) :: kvs =>
      t' ← match find_field k with
           | Some f => a ← decode (sl_codec f) v (sl_get f t); Ok (sl_set f a t)
           | None => Ok t
           end;
      decode_members kvs t'
  end.

Definition encode_member (addr : bool) (t : T) (f : slot T) : option (string * json) :=
  if sl_omit f (sl_get f t) then None
  else Some (sl_key f, encode (sl_codec f) addr (sl_get f t)).

Definition struct (z : T) : codec T := Codec z
  (λ addr t, JObj (omap (encode_member addr t) fs))
  (λ v t, match v with
          | JObj kvs => decode_members kvs t
          | JNull => Ok t
          | _ => Err json_error
          end).
End struct.

(** A pointer: null is nil, and what is pointed to is addressable. *)
Definition pointer {A} (C : codec A) : codec (option A) := Codec None
  (λ _ o, match o with Some a => encode C true a | None => JNull end)
  (λ v o, match v with
          | JNull => Ok None
          | v => a ← decode C v (default (zero C) o); Ok (Some a)
          end).

Fixpoint decode_elems {A} (C : codec A) (l : list json) (old : list A) : res goerr (list A) :=
  match l with
  | [] => Ok []
  | v :: l =>
      a ← decode C v (default (zero C) (head old));
      rest ← decode_elems C l (tail old);
      Ok (a :: rest)
  end.

(** A slice, nil or not: its elements are addressable, and those it had are
    decoded over. *)
Definition slice {A} (C : codec A) : codec (option (list A)) := Codec None
  (λ _ o, match o with Some l => JArr (map (encode C true) l) | None => JNull end)
  (λ v o, match v with
          | JNull => Ok None
          | JArr l => l ← decode_elems C l (default [] o); Ok (Some l)
          | _ => Err json_error
          end).

Definition boolean : codec bool := Codec false (λ _, JBool)
  (λ v b, match v with JNull => Ok b | _ => unmarshal_bool v end).

(** An [any] is kept as the document it was decoded from. *)
Definition anything : codec json := Codec JNull (λ _ v, v) (λ v _, Ok v).

(** [json.Unmarshal] over a value. *)
Definition json_Unmarshal {A} (C : codec A) (v : json) (a : A) : res goerr A :=
  if json_valid v then decode C v a else Err json_error.

(** ** Scalars *)

(** [hexutil.Bytes] of go-ethereum and [uint256.Int] of holiman/uint256. *)
Class EthNum := {
  bytes_marshal : list Z → json;
  bytes_unmarshal : json → res goerr (list Z);
  Int_Hex : Z → string;
  Int_unmarshal : json → res goerr Z;
}.

(** Their documented encodings are read back. *)
Class EthNumSpec `{N : EthNum} : Prop := {
  bytes_text l : ∃ s, bytes_marshal l = JStr s;
  bytes_roundtrip l : Forall (λ b, 0 <= b < 256) l → bytes_unmarshal (bytes_marshal l) = Ok l;
  Int_roundtrip n : 0 <= n < 2 ^ 256 → Int_unmarshal (JStr (Int_Hex n)) = Ok n;
}.

Section scalars.
Context `{E : Eth} `{N : EthNum}.

(** A type with methods of its own, which overwrite. *)
Definition own {A} (z : A) (marshal : A → json) (unmarshal : json → res goerr A) : codec A :=
  Codec z (λ _, marshal) (λ v _, unmarshal v).

Definition Hash_codec : codec hash := own zero_hash hash_marshal hash_unmarshal.
Definition Address_codec : codec address := own zero_address address_marshal address_unmarshal.
Definition Bytes_codec : codec (list Z) := own [] bytes_marshal bytes_unmarshal.
Definition Uint64_codec : codec Z := own 0 (λ n, JStr (EncodeUint64 n)) uint64_unmarshal.

(** [uint256.Int] is an array of four 64-bit limbs, the lowest first. *)
Definition limbs (n : Z) : list Z := map (λ i, u64 (Z.shiftr n (64 * i))) [0; 1; 2; 3].

Definition Uint256_MarshalJSON (T : Z) : json := JStr (Int_Hex T).
Definition Uint256_UnmarshalJSON (b : json) : res goerr Z := Int_unmarshal b.

(** The methods have pointer receivers: a value that is not addressable is
    encoded as the array that it is. *)
Definition Uint256_codec : codec Z := Codec 0
  (λ addr n, if addr : bool then Uint256_MarshalJSON n
             else JArr (map (λ x, JNum (pretty x)) (limbs n)))
  (λ v _, Uint256_UnmarshalJSON v).
End scalars.

(** ** [lib/ethtypes/block.go] *)

Record Head := {
  Hash : hash;
  Number : Z;
}.

Record BlockWithdrawal := {
  wd_Amount : Z;
  wd_Address : address;
  wd_Index : Z;
  wd_ValidatorIndex : Z;
}.

Record blockHeader := {
  hd_Head : Head;
  ParentHash : hash;
  ExtraData : list Z;
  Nonce : list Z;
  LogsBloom : list Z;
  GasLimit : Z;
  WithdrawalsRoot : option hash;
  Timestamp : Z;
  ReceiptsRoot : hash;
  Difficulty : Z;
  GasUsed : Z;
  StateRoot : hash;
  Miner : address;
  MixHash : hash;
  Sha3Uncles : hash;
  TransactionsRoot : hash;
  BaseFeePerGas : Z;
  Size : Z;
  Uncles : option (list json);
  Withdrawals : option (list BlockWithdrawal);
  TotalDifficulty : Z;
}.

Record TransactionAccess := {
  ta_Address : address;
  ta_StorageKeys : option (list hash);
}.

Record Transaction := {
  tx_GasPrice : Z;
  tx_ChainID : Z;
  tx_BlockHash : hash;
  tx_Type : Z;
  tx_Gas : Z;
  tx_S : Z;
  tx_From : address;
  tx_Hash : hash;
  tx_TransactionIndex : Z;
  tx_Nonce : Z;
  tx_Input : list Z;
  tx_BlockNumber : Z;
  tx_To : option address;
  tx_V : Z;
  tx_R : Z;
  tx_Value : Z;
  tx_AccessList : option (list TransactionAccess);
  tx_MaxFeePerGas : Z;
  tx_MaxPriorityFeePerGas : Z;
}.

Record TransactionReceipt := {
  rc_BlockHash : hash;
  rc_BlockNumber : Z;
  rc_ContractAddress : option address;
  rc_CumulativeGasUsed : Z;
  rc_EffectiveGasPrice : Z;
  rc_From : address;
  rc_GasUsed : Z;
  rc_Logs : option (list (option Log));
  rc_LogsBloom : list Z;
  rc_Status : Z;
  rc_To : option address;
  rc_TransactionHash : hash;
  rc_TransactionIndex : Z;
  rc_Type : Z;
}.

(** A nil transaction is a null of the document. *)
Record BlockHeader := {
  bh_header : blockHeader;
  Transactions : option (list (option Transaction));
  TransactionHashes : option (list hash);
}.

Record TruncatedBlockHeader := {
  tb_header : blockHeader;
  tb_Transactions : option (list (option Transaction));
  tb_TransactionHashes : option (list hash);
}.

Record TransactionlessBlockHeader := { tl_header : blockHeader }.

#[export] Instance Head_eta : Eta Head := λ t, {| Hash := Hash t; Number := Number t |}.
#[export] Instance BlockWithdrawal_eta : Eta BlockWithdrawal := λ t,
  Build_BlockWithdrawal (wd_Amount t) (wd_Address t) (wd_Index t) (wd_ValidatorIndex t).
#[export] Instance blockHeader_eta : Eta blockHeader := λ t,
  Build_blockHeader (hd_Head t) (ParentHash t) (ExtraData t) (Nonce t) (LogsBloom t) (GasLimit t)
    (WithdrawalsRoot t) (Timestamp t) (ReceiptsRoot t) (Difficulty t) (GasUsed t) (StateRoot t)
    (Miner t) (MixHash t) (Sha3Uncles t) (TransactionsRoot t) (BaseFeePerGas t) (Size t)
    (Uncles t) (Withdrawals t) (TotalDifficulty t).
#[export] Instance TransactionAccess_eta : Eta TransactionAccess := λ t,
  Build_TransactionAccess (ta_Address t) (ta_StorageKeys t).
#[export] Instance Transaction_eta : Eta Transaction := λ t,
  Build_Transaction (tx_GasPrice t) (tx_ChainID t) (tx_BlockHash t) (tx_Type t) (tx_Gas t) (tx_S t)
    (tx_From t) (tx_Hash t) (tx_TransactionIndex t) (tx_Nonce t) (tx_Input t) (tx_BlockNumber t)
    (tx_To t) (tx_V t) (tx_R t) (tx_Value t) (tx_AccessList t) (tx_MaxFeePerGas t)
    (tx_MaxPriorityFeePerGas t).
#[export] Instance TransactionReceipt_eta : Eta TransactionReceipt := λ t,
  Build_TransactionReceipt (rc_BlockHash t) (rc_BlockNumber t) (rc_ContractAddress t)
    (rc_CumulativeGasUsed t) (rc_EffectiveGasPrice t) (rc_From t) (rc_GasUsed t) (rc_Logs t)
    (rc_LogsBloom t) (rc_Status t) (rc_To t) (rc_TransactionHash t) (rc_TransactionIndex t)
    (rc_Type t).
#[export] Instance BlockHeader_eta : Eta BlockHeader := λ t,
  Build_BlockHeader (bh_header t) (Transactions t) (TransactionHashes t).
#[export] Instance TruncatedBlockHeader_eta : Eta TruncatedBlockHeader := λ t,
  Build_TruncatedBlockHeader (tb_header t) (tb_Transactions t) (tb_TransactionHashes t).
#[export] Instance TransactionlessBlockHeader_eta : Eta TransactionlessBlockHeader := λ t,
  Build_TransactionlessBlockHeader (tl_header t).
#[export] Instance LogAddressTopics_eta : Eta LogAddressTopics := λ t,
  Build_LogAddressTopics (log_Address t) (log_TopicSlice t).
#[export] Instance Log_eta : Eta Log := λ t,
  Build_Log (log_header t) (log_Data t) (log_TransactionHash t) (log_TransactionIndex t)
    (log_BlockHash t) (log_BlockNumber t) (log_Index t) (log_Removed t) (log_Timestamp t).

Section wire.
Context `{E : Eth} `{N : EthNum}.

Definition Head_fields : list (slot Head) :=
  [field "hash" Hash Hash_codec; field "number" Number Uint64_codec].

Definition BlockWithdrawal_fields : list (slot BlockWithdrawal) :=
  [field "amount" wd_Amount Uint256_codec; field "address" wd_Address Address_codec;
   field "index" wd_Index Uint64_codec; field "validatorIndex" wd_ValidatorIndex Uint64_codec].

Definition BlockWithdrawal_json : codec BlockWithdrawal := struct BlockWithdrawal_fields
  (Build_BlockWithdrawal 0 zero_address 0 0).

Definition blockHeader_fields : list (slot blockHeader) :=
  map (promote hd_Head) Head_fields
  ++ [field "parentHash" ParentHash Hash_codec; field "extraData" ExtraData Bytes_codec;
      field "nonce" Nonce Bytes_codec; field "logsBloom" LogsBloom Bytes_codec;
      field "gasLimit" GasLimit Uint256_codec;
      field "withdrawalsRoot" WithdrawalsRoot (pointer Hash_codec);
      field "timestamp" Timestamp Uint64_codec; field "receiptsRoot" ReceiptsRoot Hash_codec;
      field "difficulty" Difficulty Uint256_codec; field "gasUsed" GasUsed Uint256_codec;
      field "stateRoot" StateRoot Hash_codec; field "miner" Miner Address_codec;
      field "mixHash" MixHash Hash_codec; field "sha3Uncles" Sha3Uncles Hash_codec;
      field "transactionsRoot" TransactionsRoot Hash_codec;
      field "baseFeePerGas" BaseFeePerGas Uint256_codec;
      field "size" Size Uint256_codec; field "uncles" Uncles (slice anything);
      field "withdrawals" Withdrawals (slice BlockWithdrawal_json);
      field "totalDifficulty" TotalDifficulty Uint256_codec].

Definition blockHeader_zero : blockHeader :=
  Build_blockHeader (Build_Head zero_hash 0) zero_hash [] [] [] 0 None 0 zero_hash 0 0 zero_hash
    zero_address zero_hash zero_hash zero_hash 0 0 None None 0.

Definition TransactionAccess_fields : list (slot TransactionAccess) :=
  [field "address" ta_Address Address_codec;
   field "storageKeys" ta_StorageKeys (slice Hash_codec)].

Definition TransactionAccess_json : codec TransactionAccess := struct TransactionAccess_fields
  (Build_TransactionAccess zero_address None).

(** [omitempty] of a slice, of a number, of an array, which is never empty. *)
Definition no_elements {A} (o : option (list A)) : bool :=
  match o with Some (_ :: _) => false | _ => true end.
Definition no_bytes (l : list Z) : bool := match l with [] => true | _ => false end.
Definition zero_number (n : Z) : bool := n =? 0.
Definition never {A} (a : A) : bool := false.

Definition Transaction_fields : list (slot Transaction) :=
  [field "gasPrice" tx_GasPrice Uint256_codec; field "chainId" tx_ChainID Uint64_codec;
   field "blockHash" tx_BlockHash Hash_codec; field "type" tx_Type Uint64_codec;
   field "gas" tx_Gas Uint256_codec; field "s" tx_S Uint256_codec;
   field "from" tx_From Address_codec; field "hash" tx_Hash Hash_codec;
   field "transactionIndex" tx_TransactionIndex Uint64_codec; field "nonce" tx_Nonce Uint64_codec;
   field "input" tx_Input Bytes_codec; field "blockNumber" tx_BlockNumber Uint64_codec;
   field "to" tx_To (pointer Address_codec); field "v" tx_V Uint256_codec;
   field "r" tx_R Uint256_codec; field "value" tx_Value Uint256_codec;
   field_omit "accessList" tx_AccessList (slice TransactionAccess_json) no_elements;
   field_omit "maxFeePerGas" tx_MaxFeePerGas Uint256_codec never;
   field_omit "maxPriorityFeePerGas" tx_MaxPriorityFeePerGas Uint256_codec never].

Definition Transaction_json : codec Transaction := struct Transaction_fields
  (Build_Transaction 0 0 zero_hash 0 0 0 zero_address zero_hash 0 0 [] 0 None 0 0 0 None 0 0).

(** [lib/ethtypes/logs.go]. *)
Definition LogAddressTopics_fields : list (slot LogAddressTopics) :=
  [field "address" log_Address Address_codec; field "topics" log_TopicSlice (slice Hash_codec)].

Definition Log_fields : list (slot Log) :=
  map (promote log_header) LogAddressTopics_fields
  ++ [field "data" log_Data Bytes_codec; field "transactionHash" log_TransactionHash Hash_codec;
      field "transactionIndex" log_TransactionIndex Uint64_codec;
      field "blockHash" log_BlockHash Hash_codec; field "blockNumber" log_BlockNumber Uint64_codec;
      field "logIndex" log_Index Uint64_codec; field "removed" log_Removed boolean;
      field_omit "timestamp" log_Timestamp Uint64_codec zero_number].

Definition Log_json : codec Log := struct Log_fields
  (Build_Log (Build_LogAddressTopics zero_address None) [] zero_hash 0 zero_hash 0 0 false 0).

Definition TransactionReceipt_fields : list (slot TransactionReceipt) :=
  [field "blockHash" rc_BlockHash Hash_codec; field "blockNumber" rc_BlockNumber Uint64_codec;
   field "contractAddress" rc_ContractAddress (pointer Address_codec);
   field "cumulativeGasUsed" rc_CumulativeGasUsed Uint256_codec;
   field "effectiveGasPrice" rc_EffectiveGasPrice Uint256_codec;
   field "from" rc_From Address_codec; field "gasUsed" rc_GasUsed Uint256_codec;
   field "logs" rc_Logs (slice (pointer Log_json));
   field_omit "logsBloom" rc_LogsBloom Bytes_codec no_bytes;
   field "status" rc_Status Uint64_codec; field "to" rc_To (pointer Address_codec);
   field "transactionHash" rc_TransactionHash Hash_codec;
   field "transactionIndex" rc_TransactionIndex Uint64_codec; field "type" rc_Type Uint64_codec].

Definition TransactionReceipt_json : codec TransactionReceipt :=
  struct TransactionReceipt_fields
    (Build_TransactionReceipt zero_hash 0 None 0 0 zero_address 0 None [] 0 None zero_hash 0 0).

(** The transactions are decoded, the hashes are not: their tag is ["-"]. *)
Definition BlockHeader_fields : list (slot BlockHeader) :=
  map (promote bh_header) blockHeader_fields
  ++ [field "transactions" Transactions (slice (pointer Transaction_json))].

Definition BlockHeader_zero : BlockHeader := Build_BlockHeader blockHeader_zero None None.
Definition BlockHeader_struct : codec BlockHeader := struct BlockHeader_fields BlockHeader_zero.

(** In a truncated block it is the other way round. *)
Definition TruncatedBlockHeader_fields : list (slot TruncatedBlockHeader) :=
  map (promote tb_header) blockHeader_fields
  ++ [field "transactions" tb_TransactionHashes (slice Hash_codec)].

Definition TruncatedBlockHeader_json : codec TruncatedBlockHeader :=
  struct TruncatedBlockHeader_fields (Build_TruncatedBlockHeader blockHeader_zero None None).

Definition TransactionlessBlockHeader_json : codec TransactionlessBlockHeader :=
  struct (map (promote tl_header) blockHeader_fields)
    (Build_TransactionlessBlockHeader blockHeader_zero).

(** The loop over the transactions that collects their hashes. *)
Fixpoint collect_hashes (txs : list (option Transaction)) (hs : option (list hash))
    : outcome (option (list hash)) :=
  match txs with
  | [] => Return hs
  | Some txn :: txs => collect_hashes txs (Some (default [] hs ++ [tx_Hash txn]))
  | None :: _ => Panic "nil pointer dereference"
  end.

Definition BlockHeader_UnmarshalJSON (xs : json) (T : BlockHeader)
    : outcome (res goerr BlockHeader) :=
  match json_Unmarshal BlockHeader_struct xs T with
  | Err err => Return (Err err)
  | Ok T =>
      let made := match Transactions T with
                  | Some _ => Some []
                  | None => TransactionHashes T
                  end in
      hs ← collect_hashes (default [] (Transactions T)) made;
      Return (Ok {| bh_header := bh_header T; Transactions := Transactions T;
                    TransactionHashes := hs |})
  end.

(** [json.Marshal] of a header: by a pointer, or by value. *)
Definition BlockHeader_marshal (pointed : bool) (T : BlockHeader) : json :=
  encode BlockHeader_struct pointed T.
End wire.

(** ** Lemmas: a struct is read back *)

Module CodecFacts.

(** A value that is encoded to a document, from which it is decoded over the
    zero value of its type. *)
Definition exact {A} (C : codec A) (a : A) : Prop :=
  json_valid (encode C true a) = true ∧ decode C (encode C true a) (zero C) = Ok a.

(** A field that is left out has its zero value. *)
Definition slot_exact {T} (t : T) (f : slot T) : Prop :=
  if sl_omit f (sl_get f t) then sl_get f t = zero (sl_codec f)
  else exact (sl_codec f) (sl_get f t).

(** Fields do not overlap, and setting what is there changes nothing. *)
Record lawful {T} (fs : list (slot T)) (z : T) : Prop := {
  lw_keys : NoDup (map (λ f, Search.upper (sl_key f)) fs);
  lw_zero : Forall (λ f, sl_get f z = zero (sl_codec f)) fs;
  lw_stable : Forall (λ f, ∀ t, sl_set f (sl_get f t) t = t) fs;
  lw_apart : ForallOrdPairs (λ f g, ∀ a t, sl_get g (sl_set f a t) = sl_get g t) fs;
}.

(** The fields of [t] copied one by one. *)
Definition copies {T} (fs : list (slot T)) (t z : T) : T :=
  foldl (λ z f, sl_set f (sl_get f t) z) z fs.

Section struct.
Context {T : Type}.

Lemma find_field_key (fs : list (slot T)) f :
  NoDup (map (λ f, Search.upper (sl_key f)) fs) → In f fs → find_field fs (sl_key f) = Some f.
Proof.
  unfold find_field. induction fs as [|g fs IH]; intros Hn Hf; [done|].
  apply NoDup_cons in Hn as [Hg Hn]. cbn [List.find]. unfold field_match at 1.
  destruct Hf as [->|Hf]; [by rewrite bool_decide_true|].
  rewrite bool_decide_false; [by apply IH|]. intros He. apply Hg. rewrite <- He.
  apply list_elem_of_In, in_map_iff. by exists f.
Qed.

Lemma decode_members_copies (fs gs : list (slot T)) t z :
  (∀ f, In f gs → find_field fs (sl_key f) = Some f) →
  Forall (λ f, sl_get f z = zero (sl_codec f)) gs →
  Forall (λ f, ∀ t, sl_set f (sl_get f t) t = t) gs →
  ForallOrdPairs (λ f g, ∀ a t, sl_get g (sl_set f a t) = sl_get g t) gs →
  Forall (slot_exact t) gs →
  decode_members fs (omap (encode_member true t) gs) z = Ok (copies gs t z).
Proof.
  revert z. induction gs as [|f gs IH]; intros z Hf Hz Hs Ha He; [done|].
  apply Forall_cons in Hz as [Hzf Hz], Hs as [Hsf Hs], He as [Hef He].
  inversion Ha as [|? ? Haf Ha']; subst.
  assert (Forall (λ g, sl_get g (sl_set f (sl_get f t) z) = zero (sl_codec g)) gs) as Hz'.
  { apply Forall_forall. intros g Hg. rewrite Forall_forall in Hz.
    rewrite <- (Hz g Hg). eapply (proj1 (List.Forall_forall _ _) Haf), list_elem_of_In, Hg. }
  specialize (IH (sl_set f (sl_get f t) z) (λ g Hg, Hf g (or_intror Hg)) Hz' Hs Ha' He).
  cbn [omap list_omap copies foldl]. unfold slot_exact in Hef. unfold encode_member at 1.
  destruct (sl_omit f (sl_get f t)).
  - rewrite <- Hzf in Hef. rewrite Hef, Hsf in *. exact IH.
  - destruct Hef as [_ Hd]. cbn [decode_members]. rewrite (Hf f) by by left.
    rewrite Hzf, Hd. exact IH.
Qed.

Lemma struct_exact fs (t z : T) :
  lawful fs z → Forall (slot_exact t) fs → copies fs t z = t → exact (struct fs z) t.
Proof.
  intros L He Hc. split; cbn [encode decode zero struct].
  - cbn [json_valid]. apply forallb_forall. intros kv Hkv%list_elem_of_In.
    apply list_elem_of_omap in Hkv as (f & Hf & Hkv). rewrite Forall_forall in He.
    specialize (He f Hf). unfold slot_exact, encode_member in *.
    destruct (sl_omit f _); [done|]. injection Hkv as <-. apply He.
  - rewrite (decode_members_copies fs fs); [by rewrite Hc|..]; try apply L; [|done].
    intros f Hf. apply find_field_key; [apply L|done].
Qed.
End struct.

(** Only the listed fields matter to the encoder. *)
Lemma encode_same {T} (fs : list (slot T)) z addr (t t' : T) :
  Forall (λ f, sl_get f t = sl_get f t') fs →
  encode (struct fs z) addr t = encode (struct fs z) addr t'.
Proof.
  intros H. cbn [encode struct]. f_equal. induction H as [|f fs Hf _ IH]; [done|].
  cbn [omap list_omap].
  assert (encode_member addr t f = encode_member addr t' f) as ->.
  { unfold encode_member. by rewrite Hf. }
  by rewrite IH.
Qed.

(** *** Pointers and slices *)

Section compound.
Context {A : Type} (C : codec A).

Lemma pointer_exact o :
  (∀ a, o = Some a → exact C a ∧ encode C true a ≠ JNull) → exact (pointer C) o.
Proof.
  intros Ho. destruct o as [a|]; [|done]. destruct (Ho a eq_refl) as [[Hv Hd] Hn].
  split; [done|]. cbn [pointer encode decode zero default].
  destruct (encode C true a); try done; by rewrite Hd.
Qed.

Lemma decode_elems_exact l :
  Forall (exact C) l → decode_elems C (map (encode C true) l) [] = Ok l.
Proof.
  induction 1 as [|a l [_ Ha] _ IH]; [done|]. cbn [map decode_elems head default tail].
  by rewrite Ha, IH.
Qed.

Lemma slice_exact o : (∀ l, o = Some l → Forall (exact C) l) → exact (slice C) o.
Proof.
  intros Ho. destruct o as [l|]; [|done]. specialize (Ho l eq_refl).
  split; cbn [slice encode decode zero default].
  - apply forallb_forall. intros v (a & <- & Ha)%in_map_iff.
    rewrite Forall_forall in Ho. by apply Ho, list_elem_of_In.
  - by rewrite decode_elems_exact.
Qed.
End compound.

Lemma promote_exact {S T} (get : T → S) `{St : !Setter get} (fs : list (slot S)) (t : T) :
  Forall (slot_exact (get t)) fs → Forall (slot_exact t) (map (promote get) fs).
Proof. induction 1; constructor; done. Qed.
End CodecFacts.

(** ** Lemmas: the types of the source *)

Module BlockFacts.
Import CodecFacts.

Section wire.
Context `{ES : EthSpec} `{NS : !EthNumSpec (N := NN)}.

Definition bytes (l : list Z) : Prop := Forall (λ b, 0 <= b < 256) l.
Definition u256 (n : Z) : Prop := 0 <= n < 2 ^ 256.
Definition hash_ok : hash → Prop := is_bytes HashLength.
Definition address_ok : address → Prop := is_bytes AddressLength.
Definition each {A} (P : A → Prop) (o : option A) : Prop := ∀ a, o = Some a → P a.
Definition all {A} (P : A → Prop) (o : option (list A)) : Prop := each (Forall P) o.

Lemma Hash_exact h : hash_ok h → exact Hash_codec h.
Proof. intros Hh. split; [by apply hash_valid|by apply hash_roundtrip]. Qed.

Lemma Address_exact a : address_ok a → exact Address_codec a.
Proof. intros Ha. split; [apply address_valid|by apply address_roundtrip]. Qed.

Lemma Bytes_exact l : bytes l → exact Bytes_codec l.
Proof.
  intros Hl. split; cbn; [by destruct (bytes_text l) as [s ->]|by apply bytes_roundtrip].
Qed.

Lemma Uint64_exact n : in_u64 n → exact Uint64_codec n.
Proof. intros Hn. split; [done|]. cbn. rewrite EncodeUint64_spec by done. by apply uint64_roundtrip. Qed.

Lemma Uint256_exact n : u256 n → exact Uint256_codec n.
Proof. intros Hn. split; [done|]. by apply Int_roundtrip. Qed.

Lemma boolean_exact b : exact boolean b.
Proof. done. Qed.

Lemma Hash_pointer o : each hash_ok o → exact (pointer Hash_codec) o.
Proof.
  intros Ho. apply pointer_exact. intros h Hh. split; [by apply Hash_exact, Ho|].
  destruct (hash_text h (Ho h Hh)) as (s & Hs & _). cbn. by rewrite Hs.
Qed.

Lemma Address_pointer o : each address_ok o → exact (pointer Address_codec) o.
Proof.
  intros Ho. apply pointer_exact. intros a Ha. split; [by apply Address_exact, Ho|].
  destruct (address_text a) as [s Hs]. cbn. by rewrite Hs.
Qed.

Lemma slice_all {A} (C : codec A) (P : A → Prop) o :
  (∀ a, P a → exact C a) → all P o → exact (slice C) o.
Proof.
  intros HP Ho. apply slice_exact. intros l Hl. eapply Forall_impl; [by apply Ho|]. done.
Qed.

Lemma anything_all o : all (λ v, json_valid v = true) o → exact (slice anything) o.
Proof. apply slice_all. done. Qed.

Lemma Hash_slice o : all hash_ok o → exact (slice Hash_codec) o.
Proof. apply slice_all, Hash_exact. Qed.

(** *** Withdrawals and accesses *)

Definition withdrawal_ok (w : BlockWithdrawal) : Prop :=
  u256 (wd_Amount w) ∧ address_ok (wd_Address w) ∧ in_u64 (wd_Index w) ∧
  in_u64 (wd_ValidatorIndex w).

Definition access_ok (a : TransactionAccess) : Prop :=
  address_ok (ta_Address a) ∧ all hash_ok (ta_StorageKeys a).

(** *** The values that the types are for *)

Definition header_ok (h : blockHeader) : Prop :=
  (hash_ok (Hash (hd_Head h)) ∧ in_u64 (Number (hd_Head h)) ∧ hash_ok (ParentHash h)) ∧
  (bytes (ExtraData h) ∧ bytes (Nonce h) ∧ bytes (LogsBloom h)) ∧
  (u256 (GasLimit h) ∧ each hash_ok (WithdrawalsRoot h) ∧ in_u64 (Timestamp h)) ∧
  (hash_ok (ReceiptsRoot h) ∧ u256 (Difficulty h) ∧ u256 (GasUsed h) ∧ hash_ok (StateRoot h)) ∧
  (address_ok (Miner h) ∧ hash_ok (MixHash h) ∧ hash_ok (Sha3Uncles h) ∧
   hash_ok (TransactionsRoot h)) ∧
  (u256 (BaseFeePerGas h) ∧ u256 (Size h) ∧ u256 (TotalDifficulty h)) ∧
  all (λ v, json_valid v = true) (Uncles h) ∧ all withdrawal_ok (Withdrawals h).

(** A transaction whose access list, if empty, is nil. *)
Definition transaction_ok (t : Transaction) : Prop :=
  (u256 (tx_GasPrice t) ∧ in_u64 (tx_ChainID t) ∧ hash_ok (tx_BlockHash t)) ∧
  (in_u64 (tx_Type t) ∧ u256 (tx_Gas t) ∧ address_ok (tx_From t) ∧ hash_ok (tx_Hash t)) ∧
  (in_u64 (tx_TransactionIndex t) ∧ in_u64 (tx_Nonce t) ∧ bytes (tx_Input t)) ∧
  (in_u64 (tx_BlockNumber t) ∧ each address_ok (tx_To t) ∧ u256 (tx_Value t)) ∧
  (u256 (tx_V t) ∧ u256 (tx_R t) ∧ u256 (tx_S t)) ∧
  (all access_ok (tx_AccessList t) ∧ tx_AccessList t ≠ Some []) ∧
  u256 (tx_MaxFeePerGas t) ∧ u256 (tx_MaxPriorityFeePerGas t).

Definition log_ok (l : Log) : Prop :=
  (address_ok (log_Address (log_header l)) ∧ all hash_ok (log_TopicSlice (log_header l))) ∧
  (bytes (log_Data l) ∧ hash_ok (log_TransactionHash l) ∧ in_u64 (log_TransactionIndex l)) ∧
  (hash_ok (log_BlockHash l) ∧ in_u64 (log_BlockNumber l)) ∧
  in_u64 (log_Index l) ∧ in_u64 (log_Timestamp l).

Definition receipt_ok (r : TransactionReceipt) : Prop :=
  (hash_ok (rc_BlockHash r) ∧ in_u64 (rc_BlockNumber r) ∧ each address_ok (rc_ContractAddress r)) ∧
  (u256 (rc_CumulativeGasUsed r) ∧ u256 (rc_EffectiveGasPrice r) ∧ u256 (rc_GasUsed r)) ∧
  (address_ok (rc_From r) ∧ each address_ok (rc_To r) ∧ all (each log_ok) (rc_Logs r)) ∧
  (bytes (rc_LogsBloom r) ∧ in_u64 (rc_Status r) ∧ hash_ok (rc_TransactionHash r)) ∧
  in_u64 (rc_TransactionIndex r) ∧ in_u64 (rc_Type r).
End wire.

Create HintDb wire.
#[export] Hint Resolve Hash_exact Address_exact Bytes_exact Uint64_exact Uint256_exact boolean_exact
  Hash_pointer Address_pointer anything_all Hash_slice : wire.

(** The fields of a struct are lawful by computation. *)
Ltac lawful :=
  split;
  [ apply (bool_decide_unpack _); vm_compute; exact I
  | repeat constructor
  | repeat (apply Forall_cons; split;
            [first [by intros [] | by intros [[]] | by intros [[[]]]]|]); apply Forall_nil_2
  | repeat (constructor; [repeat (constructor; [by intros|]); constructor|]); constructor ].

(** A struct whose fields are exact. *)
Ltac fields_exact :=
  repeat (apply Forall_cons; split; [unfold slot_exact; cbn; eauto with wire|]);
  try apply Forall_nil_2.

Section structs.
Context `{ES : EthSpec} `{NS : !EthNumSpec (N := NN)}.

Lemma Withdrawal_lawful :
  lawful BlockWithdrawal_fields (Build_BlockWithdrawal 0 zero_address 0 0).
Proof. lawful. Qed.

Lemma withdrawal_exact w : withdrawal_ok w → exact BlockWithdrawal_json w.
Proof.
  intros (? & ? & ? & ?). apply struct_exact; [exact Withdrawal_lawful| |by destruct w].
  fields_exact.
Qed.

Lemma withdrawals_exact o : all withdrawal_ok o → exact (slice BlockWithdrawal_json) o.
Proof. apply slice_all, withdrawal_exact. Qed.

Lemma header_fields_exact h : header_ok h → Forall (slot_exact h) blockHeader_fields.
Proof.
  intros (? & ? & ? & ? & ? & ? & ? & ?). destruct_and?.
  pose proof withdrawals_exact. fields_exact.
Qed.

Lemma Access_lawful :
  lawful TransactionAccess_fields (Build_TransactionAccess zero_address None).
Proof. lawful. Qed.

Lemma access_exact a : access_ok a → exact TransactionAccess_json a.
Proof.
  intros [? ?]. apply struct_exact; [exact Access_lawful| |by destruct a]. fields_exact.
Qed.

Lemma accesses_exact o : all access_ok o → exact (slice TransactionAccess_json) o.
Proof. apply slice_all, access_exact. Qed.

Lemma Transaction_lawful : lawful Transaction_fields (zero Transaction_json).
Proof. lawful. Qed.

Lemma transaction_exact t : transaction_ok t → exact Transaction_json t.
Proof.
  intros (? & ? & ? & ? & ? & [Ha Hn] & ? & ?). destruct_and?.
  apply struct_exact; [exact Transaction_lawful| |by destruct t].
  pose proof accesses_exact as Hacc. fields_exact.
  destruct (tx_AccessList t) as [[|a l]|]; [done| |done]. by apply Hacc.
Qed.

Lemma Log_lawful : lawful Log_fields (zero Log_json).
Proof. lawful. Qed.

Lemma log_exact l : log_ok l → exact Log_json l.
Proof.
  intros (? & ? & ? & ? & ?). destruct_and?.
  apply struct_exact; [exact Log_lawful| |by destruct l as [[]]]. fields_exact.
  unfold zero_number. destruct (Z.eqb_spec (log_Timestamp l) 0); [done|]. by apply Uint64_exact.
Qed.

Lemma Receipt_lawful : lawful TransactionReceipt_fields (zero TransactionReceipt_json).
Proof. lawful. Qed.

Lemma receipt_exact r : receipt_ok r → exact TransactionReceipt_json r.
Proof.
  intros (? & ? & (? & ? & Hl) & (Hb & ? & ?) & ? & ?). destruct_and?.
  apply struct_exact; [exact Receipt_lawful| |by destruct r].
  assert (exact (slice (pointer Log_json)) (rc_Logs r)) as Hlogs.
  { revert Hl. apply slice_all. intros o Ho. apply pointer_exact. intros l Hl.
    split; [by apply log_exact, Ho|done]. }
  fields_exact. destruct (rc_LogsBloom r) as [|b l]; [done|]. by apply Bytes_exact.
Qed.

(** *** Blocks *)

(** A block as a server answers it: no transaction is missing, and the hashes
    are theirs. *)
Definition block_ok (b : BlockHeader) : Prop :=
  header_ok (bh_header b) ∧
  match Transactions b with
  | None => TransactionHashes b = None
  | Some txs => ∃ l, txs = map Some l ∧ Forall transaction_ok l ∧
                     TransactionHashes b = Some (map tx_Hash l)
  end.

Lemma Block_lawful : lawful BlockHeader_fields BlockHeader_zero.
Proof. lawful. Qed.

Lemma Truncated_lawful : lawful TruncatedBlockHeader_fields (zero TruncatedBlockHeader_json).
Proof. lawful. Qed.

Lemma transactions_exact o :
  all (each transaction_ok) o → exact (slice (pointer Transaction_json)) o.
Proof.
  apply slice_all. intros t Ht. apply pointer_exact. intros t' ->.
  split; [by apply transaction_exact, Ht|done].
Qed.

Lemma collect_hashes_run l hs :
  collect_hashes (map Some l) (Some hs) = Return (Some (hs ++ map tx_Hash l)).
Proof.
  revert hs. induction l as [|t l IH]; intros hs; [by rewrite app_nil_r|].
  cbn [map collect_hashes default]. by rewrite IH, <- app_assoc.
Qed.

Lemma block_struct_exact h txs :
  header_ok h → all (each transaction_ok) txs →
  exact BlockHeader_struct (Build_BlockHeader h txs None).
Proof.
  intros Hh Ht. set (b := Build_BlockHeader _ _ _). apply struct_exact.
  - exact Block_lawful.
  - apply Forall_app. split; [by apply (promote_exact bh_header _ b), header_fields_exact|].
    apply Forall_singleton. by apply transactions_exact.
  - by destruct h as [[]].
Qed.

(** What the decoder does with an encoded block. *)
Lemma unmarshal_marshal h txs hs :
  header_ok h → all (each transaction_ok) txs →
  BlockHeader_UnmarshalJSON (BlockHeader_marshal true (Build_BlockHeader h txs hs))
    BlockHeader_zero
  = (hs ← collect_hashes (default [] txs) (match txs with Some _ => Some [] | None => None end);
     Return (Ok (Build_BlockHeader h txs hs))).
Proof.
  intros Hh Ht. destruct (block_struct_exact h txs Hh Ht) as [Hv Hd].
  unfold BlockHeader_UnmarshalJSON, json_Unmarshal.
  unfold BlockHeader_marshal, BlockHeader_struct in *.
  rewrite (encode_same _ _ _ _ (Build_BlockHeader h txs None)), Hv
    by (repeat constructor; done).
 cbn [zero struct] in Hd. by rewrite Hd.
Qed.

Lemma collect_hashes_null l hs : None ∈ l → collect_hashes l hs = Panic "nil pointer dereference".
Proof.
  revert hs. induction l as [|[t|] l IH]; intros hs Hl; [by apply elem_of_nil in Hl| |done].
  apply elem_of_cons in Hl as [|Hl]; [done|]. cbn [collect_hashes]. by rewrite IH.
Qed.

Lemma truncated_exact h hs :
  header_ok h → all hash_ok hs →
  exact TruncatedBlockHeader_json (Build_TruncatedBlockHeader h None hs).
Proof.
  intros Hh Hs. set (b := Build_TruncatedBlockHeader _ _ _). apply struct_exact.
  - exact Truncated_lawful.
  - apply Forall_app. split; [by apply (promote_exact tb_header _ b), header_fields_exact|].
    apply Forall_singleton. by apply Hash_slice.
  - by destruct h as [[]].
Qed.

(** A member that cannot be decoded fails the whole struct. *)
Lemma decode_members_err {T} (fs : list (slot T)) kvs k v f t :
  (k, v) ∈ kvs → find_field fs k = Some f → (∀ a, ∃ e, decode (sl_codec f) v a = Err e) →
  ∃ e, decode_members fs kvs t = Err e.
Proof.
  intros Hk Hf He. revert t. induction kvs as [|[k' v'] kvs IH]; intros t.
  { by apply elem_of_nil in Hk. }
  cbn [decode_members]. apply elem_of_cons in Hk as [[= <- <-]|Hk].
  - rewrite Hf. destruct (He (sl_get f t)) as [e ->]. by exists e.
  - destruct (find_field fs k') as [g|]; [|by apply IH].
    destruct (decode (sl_codec g) v' (sl_get g t)) as [a|e]; cbn [mbind res_bind];
      [by apply IH|by exists e].
Qed.
End structs.
End BlockFacts.

(** ** Properties *)

Module BlockProps.
Import CodecFacts BlockFacts.

Section props.
Context `{ES : EthSpec} `{NS : !EthNumSpec (N := NN)}.

(** C24: Blocks survive the wire if they are encoded through a pointer: a block
    with its transactions is decoded to what was encoded, with the hashes of the
    transactions beside them, and the form that has the hashes in place of the
    transactions to the same header and the same hashes.  The block is as a
    server answers it: its numbers and bytes fit their types, no transaction is
    a null, the hashes beside the transactions are theirs, and an access list
    without elements is nil, as an empty one is left out and comes back as nil.
    A block that is encoded by value does not survive ([block_by_value]). *)
Theorem block_roundtrip b :
  block_ok b →
  BlockHeader_UnmarshalJSON (BlockHeader_marshal true b) BlockHeader_zero = Return (Ok b) ∧
  let b' := Build_TruncatedBlockHeader (bh_header b) None (TransactionHashes b) in
  json_Unmarshal TruncatedBlockHeader_json (encode TruncatedBlockHeader_json true b')
    (zero TruncatedBlockHeader_json) = Ok b'.
Proof.
  destruct b as [h txs hs]. intros [Hh Ht]. cbn [bh_header Transactions TransactionHashes] in *.
  assert (all (each transaction_ok) txs ∧ all hash_ok hs) as [Hall Hhs].
  { destruct txs as [txs|]; [|by subst hs]. destruct Ht as (l & -> & Hl & ->).
    split; intros l' [= <-]; apply Forall_fmap; eapply Forall_impl; try exact Hl.
    - by intros t Ht a [= <-].
    - intros t Ht. apply Ht. }
  split.
  - rewrite unmarshal_marshal by done. destruct txs as [txs|]; [|by subst hs].
    destruct Ht as (l & -> & _ & ->). cbn [from_option id]. by rewrite collect_hashes_run.
  - destruct (truncated_exact h hs Hh Hhs) as [Hv Hd]. cbv zeta. unfold json_Unmarshal.
    by rewrite Hv.
Qed.

(** Receipts survive the wire with their logs. *)
Theorem receipt_roundtrip r :
  receipt_ok r →
  json_Unmarshal TransactionReceipt_json (encode TransactionReceipt_json true r)
    (zero TransactionReceipt_json) = Ok r.
Proof. intros Hr. destruct (receipt_exact r Hr) as [Hv Hd]. unfold json_Unmarshal. by rewrite Hv. Qed.

(** A null among the transactions of a block is not an error: it panics. *)
Theorem block_null_transaction h txs hs :
  header_ok h → Forall (each transaction_ok) txs → None ∈ txs →
  BlockHeader_UnmarshalJSON (BlockHeader_marshal true (Build_BlockHeader h (Some txs) hs))
    BlockHeader_zero = Panic "nil pointer dereference".
Proof.
  intros Hh Ht Hn. rewrite unmarshal_marshal; [|done|by intros l [= <-]].
  cbn [from_option id]. by rewrite collect_hashes_null.
Qed.

(** The 256-bit numbers of a block that is encoded by value are arrays, which
    the decoder refuses. *)
Theorem block_by_value b T :
  (∀ l, ∃ e, Int_unmarshal (JArr l) = Err e) →
  ∃ e, BlockHeader_UnmarshalJSON (BlockHeader_marshal false b) T = Return (Err e).
Proof.
  intros Hi. unfold BlockHeader_UnmarshalJSON, json_Unmarshal.
  destruct (json_valid (BlockHeader_marshal false b)); [|by eexists].
  unfold BlockHeader_marshal, BlockHeader_struct. cbn [encode decode struct].
  destruct (decode_members_err BlockHeader_fields
    (omap (encode_member false b) BlockHeader_fields) "gasLimit"
    (encode Uint256_codec false (GasLimit (bh_header b)))
    (promote bh_header (field "gasLimit" GasLimit Uint256_codec)) T) as [e ->].
  - apply list_elem_of_omap.
    exists (promote bh_header (field "gasLimit" GasLimit Uint256_codec)). split; [|done].
    unfold BlockHeader_fields, blockHeader_fields. set_solver.
  - done.
  - intros a. cbn. apply Hi.
  - by exists e.
Qed.
End props.
End BlockProps.

(** ** An implementation of the number encodings, and witnesses *)

Module StdNum.
Definition int (v : json) : res goerr Z :=
  match v with
  | JStr (String "0" (String "x" t)) =>
      match scan_digits 16 t 0 0 PNone false with
      | (n, S _, false, EmptyString) =>
          if bool_decide (0 <= n < 2 ^ 256) then Ok n else Err (EText "hex number > 256 bits")
      | _ => Err (EText "invalid hex number")
      end
  | _ => Err (EText "non-string")
  end.

Definition text_bytes (v : json) : res goerr (list Z) :=
  match v with
  | JStr s => StdEth.decode s
  | _ => Err (EText "non-string")
  end.

#[export] Instance std_num : EthNum := {|
  bytes_marshal l := JStr ("0x" +:+ StdEth.hex_bytes l);
  bytes_unmarshal := text_bytes;
  Int_Hex n := "0x" +:+ hex_str 64 n "";
  Int_unmarshal := int;
|}.

#[export] Instance std_num_spec : EthNumSpec.
Proof.
  split.
  - intros l. by eexists.
  - intros l Hl. by apply StdEth.decode_hex.
  - intros n Hn. destruct (BlockNumberFacts.scan_hex_str 64 n "" PNone false) as [k Hk]; [|done|].
    { by change (16 ^ Z.of_nat 64) with (2 ^ 256). }
    cbn [Int_unmarshal Int_Hex std_num].
    change ("0x" +:+ hex_str 64 n "") with (String "0" (String "x" (hex_str 64 n ""))).
    unfold int. rewrite Hk. cbn. by rewrite bool_decide_true.
Qed.
End StdNum.

Module BlockWitness.
Import CodecFacts BlockFacts BlockProps StdEth StdNum.

Definition h32 (b : Z) : hash := replicate 32 b.
Definition a20 (b : Z) : address := replicate 20 b.

Definition header0 : blockHeader :=
  Build_blockHeader (Build_Head (h32 1) 255) (h32 2) [118; 101] [0] [] 30000000 None 1000 (h32 3)
    0 21000 (h32 4) (a20 5) (h32 6) (h32 7) (h32 8) (2 ^ 255) 1024 (Some [])
    (Some [Build_BlockWithdrawal 7 (a20 9) 1 2]) (2 ^ 256 - 1).

(** One transaction calls a contract, the other creates one. *)
Definition tx0 (to : option address) : Transaction :=
  Build_Transaction 9 1 (h32 1) 2 21000 3 (a20 1) (h32 10) 0 5 [1; 2; 3] 255 to 27 4 (2 ^ 80)
    (Some [Build_TransactionAccess (a20 2) (Some [h32 0])]) 0 0.

Definition block0 : BlockHeader :=
  Build_BlockHeader header0 (Some [Some (tx0 (Some (a20 3))); Some (tx0 None)])
    (Some [h32 10; h32 10]).

Ltac in_range :=
  repeat match goal with
  | |- _ ∧ _ => split
  | |- Forall _ _ => constructor
  | |- each _ _ => intros ? [= <-]
  | |- all _ _ => intros ? [= <-]
  | |- hash_ok _ => split; [reflexivity|]
  | |- address_ok _ => split; [reflexivity|]
  | |- bytes _ => unfold bytes
  | |- header_ok _ => split
  | |- transaction_ok _ => split
  | |- withdrawal_ok _ => split
  | |- access_ok _ => split
  | |- log_ok _ => split
  | |- receipt_ok _ => split
  | |- ?a <= ?b => vm_compute; congruence
  | |- ?a < ?b => vm_compute; reflexivity
  | |- in_u64 _ => split
  | |- u256 _ => split
  | |- _ ≠ _ => discriminate
  | |- json_valid _ = true => reflexivity
  end.

Lemma block0_ok : block_ok block0.
Proof.
  split; [in_range|]. exists [tx0 (Some (a20 3)); tx0 None]. split; [reflexivity|].
  split; [in_range|reflexivity].
Qed.

Lemma block_roundtrip_witness :
  BlockHeader_UnmarshalJSON (BlockHeader_marshal true block0) BlockHeader_zero
  = Return (Ok block0).
Proof. exact (proj1 (block_roundtrip block0 block0_ok)). Defined.

Definition receipt0 : TransactionReceipt :=
  Build_TransactionReceipt (h32 1) 255 None 21000 9 (a20 1) 21000
    (Some [Some (Build_Log (Build_LogAddressTopics (a20 2) (Some [h32 3])) [1] (h32 10) 0 (h32 1)
                   255 0 false 0)]) [] 1 (Some (a20 3)) (h32 10) 0 2.

Lemma receipt_roundtrip_witness :
  json_Unmarshal TransactionReceipt_json (encode TransactionReceipt_json true receipt0)
    (zero TransactionReceipt_json) = Ok receipt0.
Proof. apply (receipt_roundtrip receipt0). in_range. Defined.

Lemma block_null_transaction_witness :
  BlockHeader_UnmarshalJSON
    (BlockHeader_marshal true (Build_BlockHeader header0 (Some [None]) None)) BlockHeader_zero
  = Panic "nil pointer dereference".
Proof.
  apply (block_null_transaction header0 [None] None); [in_range| |apply list_elem_of_here].
  constructor; [intros a Ha; discriminate|constructor].
Defined.

Lemma block_by_value_witness :
  ∃ e, BlockHeader_UnmarshalJSON (BlockHeader_marshal false block0) BlockHeader_zero
       = Return (Err e).
Proof. apply (block_by_value block0 BlockHeader_zero). intros l. by eexists. Defined.
End BlockWitness.
