(* ===== verification/Config.v ===== *)
(** * Configuration: [lib/config], [lib/util/coalesce.go]

    The configuration records and the two validating parsers.  The YAML
    decoder and the environment are outside the repository: a parser takes the
    decoded record, and the expansion of environment variables as an
    argument.  A [float64] is a rational, a [Duration] is in nanoseconds. *)
From S2P Require Import Prelude Errors.
From Stdlib Require Import QArith_base.
#[local] Open Scope Z_scope.

(** ** Data *)

Definition Microsecond : Z := 1000.
Definition Millisecond : Z := 1000000.
Definition Second : Z := 1000000000.
Definition Minute : Z := 60 * Second.
Definition Hour : Z := 60 * Minute.

(** [time.Duration(q * float64(unit))]. *)
Definition duration_of (q : Q) (unit : Z) : Z := Z.quot (Qnum q * unit) (Zpos (Qden q)).

Record Filter := {
  Filter_Name : string;
  Filter_Methods : gmap string bool;
}.

Record RemoteRateLimit := {
  EventsPerSecond : Q;
  Burst : Z;
}.

Record Remote := {
  Remote_Name : string;
  Remote_Url : string;
  Remote_Priority : Z;
  Remote_Headers : gmap string string;
  HealthCheckIntervalMin : Z;
  HealthCheckIntervalMax : Z;
  RateLimitBackoff : Z;
  ErrorBackoffMin : Z;
  ErrorBackoffMax : Z;
  Remote_Filters : list string;
  Remote_ParsedFilters : list Filter;
  Remote_RateLimit : option RemoteRateLimit;
  SendDataAndInput : bool;
  Remote_MaxBlockLookback : Z;
}.

Record Chain := {
  Chain_Name : string;
  Chain_Id : Z;
  Chain_Aliases : list string;
  BlockTimeSeconds : Q;
  Chain_Remotes : list Remote;
  Stalk : option bool;
  ParsedStalk : bool;
  ForgeBlockReceipts : bool;
  Chain_MaxBlockLookback : Z;
}.

Record AbuseLimit := {
  AbuseLimit_Id : string;
  AbuseLimit_Total : Z;
  AbuseLimit_Window : Z;
}.

Record UsageLimit := { UsageLimit_Id : string }.

Record EndpointSpec := {
  Endpoint_Name : string;
  Endpoint_Paths : gmap string string;
  Endpoint_Abuse : list AbuseLimit;
  Endpoint_Usage : list UsageLimit;
  Endpoint_Methods : list string;
  Endpoint_VennUrl : string;
}.

Record Security := {
  TrustedOrigins : list string;
  TrustedIpHeaders : list string;
  AllowedOrigins : list string;
  CorsEnabled : bool;
  CorsAllowedMethods : list string;
  CorsAllowedHeaders : list string;
  CorsExposeHeaders : list string;
  CorsAllowCredentials : bool;
  CorsMaxAge : Z;
}.

Definition no_security : Security :=
  {| TrustedOrigins := []; TrustedIpHeaders := []; AllowedOrigins := [];
     CorsEnabled := false; CorsAllowedMethods := []; CorsAllowedHeaders := [];
     CorsExposeHeaders := []; CorsAllowCredentials := false; CorsMaxAge := 0 |}.

Record Redis := {
  Redis_URI : string;
  Redis_Namespace : string;
}.

Record NodeConfig := {
  Node_Redis : Redis;
  Node_Ratelimit : option AbuseLimit;
  Node_Chains : list Chain;
  Node_Filters : list Filter;
}.

Record GatewayConfig := {
  Gateway_Redis : Redis;
  Gateway_Endpoint : option EndpointSpec;
  Gateway_Security : option Security;
}.

(** ** [lib/util/coalesce.go] *)

(** [Coa(v, fallback)], with [zero] the zero value of the type. *)
Definition Coa {T} `{EqDecision T} (zero v fallback : T) : T :=
  if decide (v = zero) then fallback else v.

Definition CoaFunc {T U} `{EqDecision T} (zero : T) (fn : T → res goerr U)
    (v : T) (fallback : U) : res goerr U :=
  if decide (v = zero) then Ok fallback else fn v.

(** ** [lib/config/parse_node.go] *)

(** One turn of the loop over a chain's remotes. *)
Definition parse_remote (expand : string → string) (filters : list Filter)
    (r : Remote) : Remote := {|
  Remote_Name := Remote_Name r;
  Remote_Url := Remote_Url r;
  Remote_Priority := Remote_Priority r;
  Remote_Headers := expand <$> Remote_Headers r;
  HealthCheckIntervalMin := if HealthCheckIntervalMin r =? 0 then Minute else HealthCheckIntervalMin r;
  HealthCheckIntervalMax := if HealthCheckIntervalMax r =? 0 then Hour else HealthCheckIntervalMax r;
  RateLimitBackoff := if RateLimitBackoff r =? 0 then 5 * Second else RateLimitBackoff r;
  ErrorBackoffMin := if ErrorBackoffMin r =? 0 then 5 * Second else ErrorBackoffMin r;
  ErrorBackoffMax := if ErrorBackoffMax r =? 0 then 5 * Second else ErrorBackoffMax r;
  Remote_Filters := Remote_Filters r;
  Remote_ParsedFilters :=
    mjoin (map (λ preset,
      List.filter (λ f, bool_decide (preset = Filter_Name f)) filters) (Remote_Filters r));
  Remote_RateLimit := Remote_RateLimit r;
  SendDataAndInput := SendDataAndInput r;
  Remote_MaxBlockLookback := Remote_MaxBlockLookback r;
|}.

Fixpoint parse_remotes (expand : string → string) (filters : list Filter)
    (chain_name : string) (rs : list Remote) : res goerr (list Remote) :=
  match rs with
  | [] => Ok []
  | r :: rs =>
      if bool_decide (chain_name = "health")
      then Err (EText "chain name cannot be health")
      else rs' ← parse_remotes expand filters chain_name rs;
           mret (parse_remote expand filters r :: rs')
  end.

Definition parse_chain (expand : string → string) (filters : list Filter)
    (c : Chain) : res goerr Chain :=
  stalk ← CoaFunc None (λ v, Ok (default false v)) (Stalk c) true;
  rs ← parse_remotes expand filters (Chain_Name c) (Chain_Remotes c);
  mret {|
    Chain_Name := Chain_Name c;
    Chain_Id := Chain_Id c;
    Chain_Aliases := Chain_Aliases c;
    BlockTimeSeconds := BlockTimeSeconds c;
    Chain_Remotes := rs;
    Stalk := Stalk c;
    ParsedStalk := stalk;
    ForgeBlockReceipts := ForgeBlockReceipts c;
    Chain_MaxBlockLookback := Chain_MaxBlockLookback c;
  |}.

Fixpoint parse_chains (expand : string → string) (filters : list Filter)
    (cs : list Chain) : res goerr (list Chain) :=
  match cs with
  | [] => Ok []
  | c :: cs =>
      c' ← parse_chain expand filters c;
      cs' ← parse_chains expand filters cs;
      mret (c' :: cs')
  end.

(** [ParseNodeConfig], after the YAML decoder. *)
Definition ParseNodeConfig (expand : string → string) (c : NodeConfig)
    : res goerr NodeConfig :=
  chains ← parse_chains expand (Node_Filters c) (Node_Chains c);
  mret {|
    Node_Redis := {|
      Redis_URI := Coa "" (Redis_URI (Node_Redis c)) "embedded";
      Redis_Namespace := Coa "" (Redis_Namespace (Node_Redis c)) "venn-undefined" |};
    Node_Ratelimit := (λ l, {|
      AbuseLimit_Id := AbuseLimit_Id l;
      AbuseLimit_Total := Coa 0 (AbuseLimit_Total l) 2000;
      AbuseLimit_Window := Coa 0 (AbuseLimit_Window l) (Second * 10) |}) <$> Node_Ratelimit c;
    Node_Chains := chains;
    Node_Filters := Node_Filters c;
  |}.

(** The tables [NodeFileParser] fills: the chains by name, and the set of
    endpoint names in use. *)
Definition add_aliases (endpoints : gset string) (aliases : list string)
    : res goerr (gset string) :=
  foldl (λ acc a,
    eps ← acc;
    if bool_decide (a ∈ (eps : gset string))
    then Err (EWrap "chain alias conflict: " (EText a) "")
    else Ok ({[a]} ∪ eps)) (Ok endpoints) aliases.

Definition add_chain (acc : gmap string Chain * gset string) (v : Chain)
    : res goerr (gmap string Chain * gset string) :=
  let '(chains, endpoints) := acc in
  match chains !! Chain_Name v with
  | Some _ => Err (EWrap "chain name conflict: " (EText (Chain_Name v)) "")
  | None =>
      eps ← add_aliases ({[Chain_Name v]} ∪ endpoints) (Chain_Aliases v);
      mret (<[Chain_Name v := v]> chains, eps)
  end.

Fixpoint add_chains (acc : gmap string Chain * gset string) (cs : list Chain)
    : res goerr (gmap string Chain * gset string) :=
  match cs with
  | [] => Ok acc
  | v :: cs => acc' ← add_chain acc v; add_chains acc' cs
  end.

Record NodeConfigResult := {
  Result_Chains : gmap string Chain;
  Result_Remotes : list Remote;
  Result_Ratelimit : option AbuseLimit;
  Result_Redis : Redis;
}.

(** [NodeFileParser], after reading the file; logging is left out. *)
Definition NodeFileParser (expand : string → string) (cfg : NodeConfig)
    : res goerr NodeConfigResult :=
  cfg ← ParseNodeConfig expand cfg;
  '(chains, _) ← add_chains (∅, ∅) (Node_Chains cfg);
  mret {|
    Result_Chains := chains;
    Result_Remotes := mjoin (map Chain_Remotes (Node_Chains cfg));
    Result_Ratelimit := Node_Ratelimit cfg;
    Result_Redis := Node_Redis cfg;
  |}.

(** ** [lib/config/parse_gateway.go] *)

(** [ParseGatewayConfig], after the YAML decoder.  A configuration without an
    endpoint dereferences a nil pointer. *)
Definition ParseGatewayConfig (c : GatewayConfig) : outcome (res goerr GatewayConfig) :=
  let c' := {|
    Gateway_Redis := {|
      Redis_URI := Coa "" (Redis_URI (Gateway_Redis c)) "embedded";
      Redis_Namespace := Coa "" (Redis_Namespace (Gateway_Redis c)) "gateway-undefined" |};
    Gateway_Endpoint := Gateway_Endpoint c;
    Gateway_Security :=
      Some (match Gateway_Security c with None => no_security | Some s => s end);
  |} in
  match Gateway_Endpoint c with
  | None => Panic "nil pointer dereference"
  | Some e =>
      if existsb (λ l, bool_decide (AbuseLimit_Id l = "")) (Endpoint_Abuse e)
      then Return (Err (EText "endpoint abuse limit has no id"))
      else if existsb (λ l, bool_decide (UsageLimit_Id l = "")) (Endpoint_Usage e)
      then Return (Err (EText "endpointusage limit has no id"))
      else Return (Ok c')
  end.

(** ** Lemmas: what the tables hold *)

Lemma add_aliases_err e aliases :
  foldl (λ acc a, eps ← acc;
    if bool_decide (a ∈ (eps : gset string))
    then Err (EWrap "chain alias conflict: " (EText a) "")
    else Ok ({[a]} ∪ eps)) (Err e) aliases = Err e :> res goerr (gset string).
Proof. by induction aliases. Qed.

(** Aliases are accepted if they are new and differ. *)
Lemma add_aliases_inv eps aliases eps' :
  add_aliases eps aliases = Ok eps' →
  eps' = list_to_set aliases ∪ eps ∧ NoDup aliases ∧ Forall (λ a, a ∉ eps) aliases.
Proof.
  unfold add_aliases. revert eps. induction aliases as [|a aliases IH]; intros eps H; simpl in H.
  { injection H as <-. simpl. split_and!; [set_solver|constructor..]. }
  case_bool_decide as Ha; [by rewrite add_aliases_err in H|].
  destruct (IH _ H) as (-> & Hnd & Hf). rewrite Forall_forall in Hf. simpl. split_and!.
  - set_solver.
  - constructor; [|done]. intros Hin. specialize (Hf a Hin). set_solver.
  - constructor; [done|]. apply Forall_forall. intros b Hb. specialize (Hf b Hb). set_solver.
Qed.

(** The chains by name are the chains of the file, whose names differ, as do
    all aliases. *)
Lemma add_chains_inv m eps cs m' eps' :
  add_chains (m, eps) cs = Ok (m', eps') →
  (map_to_list m').*2 ≡ₚ cs ++ (map_to_list m).*2 ∧
  NoDup (Chain_Name <$> cs) ∧ Forall (λ c, m !! Chain_Name c = None) cs ∧
  NoDup (mjoin (Chain_Aliases <$> cs)) ∧
  Forall (λ a, a ∉ eps) (mjoin (Chain_Aliases <$> cs)).
Proof.
  revert m eps. induction cs as [|c cs IH]; intros m eps H; simpl in H.
  { injection H as <- <-. split_and!; simpl; [done|constructor..]. }
  destruct (m !! Chain_Name c) eqn:Hm; [done|].
  destruct (add_aliases _ _) as [eps1|e] eqn:Ha; [|done]. cbn [mbind res_bind mret res_ret] in H.
  apply add_aliases_inv in Ha as (-> & Hnd & Hf).
  destruct (IH _ _ H) as (Hp & Hn & Hfresh & Had & Haf). clear IH H.
  rewrite Forall_forall in Hf. rewrite Forall_forall in Hfresh. rewrite Forall_forall in Haf.
  split_and!.
  - rewrite Hp, map_to_list_insert by done. simpl. by rewrite <- Permutation_middle.
  - simpl. constructor; [|done]. intros (c' & Hc & Hin)%list_elem_of_fmap.
    specialize (Hfresh c' Hin). rewrite <- Hc, lookup_insert_eq in Hfresh. done.
  - constructor; [done|]. apply Forall_forall. intros c' Hin. specialize (Hfresh c' Hin).
    by apply lookup_insert_None in Hfresh as [? _].
  - simpl. apply NoDup_app. split_and!; [done| |done]. intros a Hin Hin'.
    specialize (Haf a Hin'). apply Haf. apply elem_of_union_l. by apply elem_of_list_to_set.
  - simpl. apply Forall_forall. intros a [Hin|Hin]%elem_of_app.
    + specialize (Hf a Hin). set_solver.
    + specialize (Haf a Hin). set_solver.
Qed.
