(* ===== verification/Duration.v ===== *)
(** * Durations of the configuration: [lib/config/duration.go]

    [Duration] with its two codecs, over what they call of the package [time]
    of the standard library: [Duration.String] and [ParseDuration], byte by byte,
    with the words of 64 bits wrapped around and the numbers of 64 bits with a
    binary point as [SpecFloat] has them. *)
From S2P Require Import Prelude Errors Json Scalars EthTypes Config.
From Stdlib Require Import SpecFloat.
#[local] Open Scope Z_scope.

(** ** [float64] *)

Module Float64.
Definition of_u64 (n : Z) : spec_float := binary_normalize 53 1024 n 0 false.
Definition mul : spec_float → spec_float → spec_float := SFmul 53 1024.
Definition div : spec_float → spec_float → spec_float := SFdiv 53 1024.

(** The conversion to [uint64], which cuts off the fraction; what Go leaves open
    for a number that is negative or no number does not come up here. *)
Definition to_u64 (x : spec_float) : Z :=
  match x with
  | S754_finite false m e => u64 (Z.shiftl (Zpos m) e)
  | _ => 0
  end.
End Float64.

(** *** Whole numbers of 53 bits are exact *)

Module Float64Facts.
Import Float64.

Lemma digits_log2 p : Zpos (digits2_pos p) = Z.log2 (Zpos p) + 1.
Proof.
  induction p as [p IH|p IH|]; [| |done]; cbn [digits2_pos]; rewrite Pos2Z.inj_succ, IH.
  - rewrite (Pos2Z.inj_xI p), Z.log2_succ_double by done. lia.
  - rewrite (Pos2Z.inj_xO p), Z.log2_double by done. lia.
Qed.

Definition exact (m : Z) : shr_record := {| shr_m := m; shr_r := false; shr_s := false |}.

Lemma shr_1_exact m : 0 < m → shr_1 (exact (2 * m)) = exact m.
Proof. by destruct m. Qed.

Lemma iter_shr_exact n m : 0 < m → iter_pos shr_1 n (exact (m * 2 ^ Zpos n)) = exact m.
Proof.
  revert m. induction n as [n IH|n IH|]; intros m Hm; cbn [iter_pos].
  - replace (m * 2 ^ Zpos n~1) with (2 * ((m * 2 ^ Zpos n) * 2 ^ Zpos n)).
    2: { replace (Zpos n~1) with (Zpos n + Zpos n + 1) by lia. rewrite !Z.pow_add_r by lia. lia. }
    rewrite shr_1_exact, IH by nia. by apply IH.
  - replace (m * 2 ^ Zpos n~0) with ((m * 2 ^ Zpos n) * 2 ^ Zpos n).
    2: { replace (Zpos n~0) with (Zpos n + Zpos n) by lia. rewrite Z.pow_add_r by lia. lia. }
    rewrite IH by nia. by apply IH.
  - rewrite Z.pow_1_r, Z.mul_comm. by apply shr_1_exact.
Qed.

(** A shift to the right by no more than the zeros there are. *)
Lemma shr_exact m e n : 0 < m → 0 <= n → shr (exact (m * 2 ^ n)) e n = (exact m, e + n).
Proof.
  intros Hm Hn. destruct n as [|n|n]; [|unfold shr; by rewrite iter_shr_exact|lia].
  cbn [shr]. by rewrite Z.mul_1_r, Z.add_0_r.
Qed.

Lemma log2_shift m n : 0 < m → 0 <= n → Z.log2 (m * 2 ^ n) = Z.log2 m + n.
Proof. intros Hm Hn. rewrite Z.log2_mul_pow2 by lia. lia. Qed.

(** A mantissa of 53 bits, with zeros behind it, is rounded to itself. *)
Lemma round_exact q j e s :
  0 < Zpos q → Z.log2 (Zpos q) = 52 → 0 <= j → -1074 <= e + j <= 971 →
  binary_round_aux 53 1024 s (Zpos q * 2 ^ j) e loc_Exact = S754_finite s q (e + j).
Proof.
  intros Hq Hd Hj He. unfold binary_round_aux, shr_fexp. cbn [shr_record_of_loc]. fold (exact (Zpos q * 2 ^ j)).
  assert (fexp 53 1024 (Zdigits2 (Zpos q * 2 ^ j) + e) - e = j) as ->.
  { assert (0 < Zpos q * 2 ^ j) as Hpos by nia. destruct (Zpos q * 2 ^ j) as [|m|] eqn:Hm; try lia.
    cbn [Zdigits2]. rewrite digits_log2, <- Hm, log2_shift, Hd by done. unfold fexp, emin. lia. }
  rewrite shr_exact by done. cbn [exact shr_m shr_r shr_s loc_of_shr_record round_nearest_even].
  assert (fexp 53 1024 (Zdigits2 (Zpos q) + (e + j)) - (e + j) = 0) as ->.
  { cbn [Zdigits2]. rewrite digits_log2, Hd. unfold fexp, emin. lia. }
  cbn [shr shr_record_of_loc shr_m]. by rewrite (proj2 (Z.leb_le _ _)) by lia.
Qed.

Lemma iter_xO a d : Zpos (Pos.iter xO a d) = Zpos a * 2 ^ Zpos d.
Proof.
  induction d as [|d IH] using Pos.peano_ind; [cbn [Pos.iter]; rewrite Pos2Z.inj_xO; lia|].
  rewrite Pos.iter_succ, Pos2Z.inj_xO, IH, Pos2Z.inj_succ, Z.pow_succ_r by lia. lia.
Qed.

(** The number [a], with its bits moved to the front. *)
Definition front (a : positive) : positive :=
  match (52 - Z.log2 (Zpos a))%Z with Zpos d => Pos.iter xO a d | _ => a end.

Lemma front_value a : Z.log2 (Zpos a) <= 52 → Zpos (front a) = Zpos a * 2 ^ (52 - Z.log2 (Zpos a)).
Proof.
  intros Ha. unfold front. destruct (52 - Z.log2 (Zpos a)) as [|d|d] eqn:Hd; [lia|apply iter_xO|lia].
Qed.

Lemma front_log2 a : Z.log2 (Zpos a) <= 52 → Z.log2 (Zpos (front a)) = 52.
Proof. intros Ha. rewrite front_value, log2_shift by lia. lia. Qed.

Lemma of_u64_exact a :
  Z.log2 (Zpos a) <= 52 → of_u64 (Zpos a) = S754_finite false (front a) (Z.log2 (Zpos a) - 52).
Proof.
  intros Ha. pose proof (Z.log2_nonneg (Zpos a)). unfold of_u64, binary_normalize, binary_round.
  rewrite digits_log2.
  assert (fexp 53 1024 (Z.log2 (Zpos a) + 1 + 0) = Z.log2 (Zpos a) - 52) as ->.
  { unfold fexp, emin. lia. }
  destruct (shl_align a 0 (Z.log2 (Zpos a) - 52)) as [mz ez] eqn:Hs.
  assert (mz = front a ∧ ez = Z.log2 (Zpos a) - 52) as [-> ->].
  { unfold shl_align in Hs. rewrite Z.sub_0_r in Hs.
    destruct (Z.log2 (Zpos a) - 52) as [|d|d] eqn:Hd; [|lia|]; injection Hs as <- <-; split; try done;
      apply Pos2Z.inj; rewrite front_value by done.
    - replace (52 - _) with 0 by lia. lia.
    - rewrite iter_xO. do 2 f_equal. lia. }
  rewrite <- (Z.mul_1_r (Zpos (front a))), <- (Z.pow_0_r 2).
  rewrite round_exact, Z.add_0_r; [done|done|by apply front_log2|done|lia].
Qed.

Lemma to_u64_of_u64 a : 0 <= a < 2 ^ 53 → to_u64 (of_u64 a) = a.
Proof.
  intros Ha. destruct a as [|a|]; [done| |lia].
  assert (Z.log2 (Zpos a) <= 52) as Hl.
  { assert (Z.log2 (Zpos a) < 53) by (apply Z.log2_lt_pow2; lia). lia. }
  rewrite of_u64_exact by done. cbn [to_u64]. rewrite front_value by done.
  pose proof (Z.log2_nonneg (Zpos a)).
  replace (Z.log2 (Zpos a) - 52) with (- (52 - Z.log2 (Zpos a))) by lia.
  rewrite Z.shiftl_opp_r, Z.shiftr_div_pow2, Z.div_mul by (lia || (apply Z.pow_nonzero; lia)).
  apply u64_small. unfold in_u64, two64. lia.
Qed.

(** The product of two of them, as long as it has no more bits. *)
Lemma mul_exact a b :
  0 < a → 0 < b → a * b < 2 ^ 53 → mul (of_u64 a) (of_u64 b) = of_u64 (a * b).
Proof.
  intros Ha Hb Hab. destruct a as [|a|], b as [|b|]; try lia.
  change (Zpos a * Zpos b) with (Zpos (a * b)) in *.
  assert (∀ c, Zpos c < 2 ^ 53 → Z.log2 (Zpos c) <= 52) as Hlog.
  { intros c Hc. assert (Z.log2 (Zpos c) < 53) by (apply Z.log2_lt_pow2; lia). lia. }
  pose proof (Hlog a ltac:(nia)) as Hla. pose proof (Hlog b ltac:(nia)) as Hlb.
  pose proof (Hlog _ Hab) as Hlab.
  pose proof (Z.log2_mul_below (Zpos a) (Zpos b) ltac:(lia) ltac:(lia)) as Hbelow.
  change (Zpos a * Zpos b) with (Zpos (a * b)) in Hbelow.
  pose proof (Z.log2_nonneg (Zpos a)). pose proof (Z.log2_nonneg (Zpos b)).
  rewrite !of_u64_exact by done. unfold mul. cbn [SFmul xorb].
  set (la := Z.log2 (Zpos a)) in *. set (lb := Z.log2 (Zpos b)) in *.
  set (lc := Z.log2 (Zpos (a * b))) in *.
  assert (Zpos (front a * front b) = Zpos (front (a * b)) * 2 ^ (52 + lc - la - lb)) as ->.
  { rewrite Pos2Z.inj_mul, !front_value by done. fold la lb lc. rewrite Pos2Z.inj_mul.
    assert (2 ^ (52 - la) * 2 ^ (52 - lb) = 2 ^ (52 - lc) * 2 ^ (52 + lc - la - lb)) as Hpow.
    { rewrite <- !Z.pow_add_r by lia. f_equal. lia. }
    replace (Zpos a * 2 ^ (52 - la) * (Zpos b * 2 ^ (52 - lb)))
      with (Zpos a * Zpos b * (2 ^ (52 - la) * 2 ^ (52 - lb))) by lia.
    rewrite Hpow. lia. }
  rewrite round_exact; [f_equal; lia|done|by apply front_log2|lia|lia].
Qed.
End Float64Facts.

(** ** Package [time] *)

Module Time.
(** U+00B5, the micro sign, and U+03BC, the Greek letter. *)
Definition micro_sign : string := str1 194 (str1 181 "").
Definition greek_mu : string := str1 206 (str1 188 "").

(** *** [Duration.String]: the text is written from its end *)

Definition digit_char (n : Z) : ascii := chr (48 + n).

(** [fmtInt], onto what is written already; a word has twenty digits. *)
Fixpoint fmtInt_loop (fuel : nat) (v : Z) (buf : string) : string :=
  match fuel with
  | O => buf
  | S fuel =>
      if 0 <? v then fmtInt_loop fuel (v / 10) (String (digit_char (v mod 10)) buf) else buf
  end.
Definition fmtInt (v : Z) (buf : string) : string :=
  if v =? 0 then String "0" buf else fmtInt_loop 20 v buf.

(** [fmtFrac]: the last [prec] digits of [v], less the zeros at the end, behind a
    point; and what is left of [v]. *)
Fixpoint fmtFrac_loop (prec : nat) (v : Z) (print : bool) (buf : string) : string * Z * bool :=
  match prec with
  | O => (buf, v, print)
  | S prec =>
      let digit := v mod 10 in
      let print := print || negb (digit =? 0) in
      fmtFrac_loop prec (v / 10) print (if print then String (digit_char digit) buf else buf)
  end.
Definition fmtFrac (v : Z) (prec : nat) (buf : string) : string * Z :=
  let '(buf, v, print) := fmtFrac_loop prec v false buf in
  (if print then String "." buf else buf, v).

Definition magnitude (u : Z) : string :=
  if u <? Second then
    if u =? 0 then "0s"
    else
      let '(prec, unit) :=
        if u <? Microsecond then (0%nat, "ns")
        else if u <? Millisecond then (3%nat, micro_sign +:+ "s")
        else (6%nat, "ms") in
      let '(buf, u) := fmtFrac u prec unit in
      fmtInt u buf
  else
    let '(buf, u) := fmtFrac u 9 "s" in
    let buf := fmtInt (u mod 60) buf in
    let u := u / 60 in
    if 0 <? u then
      let buf := fmtInt (u mod 60) (String "m" buf) in
      let u := u / 60 in
      if 0 <? u then fmtInt u (String "h" buf) else buf
    else buf.

Definition format (d : Z) : string :=
  let neg := d <? 0 in
  let u := u64 d in
  let u := if neg then u64 (- u) else u in
  if neg then String "-" (magnitude u) else magnitude u.

(** *** [ParseDuration] *)

Definition digit (c : ascii) : bool := Expand.digit c.
Definition digit_value (c : ascii) : Z := Search.byte_of c - 48.

(** [leadingInt]: none if it is too large. *)
Fixpoint leadingInt (x : Z) (s : string) : option (Z * string) :=
  match s with
  | String c rest =>
      if digit c then
        if two63 / 10 <? x then None
        else
          let x := u64 (x * 10 + digit_value c) in
          if two63 <? x then None else leadingInt x rest
      else Some (x, s)
  | EmptyString => Some (x, s)
  end.

Definition ten : spec_float := Float64.of_u64 10.

(** [leadingFraction]: the digits that fit, and their weight. *)
Fixpoint leadingFraction (x : Z) (scale : spec_float) (overflow : bool) (s : string)
    : Z * spec_float * string :=
  match s with
  | String c rest =>
      if digit c then
        if overflow then leadingFraction x scale true rest
        else if max_int64 / 10 <? x then leadingFraction x scale true rest
        else
          let y := u64 (x * 10 + digit_value c) in
          if two63 <? y then leadingFraction x scale true rest
          else leadingFraction y (Float64.mul scale ten) false rest
      else (x, scale, s)
  | EmptyString => (x, scale, s)
  end.

Definition unitMap (u : string) : option Z :=
  if bool_decide (u = "ns") then Some 1
  else if bool_decide (u = "us" ∨ u = micro_sign +:+ "s" ∨ u = greek_mu +:+ "s") then Some Microsecond
  else if bool_decide (u = "ms") then Some Millisecond
  else if bool_decide (u = "s") then Some Second
  else if bool_decide (u = "m") then Some Minute
  else if bool_decide (u = "h") then Some Hour
  else None.

(** The text up to the next number. *)
Fixpoint unit_text (s : string) : string * string :=
  match s with
  | String c rest =>
      if bool_decide (c = "."%char) || digit c then ("", s)
      else (String c (unit_text rest).1, (unit_text rest).2)
  | EmptyString => ("", s)
  end.

Definition invalid : goerr := EText "time: invalid duration".
Definition missing_unit : goerr := EText "time: missing unit in duration".
Definition unknown_unit : goerr := EText "time: unknown unit in duration".

(** The fraction behind a number: its digits, their weight, what is left and
    whether there was any digit. *)
Definition fraction (s : string) : Z * spec_float * string * bool :=
  match s with
  | String "." s =>
      let '(f, scale, rest) := leadingFraction 0 (Float64.of_u64 1) false s in
      (f, scale, rest, negb (String.length s =? String.length rest)%nat)
  | _ => (0, Float64.of_u64 1, s, false)
  end.

(** One turn of the loop: a number with a unit, in nanoseconds. *)
Definition part (s : string) : res goerr (Z * string) :=
  match s with
  | EmptyString => Err invalid
  | String c _ =>
      if negb (bool_decide (c = "."%char) || digit c) then Err invalid
      else
        match leadingInt 0 s with
        | None => Err invalid
        | Some (v, s1) =>
            let pre := negb (String.length s =? String.length s1)%nat in
            let '(f, scale, s2, post) := fraction s1 in
            if negb pre && negb post then Err invalid
            else
              let '(u, rest) := unit_text s2 in
              if bool_decide (u = "") then Err missing_unit
              else
                match unitMap u with
                | None => Err unknown_unit
                | Some unit =>
                    if two63 / unit <? v then Err invalid
                    else
                      let v := u64 (v * unit) in
                      if 0 <? f then
                        let v := u64 (v + Float64.to_u64
                          (Float64.mul (Float64.of_u64 f) (Float64.div (Float64.of_u64 unit) scale))) in
                        if two63 <? v then Err invalid else Ok (v, rest)
                      else Ok (v, rest)
                end
        end
  end.

(** The loop; every turn takes a byte or more, so that the length of the text is
    fuel enough. *)
Fixpoint parts (fuel : nat) (d : Z) (s : string) : res goerr Z :=
  match s with
  | EmptyString => Ok d
  | _ =>
      match fuel with
      | O => Err invalid
      | S fuel =>
          '(v, rest) ← part s;
          let d := u64 (d + v) in
          if two63 <? d then Err invalid else parts fuel d rest
      end
  end.

Definition ParseDuration (s : string) : res goerr Z :=
  let '(neg, s) :=
    match s with
    | String c rest => if bool_decide (c = "-"%char) then (true, rest)
                       else if bool_decide (c = "+"%char) then (false, rest) else (false, s)
    | EmptyString => (false, s)
    end in
  if bool_decide (s = "0") then Ok 0
  else if bool_decide (s = "") then Err invalid
  else
    d ← parts (String.length s) 0 s;
    if neg then Ok (i64 (- i64 d))
    else if max_int64 <? d then Err invalid else Ok (i64 d).
End Time.

(** ** [Duration] *)

Module Duration.
Definition UnmarshalJSON (b : json) : res goerr Z :=
  str ← unmarshal_string b;
  Time.ParseDuration str.

(** The text has nothing that JSON would escape. *)
Definition MarshalJSON (d : Z) : json := JStr (Time.format d).
End Duration.

(** ** Lemmas: digits written are digits read *)

Module TimeFacts.
Import Time Float64Facts.

Lemma digit_char_spec n :
  0 <= n < 10 →
  digit (digit_char n) = true ∧ digit_value (digit_char n) = n ∧ digit_char n ≠ "."%char ∧
  digit_char n ≠ "-"%char ∧ digit_char n ≠ "+"%char ∧ digit_char n ≠ "\"%char.
Proof.
  intros Hn.
  assert (n ∈ [0; 1; 2; 3; 4; 5; 6; 7; 8; 9]) as Hin by (rewrite !elem_of_cons; lia).
  repeat (apply elem_of_cons in Hin as [->|Hin]; [by vm_compute|]). by apply elem_of_nil in Hin.
Qed.

(** A text that does not go on with a digit. *)
Definition no_digit (s : string) : Prop :=
  match s with String c _ => digit c = false | EmptyString => True end.

Lemma leadingInt_stop x s : no_digit s → leadingInt x s = Some (x, s).
Proof. destruct s as [|c s]; [done|]. cbn. by intros ->. Qed.

Lemma leadingInt_step x n s :
  0 <= x → 0 <= n < 10 → x * 10 + n <= two63 →
  leadingInt x (String (digit_char n) s) = leadingInt (x * 10 + n) s.
Proof.
  intros Hx Hn Hle. destruct (digit_char_spec n Hn) as (Hd & Hv & _). cbn [leadingInt].
  rewrite Hd, Hv. rewrite (proj2 (Z.ltb_ge _ _)) by (unfold two63 in *; apply Z.div_le_lower_bound; lia).
  rewrite u64_small by (unfold in_u64, two63, two64 in *; lia).
  by rewrite (proj2 (Z.ltb_ge _ _)) by done.
Qed.

(** *** Whole numbers *)

(** [t] is [buf] with digits in front. *)
Inductive digits_on (buf : string) : string → Prop :=
  | digits_none : digits_on buf buf
  | digits_more n t : 0 <= n < 10 → digits_on buf t → digits_on buf (String (digit_char n) t).

Lemma digits_on_trans a b c : digits_on b a → digits_on c b → digits_on c a.
Proof. induction 1; [done|]. intros H1. constructor; auto. Qed.

Lemma digits_on_length a b : digits_on b a → (String.length b <= String.length a)%nat.
Proof. induction 1; simpl; lia. Qed.

Lemma digits_on_plain a b : digits_on b a → no_backslash b = true → no_backslash a = true.
Proof.
  induction 1 as [|n t Hn Ht IH]; [done|]. intros Hb. cbn [no_backslash].
  rewrite IH by done. rewrite bool_decide_false; [done|]. by apply digit_char_spec.
Qed.

Lemma fmtInt_loop_digits fuel v buf : digits_on buf (fmtInt_loop fuel v buf).
Proof.
  revert v buf. induction fuel as [|fuel IH]; intros v buf; cbn [fmtInt_loop]; [constructor|].
  destruct (0 <? v); [|constructor]. eapply digits_on_trans; [apply IH|].
  constructor; [apply Z.mod_pos_bound; lia|constructor].
Qed.

Lemma fmtInt_loop_read fuel v buf :
  0 <= v <= two63 → v < 10 ^ Z.of_nat fuel →
  leadingInt 0 (fmtInt_loop fuel v buf) = leadingInt v buf.
Proof.
  revert v buf. induction fuel as [|fuel IH]; intros v buf Hv Hf; cbn [fmtInt_loop].
  { assert (v = 0) as -> by (change (10 ^ Z.of_nat 0) with 1 in Hf; lia). done. }
  destruct (Z.ltb_spec 0 v); [|by assert (v = 0) as -> by lia].
  pose proof (Z.div_mod v 10 ltac:(lia)). pose proof (Z.mod_pos_bound v 10 ltac:(lia)).
  rewrite IH; [|unfold two63 in *; lia|].
  - rewrite leadingInt_step by (unfold two63 in *; lia). f_equal. lia.
  - apply Z.div_lt_upper_bound; [lia|]. rewrite Nat2Z.inj_succ, Z.pow_succ_r in Hf by lia. lia.
Qed.

(** What [fmtInt] writes: a digit or more, that are read as the number. *)
Lemma fmtInt_shape v buf :
  0 <= v → ∃ n t, fmtInt v buf = String (digit_char n) t ∧ 0 <= n < 10 ∧ digits_on buf t.
Proof.
  intros Hv. unfold fmtInt. destruct (Z.eqb_spec v 0) as [->|Hne].
  { exists 0, buf. split_and!; [done|lia|lia|constructor]. }
  change 20%nat with (S 19). generalize 19%nat. intros fuel. cbn [fmtInt_loop].
  rewrite (proj2 (Z.ltb_lt _ _)) by lia.
  pose proof (fmtInt_loop_digits fuel (v / 10) (String (digit_char (v mod 10)) buf)) as Hd.
  pose proof (Z.mod_pos_bound v 10 ltac:(lia)).
  inversion Hd as [He|n t Hn Ht He].
  - exists (v mod 10), buf. split_and!; [done|lia|lia|constructor].
  - exists n, t. split_and!; [done|lia|lia|].
    eapply digits_on_trans; [exact Ht|]. constructor; [lia|constructor].
Qed.

Lemma fmtInt_read v buf :
  0 <= v <= two63 → no_digit buf → leadingInt 0 (fmtInt v buf) = Some (v, buf).
Proof.
  intros Hv Hb. unfold fmtInt. destruct (Z.eqb_spec v 0) as [->|Hne].
  - change "0"%char with (digit_char 0). rewrite leadingInt_step by (unfold two63; lia).
    by apply leadingInt_stop.
  - rewrite fmtInt_loop_read by (unfold two63 in *; simpl; lia). by apply leadingInt_stop.
Qed.

Lemma fmtInt_plain v buf : no_backslash buf = true → no_backslash (fmtInt v buf) = true.
Proof.
  intros Hb. unfold fmtInt. destruct (v =? 0); [exact Hb|].
  by eapply digits_on_plain; [apply fmtInt_loop_digits|].
Qed.

(** *** Fractions *)

(** The weight of [k] digits. *)
Definition scale_of (k : nat) : spec_float := Nat.iter k (λ x, Float64.mul x ten) (Float64.of_u64 1).

Lemma leadingFraction_stop x scale s :
  no_digit s → leadingFraction x scale false s = (x, scale, s).
Proof. destruct s as [|c s]; [done|]. cbn. by intros ->. Qed.

Lemma leadingFraction_step x k n s :
  0 <= x → 0 <= n < 10 → x * 10 + n <= max_int64 →
  leadingFraction x (scale_of k) false (String (digit_char n) s)
  = leadingFraction (x * 10 + n) (scale_of (S k)) false s.
Proof.
  intros Hx Hn Hle. destruct (digit_char_spec n Hn) as (Hd & Hv & _). cbn [leadingFraction].
  rewrite Hd, Hv. rewrite (proj2 (Z.ltb_ge _ _)) by (unfold max_int64 in *; apply Z.div_le_lower_bound; lia).
  rewrite u64_small by (unfold in_u64, max_int64, two64 in *; lia).
  by rewrite (proj2 (Z.ltb_ge _ _)) by (unfold max_int64, two63 in *; lia).
Qed.

Lemma pow10_pos k : 0 < 10 ^ Z.of_nat k.
Proof. lia. Qed.

Lemma pow10_S k : 10 ^ Z.of_nat (S k) = 10 * 10 ^ Z.of_nat k.
Proof. rewrite Nat2Z.inj_succ, Z.pow_succ_r by lia. lia. Qed.

(** The last digits of a number are its last one and those before. *)
Lemma mod_pow10_S v k :
  0 <= v → v mod 10 ^ Z.of_nat (S k) = 10 * ((v / 10) mod 10 ^ Z.of_nat k) + v mod 10.
Proof.
  intros Hv. rewrite pow10_S, Z.rem_mul_r by (pose proof (pow10_pos k); lia). lia.
Qed.

Lemma div_pow10_S v k : v / 10 / 10 ^ Z.of_nat k = v / 10 ^ Z.of_nat (S k).
Proof. rewrite pow10_S, Zdiv.Zdiv_Zdiv by (pose proof (pow10_pos k); lia). done. Qed.

(** All of the last [p] digits, once one is written. *)
Lemma fmtFrac_loop_all p v buf x k :
  0 <= v → 0 <= x → x * 10 ^ Z.of_nat p + v mod 10 ^ Z.of_nat p <= max_int64 →
  ∃ t, fmtFrac_loop p v true buf = (t, v / 10 ^ Z.of_nat p, true) ∧ digits_on buf t ∧
    leadingFraction x (scale_of k) false t
    = leadingFraction (x * 10 ^ Z.of_nat p + v mod 10 ^ Z.of_nat p) (scale_of (k + p)) false buf.
Proof.
  revert v buf. induction p as [|p IH]; intros v buf Hv Hx Hle; cbn [fmtFrac_loop orb].
  { exists buf. change (10 ^ Z.of_nat 0) with 1. rewrite Z.div_1_r, Z.mod_1_r, Nat.add_0_r.
    split_and!; [done|constructor|]. f_equal. lia. }
  pose proof (Z.mod_pos_bound v 10 ltac:(lia)) as Hm.
  pose proof (Z.mod_pos_bound (v / 10) _ (pow10_pos p)) as Hq.
  assert (0 <= x * 10 ^ Z.of_nat p) as Hxp by (apply Z.mul_nonneg_nonneg; lia).
  rewrite mod_pow10_S, pow10_S in Hle by done.
  destruct (IH (v / 10) (String (digit_char (v mod 10)) buf)) as (t & Ht & Hd & Hr);
    [apply Z.div_pos; lia|done|lia|].
  exists t. rewrite Ht, div_pow10_S. split; [done|]. split.
  { eapply digits_on_trans; [exact Hd|]. constructor; [lia|constructor]. }
  rewrite Hr, leadingFraction_step by lia.
  rewrite mod_pow10_S, pow10_S, Nat.add_succ_r by done. f_equal. lia.
Qed.

(** The last [p] digits without the zeros at the end. *)
Lemma fmtFrac_loop_some p v buf :
  0 <= v → (p <= 18)%nat →
  (v mod 10 ^ Z.of_nat p = 0 ∧ fmtFrac_loop p v false buf = (buf, v / 10 ^ Z.of_nat p, false)) ∨
  ∃ t k f, fmtFrac_loop p v false buf = (t, v / 10 ^ Z.of_nat p, true) ∧ digits_on buf t ∧
    (1 <= k <= p)%nat ∧ 0 < f < 10 ^ Z.of_nat k ∧
    f * 10 ^ Z.of_nat (p - k) = v mod 10 ^ Z.of_nat p ∧ buf ≠ t ∧
    leadingFraction 0 (scale_of 0) false t = leadingFraction f (scale_of k) false buf.
Proof.
  revert v. induction p as [|p IH]; intros v Hv Hp.
  { left. change (10 ^ Z.of_nat 0) with 1. by rewrite Z.div_1_r, Z.mod_1_r. }
  cbn [fmtFrac_loop orb]. pose proof (Z.mod_pos_bound v 10 ltac:(lia)) as Hm.
  pose proof (Z.mod_pos_bound (v / 10) _ (pow10_pos p)) as Hd.
  destruct (Z.eqb_spec (v mod 10) 0) as [H0|H0]; cbn [negb].
  - destruct (IH (v / 10)) as [[Hz Ht]|(t & k & f & Ht & Hdig & Hk & Hf & He & Hne & Hr)];
      [apply Z.div_pos; lia|lia|left|right].
    + rewrite Ht, div_pow10_S, mod_pow10_S by done. split; [lia|done].
    + exists t, k, f. rewrite Ht, div_pow10_S, mod_pow10_S by done. split_and!; try done; [lia..|].
      rewrite Nat.sub_succ_l, pow10_S by lia. lia.
  - right.
    assert (10 ^ Z.of_nat p <= 10 ^ 17) as Hpow by (apply Z.pow_le_mono_r; lia).
    destruct (fmtFrac_loop_all p (v / 10) (String (digit_char (v mod 10)) buf) 0 0) as (t & Ht & Hdig & Hr);
      [apply Z.div_pos; lia|done|unfold max_int64; lia|].
    exists t, (S p), (v mod 10 ^ Z.of_nat (S p)). rewrite Ht, div_pow10_S.
    pose proof (Z.mod_pos_bound v _ (pow10_pos (S p))).
    split_and!; try done; try lia.
    + eapply digits_on_trans; [exact Hdig|]. constructor; [lia|constructor].
    + rewrite mod_pow10_S by done. lia.
    + rewrite Nat.sub_diag. change (10 ^ Z.of_nat 0) with 1. lia.
    + intros ->. apply digits_on_length in Hdig. simpl in Hdig. lia.
    + rewrite Hr, leadingFraction_step by (unfold max_int64; lia).
      rewrite mod_pow10_S by done. f_equal. lia.
Qed.

(** The weight of a fraction in a unit of a power of ten is exact. *)
Lemma frac_value prec k f :
  prec ∈ [3; 6; 9]%nat → (1 <= k <= prec)%nat → 0 < f < 10 ^ Z.of_nat k →
  Float64.to_u64 (Float64.mul (Float64.of_u64 f)
    (Float64.div (Float64.of_u64 (10 ^ Z.of_nat prec)) (scale_of k)))
  = f * 10 ^ Z.of_nat (prec - k).
Proof.
  intros Hp Hk Hf.
  assert (Float64.div (Float64.of_u64 (10 ^ Z.of_nat prec)) (scale_of k)
          = Float64.of_u64 (10 ^ Z.of_nat (prec - k))) as ->.
  { assert (k ∈ [1; 2; 3; 4; 5; 6; 7; 8; 9]%nat) as Hin.
    { rewrite !elem_of_cons, elem_of_nil in Hp. rewrite !elem_of_cons. lia. }
    repeat (apply elem_of_cons in Hp as [->|Hp]);
      [..|by apply elem_of_nil in Hp];
      repeat (apply elem_of_cons in Hin as [->|Hin]);
      first [by apply elem_of_nil in Hin | lia | by vm_compute]. }
  assert (f * 10 ^ Z.of_nat (prec - k) < 2 ^ 53).
  { assert (f * 10 ^ Z.of_nat (prec - k) < 10 ^ Z.of_nat k * 10 ^ Z.of_nat (prec - k)) as Hlt.
    { apply Z.mul_lt_mono_pos_r; [apply pow10_pos|lia]. }
    rewrite <- Z.pow_add_r in Hlt by lia.
    assert (10 ^ (Z.of_nat k + Z.of_nat (prec - k)) <= 10 ^ 9); [|lia].
    apply Z.pow_le_mono_r; [lia|]. rewrite !elem_of_cons in Hp. rewrite elem_of_nil in Hp. lia. }
  pose proof (pow10_pos (prec - k)).
  assert (0 < f * 10 ^ Z.of_nat (prec - k)) by (apply Z.mul_pos_pos; lia).
  by rewrite mul_exact, to_u64_of_u64 by lia.
Qed.

(** A unit: letters, that are no part of a number. *)
Definition unit_start (s : string) : Prop :=
  match s with String c _ => digit c = false ∧ c ≠ "."%char | EmptyString => False end.

Lemma unit_start_no_digit s : unit_start s → no_digit s.
Proof. destruct s; [done|]. by intros []. Qed.

Lemma fraction_none s : unit_start s → fraction s = (0, Float64.of_u64 1, s, false).
Proof.
  destruct s as [|c s]; [done|]. intros [_ Hc]. unfold fraction.
  destruct c as [[] [] [] [] [] [] [] []]; try done.
Qed.

(** What [fmtFrac] writes, and how it is read. *)
Record frac_ok (u : Z) (prec : nat) (ut buf : string) : Prop := {
  fr_no_digit : no_digit buf;
  fr_plain : no_backslash ut = true → no_backslash buf = true;
  fr_read : ∃ f scale post, fraction buf = (f, scale, ut, post) ∧
    ((f = 0 ∧ u mod 10 ^ Z.of_nat prec = 0) ∨
     ∃ k, (1 <= k <= prec)%nat ∧ 0 < f < 10 ^ Z.of_nat k ∧ scale = scale_of k ∧
       f * 10 ^ Z.of_nat (prec - k) = u mod 10 ^ Z.of_nat prec);
}.

Lemma fmtFrac_run u prec ut :
  0 <= u → (prec <= 18)%nat → unit_start ut →
  ∃ buf, fmtFrac u prec ut = (buf, u / 10 ^ Z.of_nat prec) ∧ frac_ok u prec ut buf.
Proof.
  intros Hu Hp Hut. unfold fmtFrac.
  destruct (fmtFrac_loop_some prec u ut Hu Hp) as [[Hz Ht]|(t & k & f & Ht & Hd & Hk & Hf & He & Hne & Hr)];
    rewrite Ht; eexists; (split; [reflexivity|]); split; try done.
  - by apply unit_start_no_digit.
  - eexists _, _, _. split; [by apply fraction_none|]. by left.
  - intros Hplain. change (no_backslash t = true). by eapply digits_on_plain.
  - exists f, (scale_of k), (negb (String.length t =? String.length ut)%nat).
    split; [|right; by exists k]. cbn [fraction]. change (Float64.of_u64 1) with (scale_of 0).
    by rewrite Hr, leadingFraction_stop by by apply unit_start_no_digit.
Qed.

(** *** A number with its unit *)

Lemma part_run n buf f scale s2 post u rest unit :
  0 <= n <= two63 → no_digit buf → fraction buf = (f, scale, s2, post) →
  unit_text s2 = (u, rest) → u ≠ "" → unitMap u = Some unit → 0 < unit → n * unit <= two63 →
  part (fmtInt n buf)
  = if 0 <? f then
      let v := u64 (n * unit + Float64.to_u64
        (Float64.mul (Float64.of_u64 f) (Float64.div (Float64.of_u64 unit) scale))) in
      if two63 <? v then Err invalid else Ok (v, rest)
    else Ok (n * unit, rest).
Proof.
  intros Hn Hb Hf Hu Hne Hm Hunit Hle. unfold part.
  pose proof (fmtInt_read n buf Hn Hb) as Hread.
  destruct (fmtInt_shape n buf) as (c & t & Ht & Hc & Hd); [lia|]. rewrite Ht in *.
  pose proof (digits_on_length _ _ Hd) as Hlen.
  destruct (digit_char_spec c Hc) as (-> & _ & Hdot & _). rewrite orb_true_r. cbn [negb].
  rewrite Hread, Hf, Hu, Hm.
  rewrite (proj2 (Nat.eqb_neq _ _)) by (simpl; lia). cbn [negb andb].
  rewrite bool_decide_false by done.
  rewrite (proj2 (Z.ltb_ge _ _)) by (apply Z.div_le_lower_bound; lia).
  rewrite (u64_small (n * unit)) by (unfold in_u64, two63, two64 in *; lia). done.
Qed.

(** The last number, which has a fraction. *)
Lemma part_frac u prec ut buf :
  0 <= u <= two63 → prec ∈ [0; 3; 6; 9]%nat → frac_ok u prec ut buf →
  unit_text ut = (ut, "") → ut ≠ "" → unitMap ut = Some (10 ^ Z.of_nat prec) →
  part (fmtInt (u / 10 ^ Z.of_nat prec) buf) = Ok (u, "").
Proof.
  intros Hu Hp [Hnd _ (f & scale & post & Hf & Hcase)] Hut Hne Hm.
  pose proof (pow10_pos prec) as Hpos. pose proof (Z.div_mod u (10 ^ Z.of_nat prec) ltac:(lia)) as Hdm.
  pose proof (Z.mod_pos_bound u _ Hpos) as Hmod.
  assert (0 <= u / 10 ^ Z.of_nat prec) by (apply Z.div_pos; lia).
  rewrite (part_run _ buf f scale ut post ut "" (10 ^ Z.of_nat prec)); try done.
  2: { split; [done|]. nia. }
  2: { lia. }
  destruct Hcase as [[-> H0]|(k & Hk & Hf0 & -> & He)].
  - cbn [Z.ltb Z.compare]. do 2 f_equal. lia.
  - rewrite (proj2 (Z.ltb_lt _ _)) by lia. rewrite frac_value; [|..|done]; [|set_solver by lia|done].
    rewrite He, u64_small by (unfold in_u64, two63, two64 in *; lia).
    cbv zeta. rewrite (proj2 (Z.ltb_ge _ _)) by lia. do 2 f_equal. lia.
Qed.

(** The numbers before it. *)
Lemma part_unit n c unit v buf :
  0 <= n → 0 <= v → unit_start (String c "") → unitMap (String c "") = Some unit → 0 < unit →
  n * unit <= two63 →
  part (fmtInt n (String c (fmtInt v buf))) = Ok (n * unit, fmtInt v buf).
Proof.
  intros Hn Hv [Hc Hdot] Hm Hunit Hle.
  destruct (fmtInt_shape v buf Hv) as (d & t & Ht & Hd & _).
  assert (unit_text (String c (fmtInt v buf)) = (String c "", fmtInt v buf)) as Hut.
  { rewrite Ht. cbn [unit_text]. rewrite Hc, bool_decide_false by done. cbn [orb].
    destruct (digit_char_spec d Hd) as (-> & _). by rewrite orb_true_r. }
  rewrite (part_run n _ 0 (Float64.of_u64 1) (String c (fmtInt v buf)) false (String c "") (fmtInt v buf) unit);
    try done; [unfold two63 in *; nia|by apply fraction_none].
Qed.

(** *** The whole text *)

(** The loop reads [s] onto [d] with the fuel there is. *)
Definition reads (s : string) (d x : Z) : Prop :=
  ∀ fuel, (String.length s <= fuel)%nat → parts fuel d s = Ok x.

Lemma reads_nil d : reads "" d d.
Proof. by intros []. Qed.

Lemma reads_int n buf v rest d x :
  0 <= n → part (fmtInt n buf) = Ok (v, rest) → (String.length rest <= String.length buf)%nat →
  0 <= d → 0 <= v → d + v <= two63 → reads rest (d + v) x → reads (fmtInt n buf) d x.
Proof.
  intros Hn Hp Hl Hd Hv Hle Hr fuel Hfuel.
  destruct (fmtInt_shape n buf Hn) as (c & t & Ht & Hc & Hdig). rewrite Ht in *.
  apply digits_on_length in Hdig. simpl in Hfuel. destruct fuel as [|fuel]; [lia|].
  cbn [parts]. rewrite Hp. cbn [mbind res_bind].
  rewrite u64_small by (unfold in_u64, two63, two64 in *; lia).
  rewrite (proj2 (Z.ltb_ge _ _)) by done. apply Hr. lia.
Qed.

Lemma reads_frac n prec ut buf u d :
  n = u / 10 ^ Z.of_nat prec → 0 <= u → 0 <= d → d + u <= two63 → prec ∈ [0; 3; 6; 9]%nat →
  frac_ok u prec ut buf → unit_text ut = (ut, "") → ut ≠ "" → unitMap ut = Some (10 ^ Z.of_nat prec) →
  reads (fmtInt n buf) d (d + u).
Proof.
  intros -> Hu Hd Hle Hp Hfr Hut Hne Hm. eapply reads_int; [|apply (part_frac u prec ut buf); [lia|done..]|simpl; lia|..];
    [|lia|lia|lia|apply reads_nil].
  apply Z.div_pos; [lia|apply pow10_pos].
Qed.

Lemma reads_unit n c unit v buf d x :
  0 <= n → 0 <= v → unit_start (String c "") → unitMap (String c "") = Some unit → 0 < unit →
  0 <= d → d + n * unit <= two63 → reads (fmtInt v buf) (d + n * unit) x →
  reads (fmtInt n (String c (fmtInt v buf))) d x.
Proof.
  intros Hn Hv Hc Hm Hunit Hd Hle Hr.
  eapply reads_int; [done|by apply part_unit; try done; lia|simpl; lia|lia|nia|lia|done].
Qed.

(** A text that starts with a digit and goes on, with nothing to escape. *)
Definition well_formed (s : string) : Prop :=
  (∃ n t, s = String (digit_char n) t ∧ 0 <= n < 10 ∧ t ≠ "") ∧ no_backslash s = true.

Lemma fmtInt_well_formed v buf :
  0 <= v → buf ≠ "" → no_backslash buf = true → well_formed (fmtInt v buf).
Proof.
  intros Hv Hne Hb. split; [|by apply fmtInt_plain].
  destruct (fmtInt_shape v buf Hv) as (n & t & Ht & Hn & Hd). exists n, t. split_and!; [done|lia|lia|].
  intros ->. apply digits_on_length in Hd. by destruct buf; simpl in Hd; [|lia].
Qed.

(** Durations below a second. *)
Lemma magnitude_small u :
  0 < u < Second → well_formed (magnitude u) ∧ reads (magnitude u) 0 u.
Proof.
  intros Hu. unfold magnitude. rewrite (proj2 (Z.ltb_lt u Second)) by lia.
  rewrite (proj2 (Z.eqb_neq _ _)) by lia.
  assert (∀ prec ut, prec ∈ [0; 3; 6; 9]%nat → unit_start ut → unit_text ut = (ut, "") →
    unitMap ut = Some (10 ^ Z.of_nat prec) → no_backslash ut = true →
    let t := (let '(buf, v) := fmtFrac u prec ut in fmtInt v buf) in
    well_formed t ∧ reads t 0 u) as Hall.
  { intros prec ut Hp Hs Hut Hm Hplain. destruct (fmtFrac_run u prec ut) as (buf & -> & Hfr);
      [lia|rewrite !elem_of_cons in Hp; rewrite elem_of_nil in Hp; lia|done|].
    assert (ut ≠ "") as Hne by by intros ->.
    split; [apply fmtInt_well_formed|by eapply (reads_frac _ prec ut buf u 0);
      try done; unfold Second, two63 in *; lia].
    - apply Z.div_pos; [lia|apply pow10_pos].
    - intros ->. destruct (fr_read _ _ _ _ Hfr) as (f & sc & po & [= _ _ <- _] & _). done.
    - by apply (fr_plain _ _ _ _ Hfr). }
  destruct (u <? Microsecond); [|destruct (u <? Millisecond)]; apply Hall; try done; set_solver.
Qed.

(** The seconds of the minute, with their fraction. *)
Lemma low_frac u buf :
  0 <= u → frac_ok u 9 "s" buf →
  let low := (u / Second) mod 60 * Second + u mod Second in
  (u / Second) mod 60 = low / Second ∧ frac_ok low 9 "s" buf.
Proof.
  intros Hu Hfr low. assert (0 <= u mod Second < Second) as Hmod by (apply Z.mod_pos_bound; done).
  assert (low mod Second = u mod Second) as Hm.
  { unfold low. rewrite Z.add_comm, Z.mod_add by done. by apply Z.mod_small. }
  split.
  - unfold low. rewrite Z.add_comm, Z.div_add, (Z.div_small (u mod Second)) by done. lia.
  - destruct Hfr as [H1 H2 H3]. split; [done|done|].
    change (10 ^ Z.of_nat 9) with Second in *. by rewrite Hm.
Qed.

(** Durations of a second and more. *)
Lemma magnitude_large u :
  Second <= u <= two63 → well_formed (magnitude u) ∧ reads (magnitude u) 0 u.
Proof.
  intros Hu. unfold magnitude. rewrite (proj2 (Z.ltb_ge u Second)) by lia.
  destruct (fmtFrac_run u 9 "s") as (buf & -> & Hfr); [unfold Second in *; lia|lia|done|].
  change (10 ^ Z.of_nat 9) with Second.
  assert (buf ≠ "") as Hne.
  { intros ->. by destruct (fr_read _ _ _ _ Hfr) as (f & sc & po & [= _ _ <- _] & _). }
  pose proof (fr_plain _ _ _ _ Hfr eq_refl) as Hplain.
  set (q := u / Second). set (low := q mod 60 * Second + u mod Second).
  assert (0 <= u mod Second < Second) as Hmod by (apply Z.mod_pos_bound; done).
  assert (u = q * Second + u mod Second) as Hdm.
  { unfold q. rewrite Z.mul_comm. by apply Z.div_mod. }
  assert (0 <= q mod 60 < 60) as Hq by (apply Z.mod_pos_bound; lia).
  assert (0 <= q) as Hq0 by (unfold Second in *; lia).
  destruct (low_frac u buf ltac:(unfold Second in *; lia) Hfr) as [Hlow Hfr'].
  fold q in Hlow, Hfr'. fold low in Hlow, Hfr'.
  assert (∀ d, 0 <= d → d + low <= two63 → reads (fmtInt (q mod 60) buf) d (d + low)) as Hsec.
  { intros d Hd Hle. apply (reads_frac _ 9 "s"); try done; [unfold low, Second in *; lia|set_solver]. }
  assert (well_formed (fmtInt (q mod 60) buf)) as Hwf by (apply fmtInt_well_formed; [lia|done|done]).
  destruct Hwf as [_ Hp0].
  pose proof (Z.div_mod q 60 ltac:(lia)) as Hq60.
  destruct (Z.ltb_spec 0 (q / 60)) as [Hm|Hm].
  2: { split; [apply fmtInt_well_formed; [lia|done|done]|].
       assert (u = 0 + low) as Hsum by (unfold low, Second in *; lia).
       rewrite Hsum. apply Hsec; unfold Second in *; lia. }
  set (m := q / 60) in *. pose proof (Z.div_mod m 60 ltac:(lia)) as Hm60.
  assert (0 <= m mod 60 < 60) as Hmm by (apply Z.mod_pos_bound; lia).
  assert (∀ d, 0 <= d → d + (m mod 60 * Minute + low) <= two63 →
    reads (fmtInt (m mod 60) (String "m" (fmtInt (q mod 60) buf))) d (d + (m mod 60 * Minute + low))) as Hmin.
  { intros d Hd Hle. apply (reads_unit _ _ Minute); try done; [lia|lia|unfold low, Minute, Second in *; lia|].
    rewrite Z.add_assoc. apply Hsec; unfold Minute, Second in *; lia. }
  destruct (Z.ltb_spec 0 (m / 60)) as [Hh|Hh].
  - split; [apply fmtInt_well_formed; [lia|done|exact (fmtInt_plain _ (String "m" _) Hp0)]|].
    assert (u = 0 + m / 60 * Hour + (m mod 60 * Minute + low)) as Hsum
      by (unfold low, Hour, Minute, Second in *; lia).
    apply (reads_unit _ _ Hour); try done; [lia|lia|unfold low, Hour, Minute, Second in *; lia|].
    rewrite Hsum. apply Hmin; unfold Hour, Minute, Second in *; lia.
  - split; [apply fmtInt_well_formed; [lia|done|exact Hp0]|].
    assert (u = 0 + (m mod 60 * Minute + low)) as Hsum by (unfold low, Minute, Second in *; lia).
    rewrite Hsum. apply Hmin; [done|lia].
Qed.

Lemma magnitude_reads u :
  0 < u <= two63 → well_formed (magnitude u) ∧ reads (magnitude u) 0 u.
Proof.
  intros Hu. destruct (Z.lt_ge_cases u Second); [apply magnitude_small; lia|apply magnitude_large; lia].
Qed.
End TimeFacts.

(** ** Properties *)

Module DurationProps.
Import Time TimeFacts.

Lemma u64_magnitude d : in_i64 d → d < 0 → u64 (- u64 d) = - d.
Proof.
  intros Hd Hneg. unfold in_i64, u64, two63, two64 in *.
  replace (d mod _) with (d + 18446744073709551616).
  2: { apply (Z.mod_unique d _ (-1)); lia. }
  symmetry. apply (Z.mod_unique _ _ (-1)); lia.
Qed.

(** The text of a number with a sign in front, or none. *)
Lemma parse_magnitude neg u :
  0 < u <= two63 →
  ParseDuration (if neg : bool then String "-" (magnitude u) else magnitude u)
  = if neg then Ok (i64 (- i64 u)) else if max_int64 <? u then Err invalid else Ok (i64 u).
Proof.
  intros Hu. destruct (magnitude_reads u Hu) as [[(n & t & Ht & Hn & Hne) _] Hr].
  destruct (digit_char_spec n Hn) as (_ & _ & _ & Hminus & Hplus & _).
  specialize (Hr _ (le_n _)). unfold ParseDuration. rewrite Ht in *.
  destruct neg; cbn [mbind res_bind].
  - rewrite bool_decide_true by done. rewrite !bool_decide_false by congruence. by rewrite Hr.
  - rewrite !bool_decide_false by congruence. by rewrite Hr.
Qed.

Lemma parse_format d : in_i64 d → ParseDuration (format d) = Ok d.
Proof.
  intros Hd. pose proof Hd as Hb. unfold in_i64 in Hb. unfold format.
  destruct (Z.ltb_spec d 0) as [Hneg|Hpos].
  - rewrite u64_magnitude by done.
    rewrite (parse_magnitude true) by lia. f_equal.
    destruct (Z.eq_dec d (- two63)) as [->|Hne]; [done|].
    rewrite (i64_small (- d)), Z.opp_involutive by (unfold in_i64; lia). by apply i64_small.
  - rewrite u64_small by (unfold in_u64, two63, two64 in *; lia).
    destruct (Z.eq_dec d 0) as [->|Hne]; [by vm_compute|].
    rewrite (parse_magnitude false) by lia.
    rewrite (proj2 (Z.ltb_ge _ _)) by (unfold max_int64, two63 in *; lia).
    f_equal. by apply i64_small.
Qed.

Lemma format_plain d : in_i64 d → no_backslash (format d) = true.
Proof.
  intros Hd. assert (∀ u, 0 <= u <= two63 → no_backslash (magnitude u) = true) as Hm.
  { intros u Hu. destruct (Z.eq_dec u 0) as [->|Hne]; [done|]. apply magnitude_reads. lia. }
  pose proof Hd as Hb. unfold in_i64 in Hb. unfold format. destruct (Z.ltb_spec d 0).
  - rewrite u64_magnitude by done. change (no_backslash (magnitude (- d)) = true). apply Hm. lia.
  - apply Hm. rewrite u64_small by (unfold in_u64, two63, two64 in *; lia). lia.
Qed.

(** C23: a duration of the configuration is read back from the text it is
    written as, to the nanosecond and at both ends of its range: the minutes and
    hours are taken apart and put together, and the fraction, that goes through a
    floating-point number, is exact. *)
Theorem Duration_roundtrip d :
  in_i64 d → Duration.UnmarshalJSON (Duration.MarshalJSON d) = Ok d.
Proof.
  intros Hd. unfold Duration.UnmarshalJSON, Duration.MarshalJSON. cbn [unmarshal_string].
  unfold unescape_body. rewrite unescape_plain by (apply format_plain, Hd || lia).
  by apply parse_format.
Qed.

(** The loop ends within its fuel: more of it changes nothing. *)
Lemma part_shorter s v rest : part s = Ok (v, rest) → (String.length rest < String.length s)%nat.
Proof.
  assert (∀ x t y r, leadingInt x t = Some (y, r) → (String.length r <= String.length t)%nat) as Hint.
  { intros x t. revert x. induction t as [|c t IH]; intros x y r; cbn [leadingInt]; [by intros [= <- <-]|].
    destruct (digit c); [|by intros [= <- <-]]. destruct (_ <? x); [done|].
    destruct (two63 <? _); [done|]. intros Hr%IH. simpl. lia. }
  assert (∀ x sc o t, (String.length (leadingFraction x sc o t).2 <= String.length t)%nat) as Hfrac.
  { intros x sc o t. revert x sc o. induction t as [|c t IH]; intros x sc o; cbn [leadingFraction]; [done|].
    destruct (digit c); [|done].
    destruct o; [|destruct (_ <? x); [|destruct (two63 <? _)]];
      match goal with |- context [leadingFraction ?x ?sc ?o t] => pose proof (IH x sc o); simpl; lia end. }
  assert (∀ t, ((unit_text t).1 ≠ "" → String.length (unit_text t).2 < String.length t)%nat ∧
    (String.length (unit_text t).2 <= String.length t)%nat) as Hunit.
  { induction t as [|c t [IH1 IH2]]; cbn [unit_text]; [done|].
    destruct (_ || _); cbn [fst snd]; [done|]. simpl. split; lia. }
  unfold part. destruct s as [|c s]; [done|]. destruct (negb _); [done|].
  destruct (leadingInt 0 (String c s)) as [[n s1]|] eqn:Hi; [|done]. apply Hint in Hi.
  assert ((String.length (fraction s1).1.2 <= String.length s1)%nat) as Hf.
  { unfold fraction. destruct s1 as [|a s1]; [done|]. destruct a as [[] [] [] [] [] [] [] []]; try done.
    specialize (Hfrac 0 (Float64.of_u64 1) false s1).
    destruct (leadingFraction _ _ _ _) as [[f sc] r]. simpl in *. lia. }
  destruct (fraction s1) as [[[f sc] s2] post]. cbn [fst snd] in Hf. destruct (_ && _); [done|].
  destruct (Hunit s2) as [Hlt _]. destruct (unit_text s2) as [u r]. cbn [fst snd] in Hlt.
  case_bool_decide; [done|]. specialize (Hlt ltac:(done)).
  destruct (unitMap u) as [unit|]; [|done]. destruct (_ <? n); [done|]. destruct (0 <? f).
  - cbv zeta. destruct (two63 <? _); [done|]. intros [= _ <-]. simpl in *. lia.
  - intros [= _ <-]. simpl in *. lia.
Qed.

Lemma parts_fuel fuel fuel' d s :
  (String.length s <= fuel)%nat → (String.length s <= fuel')%nat → parts fuel d s = parts fuel' d s.
Proof.
  revert fuel' d s. induction fuel as [|fuel IH]; intros fuel' d s Hf Hf'.
  { destruct s; [by destruct fuel'|simpl in Hf; lia]. }
  destruct s as [|c s]; [by destruct fuel'|]. destruct fuel' as [|fuel']; [simpl in Hf'; lia|].
  cbn [parts]. destruct (part (String c s)) as [[v rest]|e] eqn:Hp; [|done]. cbn [mbind res_bind].
  apply part_shorter in Hp. simpl in *. destruct (two63 <? _); [done|]. apply IH; lia.
Qed.

(** Digits alone are no duration. *)
Lemma leadingInt_digits x t : digits_on "" t → ∀ r, leadingInt x t = Some r → r.2 = "".
Proof.
  intros Ht. revert x. induction Ht as [|n t Hn Ht IH]; intros x r; cbn [leadingInt]; [by intros [= <-]|].
  destruct (digit_char_spec n Hn) as (-> & _). destruct (_ <? x); [done|].
  destruct (two63 <? _); [done|]. apply IH.
Qed.

Lemma part_digits t : digits_on "" t → ∃ e, part t = Err e.
Proof.
  intros Ht. pose proof (leadingInt_digits 0 t Ht) as Hr. unfold part.
  destruct t as [|c t]; [by eexists|]. destruct (negb _); [by eexists|].
  destruct (leadingInt 0 (String c t)) as [[v s1]|]; [|by eexists].
  specialize (Hr _ eq_refl). simpl in Hr. subst s1. cbn [fraction unit_text].
  destruct (_ && _); [by eexists|]. rewrite bool_decide_true by done. by eexists.
Qed.

(** a duration is read from a JSON string only, a null refused; it is a
    number of nanoseconds of 64 bits; and the text is no number without a unit,
    but for a single zero. *)
Theorem Duration_decoded v d :
  Duration.UnmarshalJSON v = Ok d →
  in_i64 d ∧ ∃ s t, v = JStr s ∧ unescape_body s = Some t ∧ (digits_on "" t → t = "0").
Proof.
  unfold Duration.UnmarshalJSON. destruct (unmarshal_string v) as [t|e] eqn:Ht; [|done].
  cbn [mbind res_bind]. intros Hd. split.
  - unfold ParseDuration in Hd. destruct (match t with EmptyString => _ | _ => _ end) as [neg u].
    case_bool_decide; [by injection Hd as <-|]. case_bool_decide; [done|].
    destruct (parts _ 0 u) as [x|e]; [|done]. cbn [mbind res_bind] in Hd.
    destruct neg; [injection Hd as <-; apply i64_range|].
    destruct (max_int64 <? x); [done|]. injection Hd as <-. apply i64_range.
  - destruct v as [| | |s| | |]; try done; cbn [unmarshal_string] in Ht; [by injection Ht as <-|].
    destruct (unescape_body s) as [t'|] eqn:Hs; [|done]. injection Ht as ->.
    exists s, t. split_and!; [done|done|]. intros Hdig.
    destruct Hdig as [|n t Hn Hdig]; [done|]. pose proof (digits_more _ n t Hn Hdig) as Hall.
    destruct (digit_char_spec n Hn) as (_ & _ & _ & Hm & Hp & _).
    unfold ParseDuration in Hd. rewrite (bool_decide_false (_ = "-"%char)) in Hd by done.
    rewrite (bool_decide_false (_ = "+"%char)) in Hd by done.
    case_bool_decide as H0; [done|]. rewrite bool_decide_false in Hd by done.
    destruct (part_digits _ Hall) as [e He]. cbn [String.length parts] in Hd. by rewrite He in Hd.
Qed.
End DurationProps.

(** ** Witnesses *)

Module DurationWitness.
Import Time DurationProps.

Definition longest : Z := - two63.
Lemma Duration_roundtrip_witness :
  Duration.MarshalJSON longest = JStr "-2562047h47m16.854775808s" ∧
  Duration.UnmarshalJSON (Duration.MarshalJSON longest) = Ok longest.
Proof. split; [by vm_compute|]. apply Duration_roundtrip. by vm_compute. Defined.

(** A fraction of an hour that a floating-point number only comes near to. *)
Lemma Duration_decoded_witness :
  in_i64 444444440444 ∧ ∃ s t, JStr "0.123456789012345678h" = JStr s ∧ unescape_body s = Some t ∧
    (TimeFacts.digits_on "" t → t = "0").
Proof. apply (Duration_decoded (JStr "0.123456789012345678h")). vm_compute. reflexivity. Defined.
End DurationWitness.
