(* ===== verification/Rpc.v ===== *)
(** * Requests, contexts and handlers: [lib/subctx], [lib/jrpcutil]

    A handler is a program over a world [W] that receives a request and
    returns the calls of [w.Send] it made, in order.  Middlewares are functions
    from handlers to handlers, as in the source.  The request is passed by
    value: the two middlewares that assign [r.Params] do it before their only
    call of the next handler. *)
From S2P Require Import Prelude Errors Json EthTypes Config.

(** ** [lib/subctx/subctx.go] *)

Record Identifier := {
  Id_Endpoint : string;
  Id_Type : string;
  Id_Slug : string;
  Id_ExtraCost : Z;
}.

Inductive ctxkey : Type :=
  | ContextKeyChain | ContextKeyInternal | ContextKeyEndpointPath
  | ContextKeyEndpointSpec | IdentifierContextKey.

#[export] Instance ctxkey_eq_dec : EqDecision ctxkey.
Proof. solve_decision. Defined.

(** The dynamic values stored in a context; a pointer may be nil. *)
Inductive ctxval : Type :=
  | VChain (c : option Chain)
  | VBool (b : bool)
  | VString (s : string)
  | VSpec (e : option EndpointSpec)
  | VIdentifier (i : Identifier).

(** A [context.Context]: the chain of [context.WithValue] calls. *)
Definition context : Type := list (ctxkey * ctxval).

Definition Background : context := [].
Definition WithValue (ctx : context) (k : ctxkey) (v : ctxval) : context := (k, v) :: ctx.

Fixpoint ctx_Value (ctx : context) (k : ctxkey) : option ctxval :=
  match ctx with
  | [] => None
  | (k', v) :: ctx => if decide (k' = k) then Some v else ctx_Value ctx k
  end.

Definition WithChain (ctx : context) (c : Chain) : context :=
  WithValue ctx ContextKeyChain (VChain (Some c)).
Definition WithEndpointSpec (ctx : context) (e : EndpointSpec) : context :=
  WithValue ctx ContextKeyEndpointSpec (VSpec (Some e)).
Definition WithEndpointPath (ctx : context) (p : string) : context :=
  WithValue ctx ContextKeyEndpointPath (VString p).
Definition WithInternal (ctx : context) (b : bool) : context :=
  WithValue ctx ContextKeyInternal (VBool b).

Definition GetEndpointPath (ctx : context) : res goerr string :=
  match ctx_Value ctx ContextKeyEndpointPath with
  | Some (VString s) =>
      if bool_decide (s = "") then Err (ESentinel ErrNoEndpointPath) else Ok s
  | _ => Err (ESentinel ErrNoEndpointPath)
  end.

Definition GetEndpointSpec (ctx : context) : res goerr EndpointSpec :=
  match ctx_Value ctx ContextKeyEndpointSpec with
  | Some (VSpec (Some e)) => Ok e
  | _ => Err (ESentinel ErrNoEndpointSpec)
  end.

Definition GetChain (ctx : context) : res goerr Chain :=
  match ctx_Value ctx ContextKeyChain with
  | Some (VChain (Some c)) => Ok c
  | _ => Err (ESentinel ErrNoChain)
  end.

Definition IsInternal (ctx : context) : bool :=
  match ctx_Value ctx ContextKeyInternal with
  | Some (VBool b) => b
  | _ => false
  end.

(** ** Requests and replies *)

Record request := {
  r_ctx : context;
  r_method : string;
  r_params : option json;       (* [None]: no parameters *)
  r_peer : string;              (* r.Peer.RemoteAddr *)
}.

Definition with_ctx (r : request) (ctx : context) : request :=
  {| r_ctx := ctx; r_method := r_method r; r_params := r_params r; r_peer := r_peer r |}.
Definition with_params (r : request) (p : json) : request :=
  {| r_ctx := r_ctx r; r_method := r_method r; r_params := Some p; r_peer := r_peer r |}.

(** [json.Unmarshal(r.Params, ...)]: no text is an error. *)
Definition unmarshal_params {A} (f : json → res goerr A) (r : request) : res goerr A :=
  match r_params r with Some v => f v | None => Err json_error end.

(** The dynamic values handed to [Send]. *)
Inductive value : Type :=
  | VNil
  | VRaw (v : json)                 (* json.RawMessage, sonic.NoCopyRawMessage *)
  | VUint64 (n : Z)                 (* hexutil.Uint64 *)
  | VText (s : string)
  | VHeader (number timestamp : Z). (* the block header types of ethtypes *)

(** One call [w.Send(v, err)]. *)
Definition reply : Type := value * option goerr.

Definition reply_err (e : goerr) : reply := (VNil, Some e).
Definition reply_ok (v : value) : reply := (v, None).

Definition handler (W : Type) : Type := request → prog W (list reply).
Definition middleware (W : Type) : Type := handler W → handler W.

Definition send {W} (x : reply) : prog W (list reply) := mret [x].
Definition send_err {W} (e : goerr) : prog W (list reply) := send (reply_err e).
Definition send_ok {W} (v : value) : prog W (list reply) := send (reply_ok v).

(** ** [lib/jrpcutil] *)

(** An [Interceptor] keeps the arguments of the last [Send]. *)
Definition Interceptor : Type := reply.
Definition icept0 : Interceptor := (VNil, None).
Definition intercept (i : Interceptor) (sends : list reply) : Interceptor :=
  default i (last sends).

(** sonic: encoding a value, decoding a [hexutil.Uint64], one field of a
    struct by its JSON name (the code's structs have fields of two types), and
    an array of length one: its element, null if there is none. *)
Class Sonic := {
  sonic_marshal : value → res goerr json;
  sonic_uint64 : json → res goerr Z;
  sonic_hash : string → json → res goerr hash;
  sonic_number : string → json → res goerr Z;
  sonic_first : json → res goerr json;
}.

(** The JSON encoding sonic gives the values the code hands it. *)
Class SonicSpec `{S : Sonic} : Prop := {
  sonic_raw v : json_valid v = true → sonic_marshal (VRaw v) = Ok v;
  sonic_nil : sonic_marshal VNil = Ok JNull;
  sonic_uint64_marshal n v : sonic_marshal (VUint64 n) = Ok v → sonic_uint64 v = Ok n;
  sonic_uint64_range v n : sonic_uint64 v = Ok n → in_u64 n;
  sonic_number_range name v n : sonic_number name v = Ok n → in_u64 n;
}.

(** *** An implementation of the laws *)

Module StdSonic.
Definition hash_field `{E : Eth} (name : string) (fs : list (string * json)) : res goerr hash :=
  match struct_field name fs with
  | None | Some JNull => Ok zero_hash
  | Some v => hash_unmarshal v
  end.

Definition uint64_field (name : string) (fs : list (string * json)) : res goerr Z :=
  match struct_field name fs with
  | None | Some JNull => Ok 0
  | Some v => StdEth.uint64 v
  end.

Definition struct_of {A} (field : list (string * json) → res goerr A) (v : json) : res goerr A :=
  match v with JObj fs => field fs | JNull => field [] | _ => Err json_error end.

#[export] Instance std_sonic `{E : Eth} : Sonic := {|
  sonic_marshal v :=
    match v with
    | VNil => Ok JNull
    | VRaw v => Ok v
    | VUint64 n =>
        if bool_decide (0 <= n < two64) then Ok (JStr (hex_text n)) else Err json_error
    | VText s => Ok (JStr s)
    | VHeader n t =>
        Ok (JObj [("number", JStr (hex_text n));
                  ("timestamp", JStr (hex_text t))])
    end;
  sonic_uint64 := StdEth.uint64;
  sonic_hash name := struct_of (hash_field name);
  sonic_number name := struct_of (uint64_field name);
  sonic_first v :=
    match v with
    | JArr (v :: _) => Ok v
    | JArr [] | JNull => Ok JNull
    | _ => Err json_error
    end;
|}.

#[export] Instance std_sonic_spec `{E : Eth} : SonicSpec.
Proof.
  split; [done|done| |exact StdEth.uint64_range|].
  2: { intros name v n. simpl. unfold struct_of, uint64_field.
       destruct v as [| | | | |fs|]; try done; [by intros [= <-]|].
       destruct (struct_field name fs) as [x|]; [|by intros [= <-]].
       destruct x; try apply StdEth.uint64_range. by intros [= <-]. }
  intros n v. cbn [sonic_marshal std_sonic sonic_uint64].
  case_bool_decide as Hn; [|done]. intros [= <-].
  apply StdEth.uint64_hex. exact Hn.
Qed.
End StdSonic.

(** [jrpcutil.Do] into a [*json.RawMessage]: the request is marked internal,
    the handler's last reply is the result. *)
Definition internal_request (ctx : context) (method : string) (args : json) : request :=
  {| r_ctx := WithInternal ctx true; r_method := method; r_params := Some args;
     r_peer := "" |}.

Section jrpcutil.
Context {W : Type} `{S : Sonic}.

Definition Do (ctx : context) (h : handler W) (method : string) (args : json)
    : prog W (res goerr json) :=
  sends ← h (internal_request ctx method args);
  mret match intercept icept0 sends with
       | (_, Some e) => Err e
       | (VRaw v, None) => Ok v
       | (v, None) => sonic_marshal v
       end.

(** [jrpcutil.Do] into a [*hexutil.Uint64]. *)
Definition Do_uint64 (ctx : context) (h : handler W) (method : string) (args : json)
    : prog W (res goerr Z) :=
  sends ← h (internal_request ctx method args);
  mret match intercept icept0 sends with
       | (_, Some e) => Err e
       | (v, None) => b ← sonic_marshal v; sonic_uint64 b
       end.
End jrpcutil.

(** ** Observing a run *)

(** The replies of a run that returned. *)
Definition replies {W} (x : outcome (list reply) * W) : option (list reply) :=
  match x.1 with Return l => Some l | _ => None end.

(** A handler that answers: it returns after exactly one [Send]. *)
Definition answers {W} (h : handler W) : Prop :=
  ∀ r w, ∃ x w', h r w = (Return [x], w').

(** A handler that never leaves without at least one [Send]. *)
Definition responds {W} (h : handler W) : Prop :=
  ∀ r w, ∃ x l w', h r w = (Return (x :: l), w').

(** A handler with a fixed reply. *)
Definition const_handler {W} (x : reply) : handler W := λ _, send x.

Lemma const_handler_answers {W} x : answers (@const_handler W x).
Proof. intros r w. by exists x, w. Qed.

(** ** Lemmas *)

Section lemmas.
Context {W : Type}.

Lemma ctx_Value_with ctx k v k' :
  ctx_Value (WithValue ctx k v) k' = if decide (k = k') then Some v else ctx_Value ctx k'.
Proof. done. Qed.

Lemma GetChain_WithInternal ctx b : GetChain (WithInternal ctx b) = GetChain ctx.
Proof. done. Qed.

Lemma GetChain_WithChain ctx c : GetChain (WithChain ctx c) = Ok c.
Proof. done. Qed.

Lemma IsInternal_WithChain ctx c : IsInternal (WithChain ctx c) = IsInternal ctx.
Proof. done. Qed.
End lemmas.

#[export] Hint Rewrite @GetChain_WithInternal @GetChain_WithChain
  @IsInternal_WithChain : venn_simpl.
