(* ===== verification/CallCenter.v ===== *)
(** * The stateless middlewares of a remote: [lib/callcenter], [lib/util/validation.go]

    Method validation, the per-remote method filter, the rate limiter in front
    of a remote, the rewriting of [eth_call] objects, and the base proxy. *)
From S2P Require Import Prelude Errors Json Config Rpc.

Section middlewares.
Context {W : Type} `{J : Jrpc}.

(** ** [lib/util/validation.go] *)

Definition MethodValidationMiddleware : middleware W := λ next r,
  if bool_decide (256 < String.length (r_method r))%nat
  then send_err (NewInvalidRequestError "method name too long")
  else if str_contains "_internal" (r_method r)
  then send_err (NewInvalidRequestError "method not allowed")
  else next r.

(** ** [lib/callcenter/filterer.go] *)

Definition Filterer_Middleware (methods : gmap string bool) : middleware W := λ next r,
  match methods !! r_method r with
  | Some false => send_err (ESentinel ErrMethodNotAllowed)
  | _ => next r
  end.

(** ** [lib/callcenter/ratelimiter.go]

    [Allow] is the token bucket of golang.org/x/time/rate. *)

Definition Ratelimiter_Middleware (Allow : prog W bool) : middleware W := λ next r,
  ok ← Allow;
  if negb ok then send_err (ESentinel ErrRatelimited) else next r.

(** ** [lib/callcenter/logger.go]: the call, then a debug line. *)

Definition Logger_Middleware (Debug : request → prog W ()) : middleware W := λ next r,
  sends ← next r;
  _ ← Debug r;
  mret sends.

(** ** [lib/callcenter/collector.go]

    [Request] and [Result] record a request and its success in the rolling
    windows and the metrics.  [Result] is deferred, so it runs after a panic
    too, with the interceptor as it is then: empty. *)

Definition Collector_Middleware (Request : prog W ()) (Result : string → bool → prog W ())
    : middleware W := λ next r,
  let serve : prog W (list reply) := λ w,
    match next r w with
    | (Return sends, w1) =>
        let icept := intercept icept0 sends in
        (_ ← Result (r_method r) (bool_decide (icept.2 = None)); send icept) w1
    | (Panic why, w1) => (_ ← Result (r_method r) true; panic why) w1
    | (Blocks, w1) => (Blocks, w1)
    end in
  Request ≫= λ _, serve.

(** ** [lib/callcenter/inputData.go] *)

Definition key_le (p q : string * json) : Prop := String.leb p.1 q.1 = true.
#[export] Instance key_le_dec p q : Decision (key_le p q).
Proof. apply bool_eq_dec. Defined.

(** [json.Marshal] of a [map[string]json.RawMessage]: sorted keys. *)
Definition marshal_map (m : gmap string json) : json :=
  JObj (merge_sort key_le (map_to_list m)).

(** The parameters an [eth_call] is forwarded with; [None]: unchanged. *)
Definition InputData_params (r : request) : res goerr (option json) :=
  match unmarshal_params unmarshal_raws r with
  | Err _ => Err (NewInvalidRequestError "params must be an array")
  | Ok params =>
      match params with
      | p0 :: p1 :: rest =>
          if bool_decide (1 < List.length rest)%nat
          then Err (NewInvalidRequestError "expected 2-3 parameters")
          else
            match unmarshal_map p0 with
            | Err _ =>
                Err (NewInvalidRequestError "expected first parameter to be an object")
            | Ok call =>
                match call !! "input", call !! "data" with
                | Some _, Some _ | None, None => Ok None
                | Some input, None =>
                    Ok (Some (JArr (marshal_map (<["data" := input]> call) :: p1 :: rest)))
                | None, Some data =>
                    Ok (Some (JArr (marshal_map (<["input" := data]> call) :: p1 :: rest)))
                end
            end
      | _ => Err (NewInvalidRequestError "expected 2-3 parameters")
      end
  end.

Definition InputData_Middleware : middleware W := λ next r,
  if bool_decide (r_method r = "eth_call") then
    match InputData_params r with
    | Err e => send_err e
    | Ok None => next r
    | Ok (Some p) => next (with_params r p)
    end
  else next r.
End middlewares.

(** ** Lemmas *)

Lemma foldl_insert_list_to_map (l : list (string * json)) :
  foldl (λ m kv, <[kv.1 := kv.2]> m) ∅ l = list_to_map (reverse l) :> gmap string json.
Proof.
  induction l as [|[k v] l IH] using rev_ind; [done|].
  rewrite foldl_app, reverse_app. simpl. by rewrite IH.
Qed.

Lemma foldl_insert_NoDup (l : list (string * json)) :
  NoDup l.*1 → foldl (λ m kv, <[kv.1 := kv.2]> m) ∅ l = list_to_map l :> gmap string json.
Proof.
  intros Hnd. rewrite foldl_insert_list_to_map.
  apply list_to_map_proper.
  - by rewrite fmap_reverse, reverse_Permutation.
  - apply reverse_Permutation.
Qed.

Lemma marshal_map_perm (m : gmap string json) :
  merge_sort key_le (map_to_list m) ≡ₚ map_to_list m.
Proof. apply merge_sort_Permutation. Qed.

Lemma marshal_map_valid (m : gmap string json) :
  map_Forall (λ _ v, json_valid v = true) m → json_valid (marshal_map m) = true.
Proof.
  intros Hm. unfold marshal_map. simpl. apply forallb_forall.
  intros [k v] Hin%list_elem_of_In. rewrite marshal_map_perm in Hin.
  apply elem_of_map_to_list in Hin. by apply (Hm k v).
Qed.

(** Decoding the encoding of a map gives the map back. *)
Lemma unmarshal_marshal_map (m : gmap string json) :
  map_Forall (λ _ v, json_valid v = true) m → unmarshal_map (marshal_map m) = Ok m.
Proof.
  intros Hm. unfold unmarshal_map. rewrite marshal_map_valid by done.
  unfold marshal_map. f_equal.
  assert (NoDup (merge_sort key_le (map_to_list m)).*1) as Hnd.
  { rewrite marshal_map_perm. apply NoDup_fst_map_to_list. }
  rewrite foldl_insert_NoDup by done.
  rewrite <- (list_to_map_to_list m) at 2.
  apply list_to_map_proper; [done|]. apply marshal_map_perm.
Qed.

Lemma unmarshal_map_valid v m :
  unmarshal_map v = Ok m → map_Forall (λ _ v, json_valid v = true) m.
Proof.
  unfold unmarshal_map. destruct (json_valid v) eqn:Hv; [|done].
  destruct v as [| | | | |fs|]; try done; intros [= <-]; [apply map_Forall_empty|].
  simpl in Hv. rewrite foldl_insert_list_to_map. intros k v Hk.
  apply elem_of_list_to_map_2 in Hk. rewrite elem_of_reverse in Hk.
  apply list_elem_of_In in Hk. rewrite forallb_forall in Hv. by apply (Hv (k, v)).
Qed.

Lemma unmarshal_raws_JArr v l :
  unmarshal_raws v = Ok l → Forall (λ v, json_valid v = true) l.
Proof.
  unfold unmarshal_raws. destruct (json_valid v) eqn:Hv; [|done].
  destruct v; try done; intros [= <-]; [constructor|].
  simpl in Hv. apply Forall_forall. intros x Hx%list_elem_of_In.
  rewrite forallb_forall in Hv. auto.
Qed.

Lemma unmarshal_raws_arr l :
  Forall (λ v, json_valid v = true) l → unmarshal_raws (JArr l) = Ok l.
Proof.
  intros Hl. unfold unmarshal_raws. simpl.
  rewrite (proj2 (forallb_forall _ _)); [done|].
  intros x Hx%list_elem_of_In. rewrite Forall_forall in Hl. auto.
Qed.

(** ** Properties *)

Module CallCenterProps.

Section props.
Context `{J : Jrpc}.

(** if the input rewriter changes an [eth_call], the forwarded call object
    has the client's members and one value under both [input] and [data], the
    other parameters are the client's, and the rewriter leaves the new
    parameters alone: writing them into the request that the cluster shares
    between its remotes does not change what the next remote is sent. *)
Theorem inputData_both r p :
  InputData_params r = Ok (Some p) →
  (∃ p0 call x q rest,
    unmarshal_params unmarshal_raws r = Ok (p0 :: rest) ∧ unmarshal_map p0 = Ok call ∧
    p = JArr (q :: rest) ∧
    unmarshal_map q = Ok (<["data" := x]> (<["input" := x]> call)) ∧
    (call !! "input" = Some x ∧ call !! "data" = None ∨
     call !! "data" = Some x ∧ call !! "input" = None)) ∧
  InputData_params (with_params r p) = Ok None.
Proof.
  unfold InputData_params. destruct (unmarshal_params unmarshal_raws r) as [params|e] eqn:Hp; [|done].
  destruct params as [|p0 [|p1 rest]]; try done.
  case_bool_decide as Hl; [done|].
  destruct (unmarshal_map p0) as [call|e] eqn:Hc; [|done].
  assert (Forall (λ v, json_valid v = true) (p0 :: p1 :: rest)) as Hv.
  { unfold unmarshal_params in Hp. destruct (r_params r); [|done]. by eapply unmarshal_raws_JArr. }
  pose proof (unmarshal_map_valid _ _ Hc) as Hcv.
  assert (∀ k x, json_valid x = true →
    unmarshal_map (marshal_map (<[k := x]> call)) = Ok (<[k := x]> call) ∧
    unmarshal_params unmarshal_raws
      (with_params r (JArr (marshal_map (<[k := x]> call) :: p1 :: rest)))
    = Ok (marshal_map (<[k := x]> call) :: p1 :: rest)) as Hkx.
  { intros k x Hx.
    assert (map_Forall (λ _ v, json_valid v = true) (<[k := x]> call)) as Hm
      by by apply map_Forall_insert_2.
    split; [by apply unmarshal_marshal_map|]. unfold unmarshal_params. simpl.
    apply unmarshal_raws_arr. constructor; [by apply marshal_map_valid|].
    by apply Forall_cons in Hv as [_ Hv]. }
  destruct (call !! "input") as [x|] eqn:Hi, (call !! "data") as [y|] eqn:Hd;
    try done; intros [= <-].
  - destruct (Hkx "data" x) as [H1 H2]; [by apply (Hcv "input")|]. split.
    + exists p0, call, x, (marshal_map (<["data" := x]> call)), (p1 :: rest).
      split_and!; [done..| |by left]. by rewrite H1, (insert_id call "input").
    + rewrite H2. rewrite bool_decide_false by done. rewrite H1.
      by rewrite lookup_insert_eq, lookup_insert_ne, Hi.
  - destruct (Hkx "input" y) as [H1 H2]; [by apply (Hcv "data")|]. split.
    + exists p0, call, y, (marshal_map (<["input" := y]> call)), (p1 :: rest).
      split_and!; [done..| |by right].
      rewrite H1, (insert_insert_ne call), (insert_id call "data") by done. done.
    + rewrite H2. rewrite bool_decide_false by done. rewrite H1.
      by rewrite lookup_insert_eq, lookup_insert_ne, Hd.
Qed.
End props.
End CallCenterProps.

Module CallCenterWitness.
Import CallCenterProps StdJrpc.

Definition call0 : json := JObj [("to", JStr "0x01"); ("data", JStr "0x06")].
Definition request0 : request := {| r_ctx := []; r_method := "eth_call";
  r_params := Some (JArr [call0; JStr "latest"]); r_peer := "" |}.
Definition params1 : json :=
  JArr [JObj [("data", JStr "0x06"); ("input", JStr "0x06"); ("to", JStr "0x01")];
        JStr "latest"].

Lemma inputData_both_witness : InputData_params (with_params request0 params1) = Ok None.
Proof. refine (proj2 (inputData_both request0 params1 _)). vm_compute. reflexivity. Defined.
End CallCenterWitness.
