(* ===== verification/Subscription.v ===== *)
(** * Client subscriptions: [lib/jrpcutil/subscribe.go]

    A subscription over a handler of the process: the channel of the client,
    the channel of errors, and the id the engine answered.  The subscription
    engine is library code, a parameter; reflection over the channel's type is
    a type of elements with its decoder. *)
From S2P Require Import Prelude Errors Json Scalars EthTypes Config Rpc.

(** ** Channels *)

(** A channel as the sender meets it: its buffer, and whether a receiver waits
    is known at the send. *)
Module GoChan.
Record t (A : Type) := { cap : nat; buffer : list A; closed : bool }.
Arguments cap {A} _.
Arguments buffer {A} _.
Arguments closed {A} _.
Arguments Build_t {A} _ _ _.

Definition make {A} (n : nat) : t A := {| cap := n; buffer := []; closed := false |}.

(** A send in a [select] with a default; a receiver that waits takes the value
    at once, and has found the buffer empty. *)
Definition try_send {A} (waiting : bool) (x : A) (c : t A) : outcome (option A * t A) :=
  if closed c then Panic "send on closed channel"
  else if waiting && bool_decide (buffer c = []) then Return (Some x, c)
  else if bool_decide (List.length (buffer c) < cap c)%nat
  then Return (None, {| cap := cap c; buffer := buffer c ++ [x]; closed := false |})
  else Return (None, c).

Definition close {A} (c : t A) : outcome (t A) :=
  if closed c then Panic "close of closed channel"
  else Return {| cap := cap c; buffer := buffer c; closed := true |}.

(** A receive that does not wait. *)
Definition try_recv {A} (c : t A) : option A * t A :=
  match buffer c with
  | [] => (None, c)
  | x :: l => (Some x, {| cap := cap c; buffer := l; closed := closed c |})
  end.
End GoChan.

(** ** The subscription *)

Module Subscription.
Section subscription.
(** The element type of the channel, with the decoder of its values. *)
Context {A : Type} (decode : json → res goerr A).

(** With what the receivers of the two channels have been given. *)
Record t := {
  channel : GoChan.t A;
  namespace : string;
  id : string;
  error : GoChan.t goerr;
  closed : bool;
  received : list A;
  errors : list goerr;
}.

Definition with_channel (c : GoChan.t A) (xs : list A) (T : t) : t :=
  {| channel := c; namespace := namespace T; id := id T; error := error T; closed := closed T;
     received := received T ++ xs; errors := errors T |}.
Definition with_error (c : GoChan.t goerr) (es : list goerr) (T : t) : t :=
  {| channel := channel T; namespace := namespace T; id := id T; error := c; closed := closed T;
     received := received T; errors := errors T ++ es |}.
Definition with_id (i : string) (T : t) : t :=
  {| channel := channel T; namespace := namespace T; id := i; error := error T;
     closed := closed T; received := received T; errors := errors T |}.

Definition option_list {B} (x : option B) : list B := match x with Some y => [y] | None => [] end.

(** [err]: nothing is sent once the subscription is closed. *)
Definition err (waiting : bool) (e : goerr) (T : t) : outcome t :=
  if closed T then Return T
  else '(x, c) ← GoChan.try_send waiting e (error T); Return (with_error c (option_list x) T).

(** What [notify] finds in the value it is handed. *)
Definition result_of (v : value) `{S : Sonic} : res goerr A :=
  vb ← sonic_marshal v;
  result ← match vb with
           | JObj fs => Ok (struct_field "result" fs)
           | JNull => Ok None
           | _ => Err json_error
           end;
  match result with Some r => decode r | None => Err json_error end.

Definition notify `{S : Sonic} (waiting : bool) (v : value) (T : t) : outcome t :=
  match result_of v with
  | Err e => err waiting e T
  | Ok val =>
      '(x, c) ← GoChan.try_send waiting val (channel T);
      Return (with_channel c (option_list x) T)
  end.

(** The part of [Unsubscribe] under the lock: whether it goes on. *)
Definition mark_closed (T : t) : outcome (bool * t) :=
  if closed T then Return (false, T)
  else
    c ← GoChan.close (error T);
    Return (true, {| channel := channel T; namespace := namespace T; id := id T; error := c;
                     closed := true; received := received T; errors := errors T |}).

(** The request of [Unsubscribe]. *)
Definition unsubscribe_request (T : t) : request := {|
  r_ctx := WithInternal Background true;
  r_method := namespace T +:+ "_unsubscribe";
  r_params := Some (JArr [Scalars.JsonString.Marshal (id T)]);
  r_peer := "" |}.

(** [Subscribe]'s request, for a namespace. *)
Definition subscribe_request (ctx : context) (ns : string) (args : json) : request := {|
  r_ctx := WithInternal ctx true;
  r_method := ns +:+ "_subscribe";
  r_params := Some args;
  r_peer := "" |}.

(** [subscriptionInterceptor]: the error that is kept, and the id, which null
    leaves alone; the error of an id that is no text is the engine's to see. *)
Definition icept_Send `{S : Sonic} (x : reply) (st : option goerr * string) : option goerr * string :=
  let '(e0, i) := st in
  let '(v, e) := x in
  match e with
  | Some e => (Some e, i)
  | None =>
      match sonic_marshal v with
      | Ok JNull | Err _ => (e0, i)
      | Ok idb => match unmarshal_string idb with Ok i => (e0, i) | Err _ => (e0, i) end
      end
  end.

Definition icept_sends `{S : Sonic} (l : list reply) (st : option goerr * string)
    : option goerr * string := foldl (λ st x, icept_Send x st) st l.

(** ** The calls *)

(** [engine.Middleware()], of a handler or of nil; what it serves runs on the
    world. *)
Section calls.
Context {W : Type} `{S : Sonic} (engine : option (handler W) → handler W).

(** The channel is [None] for nil, and [writable] says that it is a channel
    that may be sent on. *)
Definition Subscribe (ctx : context) (h : handler W) (ns : string)
    (writable : bool) (ch : option (GoChan.t A)) (args : json) : prog W (res goerr t) :=
  if negb writable then panic "first argument to Subscribe must be a writable channel"
  else
    match ch with
    | None => panic "channel given to Subscribe must not be nil"
    | Some ch =>
        sends ← engine (Some h) (subscribe_request ctx ns args);
        mret match icept_sends sends (None, "") with
             | (Some e, _) => Err e
             | (None, i) => Ok {| channel := ch; namespace := ns; id := i; error := GoChan.make 0;
                                  closed := false; received := []; errors := [] |}
             end
    end.

Context `{L : !Lens t W}.

Definition run (f : t → outcome t) : prog W () :=
  T ← read; T ← lift (f T); write T.

Definition Unsubscribe : prog W (option goerr) :=
  T ← read;
  '(go, T) ← lift (mark_closed T);
  _ ← write T;
  if go : bool then
    sends ← engine None (unsubscribe_request T);
    mret (intercept icept0 sends).2
  else mret None.
End calls.

End subscription.
Arguments t : clear implicits.
End Subscription.

(** ** A life of a subscription *)

Module SubscriptionFacts.
Import Subscription.
Section facts.
Context {A : Type} (decode : json → res goerr A) `{S : Sonic}.
Context {W : Type} (engine : option (handler W) → handler W) `{L : !Lens (t A) W}.

(** What happens to it: the engine notifies, it or another part reports an
    error, the client unsubscribes, or takes a value from its channel. *)
Inductive op : Type :=
  | Notify (waiting : bool) (v : value)
  | Error (waiting : bool) (e : goerr)
  | Unsub
  | Take.

Definition take (T : t A) : outcome (t A) :=
  let '(x, c) := GoChan.try_recv (channel T) in Return (with_channel c (option_list x) T).

Definition step (o : op) : prog W () :=
  match o with
  | Notify waiting v => run (notify decode waiting v)
  | Error waiting e => run (err waiting e)
  | Unsub => _ ← Unsubscribe engine; mret ()
  | Take => run take
  end.

Fixpoint steps (os : list op) : prog W () :=
  match os with
  | [] => mret ()
  | o :: os => _ ← step o; steps os
  end.

(** The values the notifications carry, in order. *)
Definition carried (o : op) : list A :=
  match o with
  | Notify _ v => match result_of decode v with Ok x => [x] | Err _ => [] end
  | _ => []
  end.

(** The client has not closed its channel, and the error channel is closed
    exactly when the subscription is. *)
Record good (T : t A) : Prop := {
  g_channel : GoChan.closed (channel T) = false;
  g_cap : (List.length (GoChan.buffer (channel T)) ≤ GoChan.cap (channel T))%nat;
  g_error : GoChan.closed (error T) = closed T;
}.

(** Values that were given to the client, then those that wait for it. *)
Definition delivered (T : t A) : list A := received T ++ GoChan.buffer (channel T).

(** A change that keeps a good one good, delivers some of [xs], and never opens
    a closed one nor gives it errors. *)
Record moved (xs : list A) (T T' : t A) : Prop := {
  m_good : good T';
  m_new : ∃ ys, delivered T' = delivered T ++ ys ∧ sublist ys xs;
  m_closed : closed T = true → closed T' = true ∧ errors T' = errors T;
  m_id : id T' = id T ∧ namespace T' = namespace T;
}.

Lemma moved_refl T xs : good T → moved xs T T.
Proof.
  intros. split; [done| |done|done]. exists []. rewrite app_nil_r. split; [done|apply sublist_nil_l].
Qed.

Lemma moved_trans T1 T2 T3 xs ys : moved xs T1 T2 → moved ys T2 T3 → moved (xs ++ ys) T1 T3.
Proof.
  intros [_ (l1 & E1 & S1) C1 [I1 N1]] [G2 (l2 & E2 & S2) C2 [I2 N2]]. split; [done| | |].
  - exists (l1 ++ l2). rewrite E2, E1, <- app_assoc. split; [done|]. by apply sublist_app.
  - intros H. destruct (C1 H) as [H' E]. destruct (C2 H') as [? ?]. split; [done|congruence].
  - split; congruence.
Qed.

Lemma try_send_run {B} waiting (x : B) (c : GoChan.t B) :
  GoChan.closed c = false → (List.length (GoChan.buffer c) ≤ GoChan.cap c)%nat →
  ∃ o c', GoChan.try_send waiting x c = Return (o, c') ∧ GoChan.closed c' = false ∧
    (List.length (GoChan.buffer c') ≤ GoChan.cap c')%nat ∧
    ∃ ys, option_list o ++ GoChan.buffer c' = GoChan.buffer c ++ ys ∧ sublist ys [x].
Proof.
  intros Hc Hl. unfold GoChan.try_send. rewrite Hc.
  destruct (waiting && bool_decide (GoChan.buffer c = [])) eqn:Hw.
  { apply andb_true_iff in Hw as [_ Hb%bool_decide_eq_true].
    exists (Some x), c. rewrite Hb. split; [done|]. split; [done|]. split; [cbn; lia|by exists [x]]. }
  clear Hw. case_bool_decide.
  - eexists None, _. split; [reflexivity|]. cbn. split; [done|]. split.
    + rewrite length_app. cbn. lia.
    + by exists [x].
  - exists None, c. split; [done|]. split; [done|]. split; [done|].
    exists []. rewrite app_nil_r. split; [done|apply sublist_nil_l].
Qed.

Lemma err_run waiting e T : good T → ∃ T', err waiting e T = Return T' ∧ moved [] T T' ∧ closed T' = closed T.
Proof.
  intros G. pose proof G as [G1 G2 G3]. unfold err. destruct (closed T) eqn:Hc; [exists T; split; [done|]; split; [by apply moved_refl|done]|].
  assert (∃ o c', GoChan.try_send waiting e (error T) = Return (o, c') ∧
    GoChan.closed c' = false) as (o & c' & Hs & Hc').
  { unfold GoChan.try_send. rewrite G3. destruct (waiting && _); [by eauto|].
    case_bool_decide; by eauto. }
  rewrite Hs. cbn. eexists. split; [done|]. split; [|done]. split; cbn.
  - split; cbn; [done|done|congruence].
  - exists []. rewrite app_nil_r. done.
  - congruence.
  - done.
Qed.

Lemma notify_run waiting v T :
  good T → ∃ T', notify decode waiting v T = Return T' ∧
    moved (carried (Notify waiting v)) T T' ∧ closed T' = closed T.
Proof.
  intros G. unfold notify, carried. destruct (result_of decode v) as [x|e]; [|by apply err_run].
  destruct (try_send_run waiting x (channel T)) as (o & c' & Hs & Hc & Hl & ys & He & Hy);
    [apply G|apply G|].
  rewrite Hs. cbn. eexists. split; [done|]. split; [|done]. split; cbn.
  - split; [done|done|apply G].
  - exists ys. unfold delivered. cbn. rewrite <- app_assoc, He. split; [by rewrite app_assoc|done].
  - done.
  - done.
Qed.

Lemma take_run T : good T → ∃ T', take T = Return T' ∧ moved [] T T' ∧ closed T' = closed T.
Proof.
  intros [G1 G2 G3]. unfold take, GoChan.try_recv.
  destruct (GoChan.buffer (channel T)) as [|x l] eqn:Hb; (eexists; split; [done|]); (split; [|done]); split; cbn; try done.
  - split; cbn; try done. by rewrite Hb.
  - exists []. unfold delivered. cbn. by rewrite Hb, !app_nil_r.
  - split; cbn; [done| |done]. cbn in *. lia.
  - exists []. unfold delivered. cbn. by rewrite Hb, app_nil_r, <- app_assoc.
Qed.

(** *** What the engine is asked *)

Context (calls : W → nat).

(** The engine answers a request to unsubscribe, and leaves the subscription
    alone; its requests are counted. *)
Record engine_ok : Prop := {
  e_answers r w : ∃ l w', engine None r w = (Return l, w') ∧
    lget (S := t A) w' = lget w ∧ calls w' = Datatypes.S (calls w);
  e_calls (T : t A) w : calls (lput T w) = calls w;
}.

(** The call is made once, when the subscription was open. *)
Lemma Unsubscribe_run w T :
  engine_ok → lget w = T → good T →
  ∃ r w', Unsubscribe engine w = (Return r, w') ∧ moved [] T (lget w') ∧ closed (lget w') = true ∧
    calls w' = (calls w + if closed T then 0 else 1)%nat.
Proof.
  intros E <- G. pose proof G as [G1 G2 G3]. unfold Unsubscribe.
  rewrite (prog_bind_return _ _ (lget w) w w) by done.
  unfold mark_closed, lift. destruct (closed (lget w)) eqn:Hc.
  - exists None, w. unfold mbind, prog_bind, write. cbn. rewrite Nat.add_0_r, lput_lget.
    split; [done|]. split; [by apply moved_refl|done].
  - unfold mbind, prog_bind. unfold GoChan.close. rewrite G3. cbn.
    unfold write. cbn. match goal with |- context [lput ?T' w] => set (T1 := T') end.
    destruct (e_answers E (unsubscribe_request T1) (lput T1 w)) as (l & w' & He & Hl & Hn).
    rewrite He. cbn. do 2 eexists. split; [done|].
    rewrite Hl, lget_lput, Hn, (e_calls E). split; [|split; [done|lia]].
    split; cbn; [by split|exists []; unfold delivered; by rewrite app_nil_r|congruence|done].
Qed.

Lemma run_move f w xs :
  (∀ T, good T → ∃ T', f T = Return T' ∧ moved xs T T' ∧ closed T' = closed T) → good (lget w) →
  ∃ w', run f w = (Return (), w') ∧ moved xs (lget w) (lget w') ∧
    closed (lget w') = closed (lget w) ∧ ∃ T', w' = lput T' w.
Proof.
  intros Hf Hg. destruct (Hf _ Hg) as (T' & Hr & Hm & Hc). exists (lput T' w).
  unfold run, read, lift, write, mbind, prog_bind. rewrite Hr, lget_lput. by eauto.
Qed.

Definition unsub (o : op) : bool := match o with Unsub => true | _ => false end.

Lemma step_run o w :
  engine_ok → good (lget w) →
  ∃ w', step o w = (Return (), w') ∧ moved (carried o) (lget w) (lget w') ∧
    closed (lget w') = closed (lget w) || unsub o ∧
    calls w' = (calls w + if negb (closed (lget w)) && unsub o then 1 else 0)%nat.
Proof.
  intros E Hg.
  assert (∀ f xs, (∀ T, good T → ∃ T', f T = Return T' ∧ moved xs T T' ∧ closed T' = closed T) →
    ∃ w', run f w = (Return (), w') ∧ moved xs (lget w) (lget w') ∧
      closed (lget w') = closed (lget w) || false ∧
      calls w' = (calls w + if negb (closed (lget w)) && false then 1 else 0)%nat) as Hrun.
  { intros f xs Hf. destruct (run_move f w xs Hf Hg) as (w' & Hr & Hm & Hc & T' & ->).
    exists (lput T' w). rewrite (e_calls E), orb_false_r, andb_false_r. split_and!; auto. }
  destruct o as [waiting v|waiting e| |]; cbn [step carried unsub].
  - apply Hrun. by apply notify_run.
  - apply Hrun. by apply err_run.
  - destruct (Unsubscribe_run w _ E eq_refl Hg) as (r & w' & Hr & Hm & Hc & Hn).
    exists w'. rewrite (prog_bind_return _ _ _ _ _ Hr), orb_true_r, andb_true_r, Hn, Hc.
    split; [done|]. split; [done|]. by destruct (closed (lget w)).
  - apply Hrun, take_run.
Qed.
End facts.
End SubscriptionFacts.

(** ** What holds *)

Module SubscriptionProps.
Import Subscription SubscriptionFacts.
Section props.
Context {A : Type} (decode : json → res goerr A) `{S : Sonic}.
Context {W : Type} (engine : option (handler W) → handler W) `{L : !Lens (t A) W}.
Context (calls : W → nat).

(** Whatever happens to a subscription, in whatever order, nothing panics: in
    particular no error is sent to its closed channel, which is closed once.
    The engine is asked to end it exactly when it is unsubscribed, and then
    once; the values the client is given are those of the notifications, in
    their order, with those left out that the client was not ready for; and
    once it is closed it reports no error. *)
Theorem subscription_ops os w :
  engine_ok (L := L) engine calls → good (lget (S := t A) w) →
  ∃ w', steps decode engine os w = (Return (), w') ∧
    moved (mjoin (carried decode <$> os)) (lget w) (lget w') ∧
    closed (lget w') = closed (lget w) || existsb unsub os ∧
    calls w' = (calls w + if negb (closed (lget w)) && existsb unsub os then 1 else 0)%nat.
Proof.
  intros E. revert w. induction os as [|o os IH]; intros w Hg; cbn [steps existsb].
  - exists w. rewrite orb_false_r, andb_false_r. split; [done|]. split; [by apply moved_refl|].
    split; [done|lia].
  - destruct (step_run decode engine calls o w E Hg) as (w1 & Hr & Hm & Hc & Hn).
    destruct (IH w1 (m_good _ _ _ Hm)) as (w2 & Hr2 & Hm2 & Hc2 & Hn2).
    exists w2. rewrite (prog_bind_return _ _ _ _ _ Hr), Hr2. split; [done|]. split.
    + rewrite mjoin_fmap_cons. by eapply moved_trans.
    + rewrite Hc2, Hn2, Hn, Hc, orb_assoc. split; [done|].
      destruct (closed (lget w)), (unsub o), (existsb unsub os); cbn; lia.
Qed.

(** What [Subscribe] makes is such a subscription, with the id of the reply;
    the last error the engine sent is its own. *)
Theorem subscribe_made ctx h ns ch args w sends w' :
  engine (Some h) (subscribe_request ctx ns args) w = (Return sends, w') →
  GoChan.closed ch = false → (List.length (GoChan.buffer ch) ≤ GoChan.cap ch)%nat →
  (∀ e, (∃ v, last sends = Some (v, Some e)) →
     Subscribe (A := A) engine ctx h ns true (Some ch) args w = (Return (Err e), w')) ∧
  (Forall (λ x, x.2 = None) sends →
   ∃ T, Subscribe engine ctx h ns true (Some ch) args w = (Return (Ok T), w') ∧
     good T ∧ namespace T = ns ∧ closed T = false ∧ delivered T = GoChan.buffer ch ∧
     ∀ i, last sends = Some (VText i, None) → (∃ v, sonic_marshal (VText i) = Ok v ∧
        v ≠ JNull ∧ unmarshal_string v = Ok i) → id T = i).
Proof.
  intros He Hc Hl. unfold Subscribe. cbn [negb]. rewrite (prog_bind_return _ _ _ _ _ He). split.
  - intros e [v Hv]. apply last_Some in Hv as [l ->]. unfold icept_sends. rewrite foldl_app. cbn.
    by destruct (foldl _ _ l).
  - intros Hall.
    assert (∀ l i, Forall (λ x : reply, x.2 = None) l → (icept_sends l (None, i)).1 = None) as Hnone.
    { induction l as [|[v e] l IH]; intros i Hf; [done|]. apply Forall_cons in Hf as [He' Hf].
      cbn in He'. subst e. unfold icept_sends. cbn. destruct (sonic_marshal v) as [b|?]; [|by apply IH].
      destruct (unmarshal_string b); destruct b; by apply IH. }
    pose proof (Hnone sends "" Hall) as H0.
    destruct (icept_sends sends (None, "")) as [e i] eqn:Hi. cbn in H0. subst e.
    eexists. split; [done|]. cbn. split_and!; [by split|done|done|done|].
    intros j Hj (v & Hv & Hn & Hu). apply last_Some in Hj as [l ->].
    unfold icept_sends in Hi. rewrite foldl_app in Hi. cbn in Hi.
    destruct (foldl _ _ l) as [e0 i0]. unfold icept_Send in Hi. rewrite Hv, Hu in Hi. destruct v; congruence.
Qed.
End props.
End SubscriptionProps.

Module SubscriptionWitness.
Import Subscription SubscriptionFacts SubscriptionProps StdSonic StdEth.

(** Block numbers, on a channel for one; the engine counts what it is asked
    without a handler, and with one answers the id "0x1". *)
Definition world : Type := t Z * nat.
Definition engine0 (h : option (handler world)) : handler world := λ _ w,
  match h with
  | None => (Return [reply_ok VNil], (w.1, S w.2))
  | Some _ => (Return [reply_ok (VText "0x1")], w)
  end.
Definition chan0 : GoChan.t Z := GoChan.make 1.
Definition sub0 : t Z := {| channel := chan0; namespace := "eth"; id := "0x1";
  error := GoChan.make 0; closed := false; received := []; errors := [] |}.
Definition head (n : Z) : value := VRaw (JObj [("result", JStr (hex_text n))]).

(** The second of three numbers finds the channel full; the client, which has
    unsubscribed twice, still takes the first. *)
Definition ops0 : list op :=
  [Notify false (head 7); Notify false (head 8); Error false json_error; Unsub;
   Error true json_error; Unsub; Take; Notify true (head 9)].

Lemma subscription_ops_witness :
  ∃ w', steps (S := std_sonic) StdEth.uint64 engine0 ops0 (sub0, 0%nat) = (Return (), w') ∧
    closed (lget (S := t Z) w') = true ∧ w'.2 = 1%nat ∧ received w'.1 = [7; 9].
Proof.
  destruct (subscription_ops (S := std_sonic) StdEth.uint64 engine0 (λ w : world, w.2) ops0
              (sub0, 0%nat)) as (w' & Hr & _ & Hc & Hn).
  - split; [|done]. intros r [T n]. by do 2 eexists.
  - split; cbn; [done|lia|done].
  - exists w'. split; [exact Hr|]. split; [exact Hc|]. split; [exact Hn|].
    clear Hc Hn. vm_compute in Hr. injection Hr as <-. reflexivity.
Defined.

Lemma subscribe_made_witness :
  ∃ T, Subscribe (S := std_sonic) engine0 [] (λ _, mret []) "eth" true (Some chan0) (JArr [])
         (sub0, 0%nat) = (Return (Ok T), (sub0, 0%nat)) ∧ id T = "0x1".
Proof.
  destruct (subscribe_made (S := std_sonic) engine0 [] (λ _, mret []) "eth" chan0 (JArr [])
              (sub0, 0%nat) [reply_ok (VText "0x1")] (sub0, 0%nat)) as [_ (T & Hr & _ & _ & _ & _ & Hi)].
  - reflexivity.
  - reflexivity.
  - cbn; lia.
  - repeat constructor.
  - exists T. split; [exact Hr|]. apply Hi; [reflexivity|].
    eexists. split; [reflexivity|]. split; [discriminate|reflexivity].
Defined.
End SubscriptionWitness.
