(* ===== verification/Backer.v ===== *)
(** * Backoff of a remote: [lib/callcenter/backer.go]

    The [Backer] as a state machine: its three state changes, the timer that
    makes a remote happy again, and the middleware that drives it. *)
From S2P Require Import Prelude Errors Json Config Rpc.

Module Backer.

(** ** State *)

Record t := {
  rateLimitTimeout : Z;
  errorMinTimeout : Z;
  errorMaxTimeout : Z;
  happy : bool;
  timeout : Z;
  timer : option Z;     (* the duration the timer was last reset to *)
}.

Definition NewBacker (rateLimitTimeout errorMinTimeout errorMaxTimeout : Z) : t := {|
  rateLimitTimeout := rateLimitTimeout;
  errorMinTimeout := errorMinTimeout;
  errorMaxTimeout := errorMaxTimeout;
  happy := true;
  timeout := errorMinTimeout;
  timer := Some 0;
|}.

Definition set_timeout (d : Z) (T : t) : t :=
  {| rateLimitTimeout := rateLimitTimeout T; errorMinTimeout := errorMinTimeout T;
     errorMaxTimeout := errorMaxTimeout T; happy := happy T; timeout := d;
     timer := timer T |}.

Definition sadden (d : Z) (T : t) : t :=
  {| rateLimitTimeout := rateLimitTimeout T; errorMinTimeout := errorMinTimeout T;
     errorMaxTimeout := errorMaxTimeout T; happy := false; timeout := timeout T;
     timer := Some d |}.

(** ** Operations *)

(** The callback of [time.AfterFunc]. *)
Definition fire (T : t) : t :=
  {| rateLimitTimeout := rateLimitTimeout T; errorMinTimeout := errorMinTimeout T;
     errorMaxTimeout := errorMaxTimeout T; happy := true; timeout := timeout T;
     timer := None |}.

Definition ok (T : t) : t :=
  if negb (happy T) then T
  else set_timeout (Z.min (errorMinTimeout T) (Z.quot (timeout T) 2)) T.

Definition limit (T : t) : t :=
  if negb (happy T) then T else sadden (rateLimitTimeout T) T.

Definition error (T : t) : t :=
  if negb (happy T) then T
  else
    let d := Z.max (errorMaxTimeout T) (i64 (timeout T * 2)) in
    sadden d (set_timeout d T).

Definition healthy (T : t) : bool := happy T.

(** How the outcome of a request changes the state. *)
Definition observe `{J : Jrpc} (err : option goerr) (T : t) : t :=
  match err with
  | None => ok T
  | Some _ =>
      if IsUserError err then ok T
      else if IsTimeoutError err then limit T
      else if IsNodeError err then error T
      else ok T
  end.

Section middleware.
Context {W : Type} `{J : Jrpc} `{!Lens t W}.

Definition Middleware : middleware W := λ next r,
  T ← read;
  if negb (healthy T)
  then send_err (NewInternalError "remote is unhealthy (backoff active)")
  else
    sends ← next r;
    let icept := intercept icept0 sends in
    _ ← modify (observe icept.2);
    send icept.
End middleware.

(** ** The machine *)

(** What can happen to a backer: the outcome of a request, or its pending
    timer going off. *)
Inductive step `{J : Jrpc} : t → t → Prop :=
  | step_observe err T : step T (observe err T)
  | step_fire T d : timer T = Some d → step T (fire T).

(** A round: a node error, then the timer that ends the backoff. *)
Fixpoint error_rounds (n : nat) (T : t) : t :=
  match n with
  | O => T
  | S n => error_rounds n (fire (error T))
  end.

(** ** Lemmas *)

(** The configured durations never change. *)
Definition same_config (T T' : t) : Prop :=
  rateLimitTimeout T' = rateLimitTimeout T ∧
  errorMinTimeout T' = errorMinTimeout T ∧
  errorMaxTimeout T' = errorMaxTimeout T.

(** An unhappy backer waits on its timer, for one of the two backoffs. *)
Definition waiting (T : t) : Prop :=
  happy T = false → ∃ d, timer T = Some d ∧
    (d = rateLimitTimeout T ∨ d = timeout T ∧ errorMaxTimeout T ≤ d).

Lemma ok_waiting T : waiting T → waiting (ok T).
Proof.
  unfold ok. destruct (happy T) eqn:E; [|done].
  intros _ Hh. simpl in Hh. congruence.
Qed.

Lemma limit_waiting T : waiting T → waiting (limit T).
Proof.
  unfold limit. destruct (happy T); [|done]. intros _ _. simpl. eauto.
Qed.

Lemma error_waiting T : waiting T → waiting (error T).
Proof.
  unfold error. destruct (happy T); [|done].
  intros _ _. eexists. split; [done|]. right. split; [done|]. simpl. lia.
Qed.

Create HintDb backer.
#[export] Hint Resolve ok_waiting limit_waiting error_waiting : backer.

Lemma observe_waiting `{J : Jrpc} err T : waiting T → waiting (observe err T).
Proof. unfold observe. intros. repeat case_match; auto with backer. Qed.

Lemma step_waiting `{J : Jrpc} T T' : step T T' → waiting T → waiting T'.
Proof.
  intros [err U|U d Ht] Hw; [by apply observe_waiting|]. done.
Qed.

Lemma NewBacker_waiting r mn mx : waiting (NewBacker r mn mx).
Proof. done. Qed.

Lemma error_happy T :
  happy T = true →
  timeout (error T) = Z.max (errorMaxTimeout T) (i64 (timeout T * 2)) ∧
  timer (error T) = Some (timeout (error T)) ∧ happy (error T) = false.
Proof. unfold error. intros ->. done. Qed.

Lemma error_rounds_timeout n T :
  happy T = true → 0 <= errorMaxTimeout T → errorMaxTimeout T <= timeout T →
  timeout T * 2 ^ Z.of_nat n < two63 →
  timeout (error_rounds n T) = timeout T * 2 ^ Z.of_nat n ∧
  happy (error_rounds n T) = true ∧
  errorMaxTimeout (error_rounds n T) = errorMaxTimeout T.
Proof.
  revert T. induction n as [|n IH]; intros T Hh H0 Hm Hb.
  { simpl. rewrite Z.mul_1_r. done. }
  rewrite Nat2Z.inj_succ, Z.pow_succ_r in * by lia.
  pose proof (Z.pow_pos_nonneg 2 (Z.of_nat n) ltac:(lia) ltac:(lia)) as Hp.
  assert (timeout T * 2 < two63) by nia.
  assert (timeout (fire (error T)) = timeout T * 2) as Ht.
  { simpl. destruct (error_happy T Hh) as [-> _]. unwrap. lia. }
  assert (errorMaxTimeout (fire (error T)) = errorMaxTimeout T) as Hmx.
  { unfold error. by rewrite Hh. }
  destruct (IH (fire (error T))) as (Ha & Hb' & Hc); rewrite ?Ht, ?Hmx in *;
    [done|lia|lia|lia|].
  simpl. rewrite Ha, Hc. repeat split; [lia|done].
Qed.
End Backer.

(** ** Properties *)

Module BackerProps.
Import Backer.

Lemma observe_config `{J : Jrpc} err T : same_config T (observe err T).
Proof.
  unfold observe, ok, limit, error. by repeat case_match.
Qed.

Lemma reachable_waiting `{J : Jrpc} T0 T :
  rtc step T0 T → waiting T0 → waiting T ∧ same_config T0 T.
Proof.
  induction 1 as [T|T1 T2 T3 Hs _ IH]; intros Hw; [by split|].
  destruct (IH (step_waiting _ _ Hs Hw)) as [Hw' Hc]. split; [done|].
  assert (same_config T1 T2) by (destruct Hs; [apply observe_config|done]).
  unfold same_config in *. intuition congruence.
Qed.

(** C22: however requests turn out and whenever the timer fires, a backer
    that refuses requests has its timer pending, for the rate-limit backoff
    or for its current error backoff, and the timer makes it healthy. *)
Theorem backer_recovers `{J : Jrpc} rl mn mx T :
  rtc step (NewBacker rl mn mx) T →
  healthy T = false →
  ∃ d, timer T = Some d ∧ (d = rl ∨ d = timeout T ∧ mx <= d)
       ∧ step T (fire T) ∧ healthy (fire T) = true.
Proof.
  intros Hr Hh.
  destruct (reachable_waiting _ _ Hr (NewBacker_waiting rl mn mx)) as [Hw (Hrl & _ & Hmx)].
  destruct (Hw Hh) as (d & Ht & Hd). exists d. simpl in *.
  rewrite Hrl, Hmx in Hd. split_and!; [done|done|by eapply step_fire|done].
Qed.

(** the error backoff is not capped: after [n + 1] node errors with no
    success between them, each followed by the timer, the backer has backed
    off for the larger of [errorMaxTimeout] and twice [errorMinTimeout],
    doubled [n] times.  [errorMaxTimeout] is the smallest error backoff, not
    the largest. *)
Theorem backer_error_backoff rl mn mx n :
  0 <= mn → 0 <= mx → mn * 2 < two63 →
  Z.max mx (mn * 2) * 2 ^ Z.of_nat n < two63 →
  timeout (error_rounds (S n) (NewBacker rl mn mx))
  = Z.max mx (mn * 2) * 2 ^ Z.of_nat n.
Proof.
  intros ??? Hb. pose proof (error_rounds_timeout n (fire (error (NewBacker rl mn mx)))) as H'.
  simpl in *. unwrap.
  destruct H' as (-> & _); rewrite ?i64_small by go_lia; [done|done|lia|done|done].
Qed.
End BackerProps.

(** ** Witnesses *)

Module BackerWitness.
Import Backer BackerProps StdJrpc.

(** After a rate-limit error the backer waits for the rate-limit backoff. *)
Lemma backer_recovers_witness :
  let T := limit (NewBacker 60 5 30) in
  ∃ d, timer T = Some d ∧ (d = 60 ∨ d = timeout T ∧ 30 <= d)
       ∧ step T (fire T) ∧ healthy (fire T) = true.
Proof.
  intros T. apply (backer_recovers 60 5 30 T); [|reflexivity].
  eapply rtc_l; [|apply rtc_refl].
  exact (step_observe (Some (EHttp 429 "Too Many Requests")) (NewBacker 60 5 30)).
Defined.

(** Three node errors with backoffs of 1 s and 60 s: the last lasts 4 minutes. *)
Lemma backer_error_backoff_witness :
  timeout (error_rounds 3 (NewBacker 0 (1 * Second) (60 * Second))) = 240 * Second.
Proof.
  refine (backer_error_backoff 0 (1 * Second) (60 * Second) 2 _ _ _ _);
    vm_compute; congruence.
Defined.
End BackerWitness.
