(* ===== verification/Validator.v ===== *)
(** * Validation of results: [lib/callcenter/validator.go]

    The head a remote last reported, the checks on a newly reported head, and
    the middleware that turns stale, missing or regressing blocks into errors
    the cluster fails over on.  Instants are nanoseconds since the Unix epoch. *)
From S2P Require Import Prelude Errors Json EthTypes Config Rpc.

Module Validator.

(** ** State *)

Record t := {
  old : Z;
  head : Z;
  updated : Z;
}.

(** [time.Time{}], the year 1. *)
Definition zero_time : Z := -62135596800 * Second.

(** [time.Unix(sec, 0)]. *)
Definition Unix (sec : Z) : Z := sec * Second.

(** [a.Sub(b)], which saturates. *)
Definition Sub (a b : Z) : Z := Z.max (- two63) (Z.min max_int64 (a - b)).

Definition NewValidator (old : Z) : t :=
  {| old := old; head := 0; updated := zero_time |}.

(** ** The head *)

(** [updateHead]: the error and the new state; [now] is the clock. *)
Definition updateHead (now hd upd : Z) (T : t) : option goerr * t :=
  if hd <? head T then
    (Some (EWrap "" (ESentinel ErrHeadJumpedBackwards)
             (": " +:+ pretty (head T) +:+ " -> " +:+ pretty hd)), T)
  else if head T <? hd then
    (None, {| old := old T; head := hd; updated := upd |})
  else
    let T' := {| old := old T; head := head T;
                 updated := if upd <? updated T then upd else updated T |} in
    if old T' <? Sub now (updated T') then (Some (ESentinel ErrHeadOld), T')
    else (None, T').

(** [GetHead]. *)
Definition GetHead (T : t) : Z * Z := (head T, updated T).

Section parse.
Context `{X : Jx} `{S : Sonic}.

(** [isQueryingEthGetBlockByNumberWithLatest]. *)
Definition isQueryingLatest (params : option json) : bool :=
  match params with
  | None => false
  | Some p =>
      match jx_arr p with
      | Ok (v :: _) =>
          match jx_str v with Ok s => bool_decide (s = "latest") | Err _ => false end
      | _ => false
      end
  end.

(** The loop of [parseRawBlock] over the object's members. *)
Fixpoint parse_members (fs : list (string * json)) (number timestamp : Z)
    : res goerr (Z * Z) :=
  match fs with
  | [] => Ok (number, timestamp)
  | (key, v) :: fs =>
      if bool_decide (key = "number") then
        raw ← jx_raw v;
        n ← sonic_uint64 raw;
        parse_members fs n timestamp
      else if bool_decide (key = "timestamp") then
        raw ← jx_raw v;
        ts ← sonic_uint64 raw;
        parse_members fs number (Unix (i64 ts))
      else
        match jx_skip v with
        | Some e => Err e
        | None => parse_members fs number timestamp
        end
  end.

Definition parseRawBlock (raw : json) : res goerr (Z * Z) :=
  match raw with
  | JNull => Err (ESentinel ErrHeadOld)
  | _ => obj ← jx_obj raw; parse_members obj 0 zero_time
  end.

Definition extractBlockTimeAndTimestamp (block : value) : res goerr (Z * Z) :=
  match block with
  | VHeader n ts => Ok (n, Unix (i64 ts))
  | VRaw b => parseRawBlock b
  | _ => Err (EText "expected block")
  end.
End parse.

(** A result that may come from a remote behind its head: nothing, or null. *)
Definition is_null (v : value) : bool :=
  match v with VNil | VRaw JNull => true | _ => false end.

Definition latest_params : json := JArr [JStr "latest"; JBool false].

Section middleware.
Context {W : Type} `{J : Jrpc} `{X : Jx} `{S : Sonic} `{!Lens t W}.
(** The clock, and whether the 15 second timer of this request is what
    cancelled its context. *)
Context (now : prog W Z) (too_slow : prog W bool).

Definition do_updateHead (hd upd : Z) : prog W (option goerr) :=
  clock ← now;
  T ← read;
  let '(e, T') := updateHead clock hd upd T in
  _ ← write T';
  mret e.

(** The checks on the reply to [eth_getBlockByNumber]. *)
Definition check_block (isLatest : bool) (icept : Interceptor) : prog W reply :=
  let '(v, err) := icept in
  err ← match err with
        | None =>
            if isLatest then
              match extractBlockTimeAndTimestamp v with
              | Err e => mret (Some e)
              | Ok (n, ts) => do_updateHead n ts
              end
            else mret None
        | Some e => mret (Some e)
        end;
  let err := match err with
             | None => if is_null v then Some (ESentinel ErrHeadOld) else None
             | Some e => Some e
             end in
  match err with
  | Some e =>
      slow ← too_slow;
      mret (v, if errors_is e DeadlineExceeded && slow
               then Some (ESentinel ErrHeadOld) else Some e)
  | None => mret (v, None)
  end.

Definition Middleware : middleware W := λ next r,
  if negb (from_option json_valid true (r_params r))
  then send_err (NewInvalidParamsError "params must be valid json")
  else if bool_decide (r_method r = "eth_getBlockByNumber") then
    let isLatest := isQueryingLatest (r_params r) in
    sends ← next r;
    x ← check_block isLatest (intercept icept0 sends);
    send x
  else if bool_decide (r_method r = "eth_blockNumber") then
    res ← Do (r_ctx r) next "eth_getBlockByNumber" latest_params;
    match res with
    | Err e => send_err e
    | Ok block =>
        match extractBlockTimeAndTimestamp (VRaw block) with
        | Err e => send_err e
        | Ok (n, ts) =>
            err ← do_updateHead n ts;
            send (VUint64 n, err)
        end
    end
  else if bool_decide (r_method r ∈ ["eth_getBlockByHash"; "eth_getLogs";
                                     "eth_getBlockReceipts"]) then
    sends ← next r;
    let '(v, err) := intercept icept0 sends in
    match err with
    | None => if is_null v then send (v, Some (ESentinel ErrHeadOld)) else send (v, None)
    | Some _ => send (v, err)
    end
  else next r.
End middleware.

(** ** Runs *)

(** A report is the head and the time of a block, and when it arrived. *)
Record report := { rep_head : Z; rep_time : Z; rep_now : Z }.

Definition step (T : t) (r : report) : t :=
  (updateHead (rep_now r) (rep_head r) (rep_time r) T).2.

Definition run (rs : list report) (T : t) : t := foldl step T rs.

(** The times reported for a head. *)
Definition times (h : Z) (rs : list report) : list Z :=
  rep_time <$> filter (λ r, rep_head r = h) rs.

(** Abstractly: the highest head reported, and the earliest of the times
    reported for it. *)
Definition minimum (t : Z) (l : list Z) : Prop := t ∈ l ∧ Forall (Z.le t) l.
Definition tracks (rs : list report) (T : t) : Prop :=
  Forall (λ r, rep_head r <= head T) rs ∧
  (head T = 0 ∨ minimum (updated T) (times (head T) rs)).

(** ** Lemmas *)

Lemma step_head T r : head (step T r) = Z.max (head T) (rep_head r).
Proof.
  unfold step, updateHead.
  destruct (Z.ltb_spec (rep_head r) (head T)); [simpl; lia|].
  destruct (Z.ltb_spec (head T) (rep_head r)); [simpl; lia|].
  case_match; simpl; lia.
Qed.

Lemma times_app h rs rs' : times h (rs ++ rs') = times h rs ++ times h rs'.
Proof. unfold times. by rewrite filter_app, fmap_app. Qed.

Lemma times_one h r : times h [r] = if decide (rep_head r = h) then [rep_time r] else [].
Proof. unfold times. rewrite filter_cons. by destruct (decide _). Qed.

Lemma times_none h rs : Forall (λ r, rep_head r < h) rs → times h rs = [].
Proof.
  intros H. unfold times. induction H as [|r rs Hr _ IH]; [done|].
  rewrite filter_cons. destruct (decide _); [lia|done].
Qed.

Lemma minimum_snoc t x l :
  minimum t l → minimum (if x <? t then x else t) (l ++ [x]).
Proof.
  intros [Hin Hle]. destruct (Z.ltb_spec x t).
  - split; [set_solver|]. apply Forall_app. split; [|repeat constructor; lia].
    eapply Forall_impl; [exact Hle|]. simpl. lia.
  - split; [set_solver|]. apply Forall_app. split; [done|]. repeat constructor; lia.
Qed.

Lemma step_tracks rs T r :
  0 <= head T → tracks rs T → tracks (rs ++ [r]) (step T r).
Proof.
  intros H0 [Hall Hmin]. split.
  { rewrite step_head. apply Forall_app. split; [|repeat constructor; lia].
    eapply Forall_impl; [exact Hall|]. simpl. lia. }
  rewrite step_head, times_app, times_one.
  unfold step, updateHead.
  destruct (Z.ltb_spec (rep_head r) (head T)) as [Hlt|Hge].
  { rewrite Z.max_l by lia. rewrite decide_False by lia. by rewrite app_nil_r. }
  destruct (Z.ltb_spec (head T) (rep_head r)) as [Hlt|Hge'].
  - rewrite Z.max_r, decide_True by lia. right. simpl.
    rewrite times_none; [split; [set_solver|repeat constructor; lia]|].
    eapply Forall_impl; [exact Hall|]. simpl. lia.
  - rewrite Z.max_l, decide_True by lia. destruct Hmin as [->|Hmin]; [by left|right].
    apply (minimum_snoc _ (rep_time r)) in Hmin.
    destruct (_ <? Sub _ _); simpl; exact Hmin.
Qed.

Lemma run_tracks rs old : tracks rs (run rs (NewValidator old)) ∧
  0 <= head (run rs (NewValidator old)).
Proof.
  induction rs as [|r rs [IH H0]] using rev_ind.
  { split; [|done]. split; [constructor|by left]. }
  unfold run in *. rewrite foldl_app. simpl. split; [by apply step_tracks|].
  rewrite step_head. lia.
Qed.

Lemma updateHead_ok now hd upd T T' :
  updateHead now hd upd T = (None, T') →
  head T <= hd ∧ head T' = hd ∧
  (hd = head T → updated T' = Z.min upd (updated T) ∧ Sub now (updated T') <= old T).
Proof.
  unfold updateHead. destruct (Z.ltb_spec hd (head T)); [done|].
  destruct (Z.ltb_spec (head T) hd).
  - intros [= <-]. simpl. lia.
  - assert (hd = head T) as -> by lia.
    set (T1 := {| old := _ |}).
    destruct (Z.ltb_spec (old T1) (Sub now (updated T1))); [done|].
    intros [= <-]. split_and!; [lia|done|]. intros _. split; [|done].
    simpl. destruct (Z.ltb_spec upd (updated T)); lia.
Qed.
End Validator.

(** ** Properties *)

Module ValidatorProps.
Import Validator.

(** whatever blocks a remote reports, the validator's head is the highest
    of them, and, once a block was seen, its time is the earliest of the
    times reported for that head. *)
Theorem validator_tracks_head rs old :
  let T := run rs (NewValidator old) in
  tracks rs T ∧ (head T ≠ 0 → ∃ r, r ∈ rs ∧ rep_head r = head T).
Proof.
  intros T. destruct (run_tracks rs old) as [[Hall Hmin] _]. fold T in Hall, Hmin.
  split; [by split|]. intros Hne. destruct Hmin as [|[Hin _]]; [done|].
  unfold times in Hin. apply list_elem_of_fmap in Hin as (r & _ & Hr).
  apply list_elem_of_filter in Hr as [? ?]. by exists r.
Qed.

Section middleware.
Context {W : Type} `{J : Jrpc} `{X : Jx} `{S : Sonic} `{!Lens t W}.
Context (now : prog W Z) (too_slow : prog W bool).

Lemma do_updateHead_inv hd upd w w2 :
  do_updateHead now hd upd w = (Return None, w2) →
  ∃ clock w1, now w = (Return clock, w1) ∧
    updateHead clock hd upd (lget w1) = (None, lget w2).
Proof.
  unfold do_updateHead. intros H. prog_inv H. exists a, w0. split; [done|].
  prog_inv H. injection Hm0 as <- <-.
  destruct (updateHead a hd upd (lget w0)) as [e T'] eqn:Hu.
  prog_inv H. injection Hm0 as _ <-. injection H as -> <-.
  by rewrite lget_lput.
Qed.

Lemma check_block_ok v err w x w2 :
  check_block now too_slow true (v, err) w = (Return (x, None), w2) →
  x = v ∧ err = None ∧ is_null v = false ∧ ∃ n ts clock w1,
    extractBlockTimeAndTimestamp v = Ok (n, ts) ∧
    now w = (Return clock, w1) ∧
    updateHead clock n ts (lget w1) = (None, lget w2).
Proof.
  unfold check_block. intros H. prog_inv H.
  assert (a = None ∧ is_null v = false ∧ x = v ∧ w0 = w2) as (-> & Hv & -> & ->).
  { destruct a as [e|]; [|destruct (is_null v)].
    - prog_inv H. destruct (_ && _); discriminate.
    - prog_inv H. destruct (_ && _); discriminate.
    - by injection H as -> ->. }
  destruct err as [e|]; [discriminate|]. split_and!; [done..|].
  destruct (extractBlockTimeAndTimestamp v) as [[n ts]|e]; [|discriminate].
  apply do_updateHead_inv in Hm as (clock & w1 & Hn & Hu).
  by exists n, ts, clock, w1.
Qed.

(** C18: a remote's answer to a query for the latest block is passed on as a
    success only if the handler gave a block, its number is not below any
    head seen before, the validator's head is then that number, and when
    it was the head already, it is not older than the configured bound. *)
Theorem validator_latest_fresh next r w v w' :
  r_method r = "eth_getBlockByNumber" →
  isQueryingLatest (r_params r) = true →
  Middleware now too_slow next r w = (Return [(v, None)], w') →
  ∃ sends w1 n ts clock w2,
    next r w = (Return sends, w1) ∧ intercept icept0 sends = (v, None) ∧
    is_null v = false ∧ extractBlockTimeAndTimestamp v = Ok (n, ts) ∧
    now w1 = (Return clock, w2) ∧
    head (lget w2) <= n ∧ head (lget w') = n ∧
    (n = head (lget w2) → Sub clock (updated (lget w')) <= old (lget w2)).
Proof.
  intros Hmeth Hlatest H. unfold Middleware in H.
  rewrite Hmeth, Hlatest in H. destruct (negb _); [discriminate|].
  rewrite bool_decide_true in H by done.
  prog_inv H. prog_inv H. injection H as -> ->.
  destruct (intercept icept0 a) as [v' err] eqn:Hi.
  apply check_block_ok in Hm0 as (-> & -> & Hv & n & ts & clock & w2 & He & Hn & Hu).
  destruct (updateHead_ok _ _ _ _ _ Hu) as (Hle & Hhd & Hold).
  exists a, w0, n, ts, clock, w2. split_and!; try done.
  intros Heq. by apply Hold.
Qed.

(** an [eth_blockNumber] that succeeds through the validator is the
    number of a block the handler answered to
    [eth_getBlockByNumber("latest", false)] with, it is not below any head
    seen before, and the validator's head is then that number. *)
Theorem validator_blockNumber next r w v w' :
  r_method r = "eth_blockNumber" →
  Middleware now too_slow next r w = (Return [(v, None)], w') →
  ∃ block w1 n ts clock w2,
    Do (r_ctx r) next "eth_getBlockByNumber" latest_params w = (Return (Ok block), w1) ∧
    extractBlockTimeAndTimestamp (VRaw block) = Ok (n, ts) ∧ v = VUint64 n ∧
    now w1 = (Return clock, w2) ∧ head (lget w2) <= n ∧ head (lget w') = n.
Proof.
  intros Hmeth H. unfold Middleware in H. rewrite Hmeth in H.
  destruct (negb _); [discriminate|].
  rewrite bool_decide_false, bool_decide_true in H by done.
  prog_inv H. destruct a as [block|e]; [|discriminate].
  destruct (extractBlockTimeAndTimestamp (VRaw block)) as [[n ts]|e] eqn:He; [|discriminate].
  prog_inv H. injection H as <- -> <-.
  apply do_updateHead_inv in Hm0 as (clock & w2 & Hn & Hu).
  destruct (updateHead_ok _ _ _ _ _ Hu) as (Hle & Hhd & _).
  by exists block, w0, n, ts, clock, w2.
Qed.
End middleware.
End ValidatorProps.

(** ** Witnesses *)

Module ValidatorWitness.
Import Validator ValidatorProps StdJrpc StdEth StdJx StdSonic.

(** A remote with block 256, whose time is 90 s; the clock shows 95 s. *)
Definition block0 : json := JObj [("number", JStr "0x100"); ("timestamp", JStr "0x5a")].
Definition now0 : prog t Z := mret (95 * Second).
Definition too_slow0 : prog t bool := mret false.
Definition remote0 : handler t := const_handler (VRaw block0, None).

(** The validator saw block 256 already; a minute is the bound. *)
Definition state0 : t :=
  {| old := 60 * Second; head := 256; updated := 92 * Second |}.
Definition state1 : t :=
  {| old := 60 * Second; head := 256; updated := 90 * Second |}.

Definition request0 (method : string) : request :=
  {| r_ctx := []; r_method := method; r_params := Some latest_params; r_peer := "" |}.

Lemma validator_latest_fresh_witness :
  ∃ sends w1 n ts clock w2,
    remote0 (request0 "eth_getBlockByNumber") state0 = (Return sends, w1) ∧
    intercept icept0 sends = (VRaw block0, None) ∧
    is_null (VRaw block0) = false ∧
    extractBlockTimeAndTimestamp (VRaw block0) = Ok (n, ts) ∧
    now0 w1 = (Return clock, w2) ∧ head (lget w2) <= n ∧ head (lget state1) = n ∧
    (n = head (lget w2) → Sub clock (updated (lget state1)) <= old (lget w2)).
Proof.
  refine (validator_latest_fresh now0 too_slow0 remote0 (request0 "eth_getBlockByNumber")
            state0 (VRaw block0) state1 _ _ _); vm_compute; reflexivity.
Defined.

Lemma validator_blockNumber_witness :
  ∃ block w1 n ts clock w2,
    Do [] remote0 "eth_getBlockByNumber" latest_params state0 = (Return (Ok block), w1) ∧
    extractBlockTimeAndTimestamp (VRaw block) = Ok (n, ts) ∧ VUint64 256 = VUint64 n ∧
    now0 w1 = (Return clock, w2) ∧ head (lget w2) <= n ∧ head (lget state1) = n.
Proof.
  refine (validator_blockNumber now0 too_slow0 remote0 (request0 "eth_blockNumber")
            state0 (VUint64 256) state1 _ _); vm_compute; reflexivity.
Defined.
End ValidatorWitness.
