(* ===== verification/Doctor.v ===== *)
(** * Health checks of a remote: [lib/callcenter/doctor.go]

    The [Doctor] as a state machine over time: the periodic check, the use of
    the remote, which resets the timer, and closing.  Instants and durations
    are nanoseconds.  The latency window is the list of the samples given to
    it; the rolling window and the metrics registry are library code, of the
    registry only the last value of the status gauge and the failure counter
    are kept. *)
From S2P Require Import Prelude Errors Json EthTypes Config Rpc.

Module Doctor.

(** ** State *)

Inductive HealthStatus : Type :=
  HealthStatusUnknown | HealthStatusHealthy | HealthStatusUnhealthy.
#[export] Instance HealthStatus_eq_dec : EqDecision HealthStatus.
Proof. solve_decision. Defined.

Record conf := {
  chainId : Z;
  chainName : string;
  remoteName : string;
  minInterval : Z;
  maxInterval : Z;
}.

Record t := {
  cf : conf;
  timer : option Z;      (* when it goes off *)
  firstCheck : bool;     (* the first check is still to come *)
  health : HealthStatus;
  interval : Z;
  latencyWindow : list Z;
  lastError : string;
  closed : bool;
  running : bool;        (* the goroutine is in its loop *)
  gauge : option Z;      (* prom.RemoteHealth.Status *)
  failures : Z;          (* prom.RemoteHealth.CheckFailures *)
}.

Definition NewDoctor (c : conf) : t := {|
  cf := c; timer := None; firstCheck := false; health := HealthStatusUnknown;
  interval := minInterval c; latencyWindow := []; lastError := ""; closed := false;
  running := false; gauge := None; failures := 0 |}.

(** [Middleware], before its goroutine runs. *)
Definition attach (now : Z) (T : t) : t := {|
  cf := cf T; timer := Some (now + minInterval (cf T)); firstCheck := true;
  health := health T; interval := interval T; latencyWindow := latencyWindow T;
  lastError := lastError T; closed := false; running := false; gauge := gauge T; failures := failures T |}.

(** ** The check *)

(** What a check finds: [eth_blockNumber] failed, or the result of
    [eth_chainId], with the latency of both calls. *)
Inductive verdict : Type :=
  | BlockNumberFailed (e : goerr)
  | ChainId (r : res goerr Z) (latency : Z).

Section check.
Context `{J : Jrpc}.

Definition mismatch (T : t) (id : Z) : string :=
  "chain ID mismatch: expected " +:+ pretty (chainId (cf T)) +:+ ", got " +:+ pretty id.

Definition unhealthy (now metric : Z) (msg : string) (T : t) : t := {|
  cf := cf T; timer := Some (now + minInterval (cf T)); firstCheck := firstCheck T;
  health := HealthStatusUnhealthy; interval := minInterval (cf T);
  latencyWindow := latencyWindow T; lastError := msg; closed := closed T;
  running := running T;
  gauge := Some metric; failures := failures T + 1 |}.

Definition well (now : Z) (T : t) : t :=
  let interval' := Z.min (maxInterval (cf T)) (i64 (interval T * 2)) in {|
  cf := cf T; timer := Some (now + interval'); firstCheck := firstCheck T;
  health := HealthStatusHealthy; interval := interval';
  latencyWindow := latencyWindow T; lastError := ""; closed := closed T;
  running := running T;
  gauge := Some 1; failures := failures T |}.

Definition sample (latency : Z) (T : t) : t := {|
  cf := cf T; timer := timer T; firstCheck := firstCheck T; health := health T;
  interval := interval T; latencyWindow := latencyWindow T ++ [latency];
  lastError := lastError T; closed := closed T;
  running := running T; gauge := gauge T;
  failures := failures T |}.

(** The part of [check] under the mutex. *)
Definition checked (now : Z) (v : verdict) (T : t) : t :=
  match v with
  | BlockNumberFailed e => unhealthy now (-1) (error_text e) T
  | ChainId r latency =>
      let T := sample latency T in
      match r with
      | Err e => unhealthy now 0 (error_text e) T
      | Ok id =>
          if negb (i64 id =? chainId (cf T))
          then unhealthy now 0 (mismatch T (i64 id)) T
          else well now T
      end
  end.

Section run.
Context {W : Type} `{Sn : Sonic} `{!Lens t W}.
(** The clock, the context of the check, and the remote. *)
Context (now : prog W Z) (ctx : context) (remote : handler W).

Definition check : prog W () :=
  start ← now;
  err ← Do_uint64 ctx remote "eth_blockNumber" (JArr []);
  match err with
  | Err e => clock ← now; modify (checked clock (BlockNumberFailed e))
  | Ok _ =>
      r ← Do_uint64 ctx remote "eth_chainId" (JArr []);
      clock ← now;
      modify (checked clock (ChainId r (clock - start)))
  end.
End run.

(** The goroutine: [firstCheck.Done()] after the first check, then [loop]. *)
Definition first_done (T : t) : t := {|
  cf := cf T; timer := timer T; firstCheck := false; health := health T;
  interval := interval T; latencyWindow := latencyWindow T; lastError := lastError T;
  closed := closed T;
  running := true; gauge := gauge T; failures := failures T |}.

(** ** Use *)

Definition reset_min (now : Z) (T : t) : t := {|
  cf := cf T; timer := Some (now + minInterval (cf T)); firstCheck := firstCheck T;
  health := health T; interval := minInterval (cf T); latencyWindow := latencyWindow T;
  lastError := lastError T; closed := closed T;
  running := running T; gauge := gauge T;
  failures := failures T |}.

(** [CanUse]: it waits for the first check while the health is unknown,
    and then asks again.  One recursion is enough: [CanUse_total]. *)
Fixpoint CanUse (fuel : nat) (now : Z) (T : t) : outcome bool * t :=
  match health T with
  | HealthStatusHealthy => (Return true, reset_min now T)
  | HealthStatusUnhealthy => (Return false, T)
  | HealthStatusUnknown =>
      match fuel with
      | O => (Panic "unbounded recursion", T)
      | S fuel => if firstCheck T then (Blocks, T) else CanUse fuel now T
      end
  end.

Definition ServeRPC {W} `{!Lens t W} (now : prog W Z) (remote : handler W) : handler W :=
  λ r,
    clock ← now;
    T ← read;
    let '(usable, T') := CanUse 1 clock T in
    _ ← write T';
    ok ← lift usable;
    if negb ok
    then send_err (NewInternalError ("remote '" +:+ remoteName (cf T) +:+
           "' on chain '" +:+ chainName (cf T) +:+ "' is unhealthy"))
    else remote r.

(** ** Closing *)

Definition close (T : t) : t := {|
  cf := cf T; timer := timer T; firstCheck := firstCheck T; health := health T;
  interval := interval T; latencyWindow := latencyWindow T; lastError := lastError T;
  closed := true; running := running T; gauge := gauge T; failures := failures T |}.

Definition Close (T : t) : option goerr * t :=
  if closed T then (Some (ESentinel ErrClosed), T) else (None, close T).

(** [loop] returns: the deferred [timer.Stop()]. *)
Definition exit (T : t) : t := {|
  cf := cf T; timer := None; firstCheck := firstCheck T; health := health T;
  interval := interval T; latencyWindow := latencyWindow T; lastError := lastError T;
  closed := closed T; running := false; gauge := gauge T; failures := failures T |}.

Definition GetLastError (T : t) : string := lastError T.
Definition GetHealthStatus (T : t) : HealthStatus := health T.
Definition GetChainName (T : t) : string := chainName (cf T).
Definition GetRemoteName (T : t) : string := remoteName (cf T).

(** ** The machine *)

(** What happens to an attached doctor, and when: its first check ends,
    its timer has gone off and the check ends, it is used, it is closed,
    its loop sees that. *)
Inductive event : Type :=
  | First (now : Z) (v : verdict)
  | Tick (now : Z) (v : verdict)
  | Use (now : Z)
  | Shut
  | Exit.

Definition step (e : event) (T : t) : option t :=
  match e with
  | First now v =>
      if firstCheck T then Some (first_done (checked now v T)) else None
  | Tick now v =>
      if negb (running T) then None
      else match timer T with
           | Some d => if d <=? now then Some (checked now v T) else None
           | None => None
           end
  | Use now =>
      match CanUse 1 now T with
      | (Return _, T') => Some T'
      | _ => None
      end
  | Shut => Some (Close T).2
  | Exit => if running T && closed T then Some (exit T) else None
  end.

Fixpoint steps (es : list event) (T : t) : option t :=
  match es with
  | [] => Some T
  | e :: es => T' ← step e T; steps es T'
  end.
End check.

(** ** Lemmas *)

Record good_conf (c : conf) : Prop := {
  gc_min : 0 <= minInterval c;
  gc_le : minInterval c <= maxInterval c;
  gc_max : maxInterval c * 2 < two63;
}.

Definition gauge_of (h : HealthStatus) (g : option Z) : Prop :=
  match h with
  | HealthStatusUnknown => g = None
  | HealthStatusHealthy => g = Some 1
  | HealthStatusUnhealthy => g = Some 0 ∨ g = Some (-1)
  end.

(** What every reachable doctor satisfies. *)
Record inv (c : conf) (T : t) : Prop := {
  inv_conf : cf T = c;
  inv_interval : minInterval c <= interval T <= maxInterval c;
  inv_first : health T = HealthStatusUnknown → firstCheck T = true;
  inv_running : running T = true → firstCheck T = false;
  inv_timer : running T = true → is_Some (timer T);
  inv_error : health T = HealthStatusHealthy → lastError T = "";
  inv_gauge : gauge_of (health T) (gauge T);
}.

Section inv.
Context `{J : Jrpc}.

Lemma attach_inv now c : good_conf c → inv c (attach now (NewDoctor c)).
Proof. intros []. split; simpl; try done. Qed.

Lemma unhealthy_inv c now m msg T :
  m = 0 ∨ m = -1 → inv c T → good_conf c → inv c (unhealthy now m msg T).
Proof.
  intros Hm [] []. split; simpl; subst; try done. naive_solver.
Qed.

Lemma well_inv c now T : inv c T → good_conf c → inv c (well now T).
Proof.
  intros [] []. split; simpl; try done. subst.
  rewrite i64_small by go_lia. lia.
Qed.

Lemma checked_inv c now v T : inv c T → good_conf c → inv c (checked now v T).
Proof.
  intros Hi Hc. destruct v as [e|r l]; simpl; [by apply unhealthy_inv; [right|..]|].
  assert (inv c (sample l T)) by (destruct Hi; by split).
  destruct r as [id|e]; [|by apply unhealthy_inv; [left|..]].
  destruct (negb _); [by apply unhealthy_inv; [left|..]|by apply well_inv].
Qed.

Lemma checked_known now v T : health (checked now v T) ≠ HealthStatusUnknown.
Proof. destruct v as [|[]]; simpl; [done| |done]. by destruct (negb _). Qed.

Lemma first_done_inv c now v T :
  firstCheck T = true → inv c T → good_conf c → inv c (first_done (checked now v T)).
Proof.
  intros Hf Hi Hc. pose proof (checked_inv c now v T Hi Hc) as [].
  split; simpl; try done; [|by destruct v as [|[]]; simpl; repeat case_match].
  intros Hu. by apply checked_known in Hu.
Qed.

Lemma CanUse_inv c now T : inv c T → good_conf c → inv c (CanUse 1 now T).2.
Proof.
  intros [] []. cbn [CanUse]. destruct (health T) eqn:E; cbn [snd].
  - rewrite inv_first0 by done. cbn [snd]. split; try done; by rewrite E.
  - split; simpl; rewrite ?E; subst; try done; lia.
  - split; try done; by rewrite E.
Qed.

Lemma step_inv c e T T' : good_conf c → inv c T → step e T = Some T' → inv c T'.
Proof.
  intros Hc Hi. destruct e as [now v|now v|now| |]; simpl.
  - destruct (firstCheck T) eqn:E; [|done]. intros [= <-]. by apply first_done_inv.
  - destruct (negb _); [done|]. destruct (timer T) as [d|]; [|done].
    destruct (d <=? now); [|done]. intros [= <-]. by apply checked_inv.
  - pose proof (CanUse_inv c now T Hi Hc) as H. simpl in H.
    repeat case_match; try done; intros [= <-]; exact H.
  - intros [= <-]. unfold Close. destruct (closed T); simpl; [done|].
    destruct Hi. by split.
  - destruct (_ && _); [|done]. intros [= <-]. destruct Hi. by split.
Qed.

Lemma steps_inv c es T T' : good_conf c → inv c T → steps es T = Some T' → inv c T'.
Proof.
  intros Hc. revert T. induction es as [|e es IH]; intros T Hi; [by intros [= <-]|].
  cbn [steps]. destruct (step e T) as [T1|] eqn:Hs; [|done].
  simpl. apply IH. by eapply step_inv.
Qed.

(** Waiting for the first check is the only way not to get an answer. *)
Lemma CanUse_total c now T :
  inv c T →
  (∃ b T', CanUse 1 now T = (Return b, T')) ∨
  (CanUse 1 now T = (Blocks, T) ∧ firstCheck T = true ∧ running T = false).
Proof.
  intros []. cbn [CanUse]. destruct (health T) eqn:E; [|by left; eauto..].
  rewrite inv_first0 by done. right. split_and!; [done..|].
  destruct (running T); [|done]. rewrite inv_first0 in inv_running0 by done.
  by specialize (inv_running0 eq_refl).
Qed.
End inv.
End Doctor.

(** ** Properties *)

Module DoctorProps.
Import Doctor.
Section props.
Context `{J : Jrpc}.

(** C17: at every moment of a doctor's life its interval is between the
    configured bounds, a use of the remote is answered at once unless the
    first check is still running, and while the loop runs the next check
    is scheduled and can be done when its time comes. *)
Theorem doctor_invariant c now es T :
  good_conf c →
  steps es (attach now (NewDoctor c)) = Some T →
  minInterval c <= interval T <= maxInterval c ∧
  (health T = HealthStatusHealthy → lastError T = "" ∧ gauge T = Some 1) ∧
  (∀ clock, (∃ b T', CanUse 1 clock T = (Return b, T')) ∨
            CanUse 1 clock T = (Blocks, T) ∧ firstCheck T = true) ∧
  (running T = true → ∃ d, timer T = Some d ∧
     ∀ v, ∃ T', step (Tick d v) T = Some T' ∧ health T' ≠ HealthStatusUnknown).
Proof.
  intros Hc Hs. pose proof (steps_inv c es _ T Hc (attach_inv now c Hc) Hs) as Hi.
  split_and!.
  - apply Hi.
  - apply Hi.
  - intros Hh. split; [by apply (inv_error c T)|].
    pose proof (inv_gauge c T Hi) as Hg. by rewrite Hh in Hg.
  - intros clock. destruct (CanUse_total c clock T Hi) as [|(? & ? & _)]; auto.
  - intros Hr. destruct (inv_timer c T Hi Hr) as [d Hd]. exists d. split; [done|].
    intros v. simpl. rewrite Hr, Hd, Z.leb_refl. simpl.
    eexists. split; [done|]. apply checked_known.
Qed.

(** The state of a remote in continuous use: each use starts the wait
    for the next check over. *)
Fixpoint dense (gap last : Z) (ts : list Z) : Prop :=
  match ts with
  | [] => True
  | t :: ts => last <= t < last + gap ∧ dense gap t ts
  end.

Definition last_use (t0 : Z) (ts : list Z) : Z := default t0 (last ts).

Lemma last_use_cons t0 t ts : last_use t0 (t :: ts) = last_use t ts.
Proof. unfold last_use. rewrite last_cons. by destruct (last ts). Qed.

Lemma use_healthy now T :
  health T = HealthStatusHealthy → step (Use now) T = Some (reset_min now T).
Proof. simpl. by intros ->. Qed.

(** a healthy remote used at least once per [minInterval] is not
    checked at all: whatever happens to it, it stays usable, and at no
    moment up to [minInterval] after its last use can a check start. *)
Theorem doctor_starved T t0 ts :
  health T = HealthStatusHealthy →
  dense (minInterval (cf T)) t0 ts →
  ∃ T', steps (map Use (t0 :: ts)) T = Some T' ∧ health T' = HealthStatusHealthy ∧
    timer T' = Some (last_use t0 ts + minInterval (cf T)) ∧
    ∀ now v, now < last_use t0 ts + minInterval (cf T) → step (Tick now v) T' = None.
Proof.
  revert T t0. induction ts as [|t ts IH]; intros T t0 Hh Hd.
  - exists (reset_min t0 T). cbn [map steps].
    rewrite use_healthy by done. split_and!; [done..|].
    intros now v Hn. unfold last_use in Hn. simpl in *. destruct (negb _); [done|].
    destruct (Z.leb_spec (t0 + minInterval (cf T)) now); [lia|done].
  - destruct Hd as [_ Hd].
    destruct (IH (reset_min t0 T) t Hh Hd) as (T' & Hs & Hh' & Ht & Hn).
    exists T'. rewrite last_use_cons. split_and!; try done.
    change (map Use (t0 :: t :: ts)) with (Use t0 :: map Use (t :: ts)).
    cbn [steps]. rewrite use_healthy by done. exact Hs.
Qed.

(** [n] checks in a row that find the expected chain. *)
Definition good_ticks (T : t) (nows : list Z) : list event :=
  map (λ now, Tick now (ChainId (Ok (chainId (cf T))) 0)) nows.

Fixpoint on_time (T : t) (nows : list Z) : Prop :=
  match nows with
  | [] => True
  | now :: nows =>
      (∃ d, timer T = Some d ∧ d <= now) ∧
      on_time (checked now (ChainId (Ok (chainId (cf T))) 0) T) nows
  end.

Lemma checked_good now T :
  in_i64 (chainId (cf T)) →
  checked now (ChainId (Ok (chainId (cf T))) 0) T = well now (sample 0 T).
Proof. intros H. cbn [checked]. by rewrite i64_small, Z.eqb_refl by done. Qed.

(** left alone, a remote that keeps passing its checks is checked at
    intervals that double from [minInterval] up to [maxInterval]. *)
Theorem doctor_backs_off T nows :
  running T = true → in_i64 (chainId (cf T)) → good_conf (cf T) →
  0 <= interval T <= maxInterval (cf T) → on_time T nows →
  ∃ T', steps (good_ticks T nows) T = Some T' ∧
    interval T' = Z.min (maxInterval (cf T)) (interval T * 2 ^ Z.of_nat (List.length nows)).
Proof.
  revert T. induction nows as [|now nows IH]; intros T Hr Hid Hc Hi Ht.
  { exists T. split; [done|]. simpl. lia. }
  destruct Ht as [(d & Hd & Hle) Ht]. rewrite checked_good in Ht by done.
  destruct (IH (well now (sample 0 T))) as (T' & Hs & Hint); simpl; try done.
  { destruct Hc. unwrap. lia. }
  exists T'. split.
  - cbn [good_ticks map steps step]. rewrite Hr, Hd. apply Z.leb_le in Hle. rewrite Hle.
    rewrite i64_small, Z.eqb_refl by done. exact Hs.
  - rewrite Hint. cbn [List.length]. rewrite Nat2Z.inj_succ, Z.pow_succ_r by lia.
    destruct Hc. simpl. rewrite i64_small by go_lia.
    pose proof (Z.pow_pos_nonneg 2 (Z.of_nat (List.length nows))).
    destruct (Z.min_spec (maxInterval (cf T)) (interval T * 2)) as [[? ->]|[? ->]];
      [|f_equal; lia].
    rewrite Z.min_l by nia. rewrite Z.min_l by nia. done.
Qed.

Section run.
Context {W : Type} `{Sn : Sonic} `{!Lens t W}.
Context (now : prog W Z) (ctx : context) (remote : handler W).

(** Reading the clock leaves the doctor alone. *)
Hypothesis now_frame : ∀ w a w', now w = (Return a, w') → lget w' = lget w.

(** The remote passes: it answers both calls, the second with the
    configured chain. *)
Definition passes (w : W) : Prop :=
  ∃ start w0 n w1 id w2,
    now w = (Return start, w0) ∧
    Do_uint64 ctx remote "eth_blockNumber" (JArr []) w0 = (Return (Ok n), w1) ∧
    Do_uint64 ctx remote "eth_chainId" (JArr []) w1 = (Return (Ok id), w2) ∧
    i64 id = chainId (cf (lget w2)).

(** a check that ends leaves the doctor healthy exactly if the remote
    answered both calls and reported the configured chain; if not it is
    unhealthy, the interval is back at its minimum, and the status gauge
    is 0 or -1: -1, documented as unknown, if [eth_blockNumber] was what
    failed. *)
Theorem doctor_check_verdict w w' :
  check now ctx remote w = (Return tt, w') →
  (health (lget w') = HealthStatusHealthy ↔ passes w) ∧
  (health (lget w') = HealthStatusHealthy ∨
   health (lget w') = HealthStatusUnhealthy ∧
   interval (lget w') = minInterval (cf (lget w')) ∧
   gauge (lget w') =
     match (start ← now; Do_uint64 ctx remote "eth_blockNumber" (JArr [])) w with
     | (Return (Err _), _) => Some (-1)
     | _ => Some 0
     end).
Proof.
  unfold check. intros H. prog_inv H. rename a into start, w0 into wa, Hm into Hstart.
  rewrite (prog_bind_return _ _ _ _ _ Hstart).
  prog_inv H. rename a into r1, w0 into wb, Hm into Hbn. rewrite Hbn.
  destruct r1 as [n|e]; [prog_inv H; rename a into r2, w0 into wc, Hm into Hid|];
    prog_inv H; injection H as <-; rewrite lget_lput; rename a into clock, w0 into wd.
  - assert (passes w ↔ ∃ id, r2 = Ok id ∧ i64 id = chainId (cf (lget wc))) as ->.
    { split.
      - intros (? & ? & ? & ? & id & ? & H1 & H2 & H3 & ?). same_run. eauto.
      - intros (id & -> & ?). by exists start, wa, n, wb, id, wc. }
    rewrite <- (now_frame _ _ _ Hm). destruct r2 as [id|e]; simpl.
    + destruct (Z.eqb_spec (i64 id) (chainId (cf (lget wd)))); simpl; naive_solver.
    + naive_solver.
  - split; [|by right]. simpl. split; [done|].
    intros (? & ? & ? & ? & ? & ? & H1 & H2 & _). same_run.
Qed.
End run.
End props.
End DoctorProps.

Module DoctorWitness.
Import Doctor DoctorProps StdJrpc StdSonic StdEth.

Definition c0 : conf := {| chainId := 1; chainName := "ethereum"; remoteName := "r";
  minInterval := 15 * Second; maxInterval := 120 * Second |}.
Lemma c0_good : good_conf c0.
Proof. split; vm_compute; congruence. Qed.

Definition T1 : t :=
  default (NewDoctor c0) (steps [First 0 (ChainId (Ok 1) 5)] (attach 0 (NewDoctor c0))).

Lemma doctor_invariant_witness :
  minInterval c0 <= interval T1 <= maxInterval c0.
Proof.
  refine (proj1 (doctor_invariant c0 0 [First 0 (ChainId (Ok 1) 5)] T1 c0_good _)).
  vm_compute. reflexivity.
Defined.

Lemma doctor_starved_witness :
  ∃ T', steps (map Use [0; 10 * Second; 20 * Second]) T1 = Some T' ∧
    health T' = HealthStatusHealthy.
Proof.
  destruct (doctor_starved T1 0 [10 * Second; 20 * Second]) as (T' & H1 & H2 & _).
  - vm_compute. reflexivity.
  - vm_compute. repeat split; congruence.
  - exists T'. split; [exact H1|exact H2].
Defined.

Lemma doctor_backs_off_witness :
  ∃ T', steps (good_ticks T1 [30 * Second; 90 * Second]) T1 = Some T' ∧
    interval T' = 120 * Second.
Proof.
  destruct (doctor_backs_off T1 [30 * Second; 90 * Second]) as (T' & H1 & H2).
  - vm_compute. reflexivity.
  - vm_compute. split; congruence.
  - exact c0_good.
  - vm_compute. split; congruence.
  - split; [exists (30 * Second); vm_compute; split; [reflexivity|congruence]|].
    split; [exists (90 * Second); vm_compute; split; [reflexivity|congruence]|].
    exact I.
  - exists T'. split; [exact H1|]. rewrite H2. vm_compute. reflexivity.
Defined.

(** A remote of chain 1, and one whose [eth_blockNumber] fails. *)
Definition remote0 : handler t := λ r,
  send_ok (VUint64 (if bool_decide (r_method r = "eth_chainId") then 1 else 77)).

Lemma doctor_check_verdict_witness :
  health (check (mret 0) [] remote0 (attach 0 (NewDoctor c0))).2 = HealthStatusHealthy.
Proof.
  set (w' := (check (mret 0) [] remote0 (attach 0 (NewDoctor c0))).2).
  refine (proj2 (proj1 (doctor_check_verdict (mret 0) [] remote0 _
            (attach 0 (NewDoctor c0)) w' _)) _).
  - intros w a w2 H. injection H as <- <-. reflexivity.
  - vm_compute. reflexivity.
  - exists 0, (attach 0 (NewDoctor c0)), 77, (attach 0 (NewDoctor c0)), 1,
      (attach 0 (NewDoctor c0)).
    repeat split; vm_compute; reflexivity.
Defined.
End DoctorWitness.
