(* ===== verification/Latency.v ===== *)
(** * What a doctor says of its latencies: [GetLatencyStats] of
    [lib/callcenter/doctor.go]

    The samples of the rolling window are floats in the source; here they are
    rational numbers, and the reductions of the rolling library are a class
    with their documented results. *)
From S2P Require Import Prelude Doctor.
From Stdlib Require Import QArith Lqa.
#[local] Open Scope Z_scope.

Module Latency.

(** [rolling.Count], [Sum], [Min] and [Max] over the samples in the window. *)
Class Rolling := {
  r_Count : list Q → Q;
  r_Sum : list Q → Q;
  r_Min : list Q → Q;
  r_Max : list Q → Q;
}.
Class RollingSpec `{R : Rolling} : Prop := {
  r_count l : r_Count l = inject_Z (Z.of_nat (List.length l));
  r_sum l : r_Sum l = foldr Qplus 0%Q l;
  r_min l : l ≠ [] → r_Min l ∈ l ∧ ∀ x, x ∈ l → (r_Min l <= x)%Q;
  r_max l : l ≠ [] → r_Max l ∈ l ∧ ∀ x, x ∈ l → (x <= r_Max l)%Q;
}.

(** The conversion of a float to a [time.Duration], or an [int], drops the
    fraction. *)
Definition truncate (x : Q) : Z := Qnum x `quot` Zpos (Qden x).

Section stats.
Context `{R : Rolling}.

(** The average, the smallest, the largest, and how many there are. *)
Definition GetLatencyStats (T : Doctor.t) : Z * Z * Z * Z :=
  let w := inject_Z <$> Doctor.latencyWindow T in
  let count := truncate (r_Count w) in
  if count =? 0 then (0, 0, 0, 0)
  else (truncate (r_Sum w / inject_Z count), truncate (r_Min w), truncate (r_Max w), count).
End stats.

(** ** Lemmas *)

Lemma truncate_Z z : truncate (inject_Z z) = z.
Proof. apply Z.quot_1_r. Qed.

(** Between integers a fraction stays between them. *)
Lemma truncate_between a b x :
  (inject_Z a <= x)%Q → (x <= inject_Z b)%Q → 0 <= a → a <= truncate x <= b.
Proof.
  destruct x as [n d]. unfold truncate, Qle. cbn. intros Ha Hb H0.
  assert (0 <= n) as Hn by nia.
  rewrite Z.quot_div_nonneg by lia. split.
  - apply Z.div_le_lower_bound; lia.
  - apply Z.div_le_upper_bound; lia.
Qed.

(** A sum of numbers that are bounded. *)
Lemma sum_between a b (l : list Q) :
  (∀ x, x ∈ l → a <= x /\ x <= b)%Q →
  (inject_Z (Z.of_nat (List.length l)) * a <= foldr Qplus 0 l /\
   foldr Qplus 0 l <= inject_Z (Z.of_nat (List.length l)) * b)%Q.
Proof.
  induction l as [|x l IH]; intros H; [change (inject_Z (Z.of_nat (List.length (@nil Q)))) with 0%Q; cbn [foldr]; split; lra|].
  destruct IH as [H1 H2]; [intros y Hy; apply H; by right|].
  destruct (H x) as [H3 H4]; [by left|].
  cbn [List.length foldr]. rewrite Nat2Z.inj_succ. unfold Z.succ.
  rewrite inject_Z_plus. change (inject_Z 1) with 1%Q. split; lra.
Qed.
End Latency.

(** ** What holds *)

Module LatencyProps.
Import Latency Doctor.
Section props.
Context `{R : Rolling, !RollingSpec}.

(** The statistics of samples that are durations are durations of the window:
    the smallest and the largest are samples, they and the average are in
    order, every sample lies between them, and all samples are counted; an
    empty window gives zeros. *)
Theorem latency_stats T :
  Forall (λ d, 0 <= d) (latencyWindow T) →
  let '(avg, min, max, count) := GetLatencyStats T in
  count = Z.of_nat (List.length (latencyWindow T)) ∧
  (latencyWindow T = [] → avg = 0 ∧ min = 0 ∧ max = 0) ∧
  (latencyWindow T ≠ [] → min ∈ latencyWindow T ∧ max ∈ latencyWindow T ∧
     min <= avg <= max ∧ ∀ d, d ∈ latencyWindow T → min <= d <= max).
Proof.
  intros Hpos. unfold GetLatencyStats. rewrite r_count, length_fmap, truncate_Z.
  destruct (latencyWindow T) as [|d0 l0] eqn:Hl; [by cbn|]. rewrite <- Hl in *.
  set (w := inject_Z <$> latencyWindow T).
  assert (w ≠ []) as Hw by (unfold w; by rewrite Hl).
  assert (∀ x, x ∈ w → ∃ d, x = inject_Z d ∧ d ∈ latencyWindow T) as Hin
    by (intros x; apply list_elem_of_fmap).
  destruct (r_min w Hw) as [(a & Ha & Hain)%Hin Hmin], (r_max w Hw) as [(b & Hb & Hbin)%Hin Hmax].
  destruct (Z.eqb_spec (Z.of_nat (List.length (latencyWindow T))) 0) as [Hz|Hz];
    [rewrite Hl in Hz; cbn in Hz; lia|].
  rewrite Ha, Hb, r_sum, !truncate_Z. split; [done|]. split; [by rewrite Hl|]. intros _.
  split; [done|]. split; [done|]. split.
  - set (n := Z.of_nat (List.length (latencyWindow T))) in *.
    assert (0 < inject_Z n)%Q as Hn by (change 0%Q with (inject_Z 0); rewrite <- Zlt_Qlt; lia).
    destruct (sum_between (inject_Z a) (inject_Z b) w) as [H1 H2].
    { intros x Hx. split; [rewrite <- Ha; by apply Hmin|rewrite <- Hb; by apply Hmax]. }
    assert (List.length w = List.length (latencyWindow T)) as Hlen by apply length_fmap.
    rewrite Hlen in H1, H2. fold n in H1, H2.
    apply truncate_between.
    + apply Qle_shift_div_l; [done|]. lra.
    + apply Qle_shift_div_r; [done|]. lra.
    + rewrite Forall_forall in Hpos. by apply Hpos.
  - intros d Hd. assert (inject_Z d ∈ w) as Hdw by by apply list_elem_of_fmap_2.
    pose proof (Hmin _ Hdw) as H1. pose proof (Hmax _ Hdw) as H2. rewrite Ha in H1. rewrite Hb in H2.
    by rewrite <- Zle_Qle in H1, H2.
Qed.
End props.
End LatencyProps.

Module LatencyWitness.
Import Latency LatencyProps.

(** A window that is searched. *)
Definition pick (le : Q → Q → bool) (l : list Q) : Q :=
  match l with
  | [] => 0
  | x :: l => foldl (λ m y, if le m y then m else y) x l
  end.
Definition flip_le (a b : Q) : bool := Qle_bool b a.

Lemma pick_spec (le : Q → Q → bool) l :
  (∀ a, le a a = true) → (∀ a b c, le a b = true → le b c = true → le a c = true) →
  (∀ a b, le a b = false → le b a = true) → l ≠ [] →
  pick le l ∈ l ∧ ∀ x, x ∈ l → le (pick le l) x = true.
Proof.
  intros Hr Ht Hs. destruct l as [|x l]; [done|]. intros _. cbn. revert x.
  induction l as [|y l IH]; intros x; cbn.
  - split; [by left|]. by intros z ->%list_elem_of_singleton.
  - destruct (IH (if le x y then x else y)) as [H1 H2]. split.
    + apply elem_of_cons in H1 as [->|H1]; [|by do 2 right].
      destruct (le x y); [by left|by right; left].
    + intros z [->|[->|Hz]%elem_of_cons]%elem_of_cons; [| |apply H2; by right].
      * apply (Ht _ (if le x y then x else y)); [apply H2; by left|].
        destruct (le x y) eqn:E; auto.
      * apply (Ht _ (if le x y then x else y)); [apply H2; by left|].
        destruct (le x y) eqn:E; auto.
Qed.

#[local] Instance std_rolling : Rolling := {|
  r_Count l := inject_Z (Z.of_nat (List.length l));
  r_Sum l := foldr Qplus 0%Q l;
  r_Min := pick Qle_bool;
  r_Max := pick flip_le;
|}.
#[local] Instance std_rolling_spec : RollingSpec.
Proof.
  split; [done|done| |]; intros l Hl.
  - destruct (pick_spec Qle_bool l) as [H1 H2]; [| | |done|].
    + intros a. by apply Qle_bool_iff, Qle_refl.
    + intros a b c. rewrite !Qle_bool_iff. apply Qle_trans.
    + intros a b H. apply Qle_bool_iff. apply Qlt_le_weak, Qnot_le_lt.
      intros H'%Qle_bool_iff. congruence.
    + split; [done|]. intros x Hx. by apply Qle_bool_iff, H2.
  - destruct (pick_spec flip_le l) as [H1 H2]; [| | |done|]; unfold flip_le in *.
    + intros a. by apply Qle_bool_iff, Qle_refl.
    + intros a b c. rewrite !Qle_bool_iff. intros ??. by eapply Qle_trans.
    + intros a b H. apply Qle_bool_iff. apply Qlt_le_weak, Qnot_le_lt.
      intros H'%Qle_bool_iff. congruence.
    + split; [done|]. intros x Hx. by apply Qle_bool_iff, H2.
Qed.

(** Samples of 3, 1 and 4 nanoseconds. *)
Definition doctor0 : Doctor.t :=
  let T := Doctor.NewDoctor {| Doctor.chainId := 1; Doctor.chainName := "mainnet";
    Doctor.remoteName := "a"; Doctor.minInterval := 1; Doctor.maxInterval := 2 |} in {|
  Doctor.cf := Doctor.cf T; Doctor.timer := None; Doctor.firstCheck := false;
  Doctor.health := Doctor.health T; Doctor.interval := 1; Doctor.latencyWindow := [3; 1; 4];
  Doctor.lastError := ""; Doctor.closed := false; Doctor.running := true;
  Doctor.gauge := None; Doctor.failures := 0 |}.

Lemma latency_stats_witness :
  GetLatencyStats doctor0 = (2, 1, 4, 3) ∧ 1 ∈ Doctor.latencyWindow doctor0.
Proof.
  pose proof (latency_stats doctor0) as H. split; [vm_compute; reflexivity|].
  assert (Forall (λ d, 0 <= d) (Doctor.latencyWindow doctor0)) as Hp
    by (repeat constructor; discriminate).
  apply H in Hp. vm_compute in Hp. apply Hp. discriminate.
Defined.
End LatencyWitness.
