(* ===== verification/Cluster.v ===== *)
(** * Failover over remotes: [lib/callcenter/cluster.go]

    A cluster keeps its remotes in buckets of equal priority.  A request goes
    through the buckets in order of priority, and in a bucket round robin,
    until a remote answers.  A remote is a value of an abstract type [R], the
    pointer to a [RemoteWithConfig], with its handler. *)
From S2P Require Import Prelude Errors Json Config Rpc.

(** ** [slices.BinarySearch] *)

(** The loop, with the order of the target against an element, [lt x] when
    [x] is below the target.  [j - i] turns are enough: [bsearch_spec]. *)
Fixpoint bsearch_loop {A} (lt : A → bool) (l : list A) (fuel i j : nat) : nat :=
  match fuel with
  | O => i
  | S fuel =>
      if bool_decide (i < j)%nat then
        let h := ((i + j) / 2)%nat in
        match l !! h with
        | Some x => if lt x then bsearch_loop lt l fuel (S h) j else bsearch_loop lt l fuel i h
        | None => i
        end
      else i
  end.

Definition bsearch {A} (key : A → Z) (l : list A) (target : Z) : nat * bool :=
  let i := bsearch_loop (λ x, key x <? target) l (List.length l) 0 (List.length l) in
  (i, match l !! i with Some x => key x =? target | None => false end).

Definition insert_at {A} (idx : nat) (x : A) (l : list A) : list A :=
  take idx l ++ x :: drop idx l.

Module Cluster.
Section cluster.
Context {R : Type}.

(** ** State *)

Record clustererPriority := {
  priority : Z;
  p_remotes : list R;
  round : Z;
}.

Record t := {
  priorities : list clustererPriority;
  remotes : list R;
  remotePriority : list Z;
}.

Definition NewCluster : t :=
  {| priorities := []; remotes := []; remotePriority := [] |}.

Definition add_remote (rem : R) (p : clustererPriority) : clustererPriority :=
  {| priority := priority p; p_remotes := p_remotes p ++ [rem]; round := round p |}.

(** ** Adding a remote *)

Definition Add (prio : Z) (rem : R) (T : t) : t :=
  let idx := (bsearch id (remotePriority T) prio).1 in
  let '(remotes', remotePriority') :=
    if bool_decide (List.length (remotePriority T) ≤ idx)%nat
    then (remotes T ++ [rem], remotePriority T ++ [prio])
    else (insert_at idx rem (remotes T), insert_at idx prio (remotePriority T)) in
  let '(idx, ok) := bsearch priority (priorities T) prio in
  {| remotes := remotes'; remotePriority := remotePriority';
     priorities :=
       if ok then alter (add_remote rem) idx (priorities T)
       else insert_at idx {| priority := prio; p_remotes := [rem]; round := 0 |}
              (priorities T) |}.

Definition Remotes (T : t) : list R := remotes T.

(** ** Serving a request *)

Definition bump (p : clustererPriority) : clustererPriority :=
  {| priority := priority p; p_remotes := p_remotes p; round := i64 (round p + 1) |}.

Section serve.
Context {W : Type} `{J : Jrpc} `{L : !Lens t W} (Handler : R → handler W).

(** The inner loop: [rest] remotes of the bucket are still to be tried. *)
Fixpoint try_bucket (r : request) (last_bucket : bool) (rems : list R) (rest : nat)
    (j : Z) (icept : Interceptor) : prog W (list reply + Interceptor) :=
  match rest with
  | O => mret (inr icept)
  | S rest =>
      let j := i64 (j + 1) in
      rem ← lift (index rems (Z.rem j (Z.of_nat (List.length rems))));
      sends ← Handler rem r;
      let icept := intercept icept sends in
      match icept.2 with
      | Some e =>
          if IsUserError (Some e) then mret (inl [(VNil, Some e)])
          else if negb last_bucket || negb (bool_decide (rest = O))
          then try_bucket r last_bucket rems rest j icept
          else if errors_is e ErrHeadOld then mret (inl [(icept.1, None)])
          else mret (inl [(VNil, Some e)])
      | None =>
          match icept.1 with
          | VNil => try_bucket r last_bucket rems rest j icept
          | v => mret (inl [(v, None)])
          end
      end
  end.

(** [p.round.Add(1)] for the bucket with index [i]. *)
Definition next_round (i : nat) (p : clustererPriority) : prog W Z :=
  if bool_decide (1 < List.length (p_remotes p))%nat then
    T ← read;
    match priorities T !! i with
    | Some p =>
        _ ← write {| priorities := alter bump i (priorities T);
                     remotes := remotes T; remotePriority := remotePriority T |};
        mret (i64 (round p + 1))
    | None => panic "nil pointer dereference"
    end
  else mret 0.

(** The outer loop. *)
Fixpoint try_buckets (r : request) (i : nat) (ps : list clustererPriority)
    (icept : Interceptor) : prog W (list reply) :=
  match ps with
  | [] => mret []
  | p :: ps =>
      j ← next_round i p;
      x ← try_bucket r (bool_decide (ps = [])) (p_remotes p)
            (List.length (p_remotes p)) j icept;
      match x with
      | inl sends => mret sends
      | inr icept => try_buckets r (S i) ps icept
      end
  end.

Definition ServeRPC : handler W := λ r,
  T ← read;
  try_buckets r 0 (priorities T) icept0.
End serve.
End cluster.
Arguments t : clear implicits.
Arguments clustererPriority : clear implicits.
End Cluster.

(** ** Binary search in a sorted list *)

Section bsearch_facts.
Context {A : Type}.

(** The elements below the target come first. *)
Definition split_at (lt : A → bool) (l : list A) (n : nat) : Prop :=
  (n ≤ List.length l)%nat ∧
  (∀ i x, l !! i = Some x → (i < n)%nat → lt x = true) ∧
  (∀ i x, l !! i = Some x → (n ≤ i)%nat → lt x = false).

Lemma bsearch_loop_spec lt (l : list A) n fuel i j :
  split_at lt l n → (i ≤ n ≤ j)%nat → (j ≤ List.length l)%nat → (j - i ≤ fuel)%nat →
  bsearch_loop lt l fuel i j = n.
Proof.
  intros (Hn & Hlo & Hhi). revert i j.
  induction fuel as [|fuel IH]; intros i j Hij Hj Hf; cbn [bsearch_loop]; [lia|].
  case_bool_decide as Hlt; [|lia].
  assert (i ≤ (i + j) / 2 < j)%nat as Hh.
  { split; [apply Nat.div_le_lower_bound; lia|apply Nat.Div0.div_lt_upper_bound; lia]. }
  destruct (lookup_lt_is_Some_2 l ((i + j) / 2)%nat) as [x Hx]; [lia|].
  rewrite Hx. destruct (lt x) eqn:E.
  - apply IH; [|lia..]. split; [|lia].
    destruct (decide (n ≤ (i + j) / 2)%nat); [|lia].
    by rewrite (Hhi _ _ Hx) in E.
  - apply IH; [|lia..]. split; [lia|].
    destruct (decide ((i + j) / 2 < n)%nat) as [Hl|]; [|lia].
    by rewrite (Hlo _ _ Hx Hl) in E.
Qed.

(** In a sorted list the elements split. *)
Lemma sorted_split (key : A → Z) (l : list A) (target : Z) :
  StronglySorted (λ x y, key x <= key y) l →
  ∃ n, split_at (λ x, key x <? target) l n.
Proof.
  induction 1 as [|x l Hs [n IH] Hx].
  { exists 0%nat. split_and!; [done|..]; intros ? ? [=]. }
  destruct (Z.ltb_spec (key x) target) as [Hlt|Hge].
  - exists (S n). destruct IH as (H1 & H2 & H3). split_and!; [simpl; lia|..].
    + intros [|i] y Hi Hn; simplify_eq/=; [lia|]. eapply H2; [done|lia].
    + intros [|i] y Hi Hn; simplify_eq/=; [lia|]. eapply H3; [done|lia].
  - exists 0%nat. split_and!; [lia|lia|].
    intros [|i] y Hi _; simplify_eq/=; [lia|].
    rewrite Forall_lookup in Hx. specialize (Hx _ _ Hi). lia.
Qed.

Lemma bsearch_split (key : A → Z) l target :
  StronglySorted (λ x y, key x <= key y) l →
  ∃ lo hi, l = lo ++ hi ∧ (bsearch key l target).1 = List.length lo ∧
    Forall (λ x, key x < target) lo ∧ Forall (λ x, target <= key x) hi.
Proof.
  intros [n Hsp]%(sorted_split key l target). pose proof Hsp as (Hn & Hlo & Hhi).
  exists (take n l), (drop n l). split_and!.
  - by rewrite take_drop.
  - unfold bsearch. simpl. rewrite length_take, Nat.min_l by done.
    apply bsearch_loop_spec; [done|lia..].
  - apply Forall_lookup. intros i x. rewrite lookup_take_Some. intros [Hi Hl].
    specialize (Hlo _ _ Hi Hl). simpl in Hlo. lia.
  - apply Forall_lookup. intros i x. rewrite lookup_drop. intros Hi.
    specialize (Hhi _ _ Hi ltac:(lia)). simpl in Hhi. lia.
Qed.

Lemma bsearch_found (key : A → Z) lo hi target :
  (bsearch key (lo ++ hi) target).1 = List.length lo →
  (bsearch key (lo ++ hi) target).2
  = match hi with x :: _ => key x =? target | [] => false end.
Proof.
  unfold bsearch. simpl. intros ->. rewrite lookup_app_r, Nat.sub_diag by lia.
  by destruct hi.
Qed.

Lemma insert_at_app (x : A) lo hi : insert_at (List.length lo) x (lo ++ hi) = lo ++ x :: hi.
Proof. unfold insert_at. by rewrite take_app_length, drop_app_length. Qed.
End bsearch_facts.

Module ClusterFacts.
Import Cluster.
Section add.
Context {R : Type}.
Implicit Types (T : t R) (p : clustererPriority R).

(** The buckets: strictly ascending priorities, none empty, rounds that
    have not started over. *)
Record wf (T : t R) : Prop := {
  wf_sorted : StronglySorted (λ p q, priority p < priority q) (priorities T);
  wf_nonempty : Forall (λ p, p_remotes p ≠ []) (priorities T);
  wf_flat : StronglySorted Z.le (remotePriority T);
  wf_parallel : List.length (remotes T) = List.length (remotePriority T);
}.

(** The bucket of a priority. *)
Definition bucket (prio : Z) (ps : list (clustererPriority R)) : list R :=
  List.concat (p_remotes <$> filter (λ p, priority p = prio) ps).

Lemma bucket_app prio l k : bucket prio (l ++ k) = bucket prio l ++ bucket prio k.
Proof. unfold bucket. by rewrite filter_app, fmap_app, List.concat_app. Qed.

Lemma bucket_none prio l : Forall (λ p, priority p ≠ prio) l → bucket prio l = [].
Proof.
  unfold bucket. induction 1 as [|p l Hp _ IH]; [done|].
  by rewrite filter_cons_False.
Qed.

Lemma bucket_cons prio p l :
  bucket prio (p :: l) = (if decide (priority p = prio) then p_remotes p else []) ++ bucket prio l.
Proof. unfold bucket. rewrite filter_cons. by destruct (decide _). Qed.

Lemma sorted_weaken (ps : list (clustererPriority R)) :
  StronglySorted (λ p q, priority p < priority q) ps →
  StronglySorted (λ p q, priority p <= priority q) ps.
Proof.
  induction 1 as [|p ps ? IH Hp]; constructor; [done|].
  eapply Forall_impl; [exact Hp|]. simpl. lia.
Qed.

Lemma StronglySorted_app_insert (P : Z → Z → Prop) (l1 l2 : list Z) x :
  StronglySorted P (l1 ++ l2) → Forall (λ y, P y x) l1 → Forall (P x) l2 →
  StronglySorted P (l1 ++ x :: l2).
Proof.
  induction l1 as [|y l1 IH]; simpl; [by constructor|].
  intros [Hs Hy]%StronglySorted_inv Hlo Hhi.
  apply Forall_cons in Hlo as [Hyx Hlo]. constructor; [by apply IH|].
  rewrite Forall_app, Forall_cons in *. naive_solver.
Qed.

Lemma StronglySorted_priority ps :
  StronglySorted (λ p q, priority p < priority q) ps ↔
  StronglySorted Z.lt (priority (R := R) <$> ps).
Proof.
  induction ps as [|p ps IH]; rewrite ?fmap_cons; split; intros H; try constructor.
  - apply StronglySorted_inv in H as [H _]. by apply IH.
  - apply StronglySorted_inv in H as [_ H]. apply Forall_fmap. exact H.
  - apply StronglySorted_inv in H as [H _]. by apply IH.
  - apply StronglySorted_inv in H as [_ H]. rewrite Forall_fmap in H. exact H.
Qed.

(** One addition, in terms of the split of the buckets. *)
Lemma Add_priorities prio rem T :
  wf T → ∃ lo hi, priorities T = lo ++ hi ∧
    Forall (λ p, priority p < prio) lo ∧
    ((∃ p hi', hi = p :: hi' ∧ priority p = prio ∧
        priorities (Add prio rem T) = lo ++ add_remote rem p :: hi') ∨
     Forall (λ p, prio < priority p) hi ∧
     priorities (Add prio rem T)
     = lo ++ {| priority := prio; p_remotes := [rem]; round := 0 |} :: hi).
Proof.
  intros [Hs _ _ _].
  destruct (bsearch_split priority (priorities T) prio (sorted_weaken _ Hs))
    as (lo & hi & Hp & Hidx & Hlo & Hhi).
  exists lo, hi. split_and!; [done..|].
  assert (priorities (Add prio rem T)
    = let '(idx, ok) := bsearch priority (priorities T) prio in
      if ok then alter (add_remote rem) idx (priorities T)
      else insert_at idx {| priority := prio; p_remotes := [rem]; round := 0 |}
             (priorities T)) as ->.
  { unfold Add. by repeat case_match. }
  rewrite Hp in *. pose proof (bsearch_found priority lo hi prio Hidx) as Hok.
  destruct (bsearch _ _ _) as [idx ok]. simpl in Hidx, Hok. subst idx ok.
  destruct hi as [|p hi].
  { right. split; [done|]. by rewrite insert_at_app. }
  apply Forall_cons in Hhi as [Hpp Hhi]. destruct (Z.eqb_spec (priority p) prio) as [He|Hne].
  - left. exists p, hi. split_and!; [done..|].
    replace (List.length lo) with (List.length lo + 0)%nat by lia.
    by rewrite alter_app_r.
  - right. split; [|by rewrite insert_at_app].
    apply Forall_cons. split; [lia|].
    apply StronglySorted_priority in Hs. rewrite fmap_app, fmap_cons in Hs.
    apply StronglySorted_app_1_r, StronglySorted_inv in Hs as [_ Hs].
    rewrite Forall_fmap in Hs. eapply Forall_impl; [exact Hs|]. simpl. lia.
Qed.

Lemma Add_flat prio rem T :
  wf T → ∃ lo hi rlo rhi, remotePriority T = lo ++ hi ∧ remotes T = rlo ++ rhi ∧
    List.length lo = List.length rlo ∧
    Forall (λ q, q < prio) lo ∧ Forall (Z.le prio) hi ∧
    remotePriority (Add prio rem T) = lo ++ prio :: hi ∧
    remotes (Add prio rem T) = rlo ++ rem :: rhi.
Proof.
  intros [_ _ Hs Hlen].
  destruct (bsearch_split id (remotePriority T) prio Hs)
    as (lo & hi & Hp & Hidx & Hlo & Hhi).
  exists lo, hi, (take (List.length lo) (remotes T)), (drop (List.length lo) (remotes T)).
  assert (List.length lo ≤ List.length (remotes T))%nat.
  { rewrite Hlen, Hp, length_app. lia. }
  split_and!; try done.
  - by rewrite take_drop.
  - by rewrite length_take, Nat.min_l.
  - unfold Add. rewrite Hidx. case_bool_decide as Hl; case_match; simpl.
    + rewrite Hp in Hl. rewrite length_app in Hl.
      destruct hi; [|simpl in Hl; lia]. by rewrite Hp, app_nil_r.
    + by rewrite Hp, insert_at_app.
  - unfold Add. rewrite Hidx. case_bool_decide as Hl; case_match; simpl; [|done].
    rewrite Hp in Hl, Hlen. rewrite length_app in Hl, Hlen.
    destruct hi; [|simpl in Hl; lia]. simpl in Hlen.
    by rewrite take_ge, drop_ge by lia.
Qed.

Lemma Add_wf prio rem T : wf T → wf (Add prio rem T).
Proof.
  intros Hwf. pose proof Hwf as [Hs Hne Hf Hlen].
  destruct (Add_priorities prio rem T Hwf) as (lo & hi & Hp & Hlo & Hadd).
  destruct (Add_flat prio rem T Hwf)
    as (flo & fhi & rlo & rhi & Hfp & Hfr & Hfl & Hflo & Hfhi & Hfp' & Hfr').
  rewrite StronglySorted_priority in Hs. rewrite Hp, fmap_app in Hs. rewrite Hp in Hne.
  apply Forall_app in Hne as [Hne1 Hne2]. split.
  - rewrite StronglySorted_priority.
    destruct Hadd as [(p & hi' & -> & He & ->)|[Hhi ->]]; rewrite fmap_app; [done|].
    apply StronglySorted_app_insert; [done|by apply Forall_fmap..].
  - destruct Hadd as [(p & hi' & -> & He & ->)|[Hhi ->]].
    + apply Forall_cons in Hne2 as [_ Hne2]. apply Forall_app. split; [done|].
      constructor; [|done]. simpl. by destruct (p_remotes p).
    + apply Forall_app. split; [done|]. by constructor.
  - rewrite Hfp'. apply StronglySorted_app_insert; [by rewrite <- Hfp| |done].
    eapply Forall_impl; [exact Hflo|]. simpl. lia.
  - rewrite Hfp, Hfr in Hlen. rewrite Hfp', Hfr', !length_app in *. simpl. lia.
Qed.

Lemma Add_bucket prio rem T q :
  wf T →
  bucket q (priorities (Add prio rem T))
  = bucket q (priorities T) ++ (if decide (prio = q) then [rem] else []).
Proof.
  intros Hwf. pose proof (wf_sorted _ Hwf) as Hs.
  destruct (Add_priorities prio rem T Hwf) as (lo & hi & Hp & Hlo & Hadd).
  rewrite Hp in *. rewrite bucket_app.
  destruct Hadd as [(p & hi' & -> & He & ->)|[Hhi ->]]; rewrite bucket_app, !bucket_cons; simpl.
  - rewrite He. destruct (decide (prio = q)) as [<-|]; [|by rewrite !app_nil_r].
    apply StronglySorted_priority in Hs. rewrite fmap_app, fmap_cons in Hs.
    apply StronglySorted_app_1_r, StronglySorted_inv in Hs as [_ Hs].
    rewrite Forall_fmap in Hs.
    rewrite (bucket_none prio hi'); [by rewrite !app_nil_r, app_assoc|].
    eapply Forall_impl; [exact Hs|]. simpl. lia.
  - destruct (decide (prio = q)) as [<-|]; [|by rewrite app_nil_r].
    rewrite (bucket_none prio hi), !app_nil_r; [done|].
    eapply Forall_impl; [exact Hhi|]. simpl. lia.
Qed.

Lemma Add_remotes prio rem T :
  wf T → remotes (Add prio rem T) ≡ₚ rem :: remotes T.
Proof.
  intros Hwf. destruct (Add_flat prio rem T Hwf)
    as (flo & fhi & rlo & rhi & Hfp & Hfr & Hfl & Hflo & Hfhi & Hfp' & ->).
  rewrite Hfr. symmetry. apply Permutation_middle.
Qed.

(** Adding the remotes of a configuration, one by one. *)
Definition adds (l : list (Z * R)) : t R :=
  foldl (λ T pr, Add pr.1 pr.2 T) NewCluster l.

Lemma NewCluster_wf : wf (@NewCluster R).
Proof. split; try constructor. Qed.

Lemma adds_wf l : wf (adds l).
Proof.
  unfold adds. induction l as [|[q r] l IH] using rev_ind; [apply NewCluster_wf|].
  rewrite foldl_app. by apply Add_wf.
Qed.
End add.
End ClusterFacts.

(** ** The order of visits, and the abstract cluster *)

Module ClusterSpec.
Import Cluster ClusterFacts.

(** The remotes from index [j] on, around the bucket. *)
Fixpoint visit {R} (rems : list R) (j rest : nat) : list R :=
  match rest with
  | O => []
  | S rest =>
      match rems !! (j mod List.length rems)%nat with
      | Some x => x :: visit rems (S j) rest
      | None => []
      end
  end.

Lemma visit_lookup {R} (rems : list R) j rest i :
  rems ≠ [] →
  visit rems j rest !! i
  = if decide (i < rest)%nat then rems !! ((j + i) mod List.length rems)%nat else None.
Proof.
  intros Hne. assert (List.length rems ≠ 0)%nat as Hl by by destruct rems.
  revert j i. induction rest as [|rest IH]; intros j i; cbn [visit].
  { by destruct (decide _); [exfalso; lia|]. }
  destruct (lookup_lt_is_Some_2 rems (j mod List.length rems)%nat) as [x Hx].
  { by apply Nat.mod_upper_bound. }
  rewrite Hx. destruct i as [|i]; simpl.
  - by rewrite Nat.add_0_r, Hx.
  - rewrite IH. replace (S j + i)%nat with (j + S i)%nat by lia.
    by destruct (decide (i < rest)%nat), (decide (S i < S rest)%nat); try lia.
Qed.

Lemma visit_rotate {R} (rems : list R) j :
  visit rems j (List.length rems) = rotate j rems.
Proof.
  destruct (decide (rems = [])) as [->|Hne].
  { unfold rotate. by rewrite drop_nil, take_nil. }
  apply list_eq. intros i. rewrite visit_lookup by done.
  destruct (decide (i < List.length rems)%nat) as [Hi|Hi].
  - rewrite lookup_rotate_r by done. f_equal.
    unfold rotate_nat_add. rewrite <- Nat2Z.inj_add, <- Nat2Z.inj_mod. lia.
  - symmetry. apply lookup_ge_None. rewrite length_rotate. lia.
Qed.

(** The order a bucket is tried in: its only remote, or from the one after
    the last request's first one. *)
Definition order {R} (p : clustererPriority R) : list R :=
  rotate (Z.to_nat (if bool_decide (1 < List.length (p_remotes p))%nat
                    then round p + 2 else 1)) (p_remotes p).

Definition orders {R} (ps : list (clustererPriority R)) : list R :=
  List.concat (order <$> ps).

(** Rounds far from wrapping around. *)
Definition young {R} (p : clustererPriority R) : Prop :=
  0 <= round p ∧ round p + 2 + Z.of_nat (List.length (p_remotes p)) < two63.

Lemma order_perm {R} (p : clustererPriority R) : order p ≡ₚ p_remotes p.
Proof.
  unfold order, rotate. set (n := (_ mod _)%nat).
  rewrite Permutation_app_comm. by rewrite take_drop.
Qed.

Section spec.
Context {R : Type} `{J : Jrpc}.

(** What the cluster sends, given the replies in the order of visits: the
    first result, or the first error that is the user's; an answer without
    a result counts for nothing; the last error is sent, but the data of
    an old head is better than nothing. *)
Fixpoint first_answer (answers : list reply) : list reply :=
  match answers with
  | [] => []
  | (v, err) :: answers =>
      match err with
      | Some e =>
          if IsUserError (Some e) then [(VNil, Some e)]
          else match answers with
               | [] => if errors_is e ErrHeadOld then [(v, None)] else [(VNil, Some e)]
               | _ => first_answer answers
               end
      | None => match v with VNil => first_answer answers | _ => [(v, None)] end
      end
  end.

(** An answer that ends the request before the last remote. *)
Definition decisive (x : reply) : bool :=
  match x.2 with
  | Some e => IsUserError (Some e)
  | None => match x.1 with VNil => false | _ => true end
  end.

Lemma first_answer_app l k :
  Forall (λ x, decisive x = false) l → k ≠ [] → first_answer (l ++ k) = first_answer k.
Proof.
  intros Hl Hk. induction Hl as [|[v [e|]] l Hx _ IH]; [done|..];
    unfold decisive in Hx; simpl in *.
  - rewrite Hx, IH. by destruct l, k.
  - by destruct v.
Qed.

Lemma first_answer_decisive x k :
  decisive x = true →
  first_answer (x :: k) = [match x with (_, Some e) => (VNil, Some e) | x => x end].
Proof. unfold decisive. destruct x as [v [e|]]; simpl; [by intros ->|]. by destruct v. Qed.

Lemma first_answer_indecisive l x :
  Forall (λ x, decisive x = false) (l ++ [x]) →
  first_answer (l ++ [x])
  = match x with
    | (v, Some e) => if errors_is e ErrHeadOld then [(v, None)] else [(VNil, Some e)]
    | (_, None) => []
    end.
Proof.
  intros [Hl Hx]%Forall_app. rewrite first_answer_app by done.
  rewrite Forall_singleton in Hx. unfold decisive in Hx. destruct x as [v [e|]]; simpl in *; [by rewrite Hx|].
  by destruct v.
Qed.
End spec.

Lemma first_answer_app_decisive `{J : Jrpc} l k :
  Exists (λ x, decisive x = true) l → first_answer (l ++ k) = first_answer l.
Proof.
  induction l as [|[v [e|]] l IH]; intros H; [by apply Exists_nil in H|..];
    apply Exists_cons in H as [H|H]; unfold decisive in H; simpl in *.
  - by rewrite H.
  - rewrite IH by done. destruct (IsUserError _); [done|].
    by destruct l; [apply Exists_nil in H|].
  - by destruct v.
  - rewrite IH by done. done.
Qed.

Section refine.
Context {R W : Type} `{J : Jrpc} `{L : !Lens (t R) W}.
Context (Handler : R → handler W) (r : request) (ans : R → reply).
(** Every remote replies once, with an answer of its own, and leaves the
    cluster's own state alone. *)
Hypothesis ans_spec : ∀ rem w, ∃ w',
  Handler rem r w = (Return [ans rem], w') ∧ lget w' = lget w.

(** The remote a turn of the bucket asks. *)
Lemma index_visit (rems : list R) j rem :
  0 <= j → rems ≠ [] → rems !! (Z.to_nat j mod List.length rems)%nat = Some rem →
  index rems (Z.rem j (Z.of_nat (List.length rems))) = Return rem.
Proof.
  intros Hj Hne Hrem. assert (0 < List.length rems)%nat by (destruct rems; simpl; [done|lia]).
  unfold index. rewrite Z.rem_mod_nonneg by lia.
  pose proof (Z.mod_pos_bound j (Z.of_nat (List.length rems)) ltac:(lia)).
  destruct (Z.ltb_spec (j mod Z.of_nat (List.length rems)) 0); [lia|].
  rewrite <- (Z2Nat.id j), <- Nat2Z.inj_mod, Nat2Z.id by lia. by rewrite Hrem.
Qed.

Lemma visit_nil (rems : list R) i rest : rems ≠ [] → ans <$> visit rems i rest = [] → rest = O.
Proof.
  intros Hne. destruct rest; [done|]. cbn [visit].
  destruct (lookup_lt_is_Some_2 rems (i mod List.length rems)%nat) as [y ->]; [|done].
  apply Nat.mod_upper_bound. by destruct rems.
Qed.

(** A bucket, in terms of the replies in the order it is tried in. *)
Lemma try_bucket_spec lb rems rest j icept w :
  0 <= j → j + Z.of_nat rest < two63 → rems ≠ [] →
  let l := ans <$> visit rems (Z.to_nat (j + 1)) rest in
  ∃ w', lget w' = lget w ∧
    (Forall (λ x, decisive x = false) l ∧ (lb = false ∨ rest = O ∨ first_answer l = []) ∧
      (∃ i', try_bucket Handler r lb rems rest j icept w = (Return (inr i'), w')) ∨
     (Exists (λ x, decisive x = true) l ∨ lb = true) ∧ first_answer l ≠ [] ∧
      try_bucket Handler r lb rems rest j icept w = (Return (inl (first_answer l)), w')).
Proof.
  intros Hj Hr Hne. revert j icept w Hj Hr.
  induction rest as [|rest IH]; intros j icept w Hj Hr.
  { exists w. split; [done|]. left. simpl. split_and!; eauto. }
  assert (0 < List.length rems)%nat as Hlen by (destruct rems; simpl; [done|lia]).
  destruct (lookup_lt_is_Some_2 rems (Z.to_nat (j + 1) mod List.length rems)%nat) as [rem Hrem].
  { apply Nat.mod_upper_bound. lia. }
  cbn [try_bucket visit]. rewrite Hrem, i64_small by go_lia.
  pose proof (index_visit rems (j + 1) rem ltac:(lia) Hne Hrem) as Hidx.
  destruct (ans_spec rem w) as (w1 & Hh & Hw1).
  assert (∀ B (k : list reply → prog W B),
    (rem ← lift (index rems (Z.rem (j + 1) (Z.of_nat (List.length rems))));
     sends ← Handler rem r; k sends) w = k [ans rem] w1) as Hstep.
  { intros B k. unfold lift, mbind, prog_bind. by rewrite Hidx, Hh. }
  rewrite Hstep. clear Hstep. unfold intercept. cbn [last default].
  replace (S (Z.to_nat (j + 1))) with (Z.to_nat (j + 1 + 1)) by lia.
  destruct (IH (j + 1) (ans rem) w1 ltac:(lia) ltac:(lia)) as (w' & Hw' & IHr).
  rewrite fmap_cons. cbv zeta. set (l := ans <$> visit rems (Z.to_nat (j + 1 + 1)) rest) in *.
  assert (l = [] → rest = O) as Hl0 by by apply visit_nil.
  destruct (ans rem) as [v [e|]] eqn:Ha.
  - destruct (IsUserError (Some e)) eqn:Hu.
    { exists w1. split; [done|]. right. split_and!; [left; by left|by simpl; rewrite Hu|].
      simpl. by rewrite Hu. }
    destruct (decide (rest = O)) as [->|Hrest].
    + clear IHr. subst l. destruct lb; simpl.
      * exists w1. split; [done|]. right. rewrite Hu. simpl.
        split_and!; [by right|by destruct (errors_is _ _)|by destruct (errors_is _ _)].
      * exists w1. split; [done|]. left.
        split_and!; [by apply Forall_singleton|by left|rewrite Hu; by eexists].
    + rewrite (bool_decide_false (rest = O)) by done. rewrite orb_true_r.
      assert (first_answer (@cons reply (v, Some e) l) = first_answer l) as Hfa.
      { simpl. rewrite Hu. destruct l eqn:El; [by specialize (Hl0 eq_refl)|done]. }
      exists w'. rewrite Hfa. split; [congruence|]. cbn [id fst snd].
      rewrite Hu. unfold decisive in *.
      destruct IHr as [(Hall & Hc & Ht)|(Hc & Hf & Ht)]; [left|right];
        split_and!; try done; [by constructor|naive_solver|].
      destruct Hc; [left; by right|by right].
  - destruct v; try (exists w1; split; [done|]; right; split_and!;
      [left; by left|done|done]).
    exists w'. split; [congruence|].
    destruct IHr as [(Hall & Hc & Ht)|(Hc & Hf & Ht)]; [left|right];
      split_and!; try done; [by constructor|naive_solver|].
    destruct Hc; [left; by right|by right].
Qed.

(** The start of a bucket's round. *)
Lemma next_round_spec i p w :
  priorities (lget w) !! i = Some p → young p →
  ∃ j w1, next_round i p w = (Return j, w1) ∧ 0 <= j ∧
    j + Z.of_nat (List.length (p_remotes p)) < two63 ∧
    order p = rotate (Z.to_nat (j + 1)) (p_remotes p) ∧
    (∀ k, k ≠ i → priorities (lget w1) !! k = priorities (lget w) !! k) ∧
    (1 < List.length (p_remotes p) → priorities (lget w1) !! i = Some (bump p))%nat.
Proof.
  intros Hi [H0 Hy]. unfold next_round, order. case_bool_decide as Hl.
  - exists (round p + 1). eexists. split.
    { unfold read, write, mbind, prog_bind. rewrite Hi, i64_small by go_lia. reflexivity. }
    split_and!; [lia|lia| | |].
    + f_equal. lia.
    + intros k Hk. rewrite lget_lput. simpl. by rewrite list_lookup_alter_ne by done.
    + intros _. rewrite lget_lput. simpl. by rewrite list_lookup_alter_eq, Hi.
  - exists 0, w. split_and!; try done. unfold two63 in *. lia.
Qed.

Lemma try_buckets_spec ps i icept w :
  (∀ k p, ps !! k = Some p → priorities (lget w) !! (i + k)%nat = Some p) →
  Forall young ps → Forall (λ p, p_remotes p ≠ []) ps →
  ∃ w', try_buckets Handler r i ps icept w
        = (Return (first_answer (ans <$> orders ps)), w') ∧
    (∀ k, (k < i)%nat → priorities (lget w') !! k = priorities (lget w) !! k) ∧
    (∀ p, ps !! 0%nat = Some p → (1 < List.length (p_remotes p))%nat →
       priorities (lget w') !! i = Some (bump p)).
Proof.
  revert i icept w. induction ps as [|p ps IH]; intros i icept w Hps Hy Hne.
  { by exists w. }
  apply Forall_cons in Hy as [Hyp Hy]. apply Forall_cons in Hne as [Hnp Hne].
  assert (priorities (lget w) !! i = Some p) as Hip.
  { rewrite <- (Nat.add_0_r i). by apply Hps. }
  destruct (next_round_spec i p w Hip Hyp) as (j & w1 & Hn & Hj & Hj' & Ho & Hk & Hb).
  cbn [try_buckets]. rewrite (prog_bind_return _ _ _ _ _ Hn).
  unfold orders. rewrite fmap_cons. cbn [List.concat]. fold (orders ps).
  rewrite fmap_app, Ho, <- visit_rotate.
  destruct (try_bucket_spec (bool_decide (ps = [])) (p_remotes p) _ j icept w1 Hj Hj' Hnp)
    as (w2 & Hw2 & Hcase).
  set (l := ans <$> visit (p_remotes p) (Z.to_nat (j + 1)) (List.length (p_remotes p))) in *.
  destruct Hcase as [(Hall & Hlast & i' & Ht)|(Hc & Hf & Ht)];
    rewrite (prog_bind_return _ _ _ _ _ Ht).
  - destruct (IH (S i) i' w2) as (w' & Hr & Hk' & _); [|done|done|].
    { intros k q Hq. rewrite Hw2, Hk by lia.
      replace (S i + k)%nat with (i + S k)%nat by lia. by apply Hps. }
    exists w'. split_and!.
    2: { intros k Hki. rewrite Hk', Hw2, Hk by lia. done. }
    2: { intros q [= <-] Hlen. rewrite Hk', Hw2 by lia. by apply Hb. }
    rewrite Hr. f_equal. f_equal.
    destruct ps as [|q ps].
    + destruct Hlast as [?|[Hl|Hl]]; [done| |].
      * exfalso. by destruct (p_remotes p).
      * rewrite app_nil_r. by rewrite Hl.
    + symmetry. apply first_answer_app; [done|].
      apply Forall_cons in Hne as [Hnq _]. unfold orders. rewrite fmap_cons. cbn [List.concat].
      rewrite fmap_app. intros [He _]%app_nil. apply fmap_nil_inv in He.
      pose proof (order_perm q) as Hp. rewrite He in Hp.
      by apply Permutation_nil_l in Hp.
  - exists w2. split_and!.
    2: { intros k Hki. by rewrite Hw2, Hk by lia. }
    2: { intros q [= <-] Hlen. rewrite Hw2. by apply Hb. }
    f_equal. f_equal. destruct Hc as [Hex|Hlb].
    + by rewrite first_answer_app_decisive.
    + apply bool_decide_eq_true in Hlb as ->. simpl. by rewrite app_nil_r.
Qed.

Lemma ServeRPC_spec w :
  wf (lget w) → Forall young (priorities (lget w)) →
  ∃ w', ServeRPC Handler r w
        = (Return (first_answer (ans <$> orders (priorities (lget w)))), w') ∧
    ∀ p, priorities (lget w) !! 0%nat = Some p → (1 < List.length (p_remotes p))%nat →
      priorities (lget w') !! 0%nat = Some (bump p).
Proof.
  intros [_ Hne _ _] Hy. unfold ServeRPC. unfold read, mbind, prog_bind.
  destruct (try_buckets_spec (priorities (lget w)) 0 icept0 w) as (w' & H1 & _ & H2);
    [done..|]. by exists w'.
Qed.
End refine.
End ClusterSpec.

(** ** Properties *)

Module ClusterProps.
Import Cluster ClusterFacts ClusterSpec.

Lemma rotate_succ {R} (l : list R) k : rotate (S k) l = rotate 1 (rotate k l).
Proof.
  destruct (decide (l = [])) as [->|Hne].
  { unfold rotate. by rewrite !drop_nil, !take_nil. }
  assert (List.length l ≠ 0)%nat as Hl by by destruct l.
  apply list_eq. intros i. destruct (decide (i < List.length l)%nat) as [Hi|Hi].
  - rewrite !lookup_rotate_r by (rewrite ?length_rotate; done). rewrite length_rotate.
    unfold rotate_nat_add. rewrite lookup_rotate_r.
    2: { pose proof (Z.mod_pos_bound (Z.of_nat 1 + Z.of_nat i) (Z.of_nat (List.length l))). lia. }
    unfold rotate_nat_add. f_equal. f_equal.
    rewrite Z2Nat.id by (apply Z.mod_pos_bound; lia).
    rewrite Zplus_mod_idemp_r. f_equal. lia.
  - rewrite !lookup_ge_None_2; [done|rewrite !length_rotate; lia..].
Qed.

(** adding remotes one by one, in any order, gives buckets of strictly
    ascending priorities, the bucket of a priority holding its remotes in
    the order they were added; the flat list of remotes has each of them,
    by ascending priority. *)
Theorem cluster_adds {R} (l : list (Z * R)) :
  let T := adds l in
  wf T ∧ remotes T ≡ₚ l.*2 ∧
  ∀ q, bucket q (priorities T) = (filter (λ pr, pr.1 = q) l).*2.
Proof.
  intros T. split; [apply adds_wf|]. subst T. unfold adds.
  induction l as [|[q r] l [IH1 IH2]] using rev_ind; [done|].
  pose proof (adds_wf l) as Hwf. unfold adds in Hwf.
  rewrite foldl_app. cbn [foldl fst snd]. split.
  - rewrite Add_remotes, IH1, fmap_app by done. simpl.
    by rewrite <- Permutation_cons_append.
  - intros q'. rewrite Add_bucket, IH2, filter_app, fmap_app by done. f_equal.
    rewrite filter_cons. simpl. by destruct (decide _).
Qed.

Section serve.
Context {R W : Type} `{J : Jrpc} `{L : !Lens (t R) W}.
Context (Handler : R → handler W) (r : request) (ans : R → reply).
Hypothesis ans_spec : ∀ rem w, ∃ w',
  Handler rem r w = (Return [ans rem], w') ∧ lget w' = lget w.

(** C10: a cluster whose remotes reply implements the specification: the
    reply is the first that decides, going through the buckets by priority
    and around each bucket, and otherwise the last one. *)
Theorem cluster_refines w :
  wf (lget w) → Forall young (priorities (lget w)) →
  ∃ w', ServeRPC Handler r w
        = (Return (first_answer (ans <$> orders (priorities (lget w)))), w').
Proof.
  intros Hwf Hy. destruct (ServeRPC_spec Handler r ans ans_spec w Hwf Hy) as (w' & H & _).
  by exists w'.
Qed.

Definition success (x : reply) : Prop := x.2 = None ∧ x.1 ≠ VNil.
#[local] Instance success_dec x : Decision (success x).
Proof.
  destruct x as [v [e|]]; [by right; intros []|].
  destruct v; [right|left..]; [by intros [_ H]|by split..].
Defined.

Lemma first_success (rems : list R) g :
  (∀ rem, IsUserError (ans rem).2 = false) → g ∈ rems → success (ans g) →
  ∃ l1 h l2, rems = l1 ++ h :: l2 ∧ Forall (λ x, ¬ success (ans x)) l1 ∧
    success (ans h) ∧ first_answer (ans <$> rems) = [ans h].
Proof.
  intros Hu Hg Hs.
  assert (∀ x, decisive (ans x) = true ↔ success (ans x)) as Hd.
  { intros x. specialize (Hu x). unfold decisive, success.
    destruct (ans x) as [v [e|]]; simpl in *.
    { rewrite Hu. by split; [|intros []]. }
    destruct v; split; try done. by intros []. }
  induction rems as [|h rems IH]; [by apply not_elem_of_nil in Hg|].
  destruct (decide (success (ans h))) as [Hh|Hh].
  - exists [], h, rems. split_and!; [done|constructor|done|].
    rewrite fmap_cons, first_answer_decisive by by apply Hd.
    destruct Hh as [Hn _]. destruct (ans h) as [v [e|]]; [done|done].
  - apply elem_of_cons in Hg as [->|Hg]; [done|].
    destruct (IH Hg) as (l1 & h' & l2 & -> & Hl1 & Hh' & Hf).
    exists (h :: l1), h', l2. split_and!; [done|by constructor|done|].
    rewrite <- Hf, fmap_cons. apply (first_answer_app [ans h]).
    + apply Forall_singleton. specialize (Hd h). destruct (decisive _); naive_solver.
    + rewrite fmap_app. by destruct (ans <$> l1).
Qed.

(** The first success is found in the first part of the list, if that has
    one. *)
Lemma first_success_app (o k : list R) x :
  (∀ rem, IsUserError (ans rem).2 = false) → x ∈ o → success (ans x) →
  ∃ h, h ∈ o ∧ success (ans h) ∧ first_answer (ans <$> o ++ k) = [ans h].
Proof.
  intros Hu Hx Hsx.
  destruct (first_success (o ++ k) x Hu) as (k1 & h & k2 & Heq & Hk1 & Hsh & Hf);
    [by apply elem_of_app; left|done|].
  exists h. split_and!; [|done|done]. rewrite Forall_forall in Hk1.
  apply app_eq_inv in Heq as [(l & -> & Hl)|(l & -> & _)].
  - destruct l as [|h' l].
    + rewrite app_nil_r in Hx. by destruct (Hk1 x Hx).
    + injection Hl as <- _. set_solver.
  - destruct (Hk1 x); [set_solver|done].
Qed.

Lemma no_success_indecisive x :
  IsUserError (ans x).2 = false → ¬ success (ans x) → decisive (ans x) = false.
Proof.
  unfold decisive, success. destruct (ans x) as [v [e|]]; simpl; [done|].
  intros _ Hx. destruct v; try done; by destruct Hx.
Qed.

Lemma first_bucket (ps : list (clustererPriority R)) g pg :
  (∀ rem, IsUserError (ans rem).2 = false) →
  pg ∈ ps → g ∈ p_remotes pg → success (ans g) →
  ∃ l1 p l2 h, ps = l1 ++ p :: l2 ∧ h ∈ p_remotes p ∧ success (ans h) ∧
    first_answer (ans <$> orders ps) = [ans h] ∧
    Forall (λ q, Forall (λ x, ¬ success (ans x)) (p_remotes q)) l1.
Proof.
  intros Hu Hin Hg Hs. induction ps as [|p ps IH]; [by apply not_elem_of_nil in Hin|].
  unfold orders. rewrite fmap_cons. cbn [List.concat]. fold (orders ps).
  destruct (decide (Exists (λ x, success (ans x)) (p_remotes p))) as [He|He].
  - apply Exists_exists in He as (x & Hx & Hsx). rewrite <- order_perm in Hx.
    destruct (first_success_app (order p) (orders ps) x Hu Hx Hsx) as (h & Hh & Hsh & Hf).
    rewrite order_perm in Hh. exists [], p, ps, h.
    split_and!; [done|done|done|done|constructor].
  - assert (Forall (λ x, ¬ success (ans x)) (p_remotes p)) as Hnone
      by by apply Forall_Exists_neg.
    apply elem_of_cons in Hin as [->|Hin].
    { exfalso. apply He, Exists_exists. by exists g. }
    destruct (IH Hin) as (l1 & p' & l2 & h & -> & Hh & Hsh & Hf & Hl1).
    exists (p :: l1), p', l2, h. split_and!; [done|done|done| |by constructor].
    rewrite fmap_app, first_answer_app; [done| |by intros E; rewrite E in Hf].
    apply Forall_fmap. rewrite <- (order_perm p) in Hnone.
    eapply Forall_impl; [exact Hnone|]. intros x Hx. by apply no_success_indecisive.
Qed.

(** C11: as long as some remote of the cluster gives a result, and none
    blames the user, the client gets a result, of a remote whose priority
    no remote with a result is before. *)
Theorem cluster_available w g pg :
  wf (lget w) → Forall young (priorities (lget w)) →
  (∀ rem, IsUserError (ans rem).2 = false) →
  pg ∈ priorities (lget w) → g ∈ p_remotes pg → success (ans g) →
  ∃ p h w', ServeRPC Handler r w = (Return [ans h], w') ∧
    success (ans h) ∧ p ∈ priorities (lget w) ∧ h ∈ p_remotes p ∧
    ∀ q x, q ∈ priorities (lget w) → priority q < priority p → x ∈ p_remotes q →
      ¬ success (ans x).
Proof.
  intros Hwf Hy Hu Hpg Hg Hs.
  destruct (ServeRPC_spec Handler r ans ans_spec w Hwf Hy) as (w' & H & _).
  pose proof (wf_sorted _ Hwf) as Hps. rename Hpg into Hin. clear Hwf Hy.
  set (ps := priorities (lget w)) in *. clearbody ps.
  destruct (first_bucket ps g pg Hu Hin Hg Hs)
    as (l1 & p & l2 & h & -> & Hh & Hsh & Hf & Hl1).
  exists p, h, w'. rewrite Hf in H. split_and!; [done|done|set_solver|done|].
  intros q x Hq Hlt Hx. rewrite Forall_forall in Hl1.
  apply elem_of_app in Hq as [Hq|Hq].
  - specialize (Hl1 q Hq). rewrite Forall_forall in Hl1. by apply Hl1.
  - exfalso. apply StronglySorted_app_1_r, StronglySorted_inv in Hps as [_ Hps].
    rewrite Forall_forall in Hps. apply elem_of_cons in Hq as [->|Hq]; [lia|].
    specialize (Hps q Hq). simpl in Hps. lia.
Qed.

(** a bucket of several remotes is tried in an order that moves on by
    one remote with every request. *)
Theorem cluster_round_robin w p :
  wf (lget w) → Forall young (priorities (lget w)) →
  priorities (lget w) !! 0%nat = Some p → (1 < List.length (p_remotes p))%nat →
  ∃ l w' p', ServeRPC Handler r w = (Return l, w') ∧
    priorities (lget w') !! 0%nat = Some p' ∧
    order p ≡ₚ p_remotes p ∧ order p' = rotate 1 (order p).
Proof.
  intros Hwf Hy Hp Hl.
  destruct (ServeRPC_spec Handler r ans ans_spec w Hwf Hy) as (w' & H & Hb).
  eexists _, w', (bump p). split_and!; [done|by apply Hb|apply order_perm|].
  rewrite Forall_lookup in Hy. destruct (Hy _ _ Hp) as [H0 Hm].
  unfold order, bump. cbn [p_remotes round].
  rewrite !bool_decide_true by done. rewrite i64_small by go_lia.
  rewrite <- rotate_succ. f_equal. lia.
Qed.
End serve.
End ClusterProps.

Module ClusterWitness.
Import Cluster ClusterFacts ClusterSpec ClusterProps StdJrpc.

(** Three remotes: the first two share a priority; only the second is up. *)
Definition T0 : t nat := adds [(1, 0%nat); (1, 1%nat); (2, 2%nat)].

Definition ans0 (rem : nat) : reply :=
  if bool_decide (rem = 1%nat) then (VUint64 7, None)
  else (VNil, Some (ESentinel ErrHeadOld)).

Definition Handler0 : nat → handler (t nat) := λ rem _, send (ans0 rem).

Lemma Handler0_spec r : ∀ rem (w : t nat), ∃ w',
  Handler0 rem r w = (Return [ans0 rem], w') ∧ lget w' = lget w.
Proof. intros rem w. by exists w. Qed.

Definition r0 : request := {| r_ctx := []; r_method := "eth_blockNumber";
  r_params := None; r_peer := "" |}.

Lemma T0_wf : wf T0.
Proof. apply adds_wf. Qed.

Lemma T0_young : Forall young (priorities T0).
Proof. repeat constructor; vm_compute; congruence. Qed.

Lemma cluster_refines_witness :
  (ServeRPC Handler0 r0 T0).1 = Return [(VUint64 7, None)].
Proof.
  destruct (cluster_refines Handler0 r0 ans0 (Handler0_spec r0) T0 T0_wf T0_young) as (w' & H).
  rewrite H. vm_compute. reflexivity.
Defined.

Lemma cluster_available_witness :
  ∃ h w', ServeRPC Handler0 r0 T0 = (Return [ans0 h], w') ∧ success (ans0 h).
Proof.
  destruct (cluster_available Handler0 r0 ans0 (Handler0_spec r0) T0 1%nat
    {| priority := 1; p_remotes := [0%nat; 1%nat]; round := 0 |} T0_wf T0_young)
    as (p & h & w' & H & Hs & _).
  - intros rem. unfold ans0. by destruct (bool_decide _).
  - left.
  - right. left.
  - by split.
  - exists h, w'. split; [exact H|exact Hs].
Defined.

Lemma cluster_round_robin_witness :
  ∃ l w' p', ServeRPC Handler0 r0 T0 = (Return l, w') ∧
    priorities w' !! 0%nat = Some p' ∧ order p' = [1%nat; 0%nat].
Proof.
  destruct (cluster_round_robin Handler0 r0 ans0 (Handler0_spec r0) T0
    {| priority := 1; p_remotes := [0%nat; 1%nat]; round := 0 |} T0_wf T0_young)
    as (l & w' & p' & H & Hp & _ & Ho).
  - vm_compute. reflexivity.
  - vm_compute. constructor.
  - exists l, w', p'. split; [exact H|]. split; [exact Hp|]. rewrite Ho. vm_compute. reflexivity.
Defined.
End ClusterWitness.
