(* ===== verification/HeadStore.v ===== *)
(** * Chain heads: [lib/stores/headstore], [redihead], [headstoreProvider]

    The interface of a head store, the subscriptions both implementations
    keep, the in-memory implementation and the one on a redis stream.  A
    channel is a buffer of one element, since every subscription makes its own
    with capacity 1; a head is the number of a block. *)
From S2P Require Import Prelude Errors Config Rpc.

(** ** Subscriptions *)

Module Subs.

Record chan := {
  buffer : option Z;
  chan_closed : bool;
}.

Definition make_chan : chan := {| buffer := None; chan_closed := false |}.

(** [select { case sub <- head: default: }]: a full buffer keeps what it
    has. *)
Definition try_send (v : Z) (c : chan) : chan :=
  match buffer c with
  | None => {| buffer := Some v; chan_closed := chan_closed c |}
  | Some _ => c
  end.

(** The maps of the source; channels that were closed are kept apart, for
    the reader who still has one. *)
Record t := {
  subs : gmap string (gmap Z chan);
  next : Z;
  gone : gmap (string * Z) chan;
}.

Definition empty : t := {| subs := ∅; next := 0; gone := ∅ |}.

(** The loop over a chain's subscribers.  Its order is that of a map, and
    does not matter: every turn is about another channel. *)
Definition notify (chain : string) (v : Z) (T : t) : t :=
  {| subs := alter (fmap (try_send v)) chain (subs T); next := next T; gone := gone T |}.

(** [On]: the subscription's number. *)
Definition On (chain : string) (T : t) : Z * t :=
  (next T,
   {| subs := <[chain := <[next T := make_chan]> (default ∅ (subs T !! chain))]> (subs T);
      next := next T + 1; gone := gone T |}).

(** The function [On] returns. *)
Definition Off (chain : string) (id : Z) (T : t) : t :=
  match default ∅ (subs T !! chain) !! id with
  | Some c =>
      {| subs := alter (delete id) chain (subs T); next := next T;
         gone := <[(chain, id) := {| buffer := buffer c; chan_closed := true |}]> (gone T) |}
  | None => T
  end.

(** What a receiver finds: a head, or nothing yet. *)
Definition recv (chain : string) (id : Z) (T : t) : option Z * t :=
  match default ∅ (subs T !! chain) !! id with
  | Some c =>
      (buffer c,
       {| subs := alter (insert id {| buffer := None; chan_closed := chan_closed c |})
                    chain (subs T);
          next := next T; gone := gone T |})
  | None => (None, T)
  end.

Definition chan_of (T : t) (chain : string) (id : Z) : option chan :=
  default ∅ (subs T !! chain) !! id.

Lemma chan_of_notify T chain v chain' id :
  chan_of (notify chain v T) chain' id
  = if decide (chain' = chain) then try_send v <$> chan_of T chain' id else chan_of T chain' id.
Proof.
  unfold chan_of, notify. simpl. destruct (decide (chain' = chain)) as [->|Hne].
  - rewrite lookup_alter_eq. destruct (subs T !! chain); simpl; [|by rewrite lookup_empty].
    by rewrite lookup_fmap.
  - by rewrite lookup_alter_ne.
Qed.

Lemma chan_of_recv T chain id chain' id' :
  chan_of (recv chain id T).2 chain' id'
  = if decide (chain' = chain ∧ id' = id)
    then (λ c, {| buffer := None; chan_closed := chan_closed c |}) <$> chan_of T chain' id'
    else chan_of T chain' id'.
Proof.
  unfold chan_of, recv. destruct (subs T !! chain) as [m|] eqn:Hm; simpl.
  - destruct (m !! id) as [c|] eqn:Hc; simpl.
    + destruct (decide (chain' = chain)) as [->|Hne].
      * rewrite lookup_alter_eq, Hm. simpl. destruct (decide (id' = id)) as [->|Hni].
        -- rewrite decide_True, lookup_insert_eq, Hc by done. done.
        -- rewrite decide_False, lookup_insert_ne by naive_solver. done.
      * rewrite lookup_alter_ne, decide_False by naive_solver. done.
    + case_decide as Hd; [|done]. destruct Hd as [-> ->]. rewrite Hm; simpl; by rewrite Hc.
  - rewrite lookup_empty. simpl. case_decide as Hd; [|done].
    destruct Hd as [-> ->]. rewrite Hm. simpl. by rewrite lookup_empty.
Qed.
End Subs.

(** ** The interface *)

(** [headstore.Store], the part that handlers call: [Get] and [Put]; [On] is
    used by the subscription service alone. *)
Class HeadStore (W : Type) := {
  hs_Get : Chain → prog W (res goerr Z);
  hs_Put : Chain → Z → prog W (res goerr Z);
}.

(** What a reader of the store may rely on: there is a head per chain name,
    and [Get] returns it, changing nothing. *)
Class HeadStoreSpec W `{H : HeadStore W} := {
  hs_head : W → string → Z;
  hs_Get_spec c w : hs_Get c w = (Return (Ok (hs_head w (Chain_Name c))), w);
}.

(** ** [lib/stores/headstore/atomic.go] *)

Module Atomic.

(** [None] is the nil map. *)
Record t := {
  heads : option (gmap string Z);
  subs : Subs.t;
}.

Definition NewAtomic : t := {| heads := None; subs := Subs.empty |}.

(** [T.heads[chain.Name]], zero if there is none. *)
Definition head (T : t) (chain : string) : Z := default 0 (heads T ≫= λ m, m !! chain).

Section ops.
Context {W : Type} `{!Lens t W}.

Definition Get (chain : Chain) : prog W (res goerr Z) :=
  T ← read; mret (Ok (head T (Chain_Name chain))).

Definition Put (chain : Chain) (hd : Z) : prog W (res goerr Z) :=
  T ← read;
  let cur := head T (Chain_Name chain) in
  if hd <=? cur then mret (Ok cur)
  else
    _ ← write {| heads := heads T; subs := Subs.notify (Chain_Name chain) hd (subs T) |};
    match heads T with
    | None => panic "assignment to entry in nil map"
    | Some m =>
        _ ← modify (λ T, {| heads := Some (<[Chain_Name chain := hd]> m); subs := subs T |});
        mret (Ok cur)
    end.

Definition On (chain : Chain) : prog W Z :=
  T ← read;
  let '(id, s) := Subs.On (Chain_Name chain) (subs T) in
  _ ← write {| heads := heads T; subs := s |};
  mret id.

Definition unsubscribe (chain : Chain) (id : Z) : prog W () :=
  modify (λ T, {| heads := heads T; subs := Subs.Off (Chain_Name chain) id (subs T) |}).

#[export] Instance store : HeadStore W := {| hs_Get := Get; hs_Put := Put |}.
#[export] Instance store_spec : HeadStoreSpec W.
Proof.
  by refine {| hs_head := λ w c, head (lget w) c |}.
Defined.
End ops.
End Atomic.

(** ** [svc/node/stores/headstores/redihead/module.go] *)

Module Redihead.

Record Head := {
  Value : Z;
  Head_Chain : string;
}.

(** The redis stream, the log of every head put by any node, is apart from
    the state of the process. *)
Definition stream : Type := list Head.

Record t := {
  heads : gmap string Z;
  subs : Subs.t;
}.

Definition New : t := {| heads := ∅; subs := Subs.empty |}.

Definition head (T : t) (chain : string) : Z := default 0 (heads T !! chain).

Definition setHead (chainName : string) (hd : Z) (T : t) : t :=
  let cur := head T chainName in
  if hd <=? cur then T
  else {| heads := <[chainName := hd]> (heads T); subs := Subs.notify chainName hd (subs T) |}.

Section ops.
Context {W : Type} `{!Lens t W}.
(** [stream.Add] of the gtrs library. *)
Context (Add : Head → prog W (option goerr)).

Definition Get (chain : Chain) : prog W (res goerr Z) :=
  T ← read; mret (Ok (head T (Chain_Name chain))).

Definition Put (chain : Chain) (hd : Z) : prog W (res goerr Z) :=
  was ← Get chain;
  match was with
  | Err e => mret (Err e)
  | Ok was =>
      err ← Add {| Value := hd; Head_Chain := Chain_Name chain |};
      mret match err with Some e => Err e | None => Ok was end
  end.

Definition On (chain : Chain) : prog W Z :=
  T ← read;
  let '(id, s) := Subs.On (Chain_Name chain) (subs T) in
  _ ← write {| heads := heads T; subs := s |};
  mret id.

Definition unsubscribe (chain : Chain) (id : Z) : prog W () :=
  modify (λ T, {| heads := heads T; subs := Subs.Off (Chain_Name chain) id (subs T) |}).

#[local] Instance store : HeadStore W := {| hs_Get := Get; hs_Put := Put |}.
#[local] Instance store_spec : HeadStoreSpec W.
Proof.
  by refine {| hs_head := λ w c, head (lget w) c |}.
Defined.
End ops.

(** [run]: the newest message of the stream, if there is one, and the
    messages consumed after it. *)
Definition consume (ms : list Head) (T : t) : t :=
  foldl (λ T m, setHead (Head_Chain m) (Value m) T) T ms.

Definition run (before : stream) (after : list Head) (T : t) : t :=
  let T := match last before with
           | Some m => setHead (Head_Chain m) (Value m) T
           | None => T
           end in
  consume after T.

(** ** The highest head of a chain in a log *)

Definition values (chain : string) (ms : list Head) : list Z :=
  Value <$> filter (λ m, Head_Chain m = chain) ms.

Definition highest (l : list Z) : Z := foldr Z.max 0 l.

Lemma highest_app l k : highest (l ++ k) = Z.max (highest l) (highest k).
Proof. unfold highest. induction l as [|x l IH]; simpl; [|lia]. induction k; simpl; lia. Qed.

Lemma highest_nonneg l : 0 <= highest l.
Proof. unfold highest. induction l; simpl; lia. Qed.

Lemma head_setHead T c v c' :
  head (setHead c v T) c' = if decide (c' = c) then Z.max (head T c) v else head T c'.
Proof.
  unfold setHead. destruct (Z.leb_spec v (head T c)).
  - destruct (decide (c' = c)) as [->|]; [lia|done].
  - unfold head at 1. simpl. destruct (decide (c' = c)) as [->|].
    + rewrite lookup_insert_eq. simpl. lia.
    + by rewrite lookup_insert_ne.
Qed.

Lemma head_consume ms T c : 0 <= head T c →
  head (consume ms T) c = Z.max (head T c) (highest (values c ms)).
Proof.
  revert T. induction ms as [|m ms IH]; intros T H0; [simpl; lia|].
  change (consume (m :: ms) T) with (consume ms (setHead (Head_Chain m) (Value m) T)).
  assert (values c (m :: ms)
    = (if decide (Head_Chain m = c) then [Value m] else []) ++ values c ms) as ->.
  { unfold values. rewrite filter_cons. by destruct (decide _). }
  rewrite highest_app, IH; rewrite head_setHead; [|destruct (decide _); [subst; lia|done]].
  destruct (decide (c = Head_Chain m)) as [->|].
  - rewrite decide_True by done. simpl. lia.
  - rewrite decide_False by done. simpl. pose proof (highest_nonneg (values c ms)). lia.
Qed.
End Redihead.

(** ** [headstoreProvider] *)

(** [New]: the redis store if there is one, else the one in memory. *)
Definition headstoreProvider_New {W} `{!Lens Atomic.t W} (redihead : option (HeadStore W))
    : HeadStore W :=
  match redihead with
  | Some h => h
  | None => Atomic.store
  end.

(** ** Runs of a store with subscribers *)

Module HeadRuns.
Import Redihead.

(** What happens to a process: a head arrives, somebody reads a
    subscription, subscribes, or unsubscribes. *)
Inductive event : Type :=
  | Arrive (chain : string) (v : Z)
  | Recv (chain : string) (id : Z)
  | Subscribe (chain : string)
  | Unsubscribe (chain : string) (id : Z).

#[export] Instance event_eq_dec : EqDecision event.
Proof. solve_decision. Defined.

Definition with_subs (s : Subs.t) (T : t) : t := {| heads := heads T; subs := s |}.

(** The new state, and the head the event gives to its reader. *)
Definition step (e : event) (T : t) : option Z * t :=
  match e with
  | Arrive c v => (None, setHead c v T)
  | Recv c id =>
      let '(v, s) := Subs.recv c id (subs T) in (v, with_subs s T)
  | Subscribe c => (None, with_subs (Subs.On c (subs T)).2 T)
  | Unsubscribe c id => (None, with_subs (Subs.Off c id (subs T)) T)
  end.

(** The heads the reader of one subscription is given. *)
Fixpoint received (chain : string) (id : Z) (es : list event) (T : t) : list Z :=
  match es with
  | [] => []
  | e :: es =>
      let '(v, T') := step e T in
      match e, v with
      | Recv c i, Some v =>
          if bool_decide (c = chain ∧ i = id) then v :: received chain id es T'
          else received chain id es T'
      | _, _ => received chain id es T'
      end
  end.

(** The subscription [id] was taken in the past and not left. *)
Definition live (id : Z) (T : t) : Prop := id < Subs.next (subs T).

(** Nothing at most [m] is still to be read, and nothing in the buffer is
    above the head. *)
Definition above (chain : string) (id m : Z) (T : t) : Prop :=
  m <= head T chain ∧
  ∀ c v, Subs.chan_of (subs T) chain id = Some c → Subs.buffer c = Some v →
    m < v <= head T chain.

Lemma chan_of_On T c chain id :
  id < Subs.next T →
  Subs.chan_of (Subs.On c T).2 chain id = Subs.chan_of T chain id.
Proof.
  intros Hid. unfold Subs.chan_of, Subs.On. simpl.
  destruct (decide (c = chain)) as [->|]; [|by rewrite lookup_insert_ne].
  rewrite lookup_insert_eq. simpl. rewrite lookup_insert_ne by lia.
  by destruct (Subs.subs T !! chain).
Qed.

Lemma chan_of_Off T c i chain id x :
  Subs.chan_of (Subs.Off c i T) chain id = Some x → Subs.chan_of T chain id = Some x.
Proof.
  unfold Subs.Off. destruct (default ∅ (Subs.subs T !! c) !! i) as [y|] eqn:Hy; [|done].
  unfold Subs.chan_of. simpl. destruct (decide (c = chain)) as [->|].
  - rewrite lookup_alter_eq. destruct (Subs.subs T !! chain); [|done]. simpl.
    destruct (decide (i = id)) as [->|]; [by rewrite lookup_delete_eq|].
    by rewrite lookup_delete_ne.
  - by rewrite lookup_alter_ne.
Qed.

Lemma step_next e T : Subs.next (subs T) <= Subs.next (subs (step e T).2).
Proof.
  destruct e; simpl.
  - unfold setHead. destruct (_ <=? _); simpl; lia.
  - unfold Subs.recv. destruct (_ !! id); simpl; lia.
  - lia.
  - unfold Subs.Off. case_match; simpl; lia.
Qed.

(** An event that is not a read of the subscription keeps the bound. *)
Lemma step_above chain id m e T :
  live id T → above chain id m T → e ≠ Recv chain id → above chain id m (step e T).2.
Proof.
  intros Hl [Hm Hb] He. destruct e as [c v|c i|c|c i]; cbn [step snd].
  - split; [rewrite head_setHead; destruct (decide _); [subst; lia|done]|].
    intros x b. unfold setHead. destruct (Z.leb_spec v (head T c)) as [|Hlt].
    { apply Hb. }
    cbn [subs]. rewrite Subs.chan_of_notify.
    assert (head {| heads := <[c := v]> (heads T); subs := Subs.notify c v (subs T) |} chain
      = if decide (chain = c) then v else head T chain) as ->.
    { unfold head. simpl. destruct (decide (chain = c)) as [->|Hne];
        [by rewrite lookup_insert_eq|by rewrite lookup_insert_ne]. }
    destruct (decide (chain = c)) as [->|Hne].
    + intros (y & Hy & ->)%fmap_Some.
      unfold Subs.try_send. destruct (Subs.buffer y) as [b'|] eqn:E; simpl.
      * intros Hb'. rewrite E in Hb'. injection Hb' as ->. specialize (Hb y b Hy E). lia.
      * intros [= <-]. lia.
    + apply Hb.
  - destruct (Subs.recv c i (subs T)) as [v s] eqn:Hr. split; [exact Hm|].
    intros x b. simpl. replace s with (Subs.recv c i (subs T)).2 by by rewrite Hr.
    rewrite Subs.chan_of_recv, decide_False by naive_solver. apply Hb.
  - split; [exact Hm|]. intros x b. cbn [with_subs subs]. rewrite chan_of_On by done. apply Hb.
  - split; [exact Hm|]. intros x b. cbn [with_subs subs]. intros Hx%chan_of_Off. by apply Hb.
Qed.

Lemma recv_above chain id m T :
  above chain id m T →
  match (step (Recv chain id) T).1 with
  | Some v => m < v ∧ above chain id v (step (Recv chain id) T).2
  | None => above chain id m (step (Recv chain id) T).2
  end.
Proof.
  intros [Hm Hb]. simpl. destruct (Subs.recv chain id (subs T)) as [v s] eqn:Hr.
  assert (∀ n, n <= head T chain → above chain id n (with_subs s T)) as Ha.
  { intros n Hn. split; [exact Hn|]. intros x b. cbn [with_subs subs].
    replace s with (Subs.recv chain id (subs T)).2 by by rewrite Hr.
    rewrite Subs.chan_of_recv, decide_True by done. by intros (y & _ & ->)%fmap_Some. }
  destruct v as [v|]; simpl; [|by apply Ha].
  unfold Subs.recv in Hr. destruct (default ∅ _ !! id) as [c|] eqn:Hc; [|done].
  injection Hr as Hv _. specialize (Hb c v Hc Hv). split; [lia|]. apply Ha. lia.
Qed.

Lemma received_sorted chain id m es T :
  live id T → above chain id m T →
  StronglySorted Z.lt (received chain id es T) ∧ Forall (Z.lt m) (received chain id es T).
Proof.
  revert m T. induction es as [|e es IH]; intros m T Hl Ha; [by repeat constructor|].
  assert (live id (step e T).2) as Hl'.
  { pose proof (step_next e T). unfold live in *. lia. }
  cbn [received]. destruct (decide (e = Recv chain id)) as [->|Hne].
  - pose proof (recv_above chain id m T Ha) as Hr.
    destruct (step (Recv chain id) T) as [[v|] T']; simpl in *; [|by apply IH].
    rewrite bool_decide_true by done. destruct Hr as [Hmv Hv].
    destruct (IH v T' Hl' Hv) as [Hs Hf]. split; [by constructor|].
    constructor; [done|]. eapply Forall_impl; [exact Hf|]. simpl. lia.
  - pose proof (step_above chain id m e T Hl Ha Hne) as Ha'.
    destruct (step e T) as [v T']; simpl in *.
    destruct e as [|c i| |], v; try by apply IH.
    rewrite bool_decide_false by naive_solver. by apply IH.
Qed.
End HeadRuns.

(** ** Properties *)

Module HeadStoreProps.

(** C21: a process that starts reading the stream when it holds [before], and
    is then given [after], holds for every chain the highest head among the
    newest message of [before] and all of [after]: heads never go back,
    whatever the order and however often a message is repeated, and the
    older messages of the stream are not read. *)
Theorem redihead_head before after c :
  Redihead.head (Redihead.run before after Redihead.New) c
  = Redihead.highest (Redihead.values c (option_list (last before) ++ after)).
Proof.
  assert (Redihead.run before after Redihead.New
    = Redihead.consume (option_list (last before) ++ after) Redihead.New) as ->.
  { unfold Redihead.run, Redihead.consume. rewrite foldl_app. by destruct (last before). }
  rewrite Redihead.head_consume by done.
  pose proof (Redihead.highest_nonneg
    (Redihead.values c (option_list (last before) ++ after))).
  change (Redihead.head Redihead.New c) with (default 0 ((∅ : gmap string Z) !! c)).
  rewrite lookup_empty. simpl. lia.
Qed.

(** the heads read from a subscription are strictly ascending, and all
    above the head at the time of the subscription, whatever else happens to
    the store. *)
Theorem head_subscription_ascending chain es (T : Redihead.t) :
  let '(id, s) := Subs.On chain (Redihead.subs T) in
  let l := HeadRuns.received chain id es (HeadRuns.with_subs s T) in
  StronglySorted Z.lt l ∧ Forall (Z.lt (Redihead.head T chain)) l.
Proof.
  simpl. apply HeadRuns.received_sorted.
  - unfold HeadRuns.live. simpl. lia.
  - split; [done|]. intros c v. unfold Subs.chan_of. simpl.
    rewrite lookup_insert_eq. simpl. rewrite lookup_insert_eq. by intros [= <-].
Qed.

(** the in-memory store refuses to go back and answers with the previous
    head; it keeps the higher one only if its map was made, and the
    constructor does not make it: the first head above zero panics, after
    the subscribers were told. *)
Theorem atomic_put `{L : !Lens Atomic.t W} chain hd w :
  let T := lget w in
  let cur := Atomic.head T (Chain_Name chain) in
  Atomic.heads Atomic.NewAtomic = None ∧
  match Atomic.Put chain hd w with
  | (Return r, w') =>
      r = Ok cur ∧ (Atomic.heads T = None → hd <= cur) ∧
      ∀ c, Atomic.head (lget w') c
           = if decide (c = Chain_Name chain) then Z.max cur hd else Atomic.head T c
  | (Panic _, w') =>
      Atomic.heads T = None ∧ cur < hd ∧ Atomic.heads (lget w') = None ∧
      Atomic.subs (lget w') = Subs.notify (Chain_Name chain) hd (Atomic.subs T)
  | (Blocks, _) => False
  end.
Proof.
  intros T cur. split; [done|]. unfold Atomic.Put, read, write, modify, mbind, prog_bind.
  fold T. fold cur. destruct (Z.leb_spec hd cur).
  - simpl. split_and!; [done|done|]. intros c. fold T.
    destruct (decide _) as [->|]; [fold cur; lia|done].
  - destruct (Atomic.heads T) as [m|] eqn:Hm; simpl.
    + rewrite !lget_lput. split_and!; [done|done|]. intros c.
      unfold Atomic.head at 1. simpl. destruct (decide _) as [->|Hne].
      * rewrite lookup_insert_eq. simpl. lia.
      * rewrite lookup_insert_ne by done. unfold Atomic.head. by rewrite Hm.
    + rewrite lget_lput. simpl. by split_and!.
Qed.
End HeadStoreProps.
