(* ===== verification/BlockStore.v ===== *)
(** * Block stores: [lib/stores/blockstore], [svc/node/atoms/vennstore]

    The interface of a store of blocks, logs and receipts, the compound of
    several stores, the in-memory store over an LRU cache, and the grouping of
    concurrent reads.  Entries are pointers to structs nobody writes to after
    they are stored, so they are values here. *)
From S2P Require Import Prelude Errors Json EthTypes Config Rpc.

(** ** [lib/stores/blockstore/interface.go] *)

Inductive EntryType : Type := EntryBlockHeader | EntryLogs | EntryReceipts.

#[export] Instance EntryType_eq_dec : EqDecision EntryType.
Proof. solve_decision. Defined.

(** The value of the [iota] constant. *)
Definition EntryType_val (t : EntryType) : Z :=
  match t with EntryBlockHeader => 0 | EntryLogs => 1 | EntryReceipts => 2 end.

Record Entry := {
  BlockHash : hash;
  BlockNumber : Z;
  ParentHash : option hash;
  Value : json;
}.

Inductive Query : Type :=
  | QueryRange (Start End : Z)
  | QueryHash (h : hash).

Definition QueryNumber (n : Z) : Query := QueryRange n n.

(** The queries the program can make: words and hashes. *)
Definition query_wf (q : Query) : Prop :=
  match q with
  | QueryRange s e => in_u64 s ∧ in_u64 e
  | QueryHash h => is_bytes HashLength h
  end.

(** The interface [blockstore.Store]. *)
Record Store (W : Type) := {
  st_Get : Chain → EntryType → Query → prog W (res goerr (list Entry));
  st_Put : Chain → EntryType → list Entry → prog W (option goerr);
}.
Arguments st_Get {W} _.
Arguments st_Put {W} _.

(** What a reader may expect of the entries of a successful [Get]: they are
    about the blocks asked for.  A store may know fewer than were asked for. *)
Definition answers_query (q : Query) (es : list Entry) : Prop :=
  match q with
  | QueryRange s e => Forall (λ x, s <= BlockNumber x <= e) es
  | QueryHash h => Forall (λ x, BlockHash x = h) es
  end.

(** All of them, in order. *)
Definition full_answer (q : Query) (es : list Entry) : Prop :=
  match q with
  | QueryRange s e => BlockNumber <$> es = seqZ s (e - s + 1)
  | QueryHash h => BlockHash <$> es = [h]
  end.

Lemma full_answer_answers q es : full_answer q es → answers_query q es.
Proof.
  destruct q as [s e|h]; simpl; intros H.
  - apply Forall_forall. intros x Hx. apply (list_elem_of_fmap_2 BlockNumber) in Hx.
    rewrite H in Hx. apply elem_of_seqZ in Hx. lia.
  - apply Forall_forall. intros x Hx. apply (list_elem_of_fmap_2 BlockHash) in Hx.
    rewrite H in Hx. by apply list_elem_of_singleton in Hx.
Qed.

(** ** [lib/stores/blockstore/compound.go] *)

Module Compound.
Section compound.
Context {W : Type}.

Definition t : Type := list (string * Store W).

Definition NewCompoundStore : t := [].

Definition AddStore (name : string) (store : option (Store W)) (T : t) : t :=
  match store with None => T | Some s => T ++ [(name, s)] end.

(** The loop of [Put]. *)
Fixpoint put_all (c : Chain) (typ : EntryType) (es : list Entry) (stores : t)
    (merr : option goerr) : prog W (option goerr) :=
  match stores with
  | [] => mret merr
  | (_, s) :: stores =>
      err ← st_Put s c typ es;
      put_all c typ es stores
        (match err with Some e => multierr_append merr e | None => merr end)
  end.

Definition Put (T : t) (c : Chain) (typ : EntryType) (es : list Entry)
    : prog W (option goerr) := put_all c typ es T None.

(** The loop of [Get] over the stores: the entries and the stores before
    the one that had them, or the errors. *)
Fixpoint find (c : Chain) (typ : EntryType) (q : Query) (before : t) (stores : t)
    (merr : option goerr) : prog W (option goerr + t * list Entry) :=
  match stores with
  | [] => mret (inl merr)
  | (name, s) :: stores =>
      r ← st_Get s c typ q;
      match r with
      | Err e => find c typ q (before ++ [(name, s)]) stores (multierr_append merr e)
      | Ok es => mret (inr (before, es))
      end
  end.

Definition backwards (q : Query) : bool :=
  match q with QueryRange s e => e <? s | QueryHash _ => false end.

Definition Get (T : t) (c : Chain) (typ : EntryType) (q : Query)
    : prog W (res goerr (list Entry)) :=
  if backwards q then mret (Ok [])
  else
    x ← find c typ q [] T None;
    match x with
    | inl None => mret (Err (EText "compound handler could not find entries"))
    | inl (Some e) => mret (Err e)
    | inr (before, es) =>
        merr ← put_all c typ es before None;
        mret match merr with Some e => Err e | None => Ok es end
    end.

Definition store (T : t) : Store W := {| st_Get := Get T; st_Put := Put T |}.
End compound.
Arguments t : clear implicits.
End Compound.

(** ** [lib/stores/blockstore/deduper.go] *)

Module SingleFlight.
Section single_flight.
Context {W : Type} `{E : Eth}.
(** [common.Hash.Hex] of go-ethereum; [singleflight.Group.DoChan], which
    runs the function or waits for a run under the same key; and whether
    the caller's context ended before the result was there. *)
Context (Hex : hash → string).
Context (DoChan : string → prog W (res goerr (list Entry)) → prog W (res goerr (list Entry))).
Context (ctx_done : prog W (option goerr)).

Definition group_key (c : Chain) (typ : EntryType) (q : Query) : string :=
  match q with
  | QueryRange s e =>
      Chain_Name c +:+ "." +:+ pretty (EntryType_val typ) +:+ "."
      +:+ EncodeUint64 s +:+ "." +:+ EncodeUint64 e
  | QueryHash h =>
      Chain_Name c +:+ "." +:+ pretty (EntryType_val typ) +:+ "." +:+ Hex h
  end.

Definition Get (underlying : Store W) (c : Chain) (typ : EntryType) (q : Query)
    : prog W (res goerr (list Entry)) :=
  r ← DoChan (group_key c typ q) (st_Get underlying c typ q);
  done ← ctx_done;
  mret match done with Some e => Err e | None => r end.

Definition Put (underlying : Store W) := st_Put underlying.

Definition store (underlying : Store W) : Store W :=
  {| st_Get := Get underlying; st_Put := Put underlying |}.
End single_flight.
End SingleFlight.

(** ** [lib/stores/blockstore/lru.go] *)

(** The cache of hashicorp/golang-lru/v2/simplelru. *)
Class Simplelru (K V L : Type) := {
  lru_new : Z → L;
  lru_get : K → L → option V * L;
  lru_add : K → V → L → L;
  lru_purge : L → L;
}.

(** Its documented behaviour: it holds at most [size] pairs, [Get] finds what
    is held and drops nothing, [Add] holds the new pair and may evict others,
    [Purge] drops all. *)
Class SimplelruSpec (K V L : Type) `{Countable K} `{S : Simplelru K V L} := {
  lru_map : L → gmap K V;
  lru_cap : L → Z;
  lru_new_spec n : 0 < n → lru_map (lru_new n) = ∅ ∧ lru_cap (lru_new n) = n;
  lru_get_spec k l :
    (lru_get k l).1 = lru_map l !! k ∧ lru_map (lru_get k l).2 = lru_map l ∧
    lru_cap (lru_get k l).2 = lru_cap l;
  lru_add_spec k v l :
    lru_map (lru_add k v l) !! k = Some v ∧
    (∀ k' v', lru_map (lru_add k v l) !! k' = Some v' → k' = k ∧ v' = v ∨ lru_map l !! k' = Some v') ∧
    lru_cap (lru_add k v l) = lru_cap l;
  lru_purge_spec l : lru_map (lru_purge l) = ∅ ∧ lru_cap (lru_purge l) = lru_cap l;
  lru_bounded l : Z.of_nat (size (lru_map l)) <= lru_cap l;
}.

(** The address space of the Go runtime, and [make] of a slice of pointers. *)
Definition maxAlloc : Z := 2 ^ 48.
Definition make_pointers (cap : Z) : outcome () :=
  if maxAlloc <? cap * 8 then Panic "makeslice: cap out of range" else Return ().

Module LruStore.

(** The keys [lruNumberKey] and [lruHashKey]. *)
Abbreviation lruNumberKey := (EntryType * Z * string)%type.
Abbreviation lruHashKey := (EntryType * hash * string)%type.

Definition EntryType_dec_of (z : Z) : option EntryType :=
  if z =? 0 then Some EntryBlockHeader else if z =? 1 then Some EntryLogs
  else if z =? 2 then Some EntryReceipts else None.

#[export] Instance EntryType_countable : Countable EntryType.
Proof.
  refine (inj_countable EntryType_val EntryType_dec_of _). by intros [].
Defined.

Section lru.
Context {LN LH : Type} `{SN : !Simplelru lruNumberKey Entry LN}
        `{SH : !Simplelru lruHashKey Entry LH}.

Record t := {
  size : Z;
  byHash : LH;
  byNumber : LN;
}.

Definition NewLruStore (n : Z) : t :=
  {| size := n; byHash := lru_new n; byNumber := lru_new n |}.

Definition not_found : goerr := EText "not found".

(** The loop of [Get] over a range, from [i]; the turns that can be needed
    are one more than the cache can hold: [range_loop_total]. *)
Fixpoint range_loop (fuel : nat) (typ : EntryType) (chain : string) (i End : Z)
    (entries : list Entry) (l : LN) : option (res goerr (list Entry)) * LN :=
  if i <=? End then
    match fuel with
    | O => (None, l)
    | S fuel =>
        match lru_get (typ, i, chain) l with
        | (None, l) => (Some (Err not_found), l)
        | (Some e, l) => range_loop fuel typ chain (u64 (i + 1)) End (entries ++ [e]) l
        end
    end
  else (Some (Ok entries), l).

Section ops.
Context {W : Type} `{L : !Lens t W}.

Definition Get (c : Chain) (typ : EntryType) (q : Query)
    : prog W (res goerr (list Entry)) :=
  T ← read;
  match q with
  | QueryHash h =>
      let '(e, l) := lru_get (typ, h, Chain_Name c) (byHash T) in
      _ ← write {| size := size T; byHash := l; byNumber := byNumber T |};
      mret match e with Some e => Ok [e] | None => Err not_found end
  | QueryRange s e =>
      _ ← lift (make_pointers (u64 (e - s + 1)));
      let '(r, l) := range_loop (S (Z.to_nat (size T))) typ (Chain_Name c) s e [] (byNumber T) in
      _ ← write {| size := size T; byHash := byHash T; byNumber := l |};
      match r with Some r => mret r | None => block end
  end.

(** One turn of the loop of [Put]. *)
Definition put1 (chain : string) (typ : EntryType) (e : Entry) (T : t) : t :=
  let byNumber :=
    match ParentHash e with
    | Some p =>
        match lru_get (typ, u64 (BlockNumber e - 1), chain) (byNumber T) with
        | (Some prev, l) => if bool_decide (BlockHash prev = p) then l else lru_purge l
        | (None, l) => l
        end
    | None => byNumber T
    end in
  {| size := size T;
     byHash := lru_add (typ, BlockHash e, chain) e (byHash T);
     byNumber := lru_add (typ, BlockNumber e, chain) e byNumber |}.

Definition Put (c : Chain) (typ : EntryType) (es : list Entry) : prog W (option goerr) :=
  _ ← modify (λ T, foldl (λ T e, put1 (Chain_Name c) typ e T) T es);
  mret None.

Definition store : Store W := {| st_Get := Get; st_Put := Put |}.
End ops.
End lru.
Arguments t : clear implicits.
End LruStore.

(** ** [svc/node/atoms/vennstore/store.go] *)

(** [New]: the memory cache, the redis store if there is one, the remotes. *)
Definition vennstore_New {W} (lru : Store W) (rediblock : option (Store W))
    (chainblock : Store W) (single_flight : Store W → Store W) : Store W :=
  single_flight (Compound.store
    (Compound.AddStore "blockgetter" (Some chainblock)
      (match rediblock with
       | Some s => Compound.AddStore "rediblock" (Some s)
       | None => id
       end (Compound.AddStore "lru" (Some lru) Compound.NewCompoundStore)))).

(** *** An implementation of the cache's laws *)

Module StdLru.
Section std.
Context {K V : Type} `{Countable K}.

(** At most [S spare] pairs, the newest first. *)
Record t := { spare : nat; items : list (K * V) }.

Definition held (l : t) : list (K * V) := take (S (spare l)) (items l).
Definition contents (l : t) : gmap K V := list_to_map (held l).

#[export] Instance std_lru : Simplelru K V t := {|
  lru_new n := {| spare := Z.to_nat (n - 1); items := [] |};
  lru_get k l := (contents l !! k, l);
  lru_add k v l := {| spare := spare l; items := (k, v) :: filter (λ kv, kv.1 ≠ k) (held l) |};
  lru_purge l := {| spare := spare l; items := [] |};
|}.

Lemma list_to_map_filter_ne (l : list (K * V)) k k' :
  k' ≠ k →
  (list_to_map (filter (λ kv, kv.1 ≠ k) l) : gmap K V) !! k'
  = (list_to_map l : gmap K V) !! k'.
Proof.
  intros Hne. induction l as [|[k0 v0] l IH]; [done|].
  rewrite filter_cons. simpl. destruct (decide (k0 = k)) as [->|Hk].
  - rewrite decide_False by (intros Hn; by apply Hn). simpl.
    by rewrite lookup_insert_ne by congruence.
  - rewrite decide_True by done. simpl.
    destruct (decide (k0 = k')) as [->|]; [by rewrite !lookup_insert_eq|].
    by rewrite !lookup_insert_ne by done.
Qed.

Lemma list_to_map_take (l : list (K * V)) n k v :
  (list_to_map (take n l) : gmap K V) !! k = Some v → (list_to_map l : gmap K V) !! k = Some v.
Proof.
  intros Hk. rewrite <- (take_drop n l), list_to_map_app. by apply lookup_union_Some_l.
Qed.

Lemma size_list_to_map (l : list (K * V)) :
  (size (list_to_map l : gmap K V) ≤ List.length l)%nat.
Proof.
  induction l as [|[k v] l IH]; [done|]. simpl. rewrite map_size_insert.
  destruct (_ !! k); simpl; lia.
Qed.

#[export] Instance std_lru_spec : SimplelruSpec K V t.
Proof.
  refine {| lru_map := contents; lru_cap := λ l, Z.of_nat (S (spare l)) |}.
  - intros n Hn. simpl. split; [done|lia].
  - done.
  - intros k v l. simpl. unfold contents, held. simpl.
    split_and!; [by rewrite lookup_insert_eq| |done].
    intros k' v'. destruct (decide (k' = k)) as [->|Hne].
    + rewrite lookup_insert_eq. intros [= ->]. by left.
    + rewrite lookup_insert_ne by done. intros Hk. right.
      apply list_to_map_take in Hk. by rewrite list_to_map_filter_ne in Hk.
  - done.
  - intros l. unfold contents. simpl. unfold held.
    pose proof (size_list_to_map (take (S (spare l)) (items l))).
    rewrite length_take in *. lia.
Defined.
End std.
Arguments t : clear implicits.
End StdLru.

(** ** What stores promise each other *)

(** A store is sound in the states that satisfy [I]: its operations stay in
    them, and what it finds is about the blocks it was asked for. *)
Class StoreSpec {W} (I : W → Prop) (s : Store W) : Prop := {
  get_sound c typ q w r w' :
    I w → query_wf q → st_Get s c typ q w = (Return r, w') →
    I w' ∧ ∀ es, r = Ok es → answers_query q es;
  put_sound c typ es w r w' :
    I w → st_Put s c typ es w = (Return r, w') → I w';
}.

Section compound_sound.
Context {W : Type} (I : W → Prop).

Lemma put_all_sound c typ es (stores : Compound.t W) merr w r w' :
  Forall (λ ns, StoreSpec I ns.2) stores → I w →
  Compound.put_all c typ es stores merr w = (Return r, w') → I w'.
Proof.
  intros Hs. revert merr w. induction Hs as [|[n s] stores Hs _ IH]; intros merr w Hw H.
  { by apply prog_ret_inv in H as [_ <-]. }
  cbn [Compound.put_all] in H. prog_inv H. eapply IH; [|exact H].
  by eapply put_sound.
Qed.

Lemma put_all_none c typ es (stores : Compound.t W) merr w w' :
  Compound.put_all c typ es stores merr w = (Return None, w') → merr = None.
Proof.
  revert merr w. induction stores as [|[n s] stores IH]; intros merr w H.
  { by apply prog_ret_inv in H as [-> _]. }
  cbn [Compound.put_all] in H. prog_inv H. apply IH in H. by destruct a.
Qed.

(** The store that had the entries, and those that failed before it. *)
Lemma find_inv c typ q (before stores : Compound.t W) merr w b es w' :
  Compound.find c typ q before stores merr w = (Return (inr (b, es)), w') →
  ∃ failed name s after w1, stores = failed ++ (name, s) :: after ∧ b = before ++ failed ∧
    st_Get s c typ q w1 = (Return (Ok es), w').
Proof.
  revert before merr w. induction stores as [|[n s] stores IH]; intros before merr w H.
  { by apply prog_ret_inv in H as [[=] _]. }
  cbn [Compound.find] in H. prog_inv H. destruct a as [es'|e].
  - apply prog_ret_inv in H as [[= <- <-] <-].
    exists [], n, s, stores, w. by rewrite app_nil_r.
  - destruct (IH _ _ _ H) as (failed & n' & s' & after & w2 & -> & -> & Hg).
    exists ((n, s) :: failed), n', s', after, w2. by rewrite <- app_assoc.
Qed.

Lemma find_sound c typ q (before stores : Compound.t W) merr w x w' :
  Forall (λ ns, StoreSpec I ns.2) stores → I w → query_wf q →
  Compound.find c typ q before stores merr w = (Return x, w') →
  I w' ∧ ∀ b es, x = inr (b, es) → answers_query q es.
Proof.
  intros Hs. revert before merr w. induction Hs as [|[n s] stores Hs _ IH];
    intros before merr w Hw Hq H.
  { by apply prog_ret_inv in H as [<- <-]. }
  cbn [Compound.find] in H. prog_inv H.
  destruct (get_sound _ _ _ _ _ _ Hw Hq Hm) as [Hw0 Ha].
  destruct a as [es'|e]; [|by eapply IH].
  apply prog_ret_inv in H as [<- <-]. split; [done|]. intros b es [= <- <-]. by apply Ha.
Qed.

#[export] Instance compound_spec (T : Compound.t W) :
  Forall (λ ns, StoreSpec I ns.2) T → StoreSpec I (Compound.store T).
Proof.
  intros HT. split; intros c typ.
  - intros q w r w' Hw Hq H. cbn [Compound.store st_Get] in H. unfold Compound.Get in H.
    destruct (Compound.backwards q) eqn:Hb.
    { apply prog_ret_inv in H as [<- <-]. split; [done|]. intros es [= <-].
      destruct q; [constructor|done]. }
    prog_inv H. destruct (find_sound _ _ _ _ _ _ _ _ _ HT Hw Hq Hm) as [Hw0 Ha].
    destruct a as [[e|]|[b es]]; [by apply prog_ret_inv in H as [<- <-]..|].
    prog_inv H. apply prog_ret_inv in H as [<- <-].
    destruct (find_inv _ _ _ _ _ _ _ _ _ _ Hm) as (f & n & s & a' & w3 & -> & -> & _).
    split; [|intros es' He; destruct a; [done|]; injection He as <-; by eapply Ha].
    eapply put_all_sound; [|exact Hw0|exact Hm0].
    by apply Forall_app in HT as [HT _].
  - intros es w r w' Hw H. eapply put_all_sound; [exact HT|exact Hw|exact H].
Qed.
End compound_sound.

(** ** The keys of concurrent reads *)

Section keys.
Fixpoint no_dot (s : string) : bool :=
  match s with
  | EmptyString => true
  | String c s => negb (bool_decide (c = "."%char)) && no_dot s
  end.

Lemma no_dot_app s t : no_dot (s +:+ String "." t) = false.
Proof.
  induction s as [|c s IH]; [done|].
  change (no_dot (String c (s +:+ String "." t)) = false). cbn [no_dot].
  by rewrite IH, andb_false_r.
Qed.

(** What follows the last dot, and what precedes it. *)
Lemma last_dot_inj a b a' b' :
  no_dot b = true → no_dot b' = true →
  a +:+ String "." b = a' +:+ String "." b' → a = a' ∧ b = b'.
Proof.
  intros Hb Hb'. revert a'. induction a as [|c a IH]; intros [|c' a'] H.
  - by injection H.
  - injection H as <- ->. by rewrite no_dot_app in Hb.
  - injection H as -> <-. by rewrite no_dot_app in Hb'.
  - injection H as <- H. destruct (IH a' H) as [-> ->]. done.
Qed.
End keys.

(** [common.Hash.Hex]: 66 characters, none a dot, and different for different
    hashes. *)
Class HexSpec (Hex : hash → string) : Prop := {
  Hex_length h : is_bytes HashLength h → String.length (Hex h) = 66%nat;
  Hex_no_dot h : is_bytes HashLength h → no_dot (Hex h) = true;
  Hex_inj h h' : is_bytes HashLength h → is_bytes HashLength h' → Hex h = Hex h' → h = h';
}.

Section key_facts.
Context `{ES : EthSpec} (Hex : hash → string) `{HS : !HexSpec Hex}.

Lemma hex_char_no_dot d : 0 <= d < 16 → hex_char d ≠ "."%char.
Proof.
  intros H Heq. pose proof (StdEth.hex_val_char d H) as Hd. by rewrite Heq in Hd.
Qed.

Lemma hex_str_no_dot fuel n acc :
  0 <= n → no_dot acc = true → no_dot (hex_str fuel n acc) = true.
Proof.
  revert n acc. induction fuel as [|fuel IH]; intros n acc Hn Ha; [done|].
  cbn [hex_str]. destruct (Z.ltb_spec n 16).
  - cbn [no_dot]. rewrite bool_decide_false by (apply hex_char_no_dot; lia). done.
  - apply IH; [apply Z.div_pos; lia|]. cbn [no_dot].
    rewrite bool_decide_false by (apply hex_char_no_dot, Z.mod_pos_bound; lia). done.
Qed.

Lemma hex_str_length fuel n acc :
  (String.length (hex_str fuel n acc) ≤ fuel + String.length acc)%nat.
Proof.
  revert n acc. induction fuel as [|fuel IH]; intros n acc; cbn [hex_str]; [lia|].
  destruct (n <? 16); [simpl; lia|]. etransitivity; [apply IH|]. simpl. lia.
Qed.

Lemma EncodeUint64_no_dot n : in_u64 n → no_dot (EncodeUint64 n) = true.
Proof.
  intros Hn. rewrite EncodeUint64_spec by done. unfold hex_text.
  change ("0x" +:+ hex_str 16 n "") with (String "0" (String "x" (hex_str 16 n ""))).
  cbn [no_dot]. rewrite hex_str_no_dot; [done|unfold in_u64 in Hn; lia|done].
Qed.

Lemma EncodeUint64_length n : in_u64 n → (String.length (EncodeUint64 n) ≤ 18)%nat.
Proof.
  intros Hn. rewrite EncodeUint64_spec by done. unfold hex_text.
  change ("0x" +:+ hex_str 16 n "") with (String "0" (String "x" (hex_str 16 n ""))).
  pose proof (hex_str_length 16 n ""). cbn [String.length] in *. lia.
Qed.

Lemma EncodeUint64_inj n m :
  in_u64 n → in_u64 m → EncodeUint64 n = EncodeUint64 m → n = m.
Proof.
  intros Hn Hm. rewrite !EncodeUint64_spec by done. intros He.
  pose proof (StdEth.uint64_hex n Hn) as H1. rewrite He in H1.
  rewrite (StdEth.uint64_hex m Hm) in H1. by injection H1.
Qed.

Lemma typ_no_dot typ : no_dot (pretty (EntryType_val typ)) = true.
Proof. by destruct typ. Qed.

Lemma typ_inj typ typ' :
  pretty (EntryType_val typ) = pretty (EntryType_val typ') → typ = typ'.
Proof. by destruct typ, typ'. Qed.

Lemma group_key_inj c typ q c' typ' q' :
  query_wf q → query_wf q' →
  SingleFlight.group_key Hex c typ q = SingleFlight.group_key Hex c' typ' q' →
  Chain_Name c = Chain_Name c' ∧ typ = typ' ∧ q = q'.
Proof.
  assert (∀ a t b, a +:+ "." +:+ t +:+ "." +:+ b = (a +:+ String "." t) +:+ String "." b)
    as Hass.
  { intros a t b. by rewrite !str_app_assoc. }
  assert (∀ a t b d, a +:+ "." +:+ t +:+ "." +:+ b +:+ "." +:+ d
    = ((a +:+ String "." t) +:+ String "." b) +:+ String "." d) as Hass4.
  { intros a t b d. by rewrite !str_app_assoc. }
  intros Hq Hq'. unfold SingleFlight.group_key.
  destruct q as [s e|h], q' as [s' e'|h']; rewrite ?Hass4, ?Hass.
  - destruct Hq as [Hs He], Hq' as [Hs' He']. intros H.
    apply last_dot_inj in H as [H H4]; auto using EncodeUint64_no_dot.
    apply last_dot_inj in H as [H H3]; auto using EncodeUint64_no_dot.
    apply last_dot_inj in H as [H1 H2]; auto using typ_no_dot.
    apply typ_inj in H2. apply EncodeUint64_inj in H3, H4; auto. by subst.
  - destruct Hq as [Hs He]. intros H.
    apply last_dot_inj in H as [_ H]; auto using EncodeUint64_no_dot, Hex_no_dot.
    pose proof (EncodeUint64_length e He) as Hl. rewrite H, Hex_length in Hl by done. lia.
  - destruct Hq' as [Hs He]. intros H.
    apply last_dot_inj in H as [_ H]; auto using EncodeUint64_no_dot, Hex_no_dot.
    pose proof (EncodeUint64_length e' He) as Hl. rewrite <- H, Hex_length in Hl by done. lia.
  - intros H. apply last_dot_inj in H as [H H3]; auto using Hex_no_dot.
    apply last_dot_inj in H as [H1 H2]; auto using typ_no_dot.
    apply typ_inj in H2. apply Hex_inj in H3; auto. by subst.
Qed.
End key_facts.

(** ** The memory store *)

Module LruFacts.
Import LruStore.
Section lru.
Context {LN LH : Type} `{SN : !Simplelru lruNumberKey Entry LN}
        `{SH : !Simplelru lruHashKey Entry LH}
        `{SNs : !SimplelruSpec lruNumberKey Entry LN}
        `{SHs : !SimplelruSpec lruHashKey Entry LH}.
Implicit Types T : LruStore.t LN LH.

(** Every entry is under its own number and hash. *)
Record inv T : Prop := {
  inv_number typ n chain e :
    lru_map (byNumber T) !! (typ, n, chain) = Some e → BlockNumber e = n;
  inv_hash typ h chain e :
    lru_map (byHash T) !! (typ, h, chain) = Some e → BlockHash e = h;
  inv_cap : lru_cap (byNumber T) = size T;
  inv_size : 0 < size T < two64;
}.

Lemma NewLruStore_inv n : 0 < n < two64 → inv (NewLruStore n).
Proof.
  intros Hn. unfold NewLruStore. split; simpl.
  - intros typ m chain e. rewrite (proj1 (lru_new_spec n ltac:(lia))). by rewrite lookup_empty.
  - intros typ h chain e. rewrite (proj1 (lru_new_spec n ltac:(lia))). by rewrite lookup_empty.
  - apply lru_new_spec. lia.
  - done.
Qed.

(** The numbers after the check of the parent. *)
Definition checked_parent (chain : string) (typ : EntryType) (e : Entry) (l : LN) : LN :=
  match ParentHash e with
  | Some p =>
      match lru_get (typ, u64 (BlockNumber e - 1), chain) l with
      | (Some prev, l) => if bool_decide (BlockHash prev = p) then l else lru_purge l
      | (None, l) => l
      end
  | None => l
  end.

Lemma checked_parent_spec chain typ e l :
  lru_cap (checked_parent chain typ e l) = lru_cap l ∧
  (lru_map (checked_parent chain typ e l) = lru_map l ∨
   lru_map (checked_parent chain typ e l) = ∅) ∧
  ∀ p prev, ParentHash e = Some p →
    lru_map (checked_parent chain typ e l) !! (typ, u64 (BlockNumber e - 1), chain)
    = Some prev → BlockHash prev = p.
Proof.
  unfold checked_parent. destruct (ParentHash e) as [p|]; [|by split_and!; eauto].
  destruct (lru_get_spec (typ, u64 (BlockNumber e - 1), chain) l) as (Hv & Hm & Hc).
  destruct (lru_get _ l) as [[prev|] l'] eqn:Hg; simpl in Hv, Hm, Hc.
  - case_bool_decide as Hp.
    + split_and!; [done|by left|]. intros p' prev' [= <-]. rewrite Hm, <- Hv.
      by intros [= <-].
    + destruct (lru_purge_spec l') as [He Hc']. rewrite He.
      split_and!; [by rewrite Hc'|by right|]. intros ??? H. by rewrite lookup_empty in H.
  - split_and!; [done|by left|]. intros p' prev' _. by rewrite Hm, <- Hv.
Qed.

Lemma put1_inv chain typ e T : inv T → inv (put1 chain typ e T).
Proof.
  intros [Hn Hh Hc Hs]. unfold put1. fold (checked_parent chain typ e (byNumber T)).
  destruct (checked_parent_spec chain typ e (byNumber T)) as (Hcap & Hmap & _).
  destruct (lru_add_spec (typ, BlockNumber e, chain) e (checked_parent chain typ e (byNumber T)))
    as (_ & Ha & Hac).
  destruct (lru_add_spec (typ, BlockHash e, chain) e (byHash T)) as (_ & Hb & _).
  split; simpl.
  - intros typ' n chain' e' [[[= -> -> ->] ->]|H]%Ha; [done|].
    destruct Hmap as [Hmap|Hmap]; rewrite Hmap in H; [by eapply Hn|by rewrite lookup_empty in H].
  - intros typ' h chain' e' [[[= -> -> ->] ->]|H]%Hb; [done|by eapply Hh].
  - congruence.
  - done.
Qed.

Lemma puts_inv chain typ es T : inv T → inv (foldl (λ T e, put1 chain typ e T) T es).
Proof. revert T. induction es as [|e es IH]; intros T H; [done|]. by apply IH, put1_inv. Qed.

Lemma range_loop_map fuel typ chain i e entries (l : LN) :
  lru_map (range_loop fuel typ chain i e entries l).2 = lru_map l ∧
  lru_cap (range_loop fuel typ chain i e entries l).2 = lru_cap l.
Proof.
  revert i entries l. induction fuel as [|fuel IH]; intros i entries l; cbn [range_loop].
  - by destruct (i <=? e).
  - destruct (i <=? e); [|done].
    destruct (lru_get_spec (typ, i, chain) l) as (Hv & Hm & Hc).
    destruct (lru_get _ l) as [[x|] l']; simpl in *; [|done].
    destruct (IH (u64 (i + 1)) (entries ++ [x]) l') as [-> ->]. done.
Qed.

Lemma range_loop_max fuel typ chain i entries (l : LN) es :
  in_u64 i → (range_loop fuel typ chain i (two64 - 1) entries l).1 ≠ Some (Ok es).
Proof.
  revert i entries l. induction fuel as [|fuel IH]; intros i entries l Hi; cbn [range_loop];
    destruct (Z.leb_spec i (two64 - 1)); [done|unfold in_u64 in Hi; lia| |unfold in_u64 in Hi; lia].
  destruct (lru_get _ l) as [[x|] l']; [|done]. apply IH, u64_range.
Qed.

Lemma range_loop_full fuel typ chain i e entries (l : LN) es :
  (∀ typ n chain (x : Entry), lru_map l !! (typ, n, chain) = Some x → BlockNumber x = n) →
  in_u64 i → e < two64 - 1 → i <= e + 1 →
  (range_loop fuel typ chain i e entries l).1 = Some (Ok es) →
  ∃ found, es = entries ++ found ∧ BlockNumber <$> found = seqZ i (e - i + 1).
Proof.
  intros Hl Hi He Hle. revert i entries l Hl Hi Hle.
  induction fuel as [|fuel IH]; intros i entries l Hl Hi Hle; cbn [range_loop];
    destruct (Z.leb_spec i e); try done.
  1, 3: intros [= <-]; exists []; rewrite app_nil_r; split; [done|];
    rewrite seqZ_nil by lia; done.
  destruct (lru_get_spec (typ, i, chain) l) as (Hv & Hm & _).
  destruct (lru_get _ l) as [[x|] l']; simpl in *; [|done]. intros Hr.
  rewrite u64_small in Hr by go_lia.
  apply IH in Hr as (found & -> & Hf); [|by rewrite Hm|go_lia|lia].
  exists (x :: found). rewrite <- app_assoc. split; [done|].
  rewrite fmap_cons, Hf, (seqZ_cons i) by lia. f_equal.
  - by eapply Hl.
  - f_equal; lia.
Qed.

(** A loop that runs out of turns found something at every number. *)
Lemma range_loop_out fuel typ chain i e entries (l : LN) k :
  (range_loop fuel typ chain i e entries l).1 = None → (k < fuel)%nat →
  is_Some (lru_map l !! (typ, u64 (i + Z.of_nat k), chain)) ∨ ¬ in_u64 i.
Proof.
  revert i entries l k. induction fuel as [|fuel IH]; intros i entries l k; cbn [range_loop];
    destruct (Z.leb_spec i e); try done; [lia|].
  destruct (lru_get_spec (typ, i, chain) l) as (Hv & Hm & _).
  destruct (lru_get _ l) as [[x|] l']; simpl in *; [|done]. intros H' Hk.
  destruct (decide (in_u64 i)) as [Hi|]; [|by right]. left.
  destruct k as [|k].
  - rewrite Z.add_0_r, u64_small, <- Hv by done. by eexists.
  - destruct (IH _ _ _ k H' ltac:(lia)) as [Hx|Hx]; [|by destruct Hx; apply u64_range].
    rewrite Hm in Hx. unfold u64 in *. rewrite Zplus_mod_idemp_l in Hx.
    by replace (i + Z.of_nat (S k)) with (i + 1 + Z.of_nat k) by lia.
Qed.

Lemma u64_shift_inj i k k' :
  0 <= k < two64 → 0 <= k' < two64 → u64 (i + k) = u64 (i + k') → k = k'.
Proof.
  unfold u64. intros Hk Hk' H.
  assert ((k - k') mod two64 = 0) as Hz.
  { replace (k - k') with ((i + k) - (i + k')) by lia.
    rewrite Zminus_mod, H, Z.sub_diag. done. }
  apply Z.mod_divide in Hz as [q Hq]; [|done]. unfold two64 in *. lia.
Qed.

Lemma range_loop_total typ chain i e entries (l : LN) n :
  lru_cap l = n → 0 < n < two64 → in_u64 i →
  is_Some (range_loop (S (Z.to_nat n)) typ chain i e entries l).1.
Proof.
  intros Hcap Hn Hi.
  destruct (range_loop _ _ _ _ _ _ _).1 as [r|] eqn:H; [by eexists|exfalso].
  set (key := λ k : nat, (typ, u64 (i + Z.of_nat k), chain) : lruNumberKey).
  assert (NoDup (key <$> seq 0 (S (Z.to_nat n)))) as Hnd.
  { apply NoDup_fmap_2_strong; [|apply NoDup_seq]. intros k k' Hk Hk'.
    apply elem_of_seq in Hk, Hk'. intros [= He].
    apply u64_shift_inj in He; lia. }
  assert (list_to_set (key <$> seq 0 (S (Z.to_nat n))) ⊆ dom (lru_map l)) as Hsub.
  { intros x. rewrite elem_of_list_to_set, list_elem_of_fmap.
    intros (k & -> & Hk%elem_of_seq). apply elem_of_dom.
    by destruct (range_loop_out _ _ _ _ _ _ _ k H ltac:(lia)). }
  apply subseteq_size in Hsub.
  rewrite size_list_to_set, length_fmap, length_seq, size_dom in Hsub by done.
  pose proof (lru_bounded l). lia.
Qed.

Section ops.
Context {W : Type} `{L : !Lens (LruStore.t LN LH) W}.

(** A read that returns leaves the invariant, and finds everything that
    was asked for or nothing. *)
Lemma Get_inv c typ q w :
  inv (lget w) → query_wf q →
  match Get c typ q w with
  | (Return r, w') => inv (lget w') ∧ ∀ es, r = Ok es → full_answer q es
  | (Panic _, w') => w' = w ∧
      ∃ s e, q = QueryRange s e ∧ maxAlloc < u64 (e - s + 1) * 8
  | (Blocks, _) => False
  end.
Proof.
  intros Hinv Hq. pose proof Hinv as [Hn Hh Hc Hs]. unfold Get, read, mbind, prog_bind.
  destruct q as [s e|h].
  - unfold lift, make_pointers. destruct (Z.ltb_spec maxAlloc (u64 (e - s + 1) * 8)).
    { by eauto. }
    destruct Hq as [Hs' He].
    destruct (range_loop_total typ (Chain_Name c) s e [] (byNumber (lget w)) _ Hc Hs Hs')
      as [r Hr].
    pose proof (range_loop_map (S (Z.to_nat (size (lget w)))) typ (Chain_Name c) s e []
      (byNumber (lget w))) as [Hm Hc'].
    destruct (range_loop _ _ _ _ _ _ _) as [r' l] eqn:Hl. simpl in Hr, Hm, Hc'. subst r'.
    simpl. rewrite lget_lput. split.
    { split; simpl; [intros ????; rewrite Hm; apply Hn|exact Hh|congruence|done]. }
    intros es ->. apply (f_equal fst) in Hl. cbn [fst] in Hl.
    destruct (decide (e = two64 - 1)) as [->|Hne]; [by apply range_loop_max in Hl|].
    destruct (decide (s <= e + 1)) as [Hle|Hgt].
    + apply range_loop_full in Hl as (found & -> & Hf); [done|done|done| |done].
      unfold in_u64 in *. lia.
    + cbn [range_loop] in Hl. destruct (Z.leb_spec s e); [lia|]. injection Hl as <-.
      simpl. by rewrite seqZ_nil by lia.
  - destruct (lru_get_spec (typ, h, Chain_Name c) (byHash (lget w))) as (Hv & Hm & Hc').
    destruct (lru_get _ (byHash (lget w))) as [x l]. simpl in *.
    rewrite lget_lput. split.
    { split; simpl; [exact Hn|intros ????; rewrite Hm; apply Hh|done|done]. }
    destruct x as [x|]; intros es [= <-]. simpl. f_equal. by eapply Hh.
Qed.

#[export] Instance lru_spec : StoreSpec (W := W) (λ w, inv (lget w)) LruStore.store.
Proof.
  split; intros c typ.
  - intros q w r w' Hi Hq Hr. pose proof (Get_inv c typ q w Hi Hq) as Hg.
    cbn [LruStore.store st_Get] in Hr. rewrite Hr in Hg. destruct Hg as [Hi' Hes].
    split; [done|]. intros es He. by apply full_answer_answers, Hes.
  - intros es w r w' Hi [= <- <-]. rewrite lget_lput. by apply puts_inv.
Qed.

Lemma Put_run c typ es w :
  Put c typ es w
  = (Return None, lput (foldl (λ T e, put1 (Chain_Name c) typ e T) (lget w) es) w).
Proof. done. Qed.
End ops.
End lru.
End LruFacts.

(** ** Properties *)

Module BlockStoreProps.
Import LruStore LruFacts.

Section lru.
Context {LN LH : Type} `{SN : !Simplelru lruNumberKey Entry LN}
        `{SH : !Simplelru lruHashKey Entry LH}
        `{SNs : !SimplelruSpec lruNumberKey Entry LN}
        `{SHs : !SimplelruSpec lruHashKey Entry LH}.

(** The history of a store. *)
Inductive op : Type :=
  | OGet (c : Chain) (typ : EntryType) (q : Query)
  | OPut (c : Chain) (typ : EntryType) (es : list Entry).

Definition op_wf (o : op) : Prop :=
  match o with OGet _ _ q => query_wf q | OPut _ _ _ => True end.

Definition exec (T : LruStore.t LN LH) (o : op) : LruStore.t LN LH :=
  match o with
  | OGet c typ q => (LruStore.Get c typ q T).2
  | OPut c typ es => (LruStore.Put c typ es T).2
  end.

Definition after (n : Z) (ops : list op) : LruStore.t LN LH :=
  foldl exec (NewLruStore n) ops.

Lemma after_inv n ops : 0 < n < two64 → Forall op_wf ops → inv (after n ops).
Proof.
  intros Hn Hops. unfold after.
  assert (inv (NewLruStore n : LruStore.t LN LH)) as Hi by by apply NewLruStore_inv.
  revert Hi. generalize (NewLruStore n : LruStore.t LN LH).
  induction Hops as [|o ops Ho _ IH]; intros T HT; [done|]. apply IH.
  destruct o as [c typ q|c typ es]; simpl in *; [|by apply puts_inv].
  pose proof (Get_inv c typ q T HT Ho) as H.
  destruct (LruStore.Get c typ q T) as [[r|?|] T']; [apply H| |done].
  by destruct H as [-> _].
Qed.

(** C12: whatever was put into the memory store and read from it before, a
    read returns; it gives every entry that was asked for, in order and
    under its own number or hash, or none at all; only a range of more
    than 2^45 blocks makes it panic. *)
Theorem lru_get_sound n ops c typ q :
  0 < n < two64 → Forall op_wf ops → query_wf q →
  match LruStore.Get c typ q (after n ops) with
  | (Return (Ok es), _) => full_answer q es
  | (Return (Err e), _) => True
  | (Panic _, _) => ∃ s e, q = QueryRange s e ∧ maxAlloc < u64 (e - s + 1) * 8
  | (Blocks, _) => False
  end.
Proof.
  intros Hn Hops Hq.
  pose proof (Get_inv c typ q (after n ops) (after_inv n ops Hn Hops) Hq) as H.
  destruct (LruStore.Get c typ q (after n ops)) as [[[es|e]|?|] T']; try done.
  - by apply H.
  - by apply H.
Qed.

(** an entry that was just put is what a read of its hash and a read of
    its number give; and if it names its parent, the entry still held for
    the number before it, if any, is that parent: a fork was dropped. *)
Theorem lru_put_get n ops c typ e :
  0 < n < two64 → Forall op_wf ops → 0 <= BlockNumber e < two64 - 1 →
  let T := after n (ops ++ [OPut c typ [e]]) in
  (LruStore.Get c typ (QueryHash (BlockHash e)) T).1 = Return (Ok [e]) ∧
  (LruStore.Get c typ (QueryNumber (BlockNumber e)) T).1 = Return (Ok [e]) ∧
  ∀ p prev, ParentHash e = Some p →
    lru_map (byNumber T) !! (typ, u64 (BlockNumber e - 1), Chain_Name c) = Some prev →
    BlockHash prev = p.
Proof.
  intros Hn Hops Hb T. unfold after in T. subst T. rewrite foldl_app. cbn [foldl exec].
  fold (after n ops). pose proof (after_inv n ops Hn Hops) as Hi.
  generalize dependent (after n ops). intros T Hi.
  pose proof (put1_inv (Chain_Name c) typ e T Hi) as [_ _ Hc Hs].
  assert ((LruStore.Put c typ [e] T).2 = put1 (Chain_Name c) typ e T) as -> by done.
  set (T' := put1 (Chain_Name c) typ e T) in *.
  assert (lru_map (byNumber T') !! (typ, BlockNumber e, Chain_Name c) = Some e) as Hnum
    by apply lru_add_spec.
  assert (lru_map (byHash T') !! (typ, BlockHash e, Chain_Name c) = Some e) as Hhash
    by apply lru_add_spec.
  split_and!.
  - clearbody T'. unfold LruStore.Get, read, mbind, prog_bind. simpl. unfold id.
    destruct (lru_get_spec (typ, BlockHash e, Chain_Name c) (byHash T')) as (Hv & _).
    destruct (lru_get _ (byHash T')) as [x l]. simpl in *. by rewrite Hv, Hhash.
  - clearbody T'. unfold LruStore.Get, QueryNumber, read, mbind, prog_bind, lift, make_pointers.
    simpl. unfold id. rewrite Z.sub_diag. change (maxAlloc <? u64 (0 + 1) * 8) with false.
    cbv iota.
    assert (∃ k, Z.to_nat (size T') = S k) as [k Hk].
    { exists (Z.to_nat (size T') - 1)%nat. lia. }
    rewrite Hk. cbn [range_loop]. rewrite Z.leb_refl.
    destruct (lru_get_spec (typ, BlockNumber e, Chain_Name c) (byNumber T')) as (Hv & _).
    destruct (lru_get _ (byNumber T')) as [x l]. simpl in Hv. rewrite Hnum in Hv. subst x.
    rewrite u64_small by go_lia.
    destruct (Z.leb_spec (BlockNumber e + 1) (BlockNumber e)); [lia|]. done.
  - intros p prev Hp Hprev.
    destruct (checked_parent_spec (Chain_Name c) typ e (byNumber T)) as (_ & _ & Hlink).
    apply (Hlink p prev Hp). subst T'. unfold put1 in Hprev. cbn [byNumber] in Hprev.
    fold (checked_parent (Chain_Name c) typ e (byNumber T)) in Hprev.
    apply lru_add_spec in Hprev as [[[= He] _]|Hprev]; [|done].
    exfalso. destruct (decide (BlockNumber e = 0)) as [H0|H0].
    + rewrite H0 in He. vm_compute in He. done.
    + rewrite u64_small in He by go_lia. lia.
Qed.
End lru.

Section stores.
Context {W : Type}.

(** a compound of sound stores is sound: what it finds is about the
    blocks asked for, and what it copies into the stores that failed is
    too. *)
Theorem compound_sound (I : W → Prop) (T : Compound.t W) c typ q w es w' :
  Forall (λ ns, StoreSpec I ns.2) T → I w → query_wf q →
  st_Get (Compound.store T) c typ q w = (Return (Ok es), w') →
  answers_query q es ∧ I w'.
Proof.
  intros HT Hw Hq H. pose proof (compound_spec I T HT) as HS.
  destruct (get_sound _ _ _ _ _ _ Hw Hq H) as [Hw' He]. split; [by apply He|done].
Qed.

(** a read that the cache misses and the next store answers is copied
    into the cache; it is returned if the cache takes it, and lost if the
    cache fails: a cache that is down makes every read fail. *)
Theorem compound_read_through (cache backend : string * Store W) c typ q w e1 w1 es w2 p w3 :
  Compound.backwards q = false →
  st_Get cache.2 c typ q w = (Return (Err e1), w1) →
  st_Get backend.2 c typ q w1 = (Return (Ok es), w2) →
  st_Put cache.2 c typ es w2 = (Return p, w3) →
  st_Get (Compound.store [cache; backend]) c typ q w
  = (Return (match p with None => Ok es | Some e => Err e end), w3).
Proof.
  destruct cache as [n1 s1], backend as [n2 s2]. simpl. intros Hq H1 H2 H3.
  unfold Compound.Get. rewrite Hq. unfold mbind, prog_bind. cbn [Compound.find].
  unfold mbind, prog_bind. rewrite H1. cbn [Compound.find]. rewrite H2. simpl.
  unfold mbind, prog_bind. rewrite H3. by destruct p.
Qed.
End stores.

Section single_flight.
Context {W : Type} `{ES : EthSpec} (Hex : hash → string) `{HS : !HexSpec Hex}.
Context (DoChan : string → prog W (res goerr (list Entry)) → prog W (res goerr (list Entry))).
Context (ctx_done : prog W (option goerr)) (I : W → Prop) (underlying : Store W).
(** The result for a key is the result of a function run under that key:
    whatever holds of these holds of it. *)
Hypothesis DoChan_spec : ∀ (Q : string → res goerr (list Entry) → Prop),
  (∀ c typ q w r w', query_wf q → I w → st_Get underlying c typ q w = (Return r, w') →
     I w' ∧ Q (SingleFlight.group_key Hex c typ q) r) →
  ∀ c typ q w r w', query_wf q → I w →
    DoChan (SingleFlight.group_key Hex c typ q) (st_Get underlying c typ q) w = (Return r, w') →
    I w' ∧ Q (SingleFlight.group_key Hex c typ q) r.

(** sharing a read with concurrent ones gives nobody the answer to
    another question: two reads have the same key only if they are for the
    same chain, type and blocks, whatever the chain's name. *)
Theorem single_flight_sound `{US : !StoreSpec I underlying} c typ q w es w' :
  query_wf q → I w →
  SingleFlight.Get Hex DoChan ctx_done underlying c typ q w = (Return (Ok es), w') →
  answers_query q es.
Proof.
  intros Hq Hw H. unfold SingleFlight.Get in H. prog_inv H. prog_inv H.
  apply prog_ret_inv in H as [Ha _].
  destruct (DoChan_spec (λ k r, ∀ c' typ' q' es, query_wf q' →
    k = SingleFlight.group_key Hex c' typ' q' → r = Ok es → answers_query q' es))
    with c typ q w a w0 as [_ HQ]; [|done|done|exact Hm|].
  - intros c1 typ1 q1 w1' r w2 Hq1 Hw1 Hg.
    destruct (get_sound _ _ _ _ _ _ Hw1 Hq1 Hg) as [Hw2 He]. split; [done|].
    intros c' typ' q' es' Hq' Hk ->.
    apply (group_key_inj Hex) in Hk as (_ & _ & <-); [by apply He|done|done].
  - destruct a0; [done|]. subst a. by eapply HQ.
Qed.
End single_flight.
End BlockStoreProps.

(** *** Concrete stores *)

Module StdHex.
Import StdEth.

Definition Hex (h : hash) : string := "0x" +:+ hex_bytes h.

Lemma hex_bytes_length l : String.length (hex_bytes l) = (2 * List.length l)%nat.
Proof. induction l; simpl; lia. Qed.

Lemma hex_bytes_no_dot l : Forall (λ b, 0 <= b < 256) l → no_dot (hex_bytes l) = true.
Proof.
  induction 1 as [|b l Hb _ IH]; [done|]. simpl. destruct (nibbles b Hb).
  by rewrite !bool_decide_false, IH by (by apply hex_char_no_dot).
Qed.

#[export] Instance Hex_spec : HexSpec Hex.
Proof.
  assert (∀ h, Hex h = String "0" (String "x" (hex_bytes h))) as He by done.
  split; intros h; rewrite He.
  - intros [Hl _]. cbn [String.length]. by rewrite hex_bytes_length, Hl.
  - intros [_ Hf]. cbn [no_dot]. by rewrite hex_bytes_no_dot.
  - intros h' [_ Hf] [_ Hf']. rewrite He. intros [= H].
    pose proof (unhex_hex h Hf) as H1. rewrite H, (unhex_hex h' Hf') in H1. by injection H1.
Qed.
End StdHex.

Module BlockStoreWitness.
Import LruStore LruFacts BlockStoreProps StdEth StdJrpc.

#[local] Existing Instances StdLru.std_lru StdLru.std_lru_spec.
Abbreviation LN := (StdLru.t lruNumberKey Entry).
Abbreviation LH := (StdLru.t lruHashKey Entry).

Definition chain0 : Chain := {| Chain_Name := "ethereum"; Chain_Id := 1; Chain_Aliases := [];
  BlockTimeSeconds := QArith_base.inject_Z 12; Chain_Remotes := []; Stalk := None;
  ParsedStalk := true; ForgeBlockReceipts := false; Chain_MaxBlockLookback := 0 |}.
Definition entry (n : Z) : Entry := {| BlockHash := replicate 32 n; BlockNumber := n;
  ParentHash := Some (replicate 32 (n - 1)); Value := JNull |}.

Lemma lru_get_sound_witness :
  match LruStore.Get chain0 EntryLogs (QueryRange 6 7)
          (after 8 [OPut chain0 EntryLogs [entry 6; entry 7]] : LruStore.t LN LH) with
  | (Return (Ok es), _) => BlockNumber <$> es = [6; 7]
  | _ => False
  end.
Proof.
  pose proof (lru_get_sound (LN := LN) (LH := LH) 8 [OPut chain0 EntryLogs [entry 6; entry 7]]
    chain0 EntryLogs (QueryRange 6 7)) as H.
  assert (0 < 8 < two64) as H1 by (vm_compute; split; congruence).
  assert (Forall op_wf [OPut chain0 EntryLogs [entry 6; entry 7]]) as H2 by repeat constructor.
  assert (query_wf (QueryRange 6 7)) as H3.
  { vm_compute. repeat split; congruence. }
  specialize (H H1 H2 H3).
  destruct (LruStore.Get _ _ _ _) as [o T] eqn:E.
  assert (o = Return (Ok [entry 6; entry 7])) as ->.
  { transitivity (fst (o, T)); [reflexivity|]. rewrite <- E. vm_compute. reflexivity. }
  exact H.
Defined.

Lemma lru_put_get_witness :
  (LruStore.Get chain0 EntryLogs (QueryNumber 7)
     (after 8 ([] ++ [OPut chain0 EntryLogs [entry 7]]) : LruStore.t LN LH)).1
  = Return (Ok [entry 7]).
Proof.
  refine (proj1 (proj2 (lru_put_get (LN := LN) (LH := LH) 8 [] chain0 EntryLogs (entry 7) _ _ _))).
  - vm_compute. split; congruence.
  - constructor.
  - vm_compute. split; congruence.
Defined.

(** A cache that is down, and a backend with one block. *)
Definition down : Store () := {|
  st_Get _ _ _ := mret (Err (EText "connection refused"));
  st_Put _ _ _ := mret (Some (EText "connection refused")) |}.
Definition backend : Store () := {|
  st_Get _ _ q := mret (match q with QueryRange s e => if bool_decide (s = 7 ∧ e = 7)
      then Ok [entry 7] else Ok [] | QueryHash _ => Ok [] end);
  st_Put _ _ _ := mret None |}.

#[local] Instance down_spec : StoreSpec (λ _, True) down.
Proof. split; [|done]. intros c typ q w r w' _ _ [= <- <-]. done. Qed.
#[local] Instance backend_spec : StoreSpec (λ _, True) backend.
Proof.
  split; [|done]. intros c typ q w r w' _ _ [= <- <-]. split; [done|]. intros es.
  destruct q as [s e|h]; [|intros [= <-]; constructor].
  case_bool_decide as Hd; intros [= <-]; [|constructor].
  destruct Hd as [-> ->]. repeat constructor; simpl; lia.
Qed.

Lemma compound_sound_witness :
  answers_query (QueryNumber 7) [entry 7].
Proof.
  refine (proj1 (compound_sound (λ _, True) [("blockgetter", backend)] chain0 EntryLogs
    (QueryNumber 7) () [entry 7] () _ I _ _)).
  - constructor; [exact backend_spec|constructor].
  - vm_compute. repeat split; congruence.
  - vm_compute. reflexivity.
Defined.

Lemma compound_read_through_witness :
  st_Get (Compound.store [("rediblock", down); ("blockgetter", backend)])
    chain0 EntryLogs (QueryNumber 7) () = (Return (Err (EText "connection refused")), ()).
Proof.
  apply (compound_read_through ("rediblock", down) ("blockgetter", backend) chain0 EntryLogs
    (QueryNumber 7) () (EText "connection refused") () [entry 7] ()
    (Some (EText "connection refused")) ()); reflexivity.
Defined.

Lemma single_flight_sound_witness : answers_query (QueryNumber 7) [entry 7].
Proof.
  refine (single_flight_sound StdHex.Hex (λ _ f, f) (mret None) (λ _, True) backend _
    chain0 EntryLogs (QueryNumber 7) () [entry 7] () _ I _).
  - exact StdHex.Hex_spec.
  - intros Q HQ c typ q w r w' Hq Hw Hf. by apply (HQ c typ q w r w').
  - vm_compute. repeat split; congruence.
  - vm_compute. reflexivity.
Defined.
End BlockStoreWitness.
