(* ===== verification/Chainblock.v ===== *)
(** * Blocks from the remotes: [svc/node/stores/vennstores/chainblock/module.go]

    The last store of the node: it asks the cluster of the chain for the
    blocks, receipts and logs and cuts the answers into entries. *)
From S2P Require Import Prelude Errors Json EthTypes Config Rpc BlockStore.

(** [make] of a slice whose elements take [elem] bytes. *)
Definition make_slice (elem len : Z) : outcome () :=
  if maxAlloc <? len * elem then Panic "makeslice: len out of range" else Return ().

Module Chainblock.

Section chainblock.
Context {W : Type} `{J : Jrpc} `{E : Eth} `{X : Jx} `{Sn : Sonic}.
(** The middleware of the clusters around the handler for unknown chains,
    and the size of a [jx.Writer]. *)
Context (clusters_Middleware : handler W → handler W) (writer_size : Z).

(** [common.Hash{}]. *)
Definition no_hash (h : hash) : bool := bool_decide (h = zero_hash).

Definition entry (h : hash) (n : Z) (p : option hash) (v : json) : Entry :=
  {| BlockHash := h; BlockNumber := n; ParentHash := p; Value := v |}.

(** The loops over a range of [getBlockHeaders] and [getReceipts], from
    [i]; [fetch] gives the entry of a number, or none if it is missing,
    and [out] holds the entries of the numbers before. One turn more than
    there are numbers is enough: [range_turns]. *)
Fixpoint fetch_range (fetch : Z → prog W (res goerr (option Entry))) (start stop len : Z)
    (fuel : nat) (i : Z) (out : list Entry) : prog W (res goerr (list Entry)) :=
  if i <=? stop then
    match fuel with
    | O => block
    | S fuel =>
        x ← fetch i;
        match x with
        | Err e => mret (Err e)
        | Ok None => mret (Ok [])
        | Ok (Some e) =>
            if u64 (i - start) <? len
            then fetch_range fetch start stop len fuel (u64 (i + 1)) (out ++ [e])
            else panic "index out of range"
        end
    end
  else mret (Ok out).

Definition get_range (fetch : Z → prog W (res goerr (option Entry))) (start stop : Z)
    : prog W (res goerr (list Entry)) :=
  if stop <? start then mret (Ok [])
  else
    let len := u64 (stop - start + 1) in
    _ ← lift (make_slice 8 len);
    fetch_range fetch start stop len (S (Z.to_nat (stop - start + 1))) start [].

(** The number and the block, of [getBlockHeaders]. *)
Definition fetch_header (ctx : context) (remote : handler W) (i : Z)
    : prog W (res goerr (option Entry)) :=
  r ← Do ctx remote "eth_getBlockByNumber" (JArr [JStr (EncodeUint64 i); JBool true]);
  mret (v ← r;
        h ← sonic_hash "hash" v;
        p ← sonic_hash "parentHash" v;
        if no_hash h then Ok None else Ok (Some (entry h i (Some p) v))).

Definition getBlockHeaders (ctx : context) (remote : handler W) (q : Query)
    : prog W (res goerr (list Entry)) :=
  match q with
  | QueryHash hsh =>
      r ← Do ctx remote "eth_getBlockByHash" (JArr [hash_marshal hsh; JBool true]);
      mret (v ← r;
            h ← sonic_hash "hash" v;
            n ← sonic_number "number" v;
            p ← sonic_hash "parentHash" v;
            if bool_decide (h = hsh) then Ok [entry hsh n (Some p) v] else Ok [])
  | QueryRange s e => get_range (fetch_header ctx remote) s e
  end.

Definition fetch_receipts (ctx : context) (remote : handler W) (i : Z)
    : prog W (res goerr (option Entry)) :=
  r ← Do ctx remote "eth_getBlockReceipts" (JArr [JStr (EncodeUint64 i)]);
  mret (v ← r;
        first ← sonic_first v;
        h ← sonic_hash "blockHash" first;
        if no_hash h then Ok None else Ok (Some (entry h i None v))).

Definition getReceipts (ctx : context) (remote : handler W) (q : Query)
    : prog W (res goerr (list Entry)) :=
  match q with
  | QueryHash _ => mret (Err (EText "cannot get block receipts by hash"))
  | QueryRange s e => get_range (fetch_receipts ctx remote) s e
  end.

(** One log goes to the slot of its block; the slots of [getLogs] hold the
    tokens written for the block and its entry. *)
Definition slot : Type := list wtok * option Entry.

Definition add_log (start : Z) (slots : list slot) (raw : json) : res goerr (list slot) :=
  h ← sonic_hash "blockHash" raw;
  n ← sonic_number "blockNumber" raw;
  let i := i64 (u64 (n - start)) in
  if (i <? 0) || (Z.of_nat (List.length slots) <=? i) then Ok slots
  else
    Ok (alter (λ '(enc, res),
          ((match enc with [] => [WArrStart] | _ => enc ++ [WComma] end) ++ [WRaw raw],
           match res with Some e => Some e | None => Some (entry h n None JNull) end))
          (Z.to_nat i) slots).

Fixpoint add_logs (start : Z) (slots : list slot) (logs : list json) : res goerr (list slot) :=
  match logs with
  | [] => Ok slots
  | log :: logs =>
      raw ← jx_raw log;
      slots' ← add_log start slots raw;
      add_logs start slots' logs
  end.

(** The slots that got an entry, with their text. *)
Definition close_slots (slots : list slot) : list Entry :=
  omap (λ '(enc, res),
    (λ x, entry (BlockHash x) (BlockNumber x) (ParentHash x) (jx_buf (enc ++ [WArrEnd]))) <$> res)
    slots.

Definition range_filter (from to : Z) : FilterQuery :=
  {| EthTypes.BlockHash := None; FromBlock := Some from; ToBlock := Some to;
     Addresses := []; Topics := [] |}.
Definition hash_filter (h : hash) : FilterQuery :=
  {| EthTypes.BlockHash := Some h; FromBlock := None; ToBlock := None;
     Addresses := []; Topics := [] |}.

Definition getLogs (ctx : context) (remote : handler W) (q : Query)
    : prog W (res goerr (list Entry)) :=
  match q with
  | QueryHash hsh =>
      r ← Do ctx remote "eth_getLogs" (JArr [FilterQuery_marshal (hash_filter hsh)]);
      mret (v ← r;
            first ← sonic_first v;
            h ← sonic_hash "blockHash" first;
            n ← sonic_number "blockNumber" first;
            if bool_decide (h = hsh) then Ok [entry hsh n None v] else Ok [])
  | QueryRange s e =>
      if e <? s then mret (Ok [])
      else
        let fromBlock := i64 s in
        let toBlock := i64 e in
        r ← Do ctx remote "eth_getLogs"
              (JArr [FilterQuery_marshal (range_filter fromBlock toBlock)]);
        match r with
        | Err e => mret (Err e)
        | Ok logs =>
            if fromBlock =? toBlock then
              mret (first ← sonic_first logs;
                    h ← sonic_hash "blockHash" first;
                    if no_hash h then Ok [] else Ok [entry h s None logs])
            else
              let len := u64 (e - s + 1) in
              _ ← lift (make_slice writer_size len);
              _ ← lift (make_slice 8 len);
              mret (arr ← jx_arr logs;
                    slots ← add_logs s (replicate (Z.to_nat len) ([], None)) arr;
                    Ok (close_slots slots))
        end
  end.

Definition Put (_ : Chain) (_ : EntryType) (_ : list Entry) : prog W (option goerr) :=
  mret None.

Definition Get (ctx : context) (chain : Chain) (typ : EntryType) (q : Query)
    : prog W (res goerr (list Entry)) :=
  let ctx := WithChain ctx chain in
  let handler := clusters_Middleware (λ _,
    send_err (NewInvalidRequestError ("chain not supported: " +:+ Chain_Name chain))) in
  match typ with
  | EntryBlockHeader => getBlockHeaders ctx handler q
  | EntryReceipts => getReceipts ctx handler q
  | EntryLogs => getLogs ctx handler q
  end.

Definition store (ctx : context) : Store W := {| st_Get := Get ctx; st_Put := Put |}.
End chainblock.
End Chainblock.

(** ** Lemmas *)

Module ChainblockFacts.
Import Chainblock.

(** Words stay apart as signed numbers. *)
Lemma i64_inj a b : in_u64 a → in_u64 b → i64 a = i64 b → a = b.
Proof.
  unfold i64, in_u64. intros Ha Hb H.
  assert ((a + two63) mod two64 = (b + two63) mod two64) as Hm by lia.
  assert (∀ x, 0 <= x < two64 → (x + two63) mod two64 = x + two63 - (if x <? two63 then 0 else two64)) as Hx.
  { intros x Hx. destruct (Z.ltb_spec x two63); [rewrite Z.mod_small; go_lia|].
    replace (x + two63) with (x + two63 - two64 + 1 * two64) at 1 by lia.
    rewrite Z.mod_add, Z.mod_small by go_lia. done. }
  rewrite !Hx in Hm by done. destruct (Z.ltb_spec a two63), (Z.ltb_spec b two63); go_lia.
Qed.

(** A slice that is made is not too long. *)
Lemma make_slice_len elem len : make_slice elem len = Return () → len * elem <= maxAlloc.
Proof. unfold make_slice. by destruct (Z.ltb_spec maxAlloc (len * elem)). Qed.

Section ranges.
Context {W : Type}.

Lemma lift_run {A} (o : outcome A) (a : A) (w w' : W) :
  lift o w = (Return a, w') → o = Return a ∧ w' = w.
Proof. unfold lift. by intros [= -> ->]. Qed.

(** A fetch that gives entries the number it was asked for. *)
Definition numbered (fetch : Z → prog W (res goerr (option Entry))) : Prop :=
  ∀ i w e w', fetch i w = (Return (Ok (Some e)), w') → BlockNumber e = i.

(** Past the largest number the loop starts over at 0, outside the slice. *)
Lemma fetch_range_wrapped (fetch : Z → prog W (res goerr (option Entry))) s fuel out w es w' :
  0 < s < two64 →
  fetch_range fetch s (two64 - 1) (u64 (two64 - 1 - s + 1)) fuel 0 out w
  = (Return (Ok es), w') → es = [].
Proof.
  intros Hs. destruct fuel as [|fuel]; [done|]. cbn [fetch_range].
  change (0 <=? two64 - 1) with true. cbv iota. intros H.
  prog_inv H. destruct a as [[x|]|err]; [|by apply prog_ret_inv in H as [[= <-] _]
    |by apply prog_ret_inv in H as [[=] _]].
  exfalso. revert H. replace (u64 (0 - s)) with (u64 (two64 - 1 - s + 1)).
  - by rewrite Z.ltb_irrefl.
  - unfold u64. replace (two64 - 1 - s + 1) with (0 - s + 1 * two64) by lia.
    by rewrite Z.mod_add.
Qed.

Lemma fetch_range_full fetch s e fuel i out w es w' :
  numbered fetch → in_u64 s → in_u64 e → s <= i <= e + 1 → in_u64 i →
  BlockNumber <$> out = seqZ s (i - s) →
  fetch_range fetch s e (u64 (e - s + 1)) fuel i out w = (Return (Ok es), w') →
  es = [] ∨ BlockNumber <$> es = seqZ s (e - s + 1).
Proof.
  intros Hf Hs He. revert i out w.
  induction fuel as [|fuel IH]; intros i out w Hi Hi' Hout H; cbn [fetch_range] in H;
    destruct (Z.leb_spec i e); try done.
  1, 3: apply prog_ret_inv in H as [[= <-] _]; right; rewrite Hout; f_equal; lia.
  prog_inv H. destruct a as [[x|]|err]; [|by apply prog_ret_inv in H as [[= <-] _]; left
    |by apply prog_ret_inv in H as [[=] _]].
  destruct (Z.ltb_spec (u64 (i - s)) (u64 (e - s + 1))) as [Hlt|]; [|done].
  destruct (decide (i = two64 - 1)) as [->|Hne].
  - assert (e = two64 - 1) as -> by go_lia.
    destruct (decide (s = 0)) as [->|]; [by vm_compute in Hlt|].
    left. apply (fetch_range_wrapped fetch s fuel _ _ _ _ ltac:(go_lia)) in H. done.
  - rewrite (u64_small (i + 1)) in H by go_lia.
    apply IH in H; [done|lia|go_lia|].
    rewrite fmap_app, Hout. simpl. rewrite (Hf _ _ _ _ Hm).
    replace (i + 1 - s) with ((i - s) + 1) by lia.
    rewrite seqZ_app by lia. replace (s + (i - s)) with i by lia. done.
Qed.

Lemma get_range_full fetch s e w es w' :
  numbered fetch → in_u64 s → in_u64 e →
  get_range fetch s e w = (Return (Ok es), w') →
  es = [] ∨ BlockNumber <$> es = seqZ s (e - s + 1).
Proof.
  intros Hf Hs He. unfold get_range. destruct (Z.ltb_spec e s).
  { intros [= <- _]. by left. }
  intros Hr. prog_inv Hr. apply fetch_range_full in Hr; try done; [lia|].
  by rewrite Z.sub_diag.
Qed.

(** The loop's turns are enough: it ends if every fetch does. *)
Lemma fetch_range_total (fetch : Z → prog W (res goerr (option Entry))) s e fuel i out w :
  (∀ i w, (fetch i w).1 ≠ Blocks) → in_u64 s → in_u64 e → s <= i <= e + 1 →
  in_u64 i → e + 1 - i < Z.of_nat fuel →
  (fetch_range fetch s e (u64 (e - s + 1)) fuel i out w).1 ≠ Blocks.
Proof.
  intros Hf Hs He. revert i out w.
  induction fuel as [|fuel IH]; intros i out w Hi Hi' Hfuel; cbn [fetch_range];
    destruct (Z.leb_spec i e); try done; [lia|].
  unfold mbind, prog_bind. pose proof (Hf i w).
  destruct (fetch i w) as [[[[x|]|err]|?|] w1]; try done.
  destruct (Z.ltb_spec (u64 (i - s)) (u64 (e - s + 1))) as [Hlt|]; [|done].
  destruct (decide (i = two64 - 1)) as [->|Hne].
  - assert (e = two64 - 1) as -> by go_lia.
    destruct (decide (s = 0)) as [->|]; [by vm_compute in Hlt|].
    change (u64 (two64 - 1 + 1)) with 0. destruct fuel as [|fuel]; [lia|].
    cbn [fetch_range]. change (0 <=? two64 - 1) with true. cbv iota.
    unfold mbind, prog_bind. pose proof (Hf 0 w1).
    destruct (fetch 0 w1) as [[[[y|]|err]|?|] w2]; try done.
    replace (u64 (0 - s)) with (u64 (two64 - 1 - s + 1)); [by rewrite Z.ltb_irrefl|].
    unfold u64. replace (two64 - 1 - s + 1) with (0 - s + 1 * two64) by lia.
    by rewrite Z.mod_add.
  - rewrite (u64_small (i + 1)) by go_lia. apply IH; [lia|go_lia|lia].
Qed.
End ranges.

(** *** The grouping of logs *)

Section logs.
Context `{XS : JxSpec} `{SnS : SonicSpec}.

(** A log the code can place: it has a block, and its text is valid. *)
Definition readable (hash_of : json → hash) (number_of : json → Z) (log : json) : Prop :=
  sonic_hash "blockHash" log = Ok (hash_of log) ∧
  sonic_number "blockNumber" log = Ok (number_of log).
Definition placed (hash_of : json → hash) (number_of : json → Z) (log : json) : Prop :=
  json_valid log = true ∧ readable hash_of number_of log.

Context (hash_of : json → hash) (number_of : json → Z).

Definition block_logs (logs : list json) (n : Z) : list json :=
  filter (λ v, number_of v = n) logs.

(** The entry of a block, abstractly: its logs, in their order. *)
Definition block_entry (logs : list json) (n : Z) : option Entry :=
  match block_logs logs n with
  | [] => None
  | log :: rest => Some (entry (hash_of log) n None (JArr (log :: rest)))
  end.

(** The tokens written for the logs of a block so far. *)
Definition block_tokens (l : list json) : list wtok :=
  match l with [] => [] | _ => WArrStart :: wjoin (map (λ v, [WRaw v]) l) end.

Definition block_slot (logs : list json) (n : Z) : slot :=
  (block_tokens (block_logs logs n),
   match block_logs logs n with
   | [] => None
   | log :: _ => Some (entry (hash_of log) n None JNull)
   end).

Lemma wjoin_snoc (l : list (list wtok)) x :
  l ≠ [] → wjoin (l ++ [x]) = wjoin l ++ WComma :: x.
Proof.
  induction l as [|y l IH]; [done|]. intros _. destruct l as [|z l]; [done|].
  change (wjoin ((y :: z :: l) ++ [x])) with (y ++ WComma :: wjoin ((z :: l) ++ [x])).
  rewrite IH by done. change (wjoin (y :: z :: l)) with (y ++ WComma :: wjoin (z :: l)).
  by rewrite <- app_assoc.
Qed.

Lemma block_tokens_snoc l v :
  block_tokens (l ++ [v])
  = (match block_tokens l with [] => [WArrStart] | enc => enc ++ [WComma] end) ++ [WRaw v].
Proof.
  destruct l as [|x l]; [done|]. unfold block_tokens at 1.
  change ((x :: l) ++ [v]) with (x :: (l ++ [v])).
  cbv iota. change (x :: (l ++ [v])) with ((x :: l) ++ [v]).
  rewrite map_app. change (map (λ v, [WRaw v]) [v]) with [[WRaw v]].
  rewrite wjoin_snoc by done. unfold block_tokens. cbn [app]. by rewrite <- app_assoc.
Qed.

Lemma block_tokens_buf l :
  l ≠ [] → jx_buf (block_tokens l ++ [WArrEnd]) = JArr l.
Proof.
  intros Hl. pose proof (jx_buf_spec (DArr (map DRaw l))) as H.
  cbn [doc_tokens doc_json] in H. rewrite !map_map in H. cbn [doc_tokens doc_json] in H.
  rewrite map_id in H. rewrite <- H. by destruct l.
Qed.

Lemma block_slot_snoc logs v n :
  block_slot (logs ++ [v]) n
  = if decide (number_of v = n) then
      let '(enc, res) := block_slot logs n in
      ((match enc with [] => [WArrStart] | _ => enc ++ [WComma] end) ++ [WRaw v],
       match res with Some e => Some e | None => Some (entry (hash_of v) n None JNull) end)
    else block_slot logs n.
Proof.
  unfold block_slot, block_logs. rewrite filter_app, filter_cons, filter_nil.
  destruct (decide (number_of v = n)) as [Hn|Hn]; [|by rewrite app_nil_r].
  rewrite block_tokens_snoc. f_equal; [by destruct (block_tokens _)|].
  by destruct (filter _ logs).
Qed.

Definition slots_of (s e : Z) (logs : list json) : list slot :=
  block_slot logs <$> seqZ s (e - s + 1).

(** The offset of a number outside the range is outside the slots, wrapped around
    or not. *)
Lemma slot_outside s e n :
  in_u64 s → in_u64 e → in_u64 n → ¬ (s <= n <= e) →
  0 <= i64 (u64 (n - s)) → e - s + 1 <= i64 (u64 (n - s)).
Proof.
  intros Hs He Hr Hout Hge. unfold in_u64 in *. pose proof (u64_range (n - s)) as Hur.
  assert (u64 (n - s) < two63) as Hu.
  { unfold i64, in_u64 in *. destruct (Z.lt_ge_cases (u64 (n - s)) two63) as [|Hbig]; [done|].
    exfalso. revert Hge. replace (u64 (n - s) + two63)
      with (u64 (n - s) - two63 + 1 * two64) by go_lia.
    rewrite Z.mod_add, Z.mod_small by go_lia. go_lia. }
  rewrite i64_small by go_lia. unfold u64 in *. destruct (Z.lt_ge_cases n s).
  - replace (n - s) with (n - s + two64 + (-1) * two64) by lia.
    rewrite Z.mod_add, Z.mod_small by go_lia. go_lia.
  - rewrite Z.mod_small by go_lia. lia.
Qed.

Lemma add_log_slots s e logs v :
  in_u64 s → in_u64 e → s <= e → e - s + 1 < two63 →
  readable hash_of number_of v →
  add_log s (slots_of s e logs) v = Ok (slots_of s e (logs ++ [v])).
Proof.
  intros Hs He Hse Hlen (Hh & Hn). unfold add_log. rewrite Hh, Hn. cbn [mbind res_bind].
  pose proof (sonic_number_range _ _ _ Hn) as Hr.
  assert (List.length (slots_of s e logs) = Z.to_nat (e - s + 1)) as Hl.
  { unfold slots_of. by rewrite length_fmap, length_seqZ. }
  assert (∀ n, n ≠ number_of v → block_slot (logs ++ [v]) n = block_slot logs n) as Hother.
  { intros n Hne. rewrite block_slot_snoc. by rewrite decide_False. }
  destruct (decide (s <= number_of v <= e)) as [Hin|Hout].
  - rewrite u64_small by go_lia. rewrite i64_small by go_lia.
    destruct (Z.ltb_spec (number_of v - s) 0); [lia|].
    destruct (Z.leb_spec (Z.of_nat (List.length (slots_of s e logs))) (number_of v - s)); [lia|].
    simpl. f_equal. apply list_eq. intros k.
    destruct (decide (k = Z.to_nat (number_of v - s))) as [->|Hk].
    + rewrite list_lookup_alter_eq. unfold slots_of. rewrite !list_lookup_fmap.
      rewrite lookup_seqZ_lt by lia. simpl.
      replace (s + Z.of_nat (Z.to_nat (number_of v - s))) with (number_of v) by lia.
      rewrite block_slot_snoc, decide_True by done.
      reflexivity.
    + rewrite list_lookup_alter_ne by done. unfold slots_of. rewrite !list_lookup_fmap.
      destruct (seqZ s (e - s + 1) !! k) as [n|] eqn:Hq; [|done]. simpl.
      apply lookup_seqZ in Hq as [-> Hq]. rewrite Hother by lia. done.
  - assert (slots_of s e (logs ++ [v]) = slots_of s e logs) as ->.
    { unfold slots_of. apply list_fmap_ext. intros k n Hq.
      apply lookup_seqZ in Hq as [-> Hq]. apply Hother. lia. }
    rewrite Hl.
    destruct (Z.ltb_spec (i64 (u64 (number_of v - s))) 0) as [|Hge]; [done|].
    destruct (Z.leb_spec (Z.of_nat (Z.to_nat (e - s + 1))) (i64 (u64 (number_of v - s))))
      as [|Hlt]; [done|].
    pose proof (slot_outside s e (number_of v) Hs He Hr Hout Hge). lia.
Qed.

Lemma add_logs_slots s e done logs :
  in_u64 s → in_u64 e → s <= e → e - s + 1 < two63 →
  Forall (placed hash_of number_of) logs →
  add_logs s (slots_of s e done) logs = Ok (slots_of s e (done ++ logs)).
Proof.
  intros Hs He Hse Hlen Hlogs. revert done.
  induction Hlogs as [|v logs Hv _ IH]; intros done; [by rewrite app_nil_r|].
  cbn [add_logs]. destruct Hv as [Hvalid Hv]. rewrite jx_raw_spec by done. cbn [mbind res_bind].
  rewrite add_log_slots by done. cbn [mbind res_bind]. rewrite IH.
  by rewrite <- app_assoc.
Qed.

Lemma close_slots_of s e logs :
  close_slots (slots_of s e logs) = omap (block_entry logs) (seqZ s (e - s + 1)).
Proof.
  unfold slots_of. induction (seqZ s (e - s + 1)) as [|n l IH]; [done|].
  rewrite fmap_cons. cbn [close_slots omap list_omap]. fold (omap (block_entry logs) l).
  unfold close_slots in IH. 
  unfold block_slot at 1, block_entry at 1.
  destruct (block_logs logs n) as [|v k] eqn:Hb; simpl.
  - exact IH.
  - rewrite IH. f_equal. unfold entry. simpl. f_equal.
    change (WArrStart :: wjoin ([WRaw v] :: map (λ v, [WRaw v]) k)) with (block_tokens (v :: k)).
    pose proof (block_tokens_buf (v :: k) ltac:(done)) as H. exact H.
Qed.

Lemma slots_of_nil s e : slots_of s e [] = replicate (Z.to_nat (e - s + 1)) ([], None).
Proof.
  unfold slots_of. rewrite <- (length_seqZ s). induction (seqZ s (e - s + 1)) as [|n l IH]; [done|].
  cbn [fmap list_fmap List.length replicate]. by f_equal.
Qed.
End logs.

(** *** What an answer is made of *)

Section made.
Context {W : Type} `{J : Jrpc} `{E : Eth} `{XS : JxSpec} `{SnS : SonicSpec}.
Context (ctx : context) (remote : handler W).

(** The labels that the code takes from the answer: those of a header, and
    those of a list of receipts or logs, from the first of them. *)
Definition header_labels (e : Entry) : Prop :=
  sonic_hash "hash" (Value e) = Ok (BlockHash e) ∧
  ∃ p, sonic_hash "parentHash" (Value e) = Ok p ∧ ParentHash e = Some p.
Definition first_labels (e : Entry) : Prop :=
  ∃ first, sonic_first (Value e) = Ok first ∧
    sonic_hash "blockHash" first = Ok (BlockHash e) ∧ ParentHash e = None.

(** Entries for the numbers from [n] on, each the answer to the request for its
    number; the requests are made one after the other. *)
Inductive told_in_turn (ask : Z → prog W (res goerr json)) (labels : Entry → Prop)
    : Z → list Entry → W → W → Prop :=
  | told_nil n w : told_in_turn ask labels n [] w w
  | told_cons n e es w w1 w2 :
      ask n w = (Return (Ok (Value e)), w1) → BlockNumber e = n → labels e →
      told_in_turn ask labels (n + 1) es w1 w2 →
      told_in_turn ask labels n (e :: es) w w2.

Definition ask_header (n : Z) : prog W (res goerr json) :=
  Do ctx remote "eth_getBlockByNumber" (JArr [JStr (EncodeUint64 n); JBool true]).
Definition ask_receipts (n : Z) : prog W (res goerr json) :=
  Do ctx remote "eth_getBlockReceipts" (JArr [JStr (EncodeUint64 n)]).
Definition ask_logs (f : FilterQuery) : prog W (res goerr json) :=
  Do ctx remote "eth_getLogs" (JArr [FilterQuery_marshal f]).

(** The block of a log, as it is read. *)
Definition log_hash (v : json) : hash :=
  match sonic_hash "blockHash" v with Ok h => h | Err _ => zero_hash end.
Definition log_number (v : json) : Z :=
  match sonic_number "blockNumber" v with Ok n => n | Err _ => 0 end.

(** What the store gives for a query, from the answers to its requests. *)
Inductive made : EntryType → Query → list Entry → W → W → Prop :=
  | made_none typ q w w' : made typ q [] w w'
  | made_headers s e es w w' :
      Z.of_nat (List.length es) = e - s + 1 → told_in_turn ask_header header_labels s es w w' →
      made EntryBlockHeader (QueryRange s e) es w w'
  | made_header h e w w' :
      Do ctx remote "eth_getBlockByHash" (JArr [hash_marshal h; JBool true]) w
        = (Return (Ok (Value e)), w') →
      BlockHash e = h → header_labels e → sonic_number "number" (Value e) = Ok (BlockNumber e) →
      made EntryBlockHeader (QueryHash h) [e] w w'
  | made_receipts s e es w w' :
      Z.of_nat (List.length es) = e - s + 1 → told_in_turn ask_receipts first_labels s es w w' →
      made EntryReceipts (QueryRange s e) es w w'
  | made_block_logs n e w w' :
      ask_logs (range_filter (i64 n) (i64 n)) w = (Return (Ok (Value e)), w') →
      BlockNumber e = n → first_labels e →
      made EntryLogs (QueryRange n n) [e] w w'
  | made_range_logs s e answer arr logs w w' :
      s < e → ask_logs (range_filter (i64 s) (i64 e)) w = (Return (Ok answer), w') →
      jx_arr answer = Ok arr → Forall2 (λ v raw, jx_raw v = Ok raw) arr logs →
      Forall (readable log_hash log_number) logs →
      made EntryLogs (QueryRange s e)
        (omap (block_entry log_hash log_number logs) (seqZ s (e - s + 1))) w w'
  | made_hash_logs h e w w' :
      ask_logs (hash_filter h) w = (Return (Ok (Value e)), w') →
      BlockHash e = h → first_labels e →
      (∃ first, sonic_first (Value e) = Ok first ∧
         sonic_number "blockNumber" first = Ok (BlockNumber e)) →
      made EntryLogs (QueryHash h) [e] w w'.

(** A fetch of a range that asks and labels. *)
Definition asks (fetch : Z → prog W (res goerr (option Entry)))
    (ask : Z → prog W (res goerr json)) (labels : Entry → Prop) : Prop :=
  ∀ i w e w', fetch i w = (Return (Ok (Some e)), w') →
    ask i w = (Return (Ok (Value e)), w') ∧ BlockNumber e = i ∧ labels e.

Lemma fetch_header_asks : asks (fetch_header ctx remote) ask_header header_labels.
Proof.
  intros i w e w' H. unfold fetch_header in H. prog_inv H.
  apply prog_ret_inv in H as [H ->]. destruct a as [v|]; [|done]. cbn in H.
  destruct (sonic_hash "hash" v) as [h|] eqn:Hh; [|done]. cbn in H.
  destruct (sonic_hash "parentHash" v) as [p|] eqn:Hp; [|done]. cbn in H.
  destruct (no_hash h); [done|]. injection H as <-. split; [done|]. split; [done|]. split; eauto.
Qed.

Lemma fetch_receipts_asks : asks (fetch_receipts ctx remote) ask_receipts first_labels.
Proof.
  intros i w e w' H. unfold fetch_receipts in H. prog_inv H.
  apply prog_ret_inv in H as [H ->]. destruct a as [v|]; [|done]. cbn in H.
  destruct (sonic_first v) as [f|] eqn:Hf; [|done]. cbn in H.
  destruct (sonic_hash "blockHash" f) as [h|] eqn:Hh; [|done]. cbn in H.
  destruct (no_hash h); [done|]. injection H as <-. split; [done|]. split; [done|]. by exists f.
Qed.

Section range.
Context (fetch : Z → prog W (res goerr (option Entry))) (ask : Z → prog W (res goerr json)).
Context (labels : Entry → Prop) (Hasks : asks fetch ask labels).

Lemma fetch_range_told s e fuel i out w es w' :
  in_u64 s → in_u64 e → s <= i <= e + 1 → in_u64 i →
  fetch_range fetch s e (u64 (e - s + 1)) fuel i out w = (Return (Ok es), w') →
  es = [] ∨ ∃ es', es = out ++ es' ∧ Z.of_nat (List.length es') = e + 1 - i ∧
                   told_in_turn ask labels i es' w w'.
Proof.
  intros Hs He. revert i out w.
  induction fuel as [|fuel IH]; intros i out w Hi Hi' H; cbn [fetch_range] in H;
    destruct (Z.leb_spec i e); try done.
  1, 3: apply prog_ret_inv in H as [[= <-] ->]; right; exists []; rewrite app_nil_r;
    split; [done|]; split; [simpl; lia|constructor].
  prog_inv H. destruct a as [[x|]|err]; [|by apply prog_ret_inv in H as [[= <-] _]; left
    |by apply prog_ret_inv in H as [[=] _]].
  destruct (Z.ltb_spec (u64 (i - s)) (u64 (e - s + 1))) as [Hlt|]; [|done].
  destruct (Hasks _ _ _ _ Hm) as (Hask & Hn & Hl).
  destruct (decide (i = two64 - 1)) as [->|Hne].
  - assert (e = two64 - 1) as -> by go_lia.
    destruct (decide (s = 0)) as [->|]; [by vm_compute in Hlt|].
    left. by apply (fetch_range_wrapped fetch s fuel _ _ _ _ ltac:(go_lia)) in H.
  - rewrite (u64_small (i + 1)) in H by go_lia.
    apply IH in H as [->|(es' & -> & Hlen & Ht)]; [by left|right|lia|go_lia].
    exists (x :: es'). rewrite <- app_assoc. split; [done|]. split; [simpl; lia|].
    by eapply told_cons.
Qed.

Lemma get_range_told s e w es w' :
  in_u64 s → in_u64 e → get_range fetch s e w = (Return (Ok es), w') →
  es = [] ∨ Z.of_nat (List.length es) = e - s + 1 ∧ told_in_turn ask labels s es w w'.
Proof.
  intros Hs He. unfold get_range. destruct (Z.ltb_spec e s).
  { intros [= <- _]. by left. }
  intros Hr. prog_inv Hr. apply lift_run in Hm as [_ ->].
  apply fetch_range_told in Hr as [->|(es' & -> & Hlen & Ht)]; [by left|right|done..|lia|done].
  split; [simpl; lia|done].
Qed.
End range.

(** Without slots there is no entry. *)
Lemma add_logs_nowhere s arr slots : add_logs s [] arr = Ok slots → slots = [].
Proof.
  induction arr as [|v arr IH]; cbn [add_logs]; [by intros [= <-]|].
  destruct (jx_raw v) as [raw|]; [|done]. cbn [mbind res_bind].
  destruct (add_log s [] raw) as [x|] eqn:Ha; [|done]. cbn [mbind res_bind].
  assert (x = []) as ->; [|done]. revert Ha. unfold add_log.
  destruct (sonic_hash "blockHash" raw); [|done]. cbn [mbind res_bind].
  destruct (sonic_number "blockNumber" raw); [|done]. cbn [mbind res_bind].
  destruct (_ || _); by intros [= <-].
Qed.

(** A list of logs that was grouped was read. *)
Lemma add_logs_read s e arr before slots :
  in_u64 s → in_u64 e → s <= e → e - s + 1 < two63 →
  add_logs s (slots_of log_hash log_number s e before) arr = Ok slots →
  ∃ logs, Forall2 (λ v raw, jx_raw v = Ok raw) arr logs ∧
    Forall (readable log_hash log_number) logs ∧
    slots = slots_of log_hash log_number s e (before ++ logs).
Proof.
  intros Hs He Hse Hlen. revert before. induction arr as [|v arr IH]; intros before H.
  { injection H as <-. exists []. rewrite app_nil_r. by split_and!. }
  cbn [add_logs] in H. destruct (jx_raw v) as [raw|] eqn:Hraw; [|done]. cbn [mbind res_bind] in H.
  assert (∀ x, add_log s (slots_of log_hash log_number s e before) raw = Ok x →
    readable log_hash log_number raw) as Hread.
  { intros x. unfold add_log, readable, log_hash, log_number.
    destruct (sonic_hash "blockHash" raw); [|done]. cbn [mbind res_bind].
    by destruct (sonic_number "blockNumber" raw). }
  destruct (add_log s _ raw) as [x|] eqn:Hadd; [|done]. specialize (Hread _ eq_refl).
  rewrite add_log_slots in Hadd by done. injection Hadd as <-. cbn [mbind res_bind] in H.
  apply IH in H as (logs & Hl & Hr & ->). exists (raw :: logs).
  rewrite <- app_assoc. split_and!; [by constructor..|done].
Qed.
End made.
End ChainblockFacts.

(** ** Properties *)

Module ChainblockProps.
Import Chainblock ChainblockFacts.

Section props.
Context {W : Type} `{J : Jrpc} `{E : Eth} `{XS : JxSpec} `{SnS : SonicSpec}.
Context (clusters_Middleware : handler W → handler W) (writer_size : Z).

Lemma fetch_header_numbered ctx (remote : handler W) :
  numbered (fetch_header ctx remote).
Proof.
  intros i w e w' H. unfold fetch_header in H. prog_inv H.
  apply prog_ret_inv in H as [H _]. destruct a as [v|]; [|done]. cbn in H.
  destruct (sonic_hash "hash" v) as [h|]; [|done]. cbn in H.
  destruct (sonic_hash "parentHash" v) as [p|]; [|done]. cbn in H.
  destruct (no_hash h); [done|]. by injection H as <-.
Qed.

Lemma fetch_receipts_numbered ctx (remote : handler W) :
  numbered (fetch_receipts ctx remote).
Proof.
  intros i w e w' H. unfold fetch_receipts in H. prog_inv H.
  apply prog_ret_inv in H as [H _]. destruct a as [v|]; [|done]. cbn in H.
  destruct (sonic_first v) as [f|]; [|done]. cbn in H.
  destruct (sonic_hash "blockHash" f) as [h|]; [|done]. cbn in H.
  destruct (no_hash h); [done|]. by injection H as <-.
Qed.

Lemma full_or_none s e (es : list Entry) :
  es = [] ∨ BlockNumber <$> es = seqZ s (e - s + 1) → answers_query (QueryRange s e) es.
Proof.
  intros [->|H]; [constructor|]. by apply (full_answer_answers (QueryRange s e)).
Qed.

(** block headers and receipts of a range come complete and in order,
    or not at all. *)
Theorem chainblock_range_complete ctx chain typ s e w es w' :
  typ = EntryBlockHeader ∨ typ = EntryReceipts → in_u64 s → in_u64 e →
  Get clusters_Middleware writer_size ctx chain typ (QueryRange s e) w = (Return (Ok es), w') →
  es = [] ∨ BlockNumber <$> es = seqZ s (e - s + 1).
Proof.
  intros [Ht|Ht] Hs He; subst typ; unfold Get; cbn [getBlockHeaders getReceipts];
    apply get_range_full; auto using fetch_header_numbered, fetch_receipts_numbered.
Qed.

(** The block of a log in the slots is within the range. *)
Lemma add_logs_in_range s e slots logs slots' :
  in_u64 s → in_u64 e → s <= e → Z.of_nat (List.length slots) <= e - s + 1 →
  Forall (λ sl : slot, ∀ x, sl.2 = Some x → s <= BlockNumber x <= e) slots →
  add_logs s slots logs = Ok slots' →
  Forall (λ sl : slot, ∀ x, sl.2 = Some x → s <= BlockNumber x <= e) slots'.
Proof.
  intros Hs He Hse. revert slots.
  induction logs as [|v logs IH]; intros slots Hl Hall H; [by injection H as <-|].
  cbn [add_logs] in H. destruct (jx_raw v) as [raw|]; [|done]. cbn in H.
  destruct (add_log s slots raw) as [slots1|] eqn:Ha; [|done]. cbn in H.
  unfold add_log in Ha. destruct (sonic_hash "blockHash" raw) as [h|]; [|done]. cbn in Ha.
  destruct (sonic_number "blockNumber" raw) as [n|] eqn:Hn; [|done]. cbn in Ha.
  apply sonic_number_range in Hn.
  destruct (Z.ltb_spec (i64 (u64 (n - s))) 0); [injection Ha as <-; exact (IH _ Hl Hall H)|].
  destruct (Z.leb_spec (Z.of_nat (List.length slots)) (i64 (u64 (n - s))));
    [injection Ha as <-; exact (IH _ Hl Hall H)|].
  injection Ha as <-. eapply IH; [by rewrite length_alter| |exact H].
  apply Forall_lookup. intros k sl Hk. rewrite list_lookup_alter in Hk.
  rewrite Forall_lookup in Hall. case_decide as Hd; [|by eapply Hall].
  destruct (slots !! Z.to_nat (i64 (u64 (n - s)))) as [[enc res]|] eqn:Hsl; [|done]. injection Hk as <-. simpl.
  destruct res as [x|]; [intros y [= <-]; by apply (Hall _ (enc, Some x) Hsl)|].
  intros y [= <-]. cbn [entry BlockNumber].
  assert (u64 (n - s) <= e - s) as Hu.
  { pose proof (u64_range (n - s)) as Hur. unfold i64, in_u64 in *.
    destruct (Z.lt_ge_cases (u64 (n - s)) two63).
    - rewrite Z.mod_small in * by go_lia. go_lia.
    - exfalso. replace (u64 (n - s) + two63) with (u64 (n - s) - two63 + 1 * two64) in * by go_lia.
      rewrite Z.mod_add, Z.mod_small in * by go_lia. go_lia. }
  unfold u64 in Hu. destruct (Z.lt_ge_cases n s).
  - replace (n - s) with (n - s + two64 + (-1) * two64) in Hu by lia.
    rewrite Z.mod_add, Z.mod_small in Hu by go_lia. go_lia.
  - rewrite Z.mod_small in Hu by go_lia. lia.
Qed.

Lemma close_slots_in_range s e slots :
  Forall (λ sl : slot, ∀ x, sl.2 = Some x → s <= BlockNumber x <= e) slots →
  answers_query (QueryRange s e) (close_slots slots).
Proof.
  intros H. apply Forall_forall. intros x Hx. unfold close_slots in Hx.
  apply list_elem_of_omap in Hx as ([enc res] & Hin & Hres).
  destruct res as [y|]; [|done]. injection Hres as <-. cbn [entry BlockNumber].
  rewrite Forall_forall in H. by apply (H (enc, Some y)).
Qed.

Lemma getLogs_sound ctx (remote : handler W) q w es w' :
  query_wf q → getLogs writer_size ctx remote q w = (Return (Ok es), w') →
  answers_query q es.
Proof.
  intros Hq H. destruct q as [s e|h]; cbn [getLogs] in H.
  - destruct Hq as [Hs He]. destruct (Z.ltb_spec e s).
    { apply prog_ret_inv in H as [[= <-] _]. constructor. }
    prog_inv H. destruct a as [logs|]; [|by apply prog_ret_inv in H as [[=] _]].
    destruct (Z.eqb_spec (i64 s) (i64 e)) as [Heq|Hne].
    + apply prog_ret_inv in H as [H _].
      destruct (sonic_first logs) as [f|]; [|done]. cbn in H.
      destruct (sonic_hash "blockHash" f) as [h|]; [|done]. cbn in H.
      destruct (no_hash h); injection H as <-; [constructor|].
      repeat constructor; simpl; lia.
    + prog_inv H. prog_inv H. apply prog_ret_inv in H as [H _].
      destruct (jx_arr logs) as [arr|]; [|done]. cbn in H.
      destruct (add_logs s _ arr) as [slots|] eqn:Ha; [|done]. injection H as <-.
      apply close_slots_in_range. eapply add_logs_in_range; [done|done|lia| | |exact Ha].
      * rewrite length_replicate. pose proof (u64_range (e - s + 1)). unfold u64.
        pose proof (Z.mod_le (e - s + 1) two64). unfold in_u64 in *. lia.
      * apply Forall_replicate. simpl. done.
  - prog_inv H. apply prog_ret_inv in H as [H _].
    destruct a as [v|]; [|done]. cbn in H.
    destruct (sonic_first v) as [f|]; [|done]. cbn in H.
    destruct (sonic_hash "blockHash" f) as [h'|]; [|done]. cbn in H.
    destruct (sonic_number "blockNumber" f) as [n|]; [|done]. cbn in H.
    case_bool_decide; injection H as <-; repeat constructor.
Qed.

#[export] Instance chainblock_spec (I : W → Prop) ctx :
  (∀ c typ q w r w', I w →
     Get clusters_Middleware writer_size ctx c typ q w = (Return r, w') → I w') →
  StoreSpec I (store clusters_Middleware writer_size ctx).
Proof.
  intros HI. split; intros c typ.
  - intros q w r w' Hw Hq H. split; [exact (HI _ _ _ _ _ _ Hw H)|]. intros es ->.
    cbn [store st_Get] in H. destruct typ; unfold Get in H.
    + destruct q as [s e|h]; cbn [getBlockHeaders] in H.
      * destruct Hq as [Hs He]. apply full_or_none. eapply get_range_full; [|done|done|exact H].
        apply fetch_header_numbered.
      * prog_inv H. apply prog_ret_inv in H as [H _].
        destruct a as [v|]; [|done]. cbn in H.
        destruct (sonic_hash "hash" v) as [h'|]; [|done]. cbn in H.
        destruct (sonic_number "number" v) as [n|]; [|done]. cbn in H.
        destruct (sonic_hash "parentHash" v) as [p|]; [|done]. cbn in H.
        case_bool_decide; injection H as <-; repeat constructor.
    + by eapply getLogs_sound.
    + destruct q as [s e|h]; cbn [getReceipts] in H;
        [|by apply prog_ret_inv in H as [[=] _]].
      destruct Hq as [Hs He]. apply full_or_none. eapply get_range_full; [|done|done|exact H].
      apply fetch_receipts_numbered.
  - intros es w r w' Hw H. by apply prog_ret_inv in H as [_ <-].
Qed.

Lemma getBlockHeaders_made ctx (remote : handler W) q w es w' :
  query_wf q → getBlockHeaders ctx remote q w = (Return (Ok es), w') →
  made ctx remote EntryBlockHeader q es w w'.
Proof.
  intros Hq H. destruct q as [s e|h]; cbn [getBlockHeaders] in H.
  - destruct Hq as [Hs He]. eapply get_range_told in H as [->|[Hlen Ht]];
      [constructor|by constructor|apply fetch_header_asks|done..].
  - prog_inv H. apply prog_ret_inv in H as [H ->]. destruct a as [v|]; [|done]. cbn in H.
    destruct (sonic_hash "hash" v) as [h'|] eqn:Hh; [|done]. cbn in H.
    destruct (sonic_number "number" v) as [n|] eqn:Hn; [|done]. cbn in H.
    destruct (sonic_hash "parentHash" v) as [p|] eqn:Hp; [|done]. cbn in H.
    case_bool_decide as Hd; injection H as <-; [subst h'|constructor].
    apply made_header; [done|done|split; eauto|done].
Qed.

Lemma getReceipts_made ctx (remote : handler W) q w es w' :
  query_wf q → getReceipts ctx remote q w = (Return (Ok es), w') →
  made ctx remote EntryReceipts q es w w'.
Proof.
  intros Hq H. destruct q as [s e|h]; cbn [getReceipts] in H;
    [|by apply prog_ret_inv in H as [[=] _]].
  destruct Hq as [Hs He]. eapply get_range_told in H as [->|[Hlen Ht]];
    [constructor|by constructor|apply fetch_receipts_asks|done..].
Qed.

Lemma getLogs_made ctx (remote : handler W) q w es w' :
  query_wf q → getLogs writer_size ctx remote q w = (Return (Ok es), w') →
  made ctx remote EntryLogs q es w w'.
Proof.
  intros Hq H. destruct q as [s e|h]; cbn [getLogs] in H.
  - destruct Hq as [Hs He]. destruct (Z.ltb_spec e s).
    { apply prog_ret_inv in H as [[= <-] _]. constructor. }
    prog_inv H. destruct a as [logs|]; [|by apply prog_ret_inv in H as [[=] _]].
    destruct (Z.eqb_spec (i64 s) (i64 e)) as [Heq|Hne].
    + apply prog_ret_inv in H as [H ->]. apply i64_inj in Heq as <-; [|done..].
      destruct (sonic_first logs) as [f|] eqn:Hf; [|done]. cbn in H.
      destruct (sonic_hash "blockHash" f) as [h|] eqn:Hh; [|done]. cbn in H.
      destruct (no_hash h); injection H as <-; [constructor|].
      apply made_block_logs; [done|done|by exists f].
    + prog_inv H. prog_inv H. apply prog_ret_inv in H as [H ->].
      apply lift_run in Hm0 as [_ ->]. apply lift_run in Hm1 as [Hmake ->].
      destruct (jx_arr logs) as [arr|] eqn:Harr; [|done]. cbn in H.
      destruct (add_logs s _ arr) as [slots|] eqn:Ha; [|done]. injection H as <-.
      destruct a0. apply make_slice_len in Hmake. assert (s < e) as Hse by (destruct (decide (s = e)); [by subst|lia]).
      destruct (decide (e - s + 1 = two64)) as [Hall|Hall].
      { replace (u64 (e - s + 1)) with 0 in Ha by (by rewrite Hall).
        apply add_logs_nowhere in Ha as ->. constructor. }
      rewrite u64_small in Ha, Hmake by go_lia. rewrite <- (slots_of_nil log_hash log_number s e) in Ha.
      assert (e - s + 1 < two63) as Hlen by (unfold maxAlloc in Hmake; go_lia).
      destruct (add_logs_read s e arr [] slots Hs He ltac:(lia) Hlen Ha) as (read & Hl & Hr & ->).
      rewrite close_slots_of. by eapply made_range_logs.
  - prog_inv H. apply prog_ret_inv in H as [H ->].
    destruct a as [v|]; [|done]. cbn in H.
    destruct (sonic_first v) as [f|] eqn:Hf; [|done]. cbn in H.
    destruct (sonic_hash "blockHash" f) as [h'|] eqn:Hh; [|done]. cbn in H.
    destruct (sonic_number "blockNumber" f) as [n|] eqn:Hn; [|done]. cbn in H.
    case_bool_decide as Hd; injection H as <-; [subst h'|constructor].
    apply made_hash_logs; [done|done|by exists f|by exists f].
Qed.

(** C19: what the store gives is what the remotes answered to the requests for
    it: nothing, or for a range of headers or receipts, the answers to the
    requests for its numbers, one for each, asked in turn and labelled with the
    number asked for; for a range of logs, the logs of the one answer, with a
    number in the range, block by block, or the whole answer if the range is one
    block; and for a hash, the answer to the request for it.  The hash comes
    from the answer and, asked by hash, is the one asked for.  Not checked by
    the code is whether the block in an answer for one number has that number,
    and whether the receipts or logs in an answer for one block belong together:
    only the first one's hash is read. *)
Theorem chainblock_sound ctx c typ q w es w' :
  query_wf q →
  st_Get (store clusters_Middleware writer_size ctx) c typ q w = (Return (Ok es), w') →
  answers_query q es ∧
  made (WithChain ctx c) (clusters_Middleware (λ _,
      send_err (NewInvalidRequestError ("chain not supported: " +:+ Chain_Name c)))) typ q es w w'.
Proof.
  intros Hq H. split.
  - pose proof (chainblock_spec (λ _, True) ctx ltac:(done)) as HS.
    destruct (get_sound _ _ _ _ _ _ I Hq H) as [_ He]. by apply He.
  - cbn [store st_Get] in H. destruct typ; unfold Get in H;
      [by apply getBlockHeaders_made|by apply getLogs_made|by apply getReceipts_made].
Qed.

(** C16: the logs the remotes give for a range of blocks are grouped by
    block: one entry for every block with logs, by ascending number, with
    the logs of that block in the order they came, and nothing else. *)
Theorem chainblock_logs_grouped ctx remote s e logs hash_of number_of w w' :
  in_u64 s → in_u64 e → s < e → e - s + 1 < two63 →
  maxAlloc >= (e - s + 1) * Z.max 8 writer_size →
  json_valid (JArr logs) = true → Forall (placed hash_of number_of) logs →
  Do (WithChain ctx remote) (clusters_Middleware (λ _,
        send_err (NewInvalidRequestError ("chain not supported: " +:+ Chain_Name remote))))
     "eth_getLogs" (JArr [FilterQuery_marshal (range_filter (i64 s) (i64 e))]) w
  = (Return (Ok (JArr logs)), w') →
  Get clusters_Middleware writer_size ctx remote EntryLogs (QueryRange s e) w
  = (Return (Ok (omap (block_entry hash_of number_of logs) (seqZ s (e - s + 1)))), w').
Proof.
  intros Hs He Hse Hlen Hmem Hv Hp Hdo. unfold Get. cbn [getLogs].
  destruct (Z.ltb_spec e s); [lia|]. rewrite (prog_bind_return _ _ _ _ _ Hdo).
  destruct (Z.eqb_spec (i64 s) (i64 e)) as [Heq|_].
  { apply i64_inj in Heq; [lia|done..]. }
  rewrite u64_small by go_lia. unfold lift, mbind, prog_bind, make_slice.
  assert (∀ z, z <= Z.max 8 writer_size → (e - s + 1) * z <= maxAlloc) as Hz.
  { intros z Hz. pose proof (Z.mul_le_mono_nonneg_l z (Z.max 8 writer_size) (e - s + 1)). lia. }
  rewrite (proj2 (Z.ltb_ge _ _)) by (apply Hz; lia).
  rewrite (proj2 (Z.ltb_ge _ _)) by (apply Hz; lia). unfold mret, prog_ret.
  rewrite jx_arr_spec by done. cbn [res_bind].
  rewrite <- (slots_of_nil hash_of number_of s e).
  rewrite (add_logs_slots hash_of number_of s e [] logs) by (done || lia).
  cbn [res_bind app]. by rewrite close_slots_of.
Qed.
End props.
End ChainblockProps.

Module ChainblockWitness.
Import Chainblock ChainblockFacts ChainblockProps StdEth StdJx StdSonic StdJrpc.

Definition chain0 : Chain := BlockStoreWitness.chain0.

Definition hash_text (n : Z) : json := hash_marshal (replicate 32 n).
Definition log (n idx : Z) : json := JObj [("blockHash", hash_text n);
  ("blockNumber", JStr (EncodeUint64 n)); ("logIndex", JStr (EncodeUint64 idx))].
Definition logs0 : list json := [log 7 0; log 5 0; log 7 1].

(** A cluster with three logs in the blocks 5 and 7, and two headers. *)
Definition clusters0 : handler () → handler () := λ _ r,
  if bool_decide (r_method r = "eth_getLogs") then send_ok (VRaw (JArr logs0))
  else match r_params r with
       | Some (JArr (JStr n :: _)) =>
           send_ok (VRaw (JObj [("hash", hash_text 9); ("number", JStr n);
             ("parentHash", hash_text 8)]))
       | _ => send_ok VNil
       end.

Definition hash_of0 (v : json) : hash :=
  match sonic_hash "blockHash" v with Ok h => h | Err _ => [] end.
Definition number_of0 (v : json) : Z :=
  match sonic_number "blockNumber" v with Ok n => n | Err _ => 0 end.

Lemma chainblock_range_complete_witness :
  ∃ es, (Get clusters0 48 [] chain0 EntryBlockHeader (QueryRange 5 6) ()).1 = Return (Ok es) ∧
    BlockNumber <$> es = [5; 6].
Proof.
  destruct (Get clusters0 48 [] chain0 EntryBlockHeader (QueryRange 5 6) ()) as [o w'] eqn:H.
  assert (∃ es, o = Return (Ok es) ∧ es ≠ []) as (es & -> & Hne).
  { change o with (fst (o, w')). rewrite <- H. vm_compute. eexists.
    split; [reflexivity|discriminate]. }
  exists es. split; [reflexivity|].
  destruct (chainblock_range_complete clusters0 48 [] chain0 EntryBlockHeader 5 6 () es w')
    as [He|He].
  - left. reflexivity.
  - vm_compute. split; congruence.
  - vm_compute. split; congruence.
  - exact H.
  - destruct (Hne He).
  - exact He.
Defined.

(** Two headers, each the answer to the request for its number. *)
Definition header0 (n : Z) : Entry :=
  entry (replicate 32 9) n (Some (replicate 32 8)) (JObj [("hash", hash_text 9);
    ("number", JStr (EncodeUint64 n)); ("parentHash", hash_text 8)]).

Lemma chainblock_sound_witness :
  answers_query (QueryRange 5 6) [header0 5; header0 6] ∧
  made (WithChain [] chain0) (clusters0 (λ _,
      send_err (NewInvalidRequestError ("chain not supported: " +:+ Chain_Name chain0))))
    EntryBlockHeader (QueryRange 5 6) [header0 5; header0 6] () ().
Proof.
  apply (chainblock_sound clusters0 48 [] chain0 EntryBlockHeader (QueryRange 5 6)).
  - vm_compute. repeat split; congruence.
  - vm_compute. reflexivity.
Defined.

Lemma chainblock_logs_grouped_witness :
  (Get clusters0 48 [] chain0 EntryLogs (QueryRange 5 7) ()).1
  = Return (Ok [entry (replicate 32 5) 5 None (JArr [log 5 0]);
                entry (replicate 32 7) 7 None (JArr [log 7 0; log 7 1])]).
Proof.
  rewrite (chainblock_logs_grouped clusters0 48 [] chain0 5 7 logs0 hash_of0 number_of0 () ()).
  - vm_compute. reflexivity.
  - vm_compute. split; congruence.
  - vm_compute. split; congruence.
  - vm_compute. reflexivity.
  - vm_compute. reflexivity.
  - vm_compute. congruence.
  - vm_compute. reflexivity.
  - repeat constructor; vm_compute; reflexivity.
  - vm_compute. reflexivity.
Defined.
End ChainblockWitness.
