(* ===== verification/LookBack.v ===== *)
(** * The lookback limit: [svc/node/middlewares/blockLookBack/blockLookBack.go]

    Requests for blocks further behind the head than the configured limit are
    refused, per chain and per remote. *)
From S2P Require Import Prelude Errors Json EthTypes Config Rpc HeadStore.

Module LookBack.

Record t := {
  chainCfg : Chain;
  remoteCfg : option Remote;
}.

Definition New (c : Chain) (r : option Remote) : t := {| chainCfg := c; remoteCfg := r |}.

Definition getEffectiveLookBack (m : t) : Z :=
  let chainLimit := Chain_MaxBlockLookback (chainCfg m) in
  match remoteCfg m with
  | None => chainLimit
  | Some r =>
      let remoteLimit := Remote_MaxBlockLookback r in
      if (chainLimit =? 0) && (remoteLimit =? 0) then 0
      else if remoteLimit =? 0 then chainLimit
      else if chainLimit =? 0 then remoteLimit
      else if chainLimit <? remoteLimit then chainLimit
      else remoteLimit
  end.

Section lookback.
Context {W : Type} `{J : Jrpc} `{E : Eth} `{X : Jx} `{H : HeadStore W}.

Definition too_old (bn lookback head : Z) : goerr :=
  EText ("block number, " +:+ pretty bn +:+ ", is too old (max lookback: "
         +:+ pretty lookback +:+ " blocks from head: " +:+ pretty head +:+ ")").

Definition validateBlockNumber (m : t) (ctx : context) (bn : Z) : prog W (option goerr) :=
  let lookback := getEffectiveLookBack m in
  if lookback =? 0 then mret None
  else
    match GetChain ctx with
    | Err e => mret (Some e)
    | Ok chain =>
        head ← hs_Get chain;
        mret match head with
             | Err e => Some e
             | Ok head =>
                 if (bn =? BlockNumber.EarliestBlockNumber)
                    || ((0 <? bn) && (u64 bn <? u64 (head - u64 lookback)))
                 then Some (too_old bn lookback head) else None
             end
    end.

(** [check2Param] and [check3Param]: the parameter with index [index] of at
    least [least]. *)
Definition checkParam (m : t) (r : request) (least index : nat) : prog W (option goerr) :=
  match unmarshal_params unmarshal_raws r with
  | Err e => mret (Some e)
  | Ok params =>
      if bool_decide (List.length params < least)%nat then mret None
      else
        match params !! index with
        | None => panic "index out of range"
        | Some p =>
            match BlockNumber.unmarshal p with
            | Err e => mret (Some e)
            | Ok bn => validateBlockNumber m (r_ctx r) bn
            end
        end
  end.

Definition check2Param (m : t) (r : request) (index : nat) := checkParam m r 2 index.
Definition check3Param (m : t) (r : request) (index : nat) := checkParam m r 3 index.

Definition check1Param (m : t) (r : request) : prog W (option goerr) :=
  match unmarshal_params (unmarshal_slice BlockNumber.unmarshal) r with
  | Err e => mret (Some e)
  | Ok [bn] => validateBlockNumber m (r_ctx r) bn
  | Ok _ => mret (Some (NewInvalidParamsError "expected 1 parameter"))
  end.

Definition checkGetLogs (m : t) (r : request) : prog W (option goerr) :=
  match unmarshal_params (unmarshal_slice FilterQuery_unmarshal) r with
  | Err e => mret (Some e)
  | Ok [q] =>
      match FromBlock q with
      | Some from => validateBlockNumber m (r_ctx r) from
      | None => mret None
      end
  | Ok _ => mret (Some (NewInvalidParamsError "expected 1 parameter"))
  end.

Definition check (m : t) (r : request) : prog W (option goerr) :=
  let method := r_method r in
  if bool_decide (method ∈ ["eth_getBlockByNumber"; "eth_getTransactionByBlockNumberAndIndex"])
  then check2Param m r 0
  else if bool_decide (method ∈ ["eth_getTransactionCount"; "eth_getBalance"; "eth_getCode";
                                 "eth_call"; "eth_estimateGas"; "eth_createAccessList"])
  then check2Param m r 1
  else if bool_decide (method = "eth_getStorageAt") then check3Param m r 2
  else if bool_decide (method ∈ ["eth_getBlockReceipts"; "eth_getBlockTransactionCountByNumber";
                                 "eth_getUncleCountByBlockNumber"; "debug_getRawHeader";
                                 "debug_getRawBlock"])
  then check1Param m r
  else if bool_decide (method = "eth_getLogs") then checkGetLogs m r
  else mret None.

Definition Middleware (m : t) : middleware W := λ next r,
  err ← check m r;
  match err with
  | Some e => send_err e
  | None => next r
  end.
End lookback.
End LookBack.

(** ** Properties *)

Module LookBackProps.
Import LookBack.

(** the effective limit is the smallest of the limits that are set, and
    none if none is. *)
Theorem effective_lookback m :
  let limits := filter (λ z, z ≠ 0)
    (Chain_MaxBlockLookback (chainCfg m) ::
     option_list (Remote_MaxBlockLookback <$> remoteCfg m)) in
  match limits with
  | [] => getEffectiveLookBack m = 0
  | _ => getEffectiveLookBack m ∈ limits ∧ Forall (Z.le (getEffectiveLookBack m)) limits
  end.
Proof.
  unfold getEffectiveLookBack. destruct (remoteCfg m) as [r|]; simpl;
    rewrite ?filter_cons, ?filter_nil.
  - destruct (Z.eqb_spec (Chain_MaxBlockLookback (chainCfg m)) 0) as [Hc|Hc];
      destruct (Z.eqb_spec (Remote_MaxBlockLookback r) 0) as [Hr|Hr]; simpl.
    + by rewrite !decide_False by (intros Hn; by apply Hn).
    + rewrite decide_False by (intros Hn; by apply Hn). rewrite decide_True by done.
      split; [by left|repeat constructor; lia].
    + rewrite decide_True by done. rewrite decide_False by (intros Hn; by apply Hn).
      split; [by left|repeat constructor; lia].
    + rewrite !decide_True by done. destruct (Z.ltb_spec (Chain_MaxBlockLookback (chainCfg m))
        (Remote_MaxBlockLookback r)); (split; [set_solver|repeat constructor; lia]).
  - destruct (decide _) as [Hc|Hc].
    + split; [by left|repeat constructor; lia].
    + destruct (Z.eq_dec (Chain_MaxBlockLookback (chainCfg m)) 0); [done|].
      by destruct Hc.
Qed.

Section props.
Context {W : Type} `{J : Jrpc} `{HS : HeadStoreSpec W}.

(** with a limit set, a block number passes exactly if it is a tag other
    than the earliest block, or if the head is at least the limit and the
    number not further behind it than that: while the head is still below
    the limit every number is refused. *)
Theorem lookback_accepts m ctx chain bn w :
  let lookback := getEffectiveLookBack m in
  let head := hs_head w (Chain_Name chain) in
  GetChain ctx = Ok chain → 0 < lookback < two63 → 0 <= head < two63 → - two63 <= bn < two63 →
  ∃ err, validateBlockNumber m ctx bn w = (Return err, w) ∧
    (err = None ↔ bn < 0 ∨ 0 < bn ∧ lookback <= head ∧ head - lookback <= bn).
Proof.
  intros lookback head Hc Hl Hh Hb. unfold validateBlockNumber. fold lookback.
  destruct (Z.eqb_spec lookback 0); [lia|]. rewrite Hc.
  rewrite (prog_bind_return _ _ _ _ _ (hs_Get_spec chain w)). fold head.
  eexists. split; [reflexivity|]. unfold BlockNumber.EarliestBlockNumber.
  rewrite (u64_small lookback) by go_lia.
  destruct (Z.eqb_spec bn 0); simpl; [split; [done|lia]|].
  destruct (Z.ltb_spec 0 bn); simpl; [|split; [lia|done]].
  rewrite (u64_small bn) by go_lia.
  destruct (Z.le_gt_cases lookback head).
  - rewrite u64_small by go_lia. destruct (Z.ltb_spec bn (head - lookback));
      (split; [done || lia|done || lia]).
  - unfold u64. replace (head - lookback) with (head - lookback + two64 + (-1) * two64) by lia.
    rewrite Z.mod_add, Z.mod_small by go_lia.
    destruct (Z.ltb_spec bn (head - lookback + two64)); [split; [done|lia]|go_lia].
Qed.
End props.
End LookBackProps.

Module LookBackWitness.
Import LookBack LookBackProps StdJrpc.

Definition chain0 : Chain := {| Chain_Name := "ethereum"; Chain_Id := 1; Chain_Aliases := [];
  BlockTimeSeconds := QArith_base.inject_Z 12; Chain_Remotes := []; Stalk := None;
  ParsedStalk := true; ForgeBlockReceipts := false; Chain_MaxBlockLookback := 128 |}.

(** The head is block 100, the limit 128 blocks: block 99 is refused. *)
Definition store0 : Redihead.t :=
  Redihead.setHead "ethereum" 100 Redihead.New.

Lemma lookback_accepts_witness :
  ∃ err, validateBlockNumber (H := Redihead.store (λ _, mret None)) (New chain0 None)
    (WithChain [] chain0) 99 store0 = (Return err, store0) ∧ err ≠ None.
Proof.
  destruct (lookback_accepts (HS := Redihead.store_spec (λ _, mret None))
    (New chain0 None) (WithChain [] chain0) chain0 99 store0) as (err & H & Hiff).
  - reflexivity.
  - vm_compute. split; congruence.
  - vm_compute. split; congruence.
  - vm_compute. split; congruence.
  - exists err. split; [exact H|]. intros He. apply Hiff in He.
    vm_compute in He. destruct He as [He|(_ & He & _)]; [discriminate|].
    by apply He.
Defined.
End LookBackWitness.
