(* ===== verification/HeadReplacer.v ===== *)
(** * Replacing the tag "latest": [svc/node/middlewares/headreplacer/headreplacer.go]

    The middleware that answers what the node knows without a remote and
    turns the tag "latest" into the number of the head, so that the stores
    behind it see numbers. *)
From S2P Require Import Prelude Errors Json EthTypes Config Rpc HeadStore.

Module HeadReplacer.
Section replacer.
Context {W : Type} `{J : Jrpc} `{E : Eth} `{X : Jx} `{H : HeadStore W}.

(** [toNumericBlockNumber]: the number and whether to pass through. *)
Definition toNumericBlockNumber (chain : Chain) (bn : Z) : prog W (res goerr (Z * bool)) :=
  if bn =? BlockNumber.LatestBlockNumber then
    head ← hs_Get chain;
    mret (head ← head;
          if head =? 0 then Ok (0, true) else Ok (i64 head, false))
  else mret (Ok (0, true)).

(** [ReplaceBlockNumberInRequest]. *)
Definition ReplaceBlockNumberInRequest (r : request) (index : nat)
    : prog W (res goerr request) :=
  match GetChain (r_ctx r) with
  | Err e => mret (Err e)
  | Ok chain =>
      match r_params r with
      | None => mret (Err (NewInvalidParamsError "expected parameters"))
      | Some p =>
          match unmarshal_raws p with
          | Err e => mret (Err e)
          | Ok params =>
              match params !! index with
              | None => mret (Err (NewInvalidParamsError
                  ("need at least " +:+ pretty (Z.of_nat index + 1) +:+ " parameters")))
              | Some p =>
                  match BlockNumber.unmarshal p with
                  | Err e => mret (Err e)
                  | Ok bn =>
                      x ← toNumericBlockNumber chain bn;
                      mret (x ← x;
                            let '(number, passthrough) := x in
                            if passthrough : bool then Ok r
                            else Ok (with_params r
                              (JArr (<[index := BlockNumber.MarshalJSON number]> params))))
                  end
              end
          end
      end
  end.

Definition replace_and_serve (next : handler W) (r : request) (index : nat)
    : prog W (list reply) :=
  x ← ReplaceBlockNumberInRequest r index;
  match x with
  | Err e => send_err e
  | Ok r' => next r'
  end.

Definition with_range (q : FilterQuery) (from to : Z) : FilterQuery :=
  {| BlockHash := BlockHash q; FromBlock := Some from; ToBlock := Some to;
     Addresses := Addresses q; Topics := Topics q |}.

(** The [eth_getLogs] branch. *)
Definition serve_getLogs (next : handler W) (chain : Chain) (r : request)
    : prog W (list reply) :=
  match unmarshal_params (unmarshal_slice FilterQuery_unmarshal) r with
  | Err e => send_err e
  | Ok [q] =>
      match BlockHash q with
      | Some _ => next r
      | None =>
          let fromBlock := default BlockNumber.LatestBlockNumber (FromBlock q) in
          let toBlock := default BlockNumber.LatestBlockNumber (ToBlock q) in
          x ← toNumericBlockNumber chain fromBlock;
          match x with
          | Err e => send_err e
          | Ok (from, passthrough1) =>
              y ← toNumericBlockNumber chain toBlock;
              match y with
              | Err e => send_err e
              | Ok (to, passthrough2) =>
                  if negb passthrough1 && negb passthrough2
                  then next (with_params r (JArr [FilterQuery_marshal (with_range q from to)]))
                  else next r
              end
          end
      end
  | Ok _ => send_err (NewInvalidParamsError "expected 1 parameter")
  end.

Definition Middleware : middleware W := λ next r,
  match GetChain (r_ctx r) with
  | Err e => send_err e
  | Ok chain =>
      let method := r_method r in
      if bool_decide (method = "eth_chainId") then send_ok (VUint64 (u64 (Chain_Id chain)))
      else if bool_decide (method = "net_version") then send_ok (VText (pretty (Chain_Id chain)))
      else if bool_decide (method = "eth_blockNumber") then
        head ← hs_Get chain;
        match head with
        | Ok n => send_ok (VUint64 n)
        | Err e => send (VUint64 0, Some e)
        end
      else if bool_decide (method = "eth_getBlockByNumber") then replace_and_serve next r 0
      else if bool_decide (method = "eth_getBlockReceipts") then replace_and_serve next r 0
      else if bool_decide (method = "eth_call") then replace_and_serve next r 1
      else if bool_decide (method = "eth_getLogs") then serve_getLogs next chain r
      else next r
  end.
End replacer.
End HeadReplacer.

(** ** Properties *)

Module HeadReplacerProps.
Import HeadReplacer.

Section props.
Context {W : Type} `{J : Jrpc} `{ES : EthSpec} `{XS : JxSpec} `{HS : HeadStoreSpec W}.

(** The methods with a block parameter, and its index. *)
Definition block_index (method : string) : option nat :=
  if bool_decide (method ∈ ["eth_getBlockByNumber"; "eth_getBlockReceipts"]) then Some 0%nat
  else if bool_decide (method = "eth_call") then Some 1%nat
  else None.

Lemma toNumeric_run chain bn w :
  0 <= hs_head w (Chain_Name chain) < two63 →
  let head := hs_head w (Chain_Name chain) in
  toNumericBlockNumber chain bn w
  = (Return (Ok (if decide (bn = BlockNumber.LatestBlockNumber ∧ head ≠ 0)
                 then (head, false) else (0, true))), w).
Proof.
  intros Hh head. unfold toNumericBlockNumber.
  destruct (Z.eqb_spec bn BlockNumber.LatestBlockNumber) as [->|Hne].
  - rewrite (prog_bind_return _ _ _ _ _ (hs_Get_spec chain w)). fold head.
    cbn [mbind res_bind]. destruct (Z.eqb_spec head 0) as [H0|H0].
    + rewrite decide_False by (intros [_ ?]; done). done.
    + rewrite decide_True, i64_small by (done || go_lia). done.
  - rewrite decide_False by (intros [? _]; done). done.
Qed.

Lemma replace_serves (next : handler W) r index i :
  block_index (r_method r) = Some index →
  GetChain (r_ctx r) = Ok i →
  HeadReplacer.Middleware next r = replace_and_serve next r index.
Proof.
  unfold block_index, Middleware. intros Hb ->. case_bool_decide as H1.
  - injection Hb as <-.
    apply elem_of_cons in H1 as [->|[->|[]%elem_of_nil]%elem_of_cons]; reflexivity.
  - case_bool_decide as H2; [|done]. injection Hb as <-. by rewrite H2.
Qed.

(** What a request with a block parameter becomes. *)
Lemma latest_run (next : handler W) r index chain params p bn w :
  block_index (r_method r) = Some index →
  GetChain (r_ctx r) = Ok chain →
  r_params r = Some (JArr params) → json_valid (JArr params) = true →
  params !! index = Some p → BlockNumber.unmarshal p = Ok bn →
  0 <= hs_head w (Chain_Name chain) < two63 →
  let head := hs_head w (Chain_Name chain) in
  HeadReplacer.Middleware next r w
  = next (if decide (bn = BlockNumber.LatestBlockNumber ∧ head ≠ 0)
          then with_params r (JArr (<[index := BlockNumber.MarshalJSON head]> params))
          else r) w.
Proof.
  intros Hm Hc Hp Hv Hi Hbn Hh head. rewrite (replace_serves next r index chain Hm Hc).
  unfold replace_and_serve, ReplaceBlockNumberInRequest.
  rewrite Hc, Hp. unfold unmarshal_raws. rewrite Hv, Hi, Hbn.
  rewrite prog_bind_assoc.
  rewrite (prog_bind_return _ _ _ _ _ (toNumeric_run chain bn w Hh)). fold head.
  by destruct (decide _).
Qed.

(** What a query for logs becomes. *)
Lemma getLogs_run (next : handler W) r chain q w :
  r_method r = "eth_getLogs" → GetChain (r_ctx r) = Ok chain →
  unmarshal_params (unmarshal_slice FilterQuery_unmarshal) r = Ok [q] →
  BlockHash q = None → 0 <= hs_head w (Chain_Name chain) < two63 →
  let head := hs_head w (Chain_Name chain) in
  let latest x := default BlockNumber.LatestBlockNumber x = BlockNumber.LatestBlockNumber in
  HeadReplacer.Middleware next r w
  = next (if decide (head ≠ 0 ∧ latest (FromBlock q) ∧ latest (ToBlock q))
          then with_params r (JArr [FilterQuery_marshal (with_range q head head)])
          else r) w.
Proof.
  intros Hm Hc Hq Hb Hh head latest. unfold HeadReplacer.Middleware. rewrite Hc, Hm.
  repeat (rewrite bool_decide_false by done). rewrite bool_decide_true by done.
  unfold serve_getLogs. rewrite Hq, Hb. unfold latest.
  rewrite (prog_bind_return _ _ _ _ _ (toNumeric_run chain _ w Hh)). fold head.
  set (f := default _ (FromBlock q)). set (t := default _ (ToBlock q)).
  destruct (decide (f = BlockNumber.LatestBlockNumber ∧ head ≠ 0)) as [[Hf H0]|Hf].
  - rewrite (prog_bind_return _ _ _ _ _ (toNumeric_run chain _ w Hh)). fold head.
    destruct (decide (t = BlockNumber.LatestBlockNumber ∧ head ≠ 0)) as [[Ht _]|Ht].
    + rewrite decide_True by done. done.
    + rewrite decide_False; [done|]. intros (_ & _ & ?). by apply Ht.
  - rewrite (prog_bind_return _ _ _ _ _ (toNumeric_run chain _ w Hh)). fold head.
    rewrite (decide_False (P := head ≠ 0 ∧ _)); [by destruct (decide _)|].
    intros (? & ? & _). by apply Hf.
Qed.

(** a request for the block "latest" reaches the stores with the number
    of the head in its place and every other parameter unchanged, as soon
    as the head is known; a request for any other block is not touched. *)
Theorem latest_replaced (next : handler W) r index chain params bn w :
  block_index (r_method r) = Some index →
  GetChain (r_ctx r) = Ok chain →
  r_params r = Some (JArr params) → json_valid (JArr params) = true →
  option_map BlockNumber.unmarshal (params !! index) = Some (Ok bn) →
  0 <= hs_head w (Chain_Name chain) < two63 →
  let head := hs_head w (Chain_Name chain) in
  let r' := with_params r (JArr (<[index := BlockNumber.MarshalJSON head]> params)) in
  HeadReplacer.Middleware next r w
    = next (if decide (bn = BlockNumber.LatestBlockNumber ∧ head ≠ 0) then r' else r) w ∧
  (bn = BlockNumber.LatestBlockNumber ∧ head ≠ 0 →
   option_map BlockNumber.unmarshal (<[index := BlockNumber.MarshalJSON head]> params !! index)
   = Some (Ok head)).
Proof.
  intros Hm Hc Hp Hv Hbn Hh head r'.
  destruct (params !! index) as [p|] eqn:Hi; [|done]. injection Hbn as Hbn.
  split; [by eapply latest_run|].
  intros [_ H0]. rewrite list_lookup_insert_eq by by eapply lookup_lt_Some.
  simpl. f_equal. apply BlockNumberFacts.unmarshal_MarshalJSON.
  unfold BlockNumber.LatestExecutedBlockNumber. go_lia.
Qed.

(** in a query for logs, "latest" is replaced only if both ends of the
    range are "latest" or absent: with an explicit number at one end the
    query goes on with the tag at the other. *)
Theorem getLogs_latest_kept (next : handler W) r chain q w :
  r_method r = "eth_getLogs" → GetChain (r_ctx r) = Ok chain →
  unmarshal_params (unmarshal_slice FilterQuery_unmarshal) r = Ok [q] →
  BlockHash q = None → 0 <= hs_head w (Chain_Name chain) < two63 →
  let head := hs_head w (Chain_Name chain) in
  let latest x := default BlockNumber.LatestBlockNumber x = BlockNumber.LatestBlockNumber in
  HeadReplacer.Middleware next r w
  = next (if decide (head ≠ 0 ∧ latest (FromBlock q) ∧ latest (ToBlock q))
          then with_params r (JArr [FilterQuery_marshal (with_range q head head)])
          else r) w.
Proof. apply getLogs_run. Qed.
End props.
End HeadReplacerProps.

Module HeadReplacerWitness.
Import HeadReplacer HeadReplacerProps StdJrpc StdEth StdJx.

Definition chain0 : Chain := {| Chain_Name := "ethereum"; Chain_Id := 1; Chain_Aliases := [];
  BlockTimeSeconds := QArith_base.inject_Z 12; Chain_Remotes := []; Stalk := None;
  ParsedStalk := true; ForgeBlockReceipts := false; Chain_MaxBlockLookback := 0 |}.

(** A store whose head is block 100, in memory of a process with redis. *)
Definition store0 : Redihead.t := Redihead.setHead "ethereum" 100 Redihead.New.
#[local] Instance heads0 : HeadStore Redihead.t := Redihead.store (λ _, mret None).
#[local] Instance heads0_spec : HeadStoreSpec Redihead.t := Redihead.store_spec (λ _, mret None).

(** A handler that answers with its parameters. *)
Definition echo : handler Redihead.t := λ r, send_ok (VRaw (default JNull (r_params r))).

Definition request0 (method : string) (params : list json) : request :=
  {| r_ctx := WithChain [] chain0; r_method := method; r_params := Some (JArr params);
     r_peer := "" |}.

Lemma latest_replaced_witness :
  (HeadReplacer.Middleware echo (request0 "eth_getBlockByNumber" [JStr "latest"; JBool true])
     store0).1
  = Return [reply_ok (VRaw (JArr [JStr "0x64"; JBool true]))].
Proof.
  destruct (latest_replaced echo
    (request0 "eth_getBlockByNumber" [JStr "latest"; JBool true]) 0 chain0
    [JStr "latest"; JBool true] (-1) store0) as [H _].
  - reflexivity.
  - reflexivity.
  - reflexivity.
  - reflexivity.
  - vm_compute. reflexivity.
  - vm_compute. split; congruence.
  - rewrite H. vm_compute. reflexivity.
Defined.

Lemma getLogs_latest_kept_witness :
  let q := JObj [("fromBlock", JStr "0x10"); ("toBlock", JStr "latest")] in
  (HeadReplacer.Middleware echo (request0 "eth_getLogs" [q]) store0).1
  = Return [reply_ok (VRaw (JArr [q]))].
Proof.
  intros q.
  pose proof (getLogs_latest_kept echo (request0 "eth_getLogs" [q]) chain0
    {| BlockHash := None; FromBlock := Some 16; ToBlock := Some (-1); Addresses := [];
       Topics := [] |} store0) as H.
  specialize (H eq_refl eq_refl). assert (unmarshal_params
    (unmarshal_slice FilterQuery_unmarshal) (request0 "eth_getLogs" [q])
    = Ok [{| BlockHash := None; FromBlock := Some 16; ToBlock := Some (-1); Addresses := [];
             Topics := [] |}]) as Hq by (vm_compute; reflexivity).
  specialize (H Hq eq_refl). rewrite H.
  - vm_compute. reflexivity.
  - vm_compute. split; congruence.
Defined.
End HeadReplacerWitness.
