(* ===== verification/Cacher.v ===== *)
(** * The cache middleware: [svc/node/atoms/cacher/cacher.go]

    Blocks, receipts and logs are answered from the block store; the text of
    a block is rewritten on the way out, and logs are filtered. *)
From S2P Require Import Prelude Errors Json EthTypes Logs Config Rpc BlockStore.

(** ** [encoding/hex] *)

(** [hex.Decode] into an array of [n] zero bytes: the array and whether there
    was no error.  Writing past the array panics. *)
Fixpoint hex_Decode (n : nat) (s : string) {struct s} : outcome (list Z * bool) :=
  match s with
  | EmptyString => Return (replicate n 0, true)
  | String p EmptyString => Return (replicate n 0, false)
  | String p (String q s) =>
      match hex_val p, hex_val q with
      | Some a, Some b =>
          match n with
          | O => Panic "index out of range"
          | S n =>
              x ← hex_Decode n s;
              mret (a * 16 + b :: x.1, x.2)
          end
      | _, _ => Return (replicate n 0, false)
      end
  end.

Module Cacher.

Definition maxLogRange : Z := 10.

(** [rawStrToAddress] and [rawStrToHash]. *)
Definition raw_bytes (n : nat) (rawStr : string) : outcome (list Z) :=
  let rawStr := if has_prefix "0x" rawStr then str_drop 2 rawStr else rawStr in
  x ← hex_Decode n rawStr;
  mret (if x.2 : bool then x.1 else replicate n 0).

Definition rawStrToAddress (s : string) : outcome address := raw_bytes AddressLength s.
Definition rawStrToHash (s : string) : outcome hash := raw_bytes HashLength s.

Section cacher.
Context `{J : Jrpc} `{E : Eth} `{X : Jx}.

(** ** Removing the details of the transactions *)

(** The members of one transaction: its hashes are written. *)
Fixpoint tx_members (fs : list (string * json)) (firstTransaction : bool)
    : res goerr (list wtok * bool) :=
  match fs with
  | [] => Ok ([], firstTransaction)
  | (key, v) :: fs =>
      if bool_decide (key = "hash") then
        raw ← jx_raw v;
        '(ts, f) ← tx_members fs false;
        Ok ((if firstTransaction then [] else [WComma]) ++ WRaw raw :: ts, f)
      else
        match jx_skip v with
        | Some e => Err e
        | None => tx_members fs firstTransaction
        end
  end.

Fixpoint txs_tokens (txs : list json) (firstTransaction : bool) : res goerr (list wtok) :=
  match txs with
  | [] => Ok []
  | tx :: txs =>
      fs ← jx_obj tx;
      '(ts, f) ← tx_members fs firstTransaction;
      rest ← txs_tokens txs f;
      Ok (ts ++ rest)
  end.

Fixpoint header_tokens (fs : list (string * json)) (firstKey : bool)
    : res goerr (list wtok) :=
  match fs with
  | [] => Ok []
  | (key, v) :: fs =>
      value ← (if bool_decide (key = "transactions") then
                 txs ← jx_arr v;
                 ts ← txs_tokens txs true;
                 Ok (WArrStart :: ts ++ [WArrEnd])
               else raw ← jx_raw v; Ok [WRaw raw]);
      rest ← header_tokens fs false;
      Ok ((if firstKey then [] else [WComma]) ++ WKey key :: value ++ rest)
  end.

Definition removeTransactionDetails (block : json) : res goerr json :=
  header ← jx_obj block;
  ts ← header_tokens header true;
  mret (jx_buf (WObjStart :: ts ++ [WObjEnd])).

(** ** Filtering logs *)

(** The topics of a log. *)
Fixpoint topics_of (l : list json) : outcome (res goerr (list hash)) :=
  match l with
  | [] => mret (Ok [])
  | v :: l =>
      match jx_str v with
      | Err e => mret (Err e)
      | Ok topic =>
          h ← rawStrToHash topic;
          rest ← topics_of l;
          mret (rest ← rest; Ok (h :: rest))
      end
  end.

(** The members of a log, onto the header read so far. *)
Fixpoint log_members (fs : list (string * json)) (header : LogAddressTopics)
    : outcome (res goerr LogAddressTopics) :=
  match fs with
  | [] => mret (Ok header)
  | (key, v) :: fs =>
      if bool_decide (key = "address") then
        match jx_str v with
        | Err e => mret (Err e)
        | Ok s =>
            a ← rawStrToAddress s;
            log_members fs {| log_Address := a; log_TopicSlice := log_TopicSlice header |}
        end
      else if bool_decide (key = "topics") then
        match jx_arr v with
        | Err e => mret (Err e)
        | Ok l =>
            ts ← topics_of l;
            match ts with
            | Err e => mret (Err e)
            | Ok ts => log_members fs
                {| log_Address := log_Address header;
                   log_TopicSlice := Some (log_Topics header ++ ts) |}
            end
        end
      else
        match jx_skip v with
        | Some e => mret (Err e)
        | None => log_members fs header
        end
  end.

Definition log_head (raw : json) : outcome (res goerr LogAddressTopics) :=
  match jx_obj raw with
  | Err e => mret (Err e)
  | Ok fs => log_members fs {| log_Address := zero_address; log_TopicSlice := Some [] |}
  end.

(** The loop over the logs of one entry; [first] until a log is written. *)
Fixpoint entry_logs (filter : option CompiledFilter) (logs : list json) (first : bool)
    : outcome (res goerr (list wtok * bool)) :=
  match logs with
  | [] => mret (Ok ([], first))
  | log :: logs =>
      match jx_raw log with
      | Err e => mret (Err e)
      | Ok raw =>
          header ← log_head raw;
          match header with
          | Err e => mret (Err e)
          | Ok header =>
              if negb (Check_filter filter header) then entry_logs filter logs first
              else
                rest ← entry_logs filter logs false;
                mret ('(ts, f) ← rest;
                      Ok ((if first then [] else [WComma]) ++ WRaw raw :: ts, f))
          end
      end
  end.

Fixpoint entries_logs (filter : option CompiledFilter) (entries : list Entry) (first : bool)
    : outcome (res goerr (list wtok)) :=
  match entries with
  | [] => mret (Ok [])
  | e :: entries =>
      match jx_arr (Value e) with
      | Err e => mret (Err e)
      | Ok logs =>
          x ← entry_logs filter logs first;
          match x with
          | Err e => mret (Err e)
          | Ok (ts, f) =>
              rest ← entries_logs filter entries f;
              mret (rest ← rest; Ok (ts ++ rest))
          end
      end
  end.

Definition filterLogs (filter : option CompiledFilter) (entries : list Entry)
    : outcome (res goerr json) :=
  ts ← entries_logs filter entries true;
  mret (ts ← ts; Ok (jx_buf (WArrStart :: ts ++ [WArrEnd]))).

(** ** The middleware *)

(** [w.Send(raw, err)] of a rewritten text; without one the raw message is
    empty. *)
Definition send_rewritten {W} (what : string) (x : res goerr json) : prog W (list reply) :=
  match x with
  | Ok raw => send_ok (VRaw raw)
  | Err e => send (VRaw (JBad ""), Some (EWrap what e ""))
  end.

Section middleware.
Context {W : Type} `{Sn : Sonic} (store : Store W).

Definition send_header (details : bool) (what : string) (entries : list Entry)
    : prog W (list reply) :=
  match entries with
  | [e] =>
      if details then send_ok (VRaw (Value e))
      else send_rewritten what (removeTransactionDetails (Value e))
  | _ => send (VNil, None)
  end.

Definition serve_getBlockByNumber (next : handler W) (chain : Chain) (r : request)
    : prog W (list reply) :=
  match unmarshal_params unmarshal_raws r with
  | Err e => send_err e
  | Ok [p0; p1] =>
      match BlockNumber.unmarshal p0 with
      | Err e => send_err e
      | Ok bn =>
          match unmarshal_bool p1 with
          | Err e => send_err e
          | Ok details =>
              if 0 <=? bn then
                entries ← st_Get store chain EntryBlockHeader (QueryNumber (u64 bn));
                match entries with
                | Err e => send_err e
                | Ok entries =>
                    send_header details "failed removing transaction details: " entries
                end
              else
                block ← Do (r_ctx r) next "eth_getBlockByNumber"
                          (JArr [BlockNumber.MarshalJSON bn; JBool true]);
                match block with
                | Err e => send_err (EWrap "getting block from remote: " e "")
                | Ok block =>
                    match (n ← unmarshal_field "number" uint64_unmarshal 0 block;
                           h ← unmarshal_field "hash" hash_unmarshal zero_hash block;
                           p ← unmarshal_field "parentHash" hash_unmarshal zero_hash block;
                           Ok {| BlockHash := h; BlockNumber := n; ParentHash := Some p;
                                 Value := block |}) with
                    | Err e => send_err e
                    | Ok entry =>
                        err ← st_Put store chain EntryBlockHeader [entry];
                        match err with
                        | Some e => send_err e
                        | None =>
                            if negb details && negb (match block with JNull => true | _ => false end)
                            then send_rewritten "failed to remove transaction details: "
                                   (removeTransactionDetails block)
                            else send_ok (VRaw block)
                        end
                    end
                end
          end
      end
  | Ok _ => send_err (NewInvalidParamsError "expected 2 params")
  end.

Definition serve_getBlockByHash (chain : Chain) (r : request) : prog W (list reply) :=
  match unmarshal_params unmarshal_raws r with
  | Err e => send_err e
  | Ok [p0; p1] =>
      match hash_unmarshal p0 with
      | Err e => send_err e
      | Ok blockHash =>
          match unmarshal_bool p1 with
          | Err e => send_err e
          | Ok details =>
              entries ← st_Get store chain EntryBlockHeader (QueryHash blockHash);
              match entries with
              | Err e => send_err e
              | Ok entries =>
                  send_header details "failed to remove transaction details: " entries
              end
          end
      end
  | Ok _ => send_err (NewInvalidParamsError "expected 2 params")
  end.

Definition serve_getBlockReceipts (next : handler W) (chain : Chain) (r : request)
    : prog W (list reply) :=
  match unmarshal_params (unmarshal_slice BlockNumber.unmarshal) r with
  | Err e => send_err e
  | Ok [bn] =>
      if 0 <=? bn then
        entries ← st_Get store chain EntryReceipts (QueryNumber (u64 bn));
        match entries with
        | Err e => send_err e
        | Ok [e] => send_ok (VRaw (Value e))
        | Ok _ => send (VNil, None)
        end
      else next r
  | Ok _ => send_err (NewInvalidParamsError "expected 1 parameter")
  end.

Definition send_logs (q : FilterQuery) (logs : res goerr (list Entry)) : prog W (list reply) :=
  match logs with
  | Err e => send_err e
  | Ok logs =>
      raw ← lift (filterLogs (CompileFilter (Addresses q) (Topics q)) logs);
      send_rewritten "failed to filter logs: " raw
  end.

Definition serve_getLogs (next : handler W) (chain : Chain) (r : request)
    : prog W (list reply) :=
  match unmarshal_params (unmarshal_slice FilterQuery_unmarshal) r with
  | Err e => send_err e
  | Ok [q] =>
      match EthTypes.BlockHash q with
      | Some h =>
          logs ← st_Get store chain EntryLogs (QueryHash h);
          send_logs q logs
      | None =>
          match FromBlock q, ToBlock q with
          | Some from, Some to =>
              if maxLogRange <? i64 (to - from) then next r
              else
                logs ← st_Get store chain EntryLogs (QueryRange (u64 from) (u64 to));
                send_logs q logs
          | _, _ => next r
          end
      end
  | Ok _ => send_err (NewInvalidParamsError "expected 1 parameter")
  end.

Definition Middleware : middleware W := λ next r,
  match GetChain (r_ctx r) with
  | Err e => send_err e
  | Ok chain =>
      let method := r_method r in
      if bool_decide (method = "eth_getBlockByNumber") then serve_getBlockByNumber next chain r
      else if bool_decide (method = "eth_getBlockByHash") then serve_getBlockByHash chain r
      else if bool_decide (method = "eth_getBlockReceipts")
      then serve_getBlockReceipts next chain r
      else if bool_decide (method = "eth_getLogs") then serve_getLogs next chain r
      else next r
  end.
End middleware.
End cacher.
End Cacher.

(** ** Lemmas *)

Module CacherFacts.
Import Cacher.

Section facts.
Context `{J : Jrpc} `{E : Eth} `{XS : JxSpec}.

Definition raws (l : list json) : list (list wtok) := map (λ v, [WRaw v]) l.

(** The hashes of a transaction, and of a block's transactions. *)
Definition tx_hashes (tx : json) : list json :=
  match tx with
  | JObj fs => (filter (λ kv, kv.1 = "hash") fs).*2
  | _ => []
  end.
Definition is_obj (v : json) : Prop := ∃ fs, v = JObj fs.

(** The abstract rewriting: the array of transactions becomes the array of
    their hashes, every other member stays. *)
Definition strip_member (kv : string * json) : string * json :=
  if bool_decide (kv.1 = "transactions") then
    match kv.2 with
    | JArr txs => (kv.1, JArr (mjoin (map tx_hashes txs)))
    | v => (kv.1, v)
    end
  else kv.

Lemma tx_members_spec fs first :
  Forall (λ kv, json_valid kv.2 = true) fs →
  tx_members fs first
  = Ok (sepj first (raws (filter (λ kv, kv.1 = "hash") fs).*2),
        match filter (λ kv, kv.1 = "hash") fs with [] => first | _ => false end).
Proof.
  intros Hv. revert first. induction Hv as [|[k v] fs Hv _ IH]; intros first; [done|].
  cbn [tx_members]. simpl in Hv. rewrite filter_cons. case_bool_decide as Hk.
  - rewrite jx_raw_spec by done. cbn [mbind res_bind]. rewrite IH. cbn [mbind res_bind].
    rewrite decide_True by done. cbn [fmap list_fmap raws map sepj app].
    do 2 f_equal. by destruct (filter _ fs).
  - rewrite jx_skip_spec by done. rewrite decide_False by done. apply IH.
Qed.

Lemma txs_tokens_spec txs first :
  Forall (λ v, json_valid v = true ∧ is_obj v) txs →
  txs_tokens txs first = Ok (sepj first (raws (mjoin (map tx_hashes txs)))).
Proof.
  intros Hv. revert first. induction Hv as [|tx txs [Hv [fs ->]] _ IH]; intros first; [done|].
  cbn [txs_tokens]. rewrite jx_obj_spec by done. cbn [mbind res_bind].
  rewrite tx_members_spec.
  2: { apply Forall_forall. intros kv Hkv%list_elem_of_In.
       simpl in Hv. rewrite forallb_forall in Hv. by apply Hv. }
  cbn [mbind res_bind]. rewrite IH. cbn [mbind res_bind].
  cbn [map mjoin list_join]. unfold raws. rewrite map_app, sepj_app.
  cbn [tx_hashes]. do 2 f_equal.
  destruct (filter _ fs); [done|]. by destruct first.
Qed.

(** What [removeTransactionDetails] needs of a member: if it is the
    transactions, it is an array of objects. *)
Definition strippable (kv : string * json) : Prop :=
  json_valid kv.2 = true ∧
  (kv.1 = "transactions" → ∃ txs, kv.2 = JArr txs ∧ Forall is_obj txs).

Definition member_doc (kv : string * json) : string * doc :=
  if bool_decide (kv.1 = "transactions") then
    match kv.2 with
    | JArr txs => (kv.1, DArr (map DRaw (mjoin (map tx_hashes txs))))
    | v => (kv.1, DRaw v)
    end
  else (kv.1, DRaw kv.2).

Lemma header_tokens_spec fs first :
  Forall strippable fs →
  header_tokens fs first
  = Ok (sepj first (map (λ kd, WKey kd.1 :: doc_tokens kd.2) (map member_doc fs))).
Proof.
  intros Hfs. revert first. induction Hfs as [|[k v] fs [Hv Ht] _ IH]; intros first; [done|].
  cbn [header_tokens map sepj]. unfold member_doc at 1 2. cbn [fst snd] in *.
  case_bool_decide as Hk.
  - destruct (Ht Hk) as (txs & -> & Htxs). rewrite jx_arr_spec by done.
    cbn [mbind res_bind]. rewrite txs_tokens_spec.
    2: { apply Forall_forall. intros tx Htx. split.
         - simpl in Hv. rewrite forallb_forall in Hv. by apply Hv, list_elem_of_In.
         - rewrite Forall_forall in Htxs. by apply Htxs. }
    cbn [mbind res_bind]. rewrite IH. cbn [mbind res_bind fst snd doc_tokens].
    rewrite sepj_wjoin, map_map. cbn [doc_tokens]. unfold raws.
    by rewrite !map_map.
  - rewrite jx_raw_spec by done. cbn [mbind res_bind]. rewrite IH. done.
Qed.

Lemma member_doc_json kv :
  strippable kv →
  ((member_doc kv).1, doc_json (member_doc kv).2) = strip_member kv.
Proof.
  intros [Hv Ht]. destruct kv as [k v]. unfold member_doc, strip_member. cbn [fst snd] in *.
  case_bool_decide as Hk; [|done]. destruct (Ht Hk) as (txs & -> & _).
  cbn [fst snd doc_json]. by rewrite map_map, map_id.
Qed.

Lemma removeTransactionDetails_run fs :
  Forall strippable fs →
  removeTransactionDetails (JObj fs) = Ok (JObj (map strip_member fs)).
Proof.
  intros Hfs. unfold removeTransactionDetails. rewrite jx_obj_spec.
  2: { simpl. apply forallb_forall. intros kv Hkv%list_elem_of_In.
       rewrite Forall_forall in Hfs. by apply Hfs. }
  cbn [mbind res_bind]. rewrite header_tokens_spec by done. cbn [mbind res_bind].
  rewrite sepj_wjoin. unfold mret, res_ret. f_equal.
  pose proof (jx_buf_spec (DObj (map member_doc fs))) as H.
  cbn [doc_tokens doc_json] in H. rewrite H. f_equal. rewrite map_map.
  apply map_ext_in. intros kv Hkv%list_elem_of_In. rewrite Forall_forall in Hfs.
  by apply member_doc_json, Hfs.
Qed.

(** *** Logs *)

Context (header_of : json → LogAddressTopics).

(** A log whose address and topics can be read. *)
Definition readable (log : json) : Prop :=
  json_valid log = true ∧ log_head log = Return (Ok (header_of log)).

Lemma entry_logs_spec c logs first :
  Forall readable logs →
  let kept := List.filter (λ v, Check_filter c (header_of v)) logs in
  entry_logs c logs first
  = Return (Ok (sepj first (raws kept), match kept with [] => first | _ => false end)).
Proof.
  intros Hl. revert first. induction Hl as [|v logs [Hv Hh] _ IH]; intros first; [done|].
  cbn [entry_logs List.filter]. rewrite jx_raw_spec by done. rewrite Hh.
  cbn [mbind outcome_bind]. destruct (Check_filter c (header_of v)); simpl negb; cbv iota.
  - rewrite IH. cbn [mbind outcome_bind res_bind mret outcome_ret]. cbn [raws map sepj app].
    do 3 f_equal. by destruct (List.filter _ logs).
  - apply IH.
Qed.

Lemma entries_logs_spec c entries logs first :
  Forall2 (λ x l, Value x = JArr l ∧ json_valid (JArr l) = true ∧ Forall readable l)
    entries logs →
  entries_logs c entries first
  = Return (Ok (sepj first (raws (List.filter (λ v, Check_filter c (header_of v)) (mjoin logs))))).
Proof.
  intros Hes. revert first.
  induction Hes as [|x l entries logs (Hx & Hv & Hl) _ IH]; intros first; [done|].
  cbn [entries_logs]. rewrite Hx, jx_arr_spec by done. rewrite entry_logs_spec by done.
  cbn [mbind outcome_bind]. rewrite IH. cbn [mbind outcome_bind mret outcome_ret res_bind].
  do 2 f_equal. cbn [mjoin list_join]. rewrite List.filter_app. unfold raws.
  rewrite map_app, sepj_app. do 2 f_equal.
  by destruct (List.filter _ l).
Qed.

Lemma filterLogs_run c entries logs :
  Forall2 (λ x l, Value x = JArr l ∧ json_valid (JArr l) = true ∧ Forall readable l)
    entries logs →
  filterLogs c entries
  = Return (Ok (JArr (List.filter (λ v, Check_filter c (header_of v)) (mjoin logs)))).
Proof.
  intros H. unfold filterLogs. rewrite (entries_logs_spec c entries logs) by done.
  cbn [mbind outcome_bind res_bind mret outcome_ret]. do 2 f_equal.
  rewrite sepj_wjoin. set (l := List.filter _ _).
  pose proof (jx_buf_spec (DArr (map DRaw l))) as Hb. cbn [doc_tokens doc_json] in Hb.
  rewrite !map_map in Hb. cbn [doc_tokens doc_json] in Hb. rewrite map_id in Hb.
  exact Hb.
Qed.

Lemma filter_matches addresses topics (l : list json) :
  List.filter (λ v, Check_filter (CompileFilter addresses topics) (header_of v)) l
  = filter (λ v, matches addresses topics (header_of v)) l.
Proof.
  induction l as [|v l IH]; [done|]. cbn [List.filter]. rewrite filter_cons, IH.
  destruct (decide (matches _ _ _)) as [Hm|Hm].
  - apply Check_filter_spec in Hm. by rewrite Hm.
  - destruct (Check_filter _ _) eqn:Hc; [|done]. by apply Check_filter_spec in Hc.
Qed.
End facts.

(** *** Hexadecimal *)

Lemma hex_Decode_bytes n l :
  Forall (λ b, 0 <= b < 256) l →
  hex_Decode n (StdEth.hex_bytes l)
  = if bool_decide (List.length l ≤ n)%nat
    then Return (l ++ replicate (n - List.length l) 0, true)
    else Panic "index out of range".
Proof.
  intros Hl. revert n. induction Hl as [|b l Hb _ IH]; intros n.
  { rewrite bool_decide_true by (simpl; lia). cbn [hex_Decode StdEth.hex_bytes List.length app].
    by rewrite Nat.sub_0_r. }
  cbn [StdEth.hex_bytes hex_Decode]. destruct (StdEth.nibbles b Hb).
  rewrite !StdEth.hex_val_char by done. destruct n as [|n]; [done|].
  rewrite IH. pose proof (Z.div_mod b 16 ltac:(lia)).
  destruct (decide (List.length l ≤ n)%nat).
  - rewrite !bool_decide_true by (simpl; lia). cbn. do 3 f_equal. lia.
  - rewrite !bool_decide_false by (simpl; lia). done.
Qed.
End CacherFacts.

(** ** Properties *)

Module CacherProps.
Import Cacher CacherFacts.

Section props.
Context `{J : Jrpc} `{E : Eth} `{XS : JxSpec}.

(** rewriting a block leaves every member as it is, in its place, but
    the transactions: their array becomes the array of their hashes, in
    order. *)
Theorem removeTransactionDetails_spec fs :
  Forall strippable fs →
  removeTransactionDetails (JObj fs) = Ok (JObj (map strip_member fs)).
Proof. apply removeTransactionDetails_run. Qed.

(** C20: the logs of the stored entries are filtered by the rule of the code:
    the answer has exactly the logs whose address is listed, or none is, and
    that have one of the alternatives at every position with alternatives, with
    their text unchanged, in the order of the entries.  For logs with at least
    as many topics as the filter has positions that is the documented rule;
    a log with fewer topics should not match a filter whose last positions are
    empty, and does. *)
Theorem filterLogs_spec header_of addresses topics entries logs :
  Forall2 (λ x l, Value x = JArr l ∧ json_valid (JArr l) = true ∧
                  Forall (readable header_of) l) entries logs →
  filterLogs (CompileFilter addresses topics) entries
  = Return (Ok (JArr (filter (λ v, matches addresses topics (header_of v)) (mjoin logs)))) ∧
  (Forall (λ v, List.length topics ≤ List.length (log_Topics (header_of v)))%nat (mjoin logs) →
   filter (λ v, matches addresses topics (header_of v)) (mjoin logs)
   = filter (λ v, documented addresses topics (header_of v)) (mjoin logs)).
Proof.
  intros H. split; [by rewrite (filterLogs_run header_of _ _ _ H), filter_matches|].
  induction 1 as [|v l Hv _ IH]; [done|]. rewrite !filter_cons, IH.
  destruct (decide (matches _ _ _)) as [Hm|Hm], (decide (documented _ _ _)) as [Hd|Hd]; try done;
    rewrite documented_matches in Hd; tauto.
Qed.

(** the text of a hash or an address is decoded to its bytes, filled up
    with zeros if it is short; if it is longer than the array the decoder
    writes past the end and panics. *)
Theorem raw_bytes_spec n l :
  Forall (λ b, 0 <= b < 256) l →
  raw_bytes n ("0x" +:+ StdEth.hex_bytes l)
  = if bool_decide (List.length l ≤ n)%nat
    then Return (l ++ replicate (n - List.length l) 0)
    else Panic "index out of range".
Proof.
  intros Hl. unfold raw_bytes, has_prefix.
  change ("0x" +:+ StdEth.hex_bytes l) with (String "0" (String "x" (StdEth.hex_bytes l))).
  assert (String.prefix "0x" (String "0" (String "x" (StdEth.hex_bytes l))) = true) as ->.
  { by apply prefix_app; exists (StdEth.hex_bytes l). }
  cbn [str_drop]. rewrite hex_Decode_bytes by done. by case_bool_decide.
Qed.

Section middleware.
Context {W : Type} `{Sn : Sonic} (store : Store W).

Lemma block_by_number_run next r chain p0 bn details w e fs w' :
  r_params r = Some (JArr [p0; JBool details]) → json_valid p0 = true →
  BlockNumber.unmarshal p0 = Ok bn → 0 <= bn < two63 →
  st_Get store chain EntryBlockHeader (QueryNumber bn) w = (Return (Ok [e]), w') →
  Value e = JObj fs → Forall strippable fs →
  serve_getBlockByNumber store next chain r w
  = (Return [reply_ok (VRaw (if details then JObj fs else JObj (map strip_member fs)))], w').
Proof.
  intros Hp Hv Hbn Hb Hget He Hfs. unfold serve_getBlockByNumber, unmarshal_params.
  rewrite Hp. unfold unmarshal_raws.
  assert (json_valid (JArr [p0; JBool details]) = true) as -> by (simpl; by rewrite Hv).
  cbv iota. rewrite Hbn. cbn [unmarshal_bool].
  rewrite (proj2 (Z.leb_le _ _)) by lia. rewrite u64_small by go_lia.
  rewrite (prog_bind_return _ _ _ _ _ Hget). unfold send_header. rewrite He.
  destruct details; [done|]. by rewrite removeTransactionDetails_run.
Qed.

(** a query for a block by number is answered from the store alone:
    whatever handler is behind the cache, the client gets the stored
    block, with the hashes only unless it asked for the details. *)
Theorem cacher_block_by_number next r chain p0 bn details w e fs w' :
  GetChain (r_ctx r) = Ok chain → r_method r = "eth_getBlockByNumber" →
  r_params r = Some (JArr [p0; JBool details]) → json_valid p0 = true →
  BlockNumber.unmarshal p0 = Ok bn → 0 <= bn < two63 →
  st_Get store chain EntryBlockHeader (QueryNumber bn) w = (Return (Ok [e]), w') →
  Value e = JObj fs → Forall strippable fs →
  Cacher.Middleware store next r w
  = (Return [reply_ok (VRaw (if details then JObj fs else JObj (map strip_member fs)))], w').
Proof.
  intros Hc Hm. unfold Cacher.Middleware. rewrite Hc, Hm. rewrite bool_decide_true by done.
  apply block_by_number_run.
Qed.

(** whatever the tag, the block behind it is stored under its number, a
    pending one too. *)
Lemma cacher_stores_tagged next r chain p0 bn details w w1 block n h p :
  GetChain (r_ctx r) = Ok chain → r_method r = "eth_getBlockByNumber" →
  r_params r = Some (JArr [p0; JBool details]) → json_valid p0 = true →
  BlockNumber.unmarshal p0 = Ok bn → bn < 0 →
  Do (r_ctx r) next "eth_getBlockByNumber" (JArr [BlockNumber.MarshalJSON bn; JBool true]) w
  = (Return (Ok block), w1) →
  unmarshal_field "number" uint64_unmarshal 0 block = Ok n →
  unmarshal_field "hash" hash_unmarshal zero_hash block = Ok h →
  unmarshal_field "parentHash" hash_unmarshal zero_hash block = Ok p →
  Cacher.Middleware store next r w
  = (err ← st_Put store chain EntryBlockHeader
       [{| BlockHash := h; BlockNumber := n; ParentHash := Some p; Value := block |}];
     match err with
     | Some e => send_err e
     | None =>
         if negb details && negb (match block with JNull => true | _ => false end)
         then send_rewritten "failed to remove transaction details: " (removeTransactionDetails block)
         else send_ok (VRaw block)
     end) w1.
Proof.
  intros Hc Hm Hp Hv Hbn Hb Hdo Hn Hh Hpar. unfold Cacher.Middleware. rewrite Hc, Hm.
  rewrite bool_decide_true by done. unfold serve_getBlockByNumber, unmarshal_params.
  rewrite Hp. unfold unmarshal_raws.
  assert (json_valid (JArr [p0; JBool details]) = true) as -> by (simpl; by rewrite Hv).
  cbv iota. rewrite Hbn. cbn [unmarshal_bool].
  rewrite (proj2 (Z.leb_gt _ _)) by lia.
  by rewrite (prog_bind_return _ _ _ _ _ Hdo), Hn, Hh, Hpar.
Qed.

(** if the block behind a tag is missing, its null is stored: as the
    block with number zero and the zero hash. *)
Theorem cacher_stores_null next r chain p0 bn details w w1 :
  GetChain (r_ctx r) = Ok chain → r_method r = "eth_getBlockByNumber" →
  r_params r = Some (JArr [p0; JBool details]) → json_valid p0 = true →
  BlockNumber.unmarshal p0 = Ok bn → bn < 0 →
  Do (r_ctx r) next "eth_getBlockByNumber" (JArr [BlockNumber.MarshalJSON bn; JBool true]) w
  = (Return (Ok JNull), w1) →
  Cacher.Middleware store next r w
  = (err ← st_Put store chain EntryBlockHeader
       [{| BlockHash := zero_hash; BlockNumber := 0; ParentHash := Some zero_hash;
           Value := JNull |}];
     match err with
     | Some e => send_err e
     | None => send_ok (VRaw JNull)
     end) w1.
Proof.
  intros. erewrite cacher_stores_tagged by done. unfold mbind, prog_bind.
  destruct (st_Put store _ _ _ _) as [[[e|]|?|] w2]; try done. by rewrite andb_false_r.
Qed.
End middleware.
End props.
End CacherProps.

Module CacherWitness.
Import Cacher CacherFacts CacherProps StdJrpc StdEth StdJx StdSonic.
Import BlockStoreWitness.

Definition tx (n : Z) : json :=
  JObj [("hash", hash_marshal (replicate 32 n)); ("nonce", JStr (EncodeUint64 n))].
Definition block0 : list (string * json) :=
  [("number", JStr "0x7"); ("transactions", JArr [tx 1; tx 2])].
Definition stripped0 : json := JObj [("number", JStr "0x7");
  ("transactions", JArr [hash_marshal (replicate 32 1); hash_marshal (replicate 32 2)])].

Lemma block0_strippable : Forall strippable block0.
Proof.
  repeat constructor; simpl; [discriminate|].
  intros _. exists [tx 1; tx 2]. split; [reflexivity|]. repeat constructor; eexists; reflexivity.
Qed.

Lemma removeTransactionDetails_witness : removeTransactionDetails (JObj block0) = Ok stripped0.
Proof. rewrite (removeTransactionDetails_spec block0 block0_strippable). vm_compute. reflexivity. Defined.

Definition log0 (a : Z) : json := JObj [("address", address_marshal (replicate 20 a));
  ("topics", JArr [hash_marshal (replicate 32 a)]); ("data", JStr "0x")].
Definition header0 (v : json) : LogAddressTopics :=
  match log_head v with
  | Return (Ok h) => h
  | _ => {| log_Address := []; log_TopicSlice := None |}
  end.

Definition entries0 : list Entry :=
  [{| BlockHash := replicate 32 1; BlockNumber := 1; ParentHash := None;
      Value := JArr [log0 1; log0 2] |};
   {| BlockHash := replicate 32 2; BlockNumber := 2; ParentHash := None;
      Value := JArr [log0 2] |}].

Lemma filterLogs_witness :
  let addresses := [replicate 20 2] in
  let topics := [[replicate 32 1; replicate 32 2]] in
  let logs := [log0 1; log0 2; log0 2] in
  filterLogs (CompileFilter addresses topics) entries0 = Return (Ok (JArr [log0 2; log0 2])) ∧
  filter (λ v, documented addresses topics (header0 v)) logs = [log0 2; log0 2].
Proof.
  intros addresses topics logs.
  destruct (filterLogs_spec header0 addresses topics entries0 [[log0 1; log0 2]; [log0 2]]) as [H1 H2].
  - repeat apply Forall2_cons_2; try apply Forall2_nil_2;
      (split; [reflexivity|split; [vm_compute; reflexivity|]]);
      repeat apply Forall_cons_2; try apply Forall_nil_2; split; vm_compute; reflexivity.
  - split; [rewrite H1; vm_compute; reflexivity|].
    change logs with (mjoin [[log0 1; log0 2]; [log0 2]]). rewrite <- H2.
    + vm_compute. reflexivity.
    + repeat apply Forall_cons_2; try apply Forall_nil_2; vm_compute; repeat constructor.
Defined.

Lemma raw_bytes_witness :
  rawStrToHash ("0x" +:+ StdEth.hex_bytes (replicate 33 17)) = Panic "index out of range".
Proof.
  refine (raw_bytes_spec 32 (replicate 33 17) _).
  apply Forall_replicate. lia.
Defined.

(** A store with block 7, and a handler without blocks. *)
Definition store0 : Store () := {|
  st_Get _ _ q := mret (Ok [{| BlockHash := replicate 32 7; BlockNumber := 7;
    ParentHash := None; Value := JObj block0 |}]);
  st_Put _ _ _ := mret None |}.
Definition null0 : handler () := const_handler (reply_ok (VRaw JNull)).
Definition request0 (bn : json) : request :=
  {| r_ctx := WithChain [] chain0; r_method := "eth_getBlockByNumber";
     r_params := Some (JArr [bn; JBool false]); r_peer := "" |}.

Lemma cacher_block_by_number_witness :
  (Cacher.Middleware store0 null0 (request0 (JStr "0x7")) ()).1
  = Return [reply_ok (VRaw stripped0)].
Proof.
  rewrite (cacher_block_by_number store0 null0 (request0 (JStr "0x7")) chain0 (JStr "0x7") 7
    false () {| BlockHash := replicate 32 7; BlockNumber := 7; ParentHash := None;
                Value := JObj block0 |} block0 ()).
  - reflexivity.
  - reflexivity.
  - reflexivity.
  - reflexivity.
  - reflexivity.
  - vm_compute. reflexivity.
  - vm_compute. split; congruence.
  - reflexivity.
  - reflexivity.
  - exact block0_strippable.
Defined.

Lemma cacher_stores_null_witness :
  (Cacher.Middleware store0 null0 (request0 (JStr "pending")) ()).1
  = Return [reply_ok (VRaw JNull)].
Proof.
  rewrite (cacher_stores_null store0 null0 (request0 (JStr "pending")) chain0 (JStr "pending")
    (-2) false () ()).
  - reflexivity.
  - reflexivity.
  - reflexivity.
  - reflexivity.
  - reflexivity.
  - vm_compute. reflexivity.
  - reflexivity.
  - vm_compute. reflexivity.
Defined.
End CacherWitness.
