(* ===== verification/TagLogs.v ===== *)
(** * Logs behind a tag, through the cache middleware and its stores

    [Cacher], [BlockStore] and [Chainblock] put together for a query for logs
    from a tag to the same tag.  The tag is a negative number, as a word of 64
    bits the number of a block that will never be, and the stores treat it as
    one: the remotes get the tag back and answer, and their answer is kept. *)
From S2P Require Import Prelude Errors Json EthTypes Logs Config Rpc BlockStore Chainblock Cacher.

(** ** The stores *)

Module TagLogsFacts.
Import LruStore.

Section facts.
Context {W : Type} `{J : Jrpc} `{ES : EthSpec} `{XS : JxSpec} `{Sn : Sonic}.
Context {LN LH : Type} `{SN : !Simplelru lruNumberKey Entry LN} `{SH : !Simplelru lruHashKey Entry LH}.
Context `{SNs : !SimplelruSpec lruNumberKey Entry LN} `{SHs : !SimplelruSpec lruHashKey Entry LH}.
Context `{L : !Lens (LruStore.t LN LH) W}.
Context (Hex : hash → string) (DoChan : string → prog W (res goerr (list Entry)) → prog W (res goerr (list Entry))).
Context (ctx_done : prog W (option goerr)).
Context (clusters_Middleware : handler W → handler W) (writer_size : Z) (ctx : context).

(** The store of a node without redis. *)
Definition tag_store : Store W :=
  vennstore_New LruStore.store None (Chainblock.store clusters_Middleware writer_size ctx)
    (SingleFlight.store Hex DoChan ctx_done).

Definition remotes (chain : Chain) : handler W := clusters_Middleware (λ _,
  send_err (NewInvalidRequestError ("chain not supported: " +:+ Chain_Name chain))).

(** A tag that no number stands for, and the word it becomes. *)
Definition unnumbered (tag : Z) : Prop :=
  BlockNumber.LatestExecutedBlockNumber <= tag < BlockNumber.LatestBlockNumber.

Lemma u64_tag tag : unnumbered tag → u64 tag = tag + two64.
Proof.
  unfold unnumbered, BlockNumber.LatestExecutedBlockNumber, BlockNumber.LatestBlockNumber, u64. intros Ht.
  symmetry. apply (Z.mod_unique tag two64 (-1)); unfold two64; lia.
Qed.

Lemma i64_tag tag : unnumbered tag → i64 (u64 tag) = tag.
Proof.
  intros Ht. rewrite u64_tag by done. unfold unnumbered, BlockNumber.LatestExecutedBlockNumber,
    BlockNumber.LatestBlockNumber in Ht. unfold i64.
  replace (tag + two64 + two63) with (tag + two63 + 1 * two64) by lia.
  rewrite Z.mod_add, Z.mod_small by (unfold two64, two63 in *; lia). lia.
Qed.

(** One number, in the memory cache: what is read of it, and that it is left. *)
Definition touched (typ : EntryType) (n : Z) (c : string) (T : LruStore.t LN LH) : LruStore.t LN LH :=
  {| size := size T; byHash := byHash T; byNumber := (lru_get (typ, n, c) (byNumber T)).2 |}.

Lemma lru_one chain typ n w :
  0 <= n < two64 - 1 →
  LruStore.Get chain typ (QueryRange n n) w
  = (Return (match lru_map (byNumber (lget w)) !! (typ, n, Chain_Name chain) with
             | Some e => Ok [e] | None => Err not_found end),
     lput (touched typ n (Chain_Name chain) (lget w)) w).
Proof.
  intros Hn. unfold LruStore.Get, read. rewrite (prog_bind_return _ _ (lget w) w w) by done.
  unfold make_pointers. rewrite Z.sub_diag. change (maxAlloc <? u64 (0 + 1) * 8) with false.
  unfold lift at 1. rewrite (prog_bind_return _ _ () w w) by done.
  cbn [range_loop]. rewrite (proj2 (Z.leb_le n n)) by lia. unfold touched.
  destruct (lru_get_spec (typ, n, Chain_Name chain) (byNumber (lget w))) as (<- & _).
  destruct (lru_get _ (byNumber (lget w))) as [[e|] l]; [|done].
  rewrite u64_small by (unfold in_u64; lia). cbn [app fst snd].
  assert (∀ fuel (l : LN), range_loop fuel typ (Chain_Name chain) (n + 1) n [e] l = (Some (Ok [e]), l)) as Hend.
  { intros fuel k. destruct fuel; cbn [range_loop]; by rewrite (proj2 (Z.leb_gt _ _)) by lia. }
  by rewrite Hend.
Qed.

(** *** The store *)

Hypothesis HDoChan : ∀ key f w, DoChan key f w = f w.
Hypothesis Hctx : ∀ w, ctx_done w = (Return None, w).

Lemma store_run chain typ q w :
  st_Get tag_store chain typ q w
  = Compound.Get [("lru", LruStore.store); ("blockgetter",
      Chainblock.store clusters_Middleware writer_size ctx)] chain typ q w.
Proof.
  unfold tag_store, vennstore_New. cbn [SingleFlight.store st_Get]. unfold SingleFlight.Get.
  unfold mbind, prog_bind. rewrite HDoChan. cbn [Compound.store st_Get id].
  change (Compound.AddStore "blockgetter" _ _) with
    [("lru", LruStore.store); ("blockgetter", Chainblock.store clusters_Middleware writer_size ctx)].
  destruct (Compound.Get _ chain typ q w) as [[r|?|] w']; [|done..]. by rewrite Hctx.
Qed.

(** What is held is given. *)
Lemma store_hit chain typ n e w :
  0 <= n < two64 - 1 → lru_map (byNumber (lget w)) !! (typ, n, Chain_Name chain) = Some e →
  st_Get tag_store chain typ (QueryRange n n) w
  = (Return (Ok [e]), lput (touched typ n (Chain_Name chain) (lget w)) w).
Proof.
  intros Hn He. rewrite store_run. unfold Compound.Get. cbn [Compound.backwards].
  rewrite (proj2 (Z.ltb_ge _ _)) by lia. cbn [Compound.find LruStore.store st_Get].
  rewrite prog_bind_assoc, (prog_bind_return _ _ _ _ _ (lru_one chain typ n w Hn)), He.
  by rewrite prog_ret_bind.
Qed.

(** What is not held is asked for, and kept. *)
Lemma store_miss chain typ n e w w1 :
  0 <= n < two64 - 1 → lru_map (byNumber (lget w)) !! (typ, n, Chain_Name chain) = None →
  st_Get (Chainblock.store clusters_Middleware writer_size ctx) chain typ (QueryRange n n)
    (lput (touched typ n (Chain_Name chain) (lget w)) w) = (Return (Ok [e]), w1) →
  st_Get tag_store chain typ (QueryRange n n) w
  = (Return (Ok [e]), lput (put1 (Chain_Name chain) typ e (lget w1)) w1).
Proof.
  intros Hn He Hrem. rewrite store_run. unfold Compound.Get. cbn [Compound.backwards].
  rewrite (proj2 (Z.ltb_ge _ _)) by lia. cbn [Compound.find app].
  rewrite prog_bind_assoc. cbn [LruStore.store st_Get].
  rewrite (prog_bind_return _ _ _ _ _ (lru_one chain typ n w Hn)), He.
  rewrite prog_bind_assoc, (prog_bind_return _ _ _ _ _ Hrem), prog_ret_bind.
  reflexivity.
Qed.

Lemma put1_held c typ e T :
  lru_map (byNumber (put1 c typ e T)) !! (typ, BlockNumber e, c) = Some e.
Proof. unfold put1. cbn [byNumber]. apply lru_add_spec. Qed.

(** *** The remotes: the word becomes the tag again *)

Lemma chainblock_tag chain tag v first h w w1 :
  unnumbered tag →
  Do (WithChain ctx chain) (remotes chain) "eth_getLogs"
    (JArr [FilterQuery_marshal (Chainblock.range_filter tag tag)]) w = (Return (Ok v), w1) →
  sonic_first v = Ok first → sonic_hash "blockHash" first = Ok h → Chainblock.no_hash h = false →
  st_Get (Chainblock.store clusters_Middleware writer_size ctx) chain EntryLogs
    (QueryRange (u64 tag) (u64 tag)) w = (Return (Ok [Chainblock.entry h (u64 tag) None v]), w1).
Proof.
  intros Ht Hdo Hf Hh Hn. cbn [Chainblock.store st_Get]. unfold Chainblock.Get, Chainblock.getLogs.
  rewrite (proj2 (Z.ltb_ge _ _)) by lia. cbv zeta. rewrite i64_tag by done. fold (remotes chain).
  rewrite (prog_bind_return _ _ _ _ _ Hdo), Z.eqb_refl, Hf. cbn [mbind res_bind].
  rewrite Hh. cbn [mbind res_bind]. by rewrite Hn.
Qed.

(** *** The middleware *)

Lemma cacher_tag next r chain q tag w :
  GetChain (r_ctx r) = Ok chain → r_method r = "eth_getLogs" →
  unmarshal_params (unmarshal_slice FilterQuery_unmarshal) r = Ok [q] →
  EthTypes.BlockHash q = None → FromBlock q = Some tag → ToBlock q = Some tag →
  Cacher.Middleware tag_store next r w
  = (logs ← st_Get tag_store chain EntryLogs (QueryRange (u64 tag) (u64 tag));
     Cacher.send_logs q logs) w.
Proof.
  intros Hc Hm Hq Hb Hf Ht. unfold Cacher.Middleware. rewrite Hc, Hm.
  rewrite !(bool_decide_false (_ = _)) by done. rewrite bool_decide_true by done.
  unfold Cacher.serve_getLogs. rewrite Hq, Hb, Hf, Ht, Z.sub_diag. done.
Qed.

(** What is sent of the logs does not depend on the world. *)
Lemma send_logs_pure q es (w w' : W) : (Cacher.send_logs q es w).1 = (Cacher.send_logs q es w').1.
Proof.
  destruct es as [es|e]; [|done]. cbn [Cacher.send_logs].
  destruct (Cacher.filterLogs _ es) as [[v|e]|?|]; done.
Qed.
End facts.
End TagLogsFacts.

(** ** Properties *)

Module TagLogsProps.
Import LruStore TagLogsFacts.

Section props.
Context {W : Type} `{J : Jrpc} `{ES : EthSpec} `{XS : JxSpec} `{Sn : Sonic}.
Context {LN LH : Type} `{SN : !Simplelru lruNumberKey Entry LN} `{SH : !Simplelru lruHashKey Entry LH}.
Context `{SNs : !SimplelruSpec lruNumberKey Entry LN} `{SHs : !SimplelruSpec lruHashKey Entry LH}.
Context `{L : !Lens (LruStore.t LN LH) W}.
Context (Hex : hash → string) (DoChan : string → prog W (res goerr (list Entry)) → prog W (res goerr (list Entry))).
Context (ctx_done : prog W (option goerr)).
Context (clusters_Middleware : handler W → handler W) (writer_size : Z) (ctx : context).
Context (HDoChan : ∀ key f w, DoChan key f w = f w) (Hctx : ∀ w, ctx_done w = (Return None, w)).

Abbreviation store := (tag_store Hex DoChan ctx_done clusters_Middleware writer_size ctx).

End props.
End TagLogsProps.

Module TagLogsWitness.
Import LruStore TagLogsFacts TagLogsProps StdJrpc StdEth StdJx StdSonic BlockStoreWitness.
#[local] Existing Instances EntryType_countable StdLru.std_lru StdLru.std_lru_spec.

(** The memory cache, and the logs that the remotes have for now. *)
Definition world : Type := LruStore.t LN LH * json.
#[local] Instance lru_lens : Lens (LruStore.t LN LH) world := lens_fst _ _.

Definition chain0 : Chain := {| Chain_Name := "ethereum"; Chain_Id := 1; Chain_Aliases := [];
  BlockTimeSeconds := QArith_base.inject_Z 12; Chain_Remotes := []; Stalk := None;
  ParsedStalk := true; ForgeBlockReceipts := false; Chain_MaxBlockLookback := 0 |}.

Definition log_of (n : string) : json := JObj [("blockNumber", JStr n);
  ("blockHash", JStr "0x0000000000000000000000000000000000000000000000000000000000000007");
  ("address", JStr "0x00000000000000000000000000000000000000aa"); ("topics", JArr [])].
Definition now : json := JArr [log_of "0x7"].
Definition later : json := JArr [log_of "0x8"].

Definition clusters0 (_ : handler world) : handler world := λ _ w, (Return [reply_ok (VRaw w.2)], w).
Definition start : LruStore.t LN LH := NewLruStore 8.
Definition request0 : request := {|
  r_ctx := WithChain [] chain0; r_method := "eth_getLogs";
  r_params := Some (JArr [JObj [("fromBlock", JStr "finalized"); ("toBlock", JStr "finalized")]]);
  r_peer := "" |}.
Definition query0 : FilterQuery := {| EthTypes.BlockHash := None; FromBlock := Some (-4);
  ToBlock := Some (-4); Addresses := []; Topics := [] |}.
Definition store0 : Store world := tag_store StdHex.Hex (λ _ f, f) (mret None) clusters0 128 [].
Definition ask (w : world) := Cacher.Middleware store0 (clusters0 (λ _, mret [])) request0 w.

End TagLogsWitness.
