(* ===== verification/Stalker.v ===== *)
(** * The stalker: [svc/node/atoms/stalker]

    The leader polls every chain for its latest block, stores the number as
    the head, and decides from the block's time and a sliding mean how long to
    wait before the next poll.  Durations and instants are nanoseconds;
    logging and metrics are left out. *)
From S2P Require Import Prelude Errors Json EthTypes Config Rpc Validator HeadStore.
#[local] Open Scope Z_scope.

(** ** [delay.go] *)

Module Delay.

Record t := {
  size : Z;
  pos : Z;
  mean : Z;
  nums : list Z;
  min : Z;
  max : Z;
}.

Definition newDelayTracker (size min max : Z) : t :=
  {| size := size; pos := 0; mean := 0; nums := []; min := min; max := max |}.

Definition clamp (T : t) (d : Z) : Z :=
  if d <=? min T then min T else if max T <=? d then max T else d.

(** The length of the slice as an [int]. *)
Definition len (T : t) : Z := Z.of_nat (List.length (nums T)).

Definition Add (d : Z) (T : t) : outcome t :=
  let d := clamp T d in
  if len T <? size T then
    Return {| size := size T; pos := len T + 1;
              mean := Z.quot (i64 (i64 (mean T * len T) + d)) (len T + 1);
              nums := nums T ++ [d]; min := min T; max := max T |}
  else
    let p := i64 (pos T + 1) in
    let p := if size T <=? p then 0 else p in
    old ← index (nums T) p;
    if bool_decide (size T = 0) then Panic "integer divide by zero"
    else Return {| size := size T; pos := p;
                   mean := Z.quot (i64 (i64 (i64 (mean T * size T) - old) + d)) (size T);
                   nums := <[Z.to_nat p := d]> (nums T); min := min T; max := max T |}.

Definition Mean (T : t) : Z := mean T.

Fixpoint Adds (ds : list Z) (T : t) : outcome t :=
  match ds with
  | [] => Return T
  | d :: ds => T' ← Add d T; Adds ds T'
  end.
End Delay.

(** ** [stalker.go] *)

Module Stalker.

(** The delay trackers by chain name. *)
Record t := { dt : gmap string Delay.t }.

Definition block_time (c : Chain) : Z := duration_of (BlockTimeSeconds c) Second.

Definition New (chains : gmap string Chain) : t :=
  {| dt := foldr (λ c m, <[Chain_Name c := Delay.newDelayTracker 128 0 (block_time c)]> m)
                 ∅ (map_to_list chains).*2 |}.

(** The block time that [tick] works with. *)
Definition tick_time (c : Chain) : Z := Z.max (block_time c) (500 * Millisecond).

(** The wait after a new block: [rem] is [nextTime.Sub(now)]. *)
Definition next_wait (blockTime rem mean : Z) : Z :=
  let nextWait := Z.max (Z.max (Z.min rem blockTime) (500 * Millisecond)) (Z.quot blockTime 2) in
  if 0 <? i64 (mean - 250 * Millisecond)
  then i64 (nextWait + Z.quot (i64 (mean * 9)) 10)
  else nextWait.

(** The wait after a block that was the head already. *)
Definition stale_wait (blockTime rem : Z) : Z :=
  if 0 <? rem then Z.min (Z.max rem (500 * Millisecond)) blockTime
  else Z.max (500 * Millisecond) (Z.quot blockTime 4).

Section tick.
Context {W : Type} `{J : Jrpc} `{E : Eth} `{Sn : Sonic} `{H : HeadStore W} `{!Lens t W}.
Context (now : prog W Z).

(** [dt.Add] and [dt.Mean] on the chain's tracker; a nil pointer panics. *)
Definition add_delay (chain : string) (d : Z) : prog W () :=
  T ← read;
  match dt T !! chain with
  | None => panic "nil pointer dereference"
  | Some k => k' ← lift (Delay.Add d k); write {| dt := <[chain := k']> (dt T) |}
  end.

Definition mean_delay (chain : string) : prog W Z :=
  T ← read;
  match dt T !! chain with
  | None => panic "nil pointer dereference"
  | Some k => mret (Delay.Mean k)
  end.

(** The wait and the error. *)
Definition tick (ctx : context) (chain : Chain) (cluster : handler W)
    : prog W (Z * option goerr) :=
  let blockTime := tick_time chain in
  res ← Do ctx cluster "eth_getBlockByNumber" (JArr [JStr "latest"; JBool false]);
  match res with
  | Err e => mret (blockTime, Some (EWrap "get latest block: " e ""))
  | Ok block =>
      now ← now;
      match block with
      | JNull => mret (blockTime, None)
      | _ =>
        match (n ← unmarshal_field "number" uint64_unmarshal 0 block;
               ts ← unmarshal_field "timestamp" uint64_unmarshal 0 block;
               Ok (n, ts)) with
        | Err e => mret (blockTime, Some e)
        | Ok (n, ts) =>
            let nextTime := Validator.Unix (i64 ts) + blockTime in
            let rem := Validator.Sub nextTime now in
            r ← hs_Put chain n;
            match r with
            | Err e => mret (blockTime, Some e)
            | Ok prev =>
                if bool_decide (prev ≠ n) then
                  _ ← (if 0 <? rem then add_delay (Chain_Name chain) rem else mret ());
                  mean ← mean_delay (Chain_Name chain);
                  mret (next_wait blockTime rem mean, None)
                else mret (stale_wait blockTime rem, None)
            end
        end
      end
  end.

(** [stalk]: whether the context has ended, and the select between its end and
    the time to wait, which is [true] when the time has come. *)
Context (Done : prog W bool) (After : Z → prog W bool).

(** A turn of the loop: the wait it chose, and whether it goes on. *)
Definition stalk_turn (ctx : context) (chain : Chain) (cluster : handler W)
    : prog W (Z * bool) :=
  '(waitfor, err) ← tick ctx chain cluster;
  ended ← (match err with Some _ => Done | None => mret false end);
  if ended : bool then mret (waitfor, false)
  else go ← After waitfor; mret (waitfor, go).

(** The first [n] turns: their waits, and whether the loop goes on. *)
Fixpoint stalk_loop (n : nat) (ctx : context) (chain : Chain) (cluster : handler W)
    : prog W (list Z * bool) :=
  match n with
  | O => mret ([], true)
  | S n =>
      '(waitfor, go) ← stalk_turn ctx chain cluster;
      if go : bool then
        '(waits, go) ← stalk_loop n ctx chain cluster;
        mret (waitfor :: waits, go)
      else mret ([waitfor], false)
  end.

Definition stalk (n : nat) (ctx : context) (chain : Chain) (cluster : handler W)
    : prog W (list Z * bool) :=
  stalk_loop n (WithChain ctx chain) chain cluster.

(** The chains that the leader stalks, of the chains with a cluster. *)
Definition stalked (Remotes : gset string) (chains : list Chain) : list Chain :=
  List.filter (λ c, ParsedStalk c && bool_decide (Chain_Name c ∈ Remotes)) chains.
End tick.
End Stalker.

(** ** Lemmas: the ring buffer *)

Module DelayFacts.
Import Delay.

Definition sum (l : list Z) : Z := foldr Z.add 0 l.

Lemma sum_app l k : sum (l ++ k) = sum l + sum k.
Proof. induction l as [|x l IH]; simpl; [done|]. rewrite IH. lia. Qed.

Lemma sum_perm l k : l ≡ₚ k → sum l = sum k.
Proof. induction 1; simpl; lia. Qed.

Lemma sum_bounds lo hi l :
  Forall (λ x, lo <= x <= hi) l →
  Z.of_nat (List.length l) * lo <= sum l <= Z.of_nat (List.length l) * hi.
Proof. induction 1; simpl; lia. Qed.

(** The last [n] elements. *)
Definition lastn {A} (n : nat) (l : list A) : list A := drop (List.length l - n) l.

Lemma lastn_short {A} n (l : list A) : (List.length l ≤ n)%nat → lastn n l = l.
Proof. intros H. unfold lastn. by replace (List.length l - n)%nat with 0%nat by lia. Qed.

Lemma lastn_snoc {A} n (l : list A) x :
  (0 < n ≤ List.length l)%nat → lastn n (l ++ [x]) = tail (lastn n l) ++ [x].
Proof.
  intros H. unfold lastn. rewrite length_app. simpl.
  rewrite drop_app_le by lia.
  replace (List.length l + 1 - n)%nat with (S (List.length l - n)) by lia.
  f_equal. generalize (List.length l - n)%nat. clear H.
  induction l as [|y l IH]; intros [|k]; [done..|]. apply IH.
Qed.

Section facts.
Context (n : nat) (lo hi : Z).
Hypothesis Hn : (0 < n)%nat.
Hypothesis Hlo : 0 <= lo <= hi.
Hypothesis Hfit : (hi + 1) * (Z.of_nat n + 2) < two63.

Definition clamped (d : Z) : Z := Z.max lo (Z.min hi d).

Lemma clamped_range d : lo <= clamped d <= hi.
Proof. unfold clamped. lia. Qed.

(** The index that the next addition overwrites. *)
Definition next (p : Z) : nat := if Z.of_nat n <=? p + 1 then 0%nat else Z.to_nat (p + 1).

Record inv (ds : list Z) (T : t) : Prop := {
  inv_size : size T = Z.of_nat n;
  inv_min : min T = lo;
  inv_max : max T = hi;
  inv_fill : (List.length ds ≤ n)%nat →
    nums T = map clamped ds ∧ pos T = Z.of_nat (List.length ds) ∧ 0 <= mean T;
  inv_ring : (n ≤ List.length ds)%nat →
    List.length (nums T) = n ∧ 0 <= pos T <= Z.of_nat n ∧
    drop (next (pos T)) (nums T) ++ take (next (pos T)) (nums T)
    = lastn n (map clamped ds);
  inv_range : Forall (λ x, lo <= x <= hi) (nums T);
  inv_drift : 0 <= sum (nums T) - len T * mean T ∧
    2 * (sum (nums T) - len T * mean T)
    <= len T * (len T - 1) + 2 * (Z.of_nat n - 1) * (Z.of_nat (List.length ds) - len T);
  inv_low : sum (nums T) - len T * mean T <= Z.of_nat n * hi;
  inv_mean : - hi <= mean T <= hi;
}.

Lemma inv_new : inv [] (newDelayTracker (Z.of_nat n) lo hi).
Proof.
  split; unfold len; simpl; try nia; try done.
Qed.

Lemma inv_clamp ds T d : inv ds T → clamp T d = clamped d.
Proof.
  intros I. unfold clamp, clamped. rewrite (inv_min _ _ I), (inv_max _ _ I).
  destruct (Z.leb_spec d lo), (Z.leb_spec hi d); lia.
Qed.

Lemma inv_length ds T :
  inv ds T → List.length (nums T) = Nat.min n (List.length ds).
Proof.
  intros I. destruct (Nat.le_ge_cases (List.length ds) n) as [H|H].
  - destruct (inv_fill _ _ I H) as (-> & _). rewrite length_map. lia.
  - destruct (inv_ring _ _ I H) as (-> & _). lia.
Qed.

(** The remainder of a truncated division: between the dividend and zero. *)
Lemma quot_between a b :
  0 < b → (0 <= a → 0 <= Z.quot a b ∧ a - (b - 1) <= b * Z.quot a b <= a) ∧
          (a <= 0 → Z.quot a b <= 0 ∧ a <= b * Z.quot a b <= a + (b - 1)).
Proof.
  intros Hb. split; intros Ha.
  - rewrite Z.quot_div_nonneg by lia.
    pose proof (Z.div_mod a b ltac:(lia)). pose proof (Z.mod_pos_bound a b Hb).
    pose proof (Z.div_pos a b ltac:(lia) Hb). lia.
  - replace a with (- (- a)) by lia. rewrite Z.quot_opp_l, Z.quot_div_nonneg by lia.
    pose proof (Z.div_mod (- a) b ltac:(lia)). pose proof (Z.mod_pos_bound (- a) b Hb).
    pose proof (Z.div_pos (- a) b ltac:(lia) Hb). lia.
Qed.

(** Filling up. *)
Lemma Add_fill ds T d :
  inv ds T → (List.length ds < n)%nat → ∃ T', Add d T = Return T' ∧ inv (ds ++ [d]) T'.
Proof.
  intros I Hl. destruct (inv_fill _ _ I) as (Hns & Hp & H0); [lia|].
  pose proof (clamped_range d) as Hd. pose proof (inv_drift _ _ I) as [He1 He2].
  pose proof (inv_mean _ _ I) as Hm. pose proof (sum_bounds _ _ _ (inv_range _ _ I)) as Hs.
  assert (len T = Z.of_nat (List.length ds)) as Hlen.
  { unfold len. by rewrite Hns, length_map. }
  assert (Z.of_nat (List.length (nums T)) = len T) as Hlen' by done.
  set (k := len T) in *.
  unfold Add. rewrite (inv_clamp _ _ _ I), (inv_size _ _ I). fold k.
  rewrite (proj2 (Z.ltb_lt _ _)) by lia. eexists. split; [done|].
  assert (0 <= mean T * k <= k * hi) by nia.
  rewrite (i64_small (mean T * k)), i64_small by (unfold in_i64; nia).
  destruct (quot_between (mean T * k + clamped d) (k + 1)) as [Hq _]; [lia|].
  destruct Hq as [Hq0 Hq]; [nia|].
  set (q := Z.quot _ _) in *.
  split; simpl; unfold len; simpl; rewrite ?length_app, ?sum_app; simpl;
    try apply I; try done; rewrite ?Nat2Z.inj_add, ?Hlen'.
  - intros _. rewrite Hns, map_app. simpl. repeat split; lia.
  - intros Hge. assert (List.length ds + 1 = n)%nat as Hn' by lia.
    rewrite Hns, length_map. repeat split; [lia..|].
    unfold next. rewrite (proj2 (Z.leb_le _ _)) by lia. simpl. rewrite app_nil_r.
    rewrite lastn_short; [by rewrite map_app|]. rewrite length_map, length_app. simpl. lia.
  - apply Forall_app. split; [apply I|]. repeat constructor; lia.
  - rewrite <- Hlen. lia.
  - assert (0 <= (k + 1) * q) by (apply Z.mul_nonneg_nonneg; lia).
    assert ((k + 1) * hi <= Z.of_nat n * hi) by (apply Z.mul_le_mono_nonneg_r; lia). lia.
  - split; [lia|]. apply (Z.mul_le_mono_pos_l _ _ (k + 1)); lia.
Qed.

Lemma ring_step {A} (l : list A) k old x :
  l !! k = Some old →
  drop (S k) (<[k := x]> l) ++ take (S k) (<[k := x]> l)
  = tail (drop k l ++ take k l) ++ [x].
Proof.
  intros Hk. pose proof (lookup_lt_Some _ _ _ Hk) as Hlt.
  rewrite drop_insert_lt by lia.
  rewrite (take_S_r _ _ x) by (by apply list_lookup_insert_eq).
  rewrite take_insert_ge by lia.
  rewrite (drop_S l old k) by done. simpl. by rewrite app_assoc.
Qed.

Lemma sum_insert l k old x : l !! k = Some old → sum (<[k := x]> l) = sum l - old + x.
Proof.
  revert k. induction l as [|y l IH]; intros [|k] H; simplify_eq/=; [lia|].
  rewrite IH by done. lia.
Qed.

(** The mean with one sample replaced by another stays within a turn's error of
    the mean of the samples. *)
Lemma mean_replaced s s' old x m :
  lo <= old <= hi → lo <= x <= hi → s' = s - old + x →
  0 <= s - Z.of_nat n * m → s - Z.of_nat n * m <= Z.of_nat n * hi →
  Z.of_nat n * lo <= s' <= Z.of_nat n * hi →
  let q := (m * Z.of_nat n - old + x) `quot` Z.of_nat n in
  0 <= s' - Z.of_nat n * q <= s - Z.of_nat n * m + (Z.of_nat n - 1) ∧
  s' - Z.of_nat n * q <= Z.of_nat n * hi ∧ - hi <= q <= hi.
Proof.
  intros Ho Hx -> He1 He3 Hs q. set (a := m * Z.of_nat n - old + x) in *.
  assert (a = m * Z.of_nat n - old + x) by done.
  destruct (quot_between a (Z.of_nat n)) as [Hq1 Hq2]; [lia|]. fold q in Hq1, Hq2.
  assert (- (Z.of_nat n * hi) <= Z.of_nat n * q <= Z.of_nat n * hi → - hi <= q <= hi) as Hmono.
  { intros [? ?]. split; apply (Z.mul_le_mono_pos_l _ _ (Z.of_nat n)); lia. }
  assert (0 <= Z.of_nat n * hi) by (apply Z.mul_nonneg_nonneg; lia).
  assert (0 <= Z.of_nat n * lo) by (apply Z.mul_nonneg_nonneg; lia).
  destruct (Z.le_ge_cases 0 a) as [Ha|Ha].
  - destruct (Hq1 Ha). assert (0 <= Z.of_nat n * q) by (apply Z.mul_nonneg_nonneg; lia).
    split_and!; [lia..| |]; apply Hmono; lia.
  - destruct (Hq2 Ha). assert (Z.of_nat n * q <= 0) by (apply Z.mul_nonneg_nonpos; lia).
    split_and!; [lia..| |]; apply Hmono; lia.
Qed.

(** Turning around. *)
Lemma Add_ring ds T d :
  inv ds T → (n ≤ List.length ds)%nat → ∃ T', Add d T = Return T' ∧ inv (ds ++ [d]) T'.
Proof.
  intros I Hl. destruct (inv_ring _ _ I Hl) as (Hln & Hp & Hr).
  pose proof (clamped_range d) as Hd. pose proof (inv_drift _ _ I) as [He1 He2].
  pose proof (inv_low _ _ I) as He3.
  pose proof (inv_mean _ _ I) as Hm. pose proof (sum_bounds _ _ _ (inv_range _ _ I)) as Hs.
  unfold len in *. rewrite Hln in *.
  set (k := next (pos T)) in *.
  assert (k < n)%nat as Hk.
  { unfold k, next. destruct (Z.leb_spec (Z.of_nat n) (pos T + 1)); lia. }
  destruct (lookup_lt_is_Some_2 (nums T) k) as [old Hold]; [lia|].
  assert (lo <= old <= hi) as Ho.
  { by apply (Forall_lookup_1 _ _ _ _ (inv_range _ _ I) Hold). }
  unfold Add, len. rewrite (inv_clamp _ _ _ I), (inv_size _ _ I), Hln, Z.ltb_irrefl.
  rewrite (i64_small (pos T + 1)) by (unfold in_i64 in *; nia).
  assert ((if Z.of_nat n <=? pos T + 1 then 0 else pos T + 1) = Z.of_nat k) as ->.
  { unfold k, next. destruct (Z.leb_spec (Z.of_nat n) (pos T + 1)); lia. }
  unfold index. rewrite (proj2 (Z.ltb_ge _ _)), Nat2Z.id, Hold by lia.
  cbn [mbind outcome_bind]. rewrite bool_decide_false by lia.
  eexists. split; [done|].
  assert (- (hi * Z.of_nat n) <= mean T * Z.of_nat n <= hi * Z.of_nat n) by nia.
  rewrite (i64_small (mean T * _)), (i64_small (_ - old)), i64_small
    by (unfold in_i64; lia).
  pose proof (sum_insert (nums T) k old (clamped d) Hold) as Hsum.
  assert (Forall (λ x, lo <= x <= hi) (<[k := clamped d]> (nums T))) as Hrange.
  { apply Forall_insert; [apply I|lia]. }
  pose proof (sum_bounds _ _ _ Hrange) as Hs'. rewrite length_insert, Hln in Hs'.
  destruct (mean_replaced _ _ old (clamped d) (mean T) Ho Hd Hsum) as (Hb1 & Hb2 & Hb3);
    [lia..|]. set (q := Z.quot _ _) in *.
  split; simpl; unfold len; simpl; rewrite ?length_insert, ?length_app, ?Hln; simpl;
    try done; try apply I; try lia.
  intros _. split_and!; [done|lia|lia|]. unfold next at 1 2.
  rewrite map_app. simpl. rewrite lastn_snoc by (rewrite length_map; lia). rewrite <- Hr.
  destruct (Z.leb_spec (Z.of_nat n) (Z.of_nat k + 1)).
  - rewrite <- (ring_step _ _ old) by done. replace (S k) with n by lia.
    rewrite (drop_ge _ n), (take_ge _ n) by (rewrite length_insert; lia).
    simpl. by rewrite app_nil_r.
  - replace (Z.to_nat (Z.of_nat k + 1)) with (S k) by lia. by apply ring_step with old.
Qed.

Lemma Adds_inv ds ds' T :
  inv ds' T → ∃ T', Adds ds T = Return T' ∧ inv (ds' ++ ds) T'.
Proof.
  revert ds' T. induction ds as [|d ds IH]; intros ds' T I.
  { exists T. by rewrite app_nil_r. }
  simpl. destruct (Nat.lt_ge_cases (List.length ds') n) as [Hl|Hl].
  - destruct (Add_fill _ _ d I Hl) as (T1 & -> & I1).
    destruct (IH _ _ I1) as (T2 & Ha & I2). exists T2. by rewrite <- app_assoc in I2.
  - destruct (Add_ring _ _ d I Hl) as (T1 & -> & I1).
    destruct (IH _ _ I1) as (T2 & Ha & I2). exists T2. by rewrite <- app_assoc in I2.
Qed.

(** What the tracker holds: the last [n] samples. *)
Lemma inv_window ds T : inv ds T → nums T ≡ₚ lastn n (map clamped ds).
Proof.
  intros I. destruct (Nat.le_ge_cases (List.length ds) n) as [H|H].
  - destruct (inv_fill _ _ I H) as (-> & _). by rewrite lastn_short by (by rewrite length_map).
  - destruct (inv_ring _ _ I H) as (_ & _ & <-).
    by rewrite Permutation_app_comm, take_drop.
Qed.
End facts.
End DelayFacts.

(** ** Lemmas: the waits *)

Module StalkerFacts.
Import Stalker.

(** The block times for which no duration overflows. *)
Definition sane (c : Chain) : Prop := 0 <= block_time c ∧ (block_time c + 1) * 256 < two63.

Definition longest (c : Chain) : Z := tick_time c + Z.quot (tick_time c * 9) 10.

(** The chain has a tracker, made by [New] and used by [tick] alone. *)
Definition tracked (c : Chain) (T : t) : Prop :=
  ∃ k ds, dt T !! Chain_Name c = Some k ∧ DelayFacts.inv 128 0 (block_time c) ds k.

Lemma tick_time_bounds c :
  sane c → 500 * Millisecond <= tick_time c ∧ block_time c <= tick_time c ∧
           tick_time c * 128 < two63.
Proof.
  unfold sane, tick_time, Millisecond. intros [? ?].
  destruct (Z.max_spec (block_time c) (500 * 1000000)) as [[? ->]|[? ->]]; unfold two63 in *; lia.
Qed.

Lemma quot_pos a b : 0 <= a → 0 < b → 0 <= Z.quot a b ∧ b * Z.quot a b <= a < b * Z.quot a b + b.
Proof.
  intros. rewrite Z.quot_div_nonneg by lia.
  pose proof (Z.div_mod a b ltac:(lia)). pose proof (Z.mod_pos_bound a b ltac:(lia)).
  pose proof (Z.div_pos a b ltac:(lia) ltac:(lia)). lia.
Qed.

Lemma next_wait_bounds c rem mean :
  sane c → - block_time c <= mean <= block_time c →
  500 * Millisecond <= next_wait (tick_time c) rem mean <= longest c.
Proof.
  intros Hc Hm. destruct (tick_time_bounds c Hc) as (H1 & H2 & H3).
  unfold next_wait, longest. set (b := tick_time c) in *.
  unfold Millisecond in *.
  destruct (quot_pos b 2) as [? ?]; [lia..|].
  destruct (quot_pos (b * 9) 10) as [? ?]; [lia..|].
  rewrite (i64_small (mean - _)) by (unfold in_i64, two63 in *; lia).
  destruct (Z.ltb_spec 0 (mean - 250 * 1000000)); [|lia].
  rewrite (i64_small (mean * 9)) by (unfold in_i64, two63 in *; lia).
  destruct (quot_pos (mean * 9) 10) as [? ?]; [lia..|].
  rewrite i64_small by (unfold in_i64, two63 in *; lia). lia.
Qed.

Lemma stale_wait_bounds c rem :
  sane c → 500 * Millisecond <= stale_wait (tick_time c) rem <= longest c.
Proof.
  intros Hc. destruct (tick_time_bounds c Hc) as (H1 & H2 & H3).
  unfold stale_wait, longest. set (b := tick_time c) in *. unfold Millisecond in *.
  destruct (quot_pos b 4) as [? ?]; [lia..|].
  destruct (quot_pos (b * 9) 10) as [? ?]; [lia..|].
  destruct (0 <? rem); lia.
Qed.

Lemma tick_time_wait c : sane c → 500 * Millisecond <= tick_time c <= longest c.
Proof.
  intros Hc. destruct (tick_time_bounds c Hc) as (H1 & H2 & H3).
  unfold longest. unfold Millisecond in *.
  destruct (quot_pos (tick_time c * 9) 10) as [? ?]; lia.
Qed.

Lemma tracked_add c T k ds d :
  sane c → dt T !! Chain_Name c = Some k → DelayFacts.inv 128 0 (block_time c) ds k →
  ∃ k', Delay.Add d k = Return k' ∧
        DelayFacts.inv 128 0 (block_time c) (ds ++ [d]) k'.
Proof.
  intros [Hc1 Hc2] Hk Hi.
  destruct (DelayFacts.Adds_inv 128 0 (block_time c)) with (ds := [d]) (ds' := ds) (T := k)
    as (k' & Ha & Hi'); [lia|lia|lia|done|].
  exists k'. split; [|done]. cbn [Delay.Adds mbind outcome_bind] in Ha.
  by destruct (Delay.Add d k).
Qed.

Section tick.
Context {W : Type} `{J : Jrpc} `{E : Eth} `{Sn : Sonic} `{H : HeadStore W} `{L : !Lens t W}.

(** A program that returns, and leaves the trackers alone. *)
Definition calm {A} (m : prog W A) : Prop :=
  ∀ w, ∃ a w', m w = (Return a, w') ∧ lget w' = lget w.

Lemma calm_Do ctx (h : handler W) method args :
  (∀ r, calm (h r)) → calm (Do ctx h method args).
Proof.
  intros Hh w. destruct (Hh (internal_request ctx method args) w) as (a & w' & Hr & Hl).
  unfold Do. rewrite (prog_bind_return _ _ _ _ _ Hr). by eexists _, _.
Qed.

Lemma record_run c w k k' d :
  dt (lget w) !! Chain_Name c = Some k → Delay.Add d k = Return k' →
  add_delay (Chain_Name c) d w
  = (Return (), lput {| dt := <[Chain_Name c := k']> (dt (lget w)) |} w).
Proof.
  intros Hk Ha. unfold add_delay, mbind, prog_bind, read, lift. cbn beta iota.
  rewrite Hk. cbn beta iota. by rewrite Ha.
Qed.

Lemma mean_run c w k :
  dt (lget w) !! Chain_Name c = Some k →
  mean_delay (Chain_Name c) w = (Return (Delay.mean k), w).
Proof. intros Hk. unfold mean_delay, mbind, prog_bind, read. cbn beta iota. by rewrite Hk. Qed.

(** The end of a poll that found a new block. *)
Definition finish (c : Chain) (rem : Z) : prog W (Z * option goerr) :=
  _ ← (if 0 <? rem then add_delay (Chain_Name c) rem else mret ());
  mean ← mean_delay (Chain_Name c);
  mret (next_wait (tick_time c) rem mean, None).

Lemma finish_run c rem w :
  sane c → tracked c (lget w) →
  ∃ wait T, finish c rem w = (Return (wait, None), lput T w) ∧ tracked c T ∧
    (∀ x, x ≠ Chain_Name c → dt T !! x = dt (lget w) !! x) ∧
    500 * Millisecond <= wait <= longest c.
Proof.
  intros Hc (k & ds & Hk & Hi). unfold finish.
  destruct (0 <? rem) eqn:Er.
  - destruct (tracked_add c _ k ds rem Hc Hk Hi) as (k' & Ha & Hi').
    rewrite (prog_bind_return _ _ _ _ _ (record_run _ _ _ _ _ Hk Ha)).
    set (T := {| dt := <[Chain_Name c := k']> (dt (lget w)) |}).
    assert (dt T !! Chain_Name c = Some k') as Hk' by apply lookup_insert_eq.
    rewrite (prog_bind_return _ _ _ _ _ (mean_run c (lput T w) k' ltac:(by rewrite lget_lput))).
    eexists _, T. split; [done|]. split; [by exists k', (ds ++ [rem])|].
    split; [intros x Hx; by apply lookup_insert_ne|].
    apply next_wait_bounds; [done|]. by apply Hi'.
  - rewrite prog_ret_bind, (prog_bind_return _ _ _ _ _ (mean_run _ _ _ Hk)).
    eexists _, (lget w). rewrite lput_lget. split; [done|]. split; [by exists k, ds|].
    split; [done|]. apply next_wait_bounds; [done|]. by apply Hi.
Qed.

Section poll.
Context (now : prog W Z) (ctx : context) (c : Chain) (cluster : handler W).
Hypothesis Hc : sane c.

(** A poll, whatever the cluster and the head store say. *)
Lemma tick_run w :
  calm now → (∀ r, calm (cluster r)) → (∀ n, calm (hs_Put c n)) →
  tracked c (lget w) →
  ∃ wait err w', tick now ctx c cluster w = (Return (wait, err), w') ∧
    tracked c (lget w') ∧ 500 * Millisecond <= wait <= longest c.
Proof.
  intros Hnow Hcl Hput Ht. unfold tick.
  pose proof (tick_time_wait c Hc) as Hw.
  destruct (calm_Do ctx cluster "eth_getBlockByNumber"
              (JArr [JStr "latest"; JBool false]) Hcl w) as (res & w1 & Hr & H1).
  rewrite (prog_bind_return _ _ _ _ _ Hr). rewrite <- H1 in Ht.
  destruct res as [block|e]; [|by eexists _, _, w1].
  destruct (Hnow w1) as (t0 & w2 & Hn & H2). rewrite (prog_bind_return _ _ _ _ _ Hn).
  rewrite <- H2 in Ht.
  destruct block; [by eexists _, _, w2|..].
  all: match goal with
       | |- context [match ?x with Ok _ => _ | Err _ => _ end] =>
           destruct x as [[n ts]|e]; [|by eexists _, _, w2]
       end.
  all: destruct (Hput n w2) as (r & w3 & Hp & H3); cbv zeta;
    rewrite (prog_bind_return _ _ _ _ _ Hp); rewrite <- H3 in Ht;
    destruct r as [prev|e]; [|by eexists _, _, w3];
    destruct (bool_decide (prev ≠ n));
    [|eexists _, _, w3; split; [done|]; split; [done|]; by apply stale_wait_bounds].
  all: set (rem := Validator.Sub _ _);
    destruct (finish_run c rem w3 Hc Ht) as (wait & T4 & Hf & Ht4 & _ & Hb);
    exists wait, None, (lput T4 w3); by rewrite lget_lput.
Qed.

(** A turn of the loop, whatever the context does. *)
Lemma stalk_turn_run (Done : prog W bool) (After : Z → prog W bool) w :
  calm now → (∀ r, calm (cluster r)) → (∀ n, calm (hs_Put c n)) →
  calm Done → (∀ d, calm (After d)) → tracked c (lget w) →
  ∃ wait go w', stalk_turn now Done After ctx c cluster w = (Return (wait, go), w') ∧
    tracked c (lget w') ∧ 500 * Millisecond <= wait <= longest c ∧
    ((∀ w, (Done w).1 = Return false) → (∀ d w, (After d w).1 = Return true) → go = true).
Proof.
  intros Hnow Hcl Hput Hd Ha Ht. unfold stalk_turn.
  destruct (tick_run w Hnow Hcl Hput Ht) as (wait & err & w1 & Hr & Ht1 & Hb).
  rewrite (prog_bind_return _ _ _ _ _ Hr).
  assert (calm (match err with Some _ => Done | None => mret false end)) as He.
  { destruct err; [done|]. intros w0. by exists false, w0. }
  destruct (He w1) as (ended & w2 & Hr2 & H2). rewrite (prog_bind_return _ _ _ _ _ Hr2).
  rewrite <- H2 in Ht1. destruct ended.
  - exists wait, false, w2. split_and!; [done|done|apply Hb|apply Hb|].
    intros Hdone _. destruct err; [|done]. specialize (Hdone w1). rewrite Hr2 in Hdone. done.
  - destruct (Ha wait w2) as (go & w3 & Hr3 & H3). rewrite (prog_bind_return _ _ _ _ _ Hr3).
    exists wait, go, w3. rewrite H3. split_and!; [done|done|apply Hb|apply Hb|].
    intros _ Hafter. specialize (Hafter wait w2). rewrite Hr3 in Hafter. by injection Hafter.
Qed.
End poll.
End tick.
End StalkerFacts.

(** ** Properties *)

Module StalkerProps.
Import Stalker StalkerFacts.

(** C40: the delay tracker is a sliding window: whatever samples are added, it
    does not panic, its ring holds the last [n] of them, cut to the configured
    range, and the mean it reports is at most their average.  Below it the mean
    is, while the ring fills and holds [k] samples, by at most (k - 1) / 2
    nanoseconds, and with a full ring by at most (n - 1) / 2 and (n - 1) / n for
    every sample that came since; so by less than a nanosecond for every sample
    ever added. *)
Theorem delay_window n lo hi ds :
  (0 < n)%nat → 0 <= lo <= hi → (hi + 1) * (Z.of_nat n + 2) < two63 →
  let l := DelayFacts.lastn n (map (DelayFacts.clamped lo hi) ds) in
  let k := Z.of_nat (List.length l) in
  let added := Z.of_nat (List.length ds) in
  ∃ T, Delay.Adds ds (Delay.newDelayTracker (Z.of_nat n) lo hi) = Return T ∧
    Delay.nums T ≡ₚ l ∧
    let missing := DelayFacts.sum l - k * Delay.Mean T in
    0 <= missing ∧
    2 * missing <= k * (k - 1) + 2 * (Z.of_nat n - 1) * (added - k) ∧
    (ds ≠ [] → missing < k * added).
Proof.
  intros Hn Hlo Hfit l k added.
  destruct (DelayFacts.Adds_inv n lo hi Hn Hlo Hfit ds [] _
              (DelayFacts.inv_new n lo hi Hn Hlo)) as (T & Ha & Hi).
  simpl in Hi. exists T. split; [done|].
  pose proof (DelayFacts.inv_window n lo hi _ _ Hi) as Hw. fold l in Hw. split; [done|].
  assert (List.length (Delay.nums T) = Nat.min n (List.length ds)) as Hlen
    by (eapply DelayFacts.inv_length; eassumption).
  pose proof (DelayFacts.inv_drift _ _ _ _ _ Hi) as Hdr. unfold Delay.len in Hdr.
  rewrite (DelayFacts.sum_perm _ _ Hw), (Permutation_length Hw) in Hdr. destruct Hdr as [H1 H2].
  rewrite (Permutation_length Hw) in Hlen.
  fold k added in H1, H2. fold l in Hlen. intros missing. split; [exact H1|]. split; [exact H2|].
  intros Hds. assert (0 < added) by (destruct ds; [done|subst added; simpl; lia]).
  assert (k = Z.min (Z.of_nat n) added) as Hk by lia. unfold missing, Delay.Mean in *. clear - H2 Hk H Hn.
  destruct (Z.min_spec (Z.of_nat n) added) as [[? Hm]|[? Hm]]; rewrite Hm in Hk; rewrite Hk in *; nia.
Qed.

Section tick.
Context {W : Type} `{J : Jrpc} `{E : Eth} `{Sn : Sonic} `{H : HeadStore W} `{L : !Lens t W}.
Context (now : prog W Z) (ctx : context) (c : Chain) (cluster : handler W).
Hypothesis Hc : sane c.

(** The leader keeps polling a chain for as long as its context lives, however
    often the cluster or the head store fails it: no poll blocks it or stops it,
    the delay tracker stays intact, and between two polls it waits for at least
    half a second and at most 1.9 block times. *)
Theorem stalk_polls (Done : prog W bool) (After : Z → prog W bool) n w :
  calm now → (∀ r, calm (cluster r)) → (∀ n, calm (hs_Put c n)) →
  calm Done → (∀ d, calm (After d)) → tracked c (lget w) →
  ∃ waits go w', stalk now Done After n ctx c cluster w = (Return (waits, go), w') ∧
    tracked c (lget w') ∧ Forall (λ d, 500 * Millisecond <= d <= longest c) waits ∧
    (go = true → List.length waits = n) ∧
    ((∀ w, (Done w).1 = Return false) → (∀ d w, (After d w).1 = Return true) → go = true).
Proof.
  intros Hnow Hcl Hput Hd Ha. unfold stalk. revert w.
  induction n as [|n IH]; intros w Ht; [by exists [], true, w|]. cbn [stalk_loop].
  destruct (stalk_turn_run now (WithChain ctx c) c cluster Hc Done After w)
    as (wait & go & w1 & Hr & Ht1 & Hb & Hgo); [done..|].
  rewrite (prog_bind_return _ _ _ _ _ Hr). destruct go.
  - destruct (IH w1 Ht1) as (waits & go & w2 & Hr2 & Ht2 & Hf & Hl & Hg).
    exists (wait :: waits), go, w2. rewrite (prog_bind_return _ _ _ _ _ Hr2).
    split_and!; [done|done|by constructor|cbn; intros Hgo2; by rewrite (Hl Hgo2)|done].
  - exists [wait], false, w1. split_and!; [done|done|by constructor|done|].
    intros H1 H2. by specialize (Hgo H1 H2).
Qed.

(** a poll of a chain comes back whatever the cluster answers and whatever
    the head store says, keeps the chain's delay tracker intact, and asks to be
    repeated after at least half a second and at most 1.9 block times. *)
Theorem stalker_wait w :
  calm now → (∀ r, calm (cluster r)) → (∀ n, calm (hs_Put c n)) →
  tracked c (lget w) →
  ∃ wait err w', tick now ctx c cluster w = (Return (wait, err), w') ∧
    tracked c (lget w') ∧ 500 * Millisecond <= wait <= longest c.
Proof. by apply tick_run. Qed.

(** the samples of the delay tracker are the times left until the next
    block is due, not delays: if a new block leaves [rem], at least half the
    block time, and the tracker's mean is then over 250 ms, the next poll is
    nine tenths of that mean after the time the next block is due, although the
    comment says that the wait is reduced. *)
Theorem stalker_late w fs w1 t0 w2 n ts prev w3 k k' :
  let due := Validator.Unix (i64 ts) + tick_time c in
  let rem := due - t0 in
  Do ctx cluster "eth_getBlockByNumber" (JArr [JStr "latest"; JBool false]) w
    = (Return (Ok (JObj fs)), w1) →
  now w1 = (Return t0, w2) →
  unmarshal_field "number" uint64_unmarshal 0 (JObj fs) = Ok n →
  unmarshal_field "timestamp" uint64_unmarshal 0 (JObj fs) = Ok ts →
  hs_Put c n w2 = (Return (Ok prev), w3) → prev ≠ n →
  dt (lget w3) !! Chain_Name c = Some k → Delay.Add rem k = Return k' →
  500 * Millisecond <= rem <= tick_time c → Z.quot (tick_time c) 2 <= rem →
  250 * Millisecond < Delay.Mean k' <= tick_time c →
  ∃ wait w4, tick now ctx c cluster w = (Return (wait, None), w4) ∧
    t0 + wait = due + Z.quot (Delay.Mean k' * 9) 10.
Proof.
  intros due rem Hdo Hnow Hn Hts Hput Hne Hk Hadd Hrem Hhalf Hmean.
  destruct (tick_time_bounds c Hc) as (Hb1 & Hb2 & Hb3).
  assert (Validator.Sub due t0 = rem) as Hsub.
  { unfold Validator.Sub, rem, Millisecond, max_int64, two63 in *. lia. }
  unfold tick. rewrite (prog_bind_return _ _ _ _ _ Hdo), (prog_bind_return _ _ _ _ _ Hnow).
  rewrite Hn, Hts. cbn [mbind res_bind]. cbv zeta.
  rewrite (prog_bind_return _ _ _ _ _ Hput), bool_decide_true by done.
  fold due. rewrite Hsub. rewrite (proj2 (Z.ltb_lt _ _)) by (unfold Millisecond in *; lia).
  rewrite (prog_bind_return _ _ _ _ _ (record_run _ _ _ _ _ Hk Hadd)).
  set (w4 := lput _ w3).
  assert (dt (lget w4) !! Chain_Name c = Some k') as Hk'.
  { unfold w4. rewrite lget_lput. simpl. apply lookup_insert_eq. }
  rewrite (prog_bind_return _ _ _ _ _ (mean_run _ _ _ Hk')).
  eexists _, w4. split; [done|]. unfold next_wait, Delay.Mean in *.
  unfold Millisecond in *. set (m := Delay.mean k') in *.
  rewrite (i64_small (m - _)) by (unfold in_i64, two63 in *; lia).
  rewrite (proj2 (Z.ltb_lt _ _)) by lia.
  rewrite (i64_small (m * 9)) by (unfold in_i64, two63 in *; lia).
  destruct (quot_pos (m * 9) 10) as [? ?]; [lia..|].
  rewrite i64_small by (unfold in_i64, two63 in *; lia).
  unfold rem in *. lia.
Qed.
End tick.
End StalkerProps.

(** ** Witnesses *)

Module StalkerWitness.
Import Stalker StalkerFacts StalkerProps StdJrpc StdEth StdJx StdSonic.

(** A chain with a block every 12 s, its tracker, and its head, block 255. *)
Definition chain0 : Chain := {| Chain_Name := "ethereum"; Chain_Id := 1; Chain_Aliases := [];
  BlockTimeSeconds := QArith_base.inject_Z 12; Chain_Remotes := []; Stalk := None;
  ParsedStalk := true; ForgeBlockReceipts := false; Chain_MaxBlockLookback := 0 |}.

Definition world : Type := t * Redihead.t.
Definition world0 : world :=
  (New {[ "ethereum" := chain0 ]}, Redihead.setHead "ethereum" 255 Redihead.New).

(** Block 256 has the time 1000 s and is polled a second later. *)
Definition fields0 : list (string * json) :=
  [("number", JStr "0x100"); ("timestamp", JStr "0x3e8")].
Definition cluster0 : handler world := const_handler (reply_ok (VRaw (JObj fields0))).
Definition now0 : prog world Z := mret (1001 * Second).
Definition add0 : Redihead.Head → prog world (option goerr) := λ _, mret None.

Lemma sane0 : sane chain0.
Proof. split; vm_compute; congruence. Qed.

Lemma delay_window_witness :
  let l := DelayFacts.lastn 3 (map (DelayFacts.clamped 0 10) [4; 8; 100; 1; 5]) in
  ∃ T, Delay.Adds [4; 8; 100; 1; 5] (Delay.newDelayTracker 3 0 10) = Return T ∧
    Delay.nums T ≡ₚ l ∧ 0 <= DelayFacts.sum l - 3 * Delay.Mean T <= 7.
Proof.
  destruct (delay_window 3 0 10 [4; 8; 100; 1; 5]) as (T & HT & Hp & H1 & H2 & _);
    [lia|lia|vm_compute; reflexivity|].
  exists T. split; [exact HT|]. split; [exact Hp|].
  cbv zeta in H1, H2. revert H1 H2. generalize (Delay.Mean T). intros m.
  vm_compute (DelayFacts.sum _). vm_compute (List.length _). lia.
Defined.

(** A thousand polls; the context lives. *)
Lemma stalk_polls_witness :
  ∃ waits go w', stalk (H := Redihead.store add0) now0 (mret false) (λ _, mret true) 1000 []
      chain0 cluster0 world0 = (Return (waits, go), w') ∧ List.length waits = 1000%nat.
Proof.
  destruct (stalk_polls (H := Redihead.store add0) now0 [] chain0 cluster0 sane0
    (mret false) (λ _, mret true) 1000 world0) as (waits & go & w' & Hr & _ & _ & Hl & Hg).
  - intros w. by eexists _, w.
  - intros r w. by eexists _, w.
  - intros n w. by eexists _, w.
  - intros w. by eexists _, w.
  - intros d w. by eexists _, w.
  - exists (Delay.newDelayTracker 128 0 (block_time chain0)), []. split; [reflexivity|].
    apply DelayFacts.inv_new; [lia|]. vm_compute. split; congruence.
  - exists waits, go, w'. split; [exact Hr|]. apply Hl, Hg; done.
Defined.

Lemma stalker_wait_witness :
  ∃ wait err w', tick (H := Redihead.store add0) now0 [] chain0 cluster0 world0
      = (Return (wait, err), w') ∧
    tracked chain0 (lget w') ∧ 500 * Millisecond <= wait <= longest chain0.
Proof.
  apply (stalker_wait (H := Redihead.store add0) now0 [] chain0 cluster0 sane0 world0).
  - intros w. by eexists _, w.
  - intros r w. by eexists _, w.
  - intros n w. by eexists _, w.
  - exists (Delay.newDelayTracker 128 0 (block_time chain0)), []. split; [reflexivity|].
    apply DelayFacts.inv_new; [lia|]. vm_compute. split; congruence.
Defined.

(** The next block is due at 1012 s; the next poll is at 1021.9 s. *)
Lemma stalker_late_witness :
  ∃ wait w4, tick (H := Redihead.store add0) now0 [] chain0 cluster0 world0
      = (Return (wait, None), w4) ∧
    1001 * Second + wait = 1012 * Second + 9900 * Millisecond.
Proof.
  refine (stalker_late (H := Redihead.store add0) now0 [] chain0 cluster0 sane0
    world0 fields0 world0 (1001 * Second) world0 256 1000 255 world0
    (Delay.newDelayTracker 128 0 (12 * Second))
    {| Delay.size := 128; Delay.pos := 1; Delay.mean := 11 * Second;
       Delay.nums := [11 * Second]; Delay.min := 0; Delay.max := 12 * Second |}
    _ _ _ _ _ _ _ _ _ _ _); try reflexivity.
  - discriminate.
  - vm_compute. split; congruence.
  - vm_compute. congruence.
  - vm_compute. split; congruence.
Defined.
End StalkerWitness.
