(* ===== verification/Clusters.v ===== *)
(** * The clusters of a node: [svc/node/quarks/cluster]

    How the middlewares of a remote are put together around its proxy, and how
    a request reaches the cluster of its chain.  The base proxy, the token
    bucket, the clock and the metrics are arguments. *)
From S2P Require Import Prelude Errors Json EthTypes Config Rpc CallCenter.
From S2P Require Import Backer Validator Doctor Cluster HeadStore LookBack.
From Stdlib Require Import QArith_base.
#[local] Open Scope Z_scope.

(** ** A remote: [RemoteTarget], [NewRemoteTarget] *)

Module RemoteTarget.

(** The middleware instances that have a state, and the tables of the others. *)
Record t := {
  Backer : Backer.t;
  Validator : Validator.t;
  Doctor : Doctor.t;
  RateLimit : Q * Z;
  methods : gmap string bool;
  BlockLookBack : option LookBack.t;
}.

(** [maps.Copy] of the filters' methods, in order: a later filter wins. *)
Definition filter_methods (filters : list Filter) : gmap string bool :=
  foldl (λ m f, Filter_Methods f ∪ m) ∅ filters.

Definition NewRemoteTarget (cfg : Remote) (chain : Chain) : t := {|
  Backer := Backer.NewBacker (RateLimitBackoff cfg) (ErrorBackoffMin cfg) (ErrorBackoffMax cfg);
  Validator := Validator.NewValidator
    (Z.max Minute (duration_of (2 * BlockTimeSeconds chain)%Q Second));
  Doctor := Doctor.NewDoctor {|
    Doctor.chainId := Chain_Id chain; Doctor.chainName := Chain_Name chain;
    Doctor.remoteName := Remote_Name cfg;
    Doctor.minInterval := HealthCheckIntervalMin cfg;
    Doctor.maxInterval := HealthCheckIntervalMax cfg |};
  RateLimit := match Remote_RateLimit cfg with
               | Some l => (EventsPerSecond l, Burst l)
               | None => (inject_Z 500, 1000)
               end;
  methods := filter_methods (Remote_ParsedFilters cfg);
  BlockLookBack := if 0 <? Remote_MaxBlockLookback cfg
                   then Some (LookBack.New chain (Some cfg)) else None;
|}.

(** The states as parts of the target. *)
#[local] Instance lens_backer : Lens Backer.t t.
Proof.
  by refine {| lget := Backer; lput := λ x T,
    {| Backer := x; Validator := Validator T; Doctor := Doctor T; RateLimit := RateLimit T;
       methods := methods T; BlockLookBack := BlockLookBack T |} |}; [..|intros []].
Defined.
#[local] Instance lens_validator : Lens Validator.t t.
Proof.
  by refine {| lget := Validator; lput := λ x T,
    {| Backer := Backer T; Validator := x; Doctor := Doctor T; RateLimit := RateLimit T;
       methods := methods T; BlockLookBack := BlockLookBack T |} |}; [..|intros []].
Defined.
#[local] Instance lens_doctor : Lens Doctor.t t.
Proof.
  by refine {| lget := Doctor; lput := λ x T,
    {| Backer := Backer T; Validator := Validator T; Doctor := x; RateLimit := RateLimit T;
       methods := methods T; BlockLookBack := BlockLookBack T |} |}; [..|intros []].
Defined.

Section remote.
Context {W : Type} `{J : Jrpc} `{E : Eth} `{X : Jx} `{Sn : Sonic} `{H : HeadStore W}.
Context `{L : !Lens t W}.
(** The clock; whether a request's 15 second context has expired; the token
    bucket; the collector's windows and metrics; the debug log; the proxy. *)
Context (now : prog W Z) (too_slow Allow : prog W bool).
Context (Request : prog W ()) (Result : string → bool → prog W ()).
Context (Debug : request → prog W ()) (proxier : handler W).

(** What the doctor watches: the proxy behind the validator. *)
Definition checked_remote : handler W :=
  let remote := InputData_Middleware proxier in
  let remote := Collector_Middleware Request Result remote in
  let remote := Logger_Middleware Debug remote in
  let remote := Backer.Middleware (Lens0 := lens_comp lens_backer L) remote in
  Validator.Middleware (Lens0 := lens_comp lens_validator L) now too_slow remote.

Definition remote_handler (mw : t) : handler W :=
  let remote := Doctor.ServeRPC (Lens0 := lens_comp lens_doctor L) now checked_remote in
  let remote := Ratelimiter_Middleware Allow remote in
  let remote := Filterer_Middleware (methods mw) remote in
  match BlockLookBack mw with
  | Some m => LookBack.Middleware m remote
  | None => remote
  end.
End remote.
End RemoteTarget.

(** ** All chains: [Clusters], [New], [Middleware] *)

Module Clusters.
Section clusters.
Context {R W : Type} `{J : Jrpc} `{E : Eth} `{X : Jx} `{H : HeadStore W}.

(** The chains that have a cluster, and their look-back limits. *)
Record t := {
  Remotes : gset string;
  chainLookBack : gmap string LookBack.t;
}.

Definition add_chain (T : t) (c : Chain) : t := {|
  Remotes := {[ Chain_Name c ]} ∪ Remotes T;
  chainLookBack := if 0 <? Chain_MaxBlockLookback c
                   then <[Chain_Name c := LookBack.New c None]> (chainLookBack T)
                   else chainLookBack T |}.

Definition New (chains : list Chain) : t :=
  foldl add_chain {| Remotes := ∅; chainLookBack := ∅ |} chains.

(** [OnStart] of a chain's remotes, in the order of the configuration. *)
Definition start (target : Remote → R) (c : Chain) (T : Cluster.t R) : Cluster.t R :=
  foldl (λ T cfg, Cluster.Add (Remote_Priority cfg) (target cfg) T) T (Chain_Remotes c).

(** [cluster] is the handler of a chain's cluster. *)
Definition Middleware (T : t) (cluster : string → handler W) (next : option (handler W))
    : handler W := λ r,
  match GetChain (r_ctx r) with
  | Err e => send_err e
  | Ok chain =>
      if negb (bool_decide (Chain_Name chain ∈ Remotes T)) then
        match next with
        | Some h => h r
        | None => send_err (NewInvalidRequestError
                              ("chain not supported: " +:+ Chain_Name chain))
        end
      else
        let handler := cluster (Chain_Name chain) in
        match chainLookBack T !! Chain_Name chain with
        | Some lookBack => LookBack.Middleware lookBack handler r
        | None => handler r
        end
  end.
End clusters.
End Clusters.

(** ** Lemmas: every middleware of a remote replies once *)

Module ClustersFacts.

(** The program returns after exactly one [Send], of a reply with [P], and keeps
    the invariant; so does a handler from every world with the invariant, where
    what is asked of the reply depends on the request. *)
Definition sends_one {W} (I : W → Prop) (P : reply → Prop) (m : prog W (list reply)) (w : W) : Prop :=
  ∃ x w', m w = (Return [x], w') ∧ I w' ∧ P x.
Definition replies_with {W} (I : W → Prop) (P : request → reply → Prop) (h : handler W) : Prop :=
  ∀ r w, I w → sends_one I (P r) (h r) w.

(** A handler whose last [Send], if there is one, has [P]. *)
Definition ends_with {W} (I : W → Prop) (P : request → reply → Prop) (h : handler W) : Prop :=
  ∀ r w, I w → ∃ sends w', h r w = (Return sends, w') ∧ I w' ∧ P r (intercept icept0 sends).

(** A reply that says something: an error, or a value. *)
Definition definite (x : reply) : Prop := x ≠ (VNil, None).

(** What is asked of a reply, besides: the middlewares' own replies have it --
    errors, and the number of the newest block --, it does not depend on the
    error, nor on the parameters of a call. *)
Record lax (P : request → reply → Prop) : Prop := {
  lax_error r e : P r (reply_err e);
  lax_number r n e : r_method r = "eth_blockNumber" → P r (VUint64 n, e);
  lax_err r v e e' : P r (v, e) → P r (v, Some e');
  lax_call r p x : r_method r = "eth_call" → P (with_params r p) x → P r x;
}.

Lemma lax_any : lax (λ _ _, True).
Proof. done. Qed.

Section facts.
Context {W : Type} (I : W → Prop) `{J : Jrpc} `{E : Eth} `{X : Jx} `{Sn : Sonic}.
Context `{H : HeadStore W}.
Context (P : request → reply → Prop) (HP : lax P).

Lemma once_send (Q : reply → Prop) x w : I w → Q x → sends_one I Q (send x) w.
Proof. intros Hw Hx. by exists x, w. Qed.

Lemma once_err r e w : I w → sends_one I (P r) (send_err e) w.
Proof. intros Hw. by apply once_send, lax_error. Qed.

Lemma with_ends h : replies_with I P h → ends_with I P h.
Proof. intros Hh r w Hw. destruct (Hh r w Hw) as (x & w' & Hr & Hw' & Hx). by exists [x], w'. Qed.

Lemma ends_steady h r : ends_with I P h → steady I (h r).
Proof. intros Hh w Hw. destruct (Hh r w Hw) as (l & w' & Hr & Hw' & _). by exists l, w'. Qed.

Lemma once_steady h r : replies_with I P h → steady I (h r).
Proof. intros Hh. by apply ends_steady, with_ends. Qed.

(** The last reply of a handler, handed on. *)
Lemma once_last h (k : reply → prog W (list reply)) r w :
  ends_with I P h → I w → (∀ x w1, I w1 → P r x → sends_one I (P r) (k x) w1) →
  sends_one I (P r) (sends ← h r; k (intercept icept0 sends)) w.
Proof.
  intros Hh Hw Hk. destruct (Hh r w Hw) as (l & w1 & Hr & H1 & Hx).
  unfold sends_one. rewrite (prog_bind_return _ _ _ _ _ Hr). by apply Hk.
Qed.

(** A program that passes on to a continuation that replies once. *)
Lemma once_bind {A} (Q : reply → Prop) (m : prog W A) (k : A → prog W (list reply)) w :
  steady I m → I w →
  (∀ a w1, I w1 → sends_one I Q (k a) w1) → sends_one I Q (m ≫= k) w.
Proof.
  intros Hm Hw Hk. destruct (Hm w Hw) as (a & w1 & Ha & H1).
  unfold sends_one. rewrite (prog_bind_return _ _ _ _ _ Ha). by apply Hk.
Qed.

Lemma InputData_ends h : ends_with I P h → ends_with I P (InputData_Middleware h).
Proof.
  intros Hh r w Hw. unfold InputData_Middleware. case_bool_decide; [|by apply Hh].
  destruct (InputData_params r) as [[p|]|e]; [|by apply Hh|].
  - destruct (Hh (with_params r p) w Hw) as (sends & w' & Hr & Hw' & Hx).
    exists sends, w'. split_and!; [done|done|]. by eapply lax_call.
  - exists [reply_err e], w. split_and!; [done|done|by apply lax_error].
Qed.

Lemma Collector_once Request Result h :
  steady I Request → (∀ m b, steady I (Result m b)) → ends_with I P h →
  replies_with I P (Collector_Middleware Request Result h).
Proof.
  intros H1 H2 Hh r w Hw. unfold Collector_Middleware. apply once_bind; [done..|].
  intros _ w1 Hw1. destruct (Hh r w1 Hw1) as (sends & w2 & Hr & Hw2 & Hx). unfold sends_one.
  rewrite Hr. apply once_bind; [done..|]. intros _ w3 Hw3. by apply once_send.
Qed.

Lemma Logger_once Debug h :
  (∀ r, steady I (Debug r)) → replies_with I P h → replies_with I P (Logger_Middleware Debug h).
Proof.
  intros Hd Hh r w Hw. unfold Logger_Middleware.
  destruct (Hh r w Hw) as (x & w1 & Hr & H1 & Hx). unfold sends_one.
  rewrite (prog_bind_return _ _ _ _ _ Hr).
  apply once_bind; [done..|]. intros _ w2 Hw2. by apply (once_send _ x).
Qed.

Lemma Filterer_once methods h : replies_with I P h → replies_with I P (Filterer_Middleware methods h).
Proof.
  intros Hh r w Hw. unfold Filterer_Middleware.
  destruct (methods !! r_method r) as [[]|]; [by apply Hh|by apply once_err|by apply Hh].
Qed.

Lemma Ratelimiter_once Allow h :
  steady I Allow → replies_with I P h → replies_with I P (Ratelimiter_Middleware Allow h).
Proof.
  intros Ha Hh r w Hw. unfold Ratelimiter_Middleware. apply once_bind; [done..|].
  intros [] w1 Hw1; [by apply Hh|by apply once_err].
Qed.

Lemma Do_steady ctx h method args :
  (∀ r, steady I (h r)) → steady I (Do ctx h method args).
Proof. intros Hh. apply steady_bind; [done|]. intros a. apply steady_ret. Qed.

Lemma LookBack_check_steady m r : (∀ c, steady I (hs_Get c)) → steady I (LookBack.check m r).
Proof.
  intros Hg.
  assert (∀ bn, steady I (LookBack.validateBlockNumber m (r_ctx r) bn)) as Hv.
  { intros bn. unfold LookBack.validateBlockNumber. case_match; [apply steady_ret|].
    destruct (GetChain _); [|apply steady_ret].
    apply steady_bind; [done|]. intros ?. apply steady_ret. }
  assert (∀ l i, (i < l)%nat → steady I (LookBack.checkParam m r l i)) as Hp.
  { intros l i Hl. unfold LookBack.checkParam.
    destruct (unmarshal_params _ r) as [params|e]; [|apply steady_ret].
    case_bool_decide as Hd; [apply steady_ret|].
    destruct (lookup_lt_is_Some_2 params i) as [p ->]; [lia|].
    destruct (BlockNumber.unmarshal p); [done|apply steady_ret]. }
  unfold LookBack.check, LookBack.check1Param, LookBack.checkGetLogs,
    LookBack.check2Param, LookBack.check3Param.
  repeat case_match; try apply Hp; auto using steady_ret.
Qed.

Lemma LookBack_once m h :
  (∀ c, steady I (hs_Get c)) → replies_with I P h → replies_with I P (LookBack.Middleware m h).
Proof.
  intros Hg Hh r w Hw. unfold LookBack.Middleware.
  apply once_bind; [by apply LookBack_check_steady|done|].
  intros [e|] w1 Hw1; [by apply once_err|by apply Hh].
Qed.

Section backer.
Context `{LB : !Lens Backer.t W}.

Lemma Backer_once h :
  (∀ w T, I w → I (lput (S := Backer.t) T w)) → ends_with I P h →
  replies_with I P (Backer.Middleware h).
Proof.
  intros Hi Hh r w Hw. unfold Backer.Middleware. apply once_bind; [|done|].
  { intros v Hv. by eexists _, v. }
  intros T w1 Hw1. destruct (negb _); [by apply once_err|]. apply (once_last h (λ x, _ ← modify (Backer.observe x.2); send x)); [done..|].
  intros x w2 Hw2 Hx. apply once_bind; [|done|].
  { intros v Hv. eexists _, _. split; [done|]. by apply Hi. }
  intros _ w3 Hw3. by apply once_send.
Qed.
End backer.

Section validator.
Context `{LV : !Lens Validator.t W} (now : prog W Z) (too_slow : prog W bool).
Hypothesis Hi : ∀ w T, I w → I (lput (S := Validator.t) T w).
Hypothesis Hnow : steady I now.
Hypothesis Hslow : steady I too_slow.

Lemma do_updateHead_steady n ts : steady I (Validator.do_updateHead now n ts).
Proof.
  unfold Validator.do_updateHead. apply steady_bind; [done|]. intros clock w Hw.
  unfold mbind at 1, prog_bind at 1, read.
  destruct (Validator.updateHead clock n ts (lget w)) as [e T'].
  eexists _, _. split; [done|]. by apply Hi.
Qed.

(** The reply is passed on, or becomes an error. *)
Lemma check_block_run r b icept w :
  I w → P r icept →
  ∃ x w', Validator.check_block now too_slow b icept w = (Return x, w') ∧ I w' ∧ P r x.
Proof.
  intros Hw Hx. unfold Validator.check_block. destruct icept as [v err].
  match goal with |- context [mbind ?k ?m] => assert (steady I m) as Hm end.
  { repeat case_match; auto using steady_ret, do_updateHead_steady. }
  assert (∃ e w1, (match err with
    | None => if b then match Validator.extractBlockTimeAndTimestamp v with
                        | Err e => mret (Some e)
                        | Ok (n, ts) => Validator.do_updateHead now n ts
                        end else mret None
    | Some e => mret (Some e) end) w = (Return e, w1) ∧ I w1 ∧ (e = None → err = None))
    as (e & w1 & He & H1 & Hn).
  { destruct (Hm w Hw) as (e & w1 & He & H1). exists e, w1. split_and!; [done|done|].
    destruct err; [by injection He as <- <-|done]. }
  rewrite (prog_bind_return _ _ _ _ _ He).
  destruct e as [e|]; [|destruct (Validator.is_null v)].
  1,2: destruct (Hslow w1 H1) as (slow & w2 & Hs & H2); rewrite (prog_bind_return _ _ _ _ _ Hs);
    eexists _, w2; split_and!; [done|done|destruct (_ && _); by eapply lax_err].
  rewrite Hn in Hx by done. by exists (v, None), w1.
Qed.

Lemma Validator_once h : replies_with I P h → replies_with I P (Validator.Middleware now too_slow h).
Proof.
  intros Hh r w Hw. pose proof (with_ends h Hh) as He.
  unfold Validator.Middleware. cbv zeta. destruct (negb _); [by apply once_err|]. case_bool_decide.
  { apply (once_last h (λ i, x ← Validator.check_block now too_slow _ i; send x)); [done..|].
    intros i w1 Hw1 Hi'. destruct (check_block_run r (Validator.isQueryingLatest (r_params r)) i w1 Hw1 Hi')
      as (x & w2 & Hr & H2 & Hx).
    unfold sends_one. rewrite (prog_bind_return _ _ _ _ _ Hr). by exists x, w2. }
  case_bool_decide.
  { apply once_bind; [apply Do_steady; intros; by apply once_steady|done|].
    intros [block|e] w1 Hw1; [|by apply once_err].
    destruct (Validator.extractBlockTimeAndTimestamp _) as [[n ts]|e]; [|by apply once_err].
    apply once_bind; [apply do_updateHead_steady|done|]. intros err w2 Hw2. by apply once_send, lax_number. }
  case_bool_decide; [|by apply Hh].
  apply (once_last h (λ i, let '(v, err) := i in
    match err with
    | None => if Validator.is_null v then send (v, Some (ESentinel ErrHeadOld)) else send (v, None)
    | Some _ => send (v, err)
    end)); [done..|].
  intros [v [e|]] w1 Hw1 Hx; [by apply once_send|].
  destruct (Validator.is_null v); apply once_send; auto. by eapply lax_err.
Qed.
End validator.

Section doctor.
Context `{LD : !Lens Doctor.t W} (now : prog W Z).
Hypothesis Hknown : ∀ w, I w → Doctor.health (lget w) ≠ Doctor.HealthStatusUnknown.
Hypothesis Hi : ∀ w T, I w → Doctor.health T ≠ Doctor.HealthStatusUnknown →
  I (lput (S := Doctor.t) T w).

Lemma Doctor_once h :
  steady I now → replies_with I P h → replies_with I P (Doctor.ServeRPC now h).
Proof.
  intros Hnow Hh r w Hw. unfold Doctor.ServeRPC. apply once_bind; [done..|].
  intros clock w1 Hw1. unfold sends_one, mbind at 1, prog_bind at 1, read.
  pose proof (Hknown _ Hw1) as Hk.
  destruct (Doctor.health (lget w1)) eqn:Eh; [done| |];
    cbn [Doctor.CanUse]; rewrite Eh; cbn [negb].
  - apply once_bind; [|exact Hw1|].
    { intros v Hv. eexists _, _. split; [done|]. apply Hi; [done|]. simpl. by rewrite Eh. }
    intros _ w2 Hw2. by apply Hh.
  - apply once_bind; [|exact Hw1|].
    { intros v Hv. eexists _, _. split; [done|]. apply Hi; [done|]. by rewrite Eh. }
    intros _ w2 Hw2. by apply once_err.
Qed.
End doctor.
End facts.
End ClustersFacts.

(** ** Properties *)

Module ClustersProps.
Import RemoteTarget ClustersFacts.

Section remote.
Context {W : Type} `{J : Jrpc} `{E : Eth} `{X : Jx} `{Sn : Sonic} `{H : HeadStore W}.
Context `{L : !Lens RemoteTarget.t W}.
Context (now : prog W Z) (too_slow Allow : prog W bool).
Context (Request : prog W ()) (Result : string → bool → prog W ()).
Context (Debug : request → prog W ()) (proxier : handler W).

(** The doctor has finished its first check. *)
Definition known (w : W) : Prop :=
  Doctor.health (RemoteTarget.Doctor (lget w)) ≠ Doctor.HealthStatusUnknown.

(** What the remote calls comes back and keeps [I]; [I] says that the doctor has
    finished, and nothing else of the remote's own state. *)
Record remote_env (I : W → Prop) : Prop := {
  es_now : steady I now;
  es_too_slow : steady I too_slow;
  es_Allow : steady I Allow;
  es_Request : steady I Request;
  es_Result m b : steady I (Result m b);
  es_Debug r : steady I (Debug r);
  es_hs_Get c : steady I (hs_Get c);
  es_known w : I w → known w;
  es_backer w (T : Backer.t) : I w → I (lput (Lens := lens_comp lens_backer L) T w);
  es_validator w (T : Validator.t) : I w → I (lput (Lens := lens_comp lens_validator L) T w);
  es_doctor w (T : Doctor.t) : I w → Doctor.health T ≠ Doctor.HealthStatusUnknown →
    I (lput (Lens := lens_comp lens_doctor L) T w);
}.

(** A remote replies once, and says something if its proxy's last reply does. *)
Lemma remote_replies (I : W → Prop) (P : request → reply → Prop) mw :
  remote_env I → lax P → ends_with I P proxier →
  replies_with I P (remote_handler now too_slow Allow Request Result Debug proxier mw).
Proof.
  intros [] HP Hp.
  assert (replies_with I P (RemoteTarget.checked_remote now too_slow Request Result Debug proxier))
    as Hc.
  { apply Validator_once; auto. apply Backer_once; auto. apply with_ends.
    apply Logger_once; [done|]. apply Collector_once; [done..|]. by apply InputData_ends. }
  unfold remote_handler.
  assert (replies_with I P (Filterer_Middleware (methods mw)
    (Ratelimiter_Middleware Allow (Doctor.ServeRPC (Lens0 := lens_comp lens_doctor L) now
       (checked_remote now too_slow Request Result Debug proxier))))) as Hf.
  { apply Filterer_once, Ratelimiter_once; [done..|]. apply Doctor_once; auto. }
  destruct (BlockLookBack mw); [by apply LookBack_once|done].
Qed.

(** What the remote calls comes back, and leaves the doctor's verdict. *)
Record env_steady : Prop := {
  ek_now : steady known now;
  ek_too_slow : steady known too_slow;
  ek_Allow : steady known Allow;
  ek_Request : steady known Request;
  ek_Result m b : steady known (Result m b);
  ek_Debug r : steady known (Debug r);
  ek_hs_Get c : steady known (hs_Get c);
  ek_proxier r : steady known (proxier r);
}.

Lemma known_env : env_steady → remote_env known.
Proof.
  intros []. split; try done; unfold known; intros w T; simpl; by rewrite lget_lput.
Qed.

(** a remote replies to every request exactly once, however often or seldom
    its proxy replies, whatever the proxy says and whatever state the backoff,
    the validator and the doctor are in, once the doctor's first check is done:
    the cluster can rely on one verdict per remote. *)
Theorem remote_answers mw r w :
  env_steady → known w →
  ∃ x w', remote_handler now too_slow Allow Request Result Debug proxier mw r w
          = (Return [x], w') ∧ known w'.
Proof.
  intros He Hw.
  destruct (remote_replies known (λ _ _, True) mw (known_env He) lax_any (λ r w Hw, ltac:(
    destruct (ek_proxier He r w Hw) as (l & w' & Hr & Hw'); by exists l, w')) r w Hw)
    as (x & w' & Hr & Hw' & _). by exists x, w'.
Qed.
End remote.
End ClustersProps.

(** ** Witnesses *)

Module ClustersWitness.
Import RemoteTarget ClustersProps StdJrpc StdEth StdJx StdSonic.

Definition cfg0 : Remote := {|
  Remote_Name := "a"; Remote_Url := ""; Remote_Priority := 1; Remote_Headers := ∅;
  HealthCheckIntervalMin := Minute; HealthCheckIntervalMax := Hour;
  RateLimitBackoff := 5 * Second; ErrorBackoffMin := 5 * Second; ErrorBackoffMax := 5 * Second;
  Remote_Filters := []; Remote_ParsedFilters := []; Remote_RateLimit := None;
  SendDataAndInput := false; Remote_MaxBlockLookback := 128 |}.
Definition chain0 : Chain := {| Chain_Name := "ethereum"; Chain_Id := 1; Chain_Aliases := [];
  BlockTimeSeconds := inject_Z 12; Chain_Remotes := [cfg0]; Stalk := None;
  ParsedStalk := true; ForgeBlockReceipts := false; Chain_MaxBlockLookback := 0 |}.

(** The remote after its first check, and the heads of the node. *)
Definition world : Type := RemoteTarget.t * Redihead.t.
Definition target0 : RemoteTarget.t := NewRemoteTarget cfg0 chain0.
Definition world0 : world :=
  (lput (Lens := lens_doctor)
     (Doctor.first_done (Doctor.checked 0 (Doctor.ChainId (Ok 1) 0)
        (Doctor.attach 0 (RemoteTarget.Doctor target0)))) target0,
   Redihead.setHead "ethereum" 255 Redihead.New).

(** A proxy that says nothing at all. *)
Definition mute : handler world := λ _, mret [].
Definition request0 : request :=
  {| r_ctx := WithChain [] chain0; r_method := "eth_gasPrice"; r_params := None; r_peer := "" |}.
#[local] Instance heads0 : HeadStore world := Redihead.store (λ _, mret None).

Lemma remote_answers_witness :
  ∃ x w', remote_handler (mret 0) (mret false) (mret true) (mret ()) (λ _ _, mret ())
            (λ _, mret ()) mute target0 request0 world0 = (Return [x], w') ∧ known w'.
Proof.
  apply remote_answers.
  - split; intros; try apply steady_ret. intros w Hw. by eexists _, w.
  - vm_compute. discriminate.
Defined.
End ClustersWitness.
