(* ===== verification/Forger.v ===== *)
(** * Forged block receipts: [svc/node/middlewares/forger]

    For a chain that asks for it, [eth_getBlockReceipts] is answered from the
    block and its logs, which two goroutines fetch through the handlers below.
    The goroutines share nothing; their calls are modelled one after the other,
    in the order that the argument [logs_first] says. *)
From S2P Require Import Prelude Errors Json EthTypes Config Rpc.

Module Forger.
Section forger.
Context {W : Type} `{J : Jrpc} `{E : Eth} `{X : Jx} `{Sn : Sonic}.

(** ** The two requests *)

Definition block_filter (bn : Z) : FilterQuery :=
  {| BlockHash := None; FromBlock := Some bn; ToBlock := Some bn; Addresses := []; Topics := [] |}.

Definition fetch_logs (next : handler W) (r : request) (bn : Z) : prog W (res goerr json) :=
  Do (r_ctx r) next "eth_getLogs" (JArr [FilterQuery_marshal (block_filter bn)]).

Definition fetch_block (next : handler W) (r : request) (bn : Z) : prog W (res goerr json) :=
  Do (r_ctx r) next "eth_getBlockByNumber" (JArr [BlockNumber.MarshalJSON bn; JBool true]).

(** [wg.Wait]: both are waited for; the error is that of the first to fail. *)
Definition fetch (logs_first : bool) (next : handler W) (r : request) (bn : Z)
    : prog W (res goerr (json * json)) :=
  if logs_first then
    logs ← fetch_logs next r bn;
    block ← fetch_block next r bn;
    mret (l ← logs; b ← block; Ok (l, b))
  else
    block ← fetch_block next r bn;
    logs ← fetch_logs next r bn;
    mret (b ← block; l ← logs; Ok (l, b)).

(** ** The transaction hashes of the logs

    [json.Unmarshal] into the slice of structs.  An element that is no object
    is an error that does not stop the decoder and leaves the element zero; a
    bad hash stops it behind the element: the slice is then short. *)
Definition log_hash (fs : list (string * json)) : hash * option goerr :=
  foldl (λ acc kv,
           match acc with
           | (h, None) =>
               if field_match "transactionHash" kv.1 then
                 match hash_unmarshal kv.2 with
                 | Ok h' => (h', None)
                 | Err e => (h, Some e)
                 end
               else acc
           | _ => acc
           end) (zero_hash, None) fs.

Fixpoint log_details (l : list json) (saved : option goerr) : list hash * option goerr :=
  match l with
  | [] => ([], saved)
  | v :: l =>
      match v with
      | JObj fs =>
          match log_hash fs with
          | (h, Some e) => ([h], Some e)
          | (h, None) => let '(hs, e) := log_details l saved in (h :: hs, e)
          end
      | JNull => let '(hs, e) := log_details l saved in (zero_hash :: hs, e)
      | _ =>
          let saved := match saved with None => Some json_error | Some _ => saved end in
          let '(hs, e) := log_details l saved in (zero_hash :: hs, e)
      end
  end.

(** ** Writing the receipts *)

(** The members a receipt takes from the transaction as they are. *)
Definition copied : list string :=
  ["blockHash"; "transactionIndex"; "to"; "from"; "type"; "blockNumber"].

Definition comma (first : bool) : list wtok := if first then [] else [WComma].

Fixpoint receipt_members (fs : list (string * json)) (hash : hash) (first : bool)
    : res goerr (list wtok * EthTypes.hash * bool) :=
  match fs with
  | [] => Ok ([], hash, first)
  | (key, v) :: fs =>
      if bool_decide (key = "hash") then
        raw ← jx_raw v;
        hash ← hash_unmarshal raw;
        '(ts, hash, f) ← receipt_members fs hash false;
        Ok (comma first ++ WKey "transactionHash" :: WRaw raw :: ts, hash, f)
      else if bool_decide (key ∈ copied) then
        raw ← jx_raw v;
        '(ts, hash, f) ← receipt_members fs hash false;
        Ok (comma first ++ WKey key :: WRaw raw :: ts, hash, f)
      else
        match jx_skip v with
        | Some e => Err e
        | None => receipt_members fs hash first
        end
  end.

(** The logs of the transaction; [logDetails[j]] may be out of range. *)
Fixpoint receipt_logs (logs : list json) (details : list hash) (hash : hash) (first : bool)
    : outcome (list wtok) :=
  match logs with
  | [] => mret []
  | log :: logs =>
      match details with
      | [] => Panic "index out of range"
      | d :: details =>
          if bool_decide (d = hash) then
            ts ← receipt_logs logs details hash false;
            mret (comma first ++ WRaw log :: ts)
          else receipt_logs logs details hash first
      end
  end.

Definition receipt (logs : list json) (details : list hash) (transaction : json)
    : outcome (res goerr (list wtok)) :=
  match (fs ← jx_obj transaction; receipt_members fs zero_hash true) with
  | Err e => mret (Err e)
  | Ok (ts, hash, first) =>
      ls ← receipt_logs logs details hash true;
      mret (Ok (WObjStart :: ts ++ comma first ++ WKey "logs" :: WArrStart :: ls
                ++ [WArrEnd; WObjEnd]))
  end.

(** [first]: the index of the transaction is zero. *)
Fixpoint receipts (txs : list json) (logs : list json) (details : list hash) (first : bool)
    : outcome (res goerr (list wtok)) :=
  match txs with
  | [] => mret (Ok [])
  | tx :: txs =>
      r ← receipt logs details tx;
      match r with
      | Err e => mret (Err e)
      | Ok ts =>
          rest ← receipts txs logs details false;
          mret (rest ← rest; Ok (comma first ++ ts ++ rest))
      end
  end.

(** ** The middleware *)

Definition forge (logs_first : bool) (next : handler W) (r : request) : prog W (list reply) :=
  match unmarshal_params (unmarshal_array1 BlockNumber.unmarshal 0) r with
  | Err e => send_err e
  | Ok bn =>
      x ← fetch logs_first next r bn;
      match x with
      | Err e => send_err e
      | Ok (rawLogs, block) =>
          match unmarshal_field "transactions" unmarshal_raws [] block with
          | Err e => send_err e
          | Ok transactions =>
              match unmarshal_raws rawLogs with
              | Err e => send_err e
              | Ok logs =>
                  (* the error is sent, and the handler goes on *)
                  let '(details, err) := log_details logs None in
                  let sent := match err with Some e => [reply_err e] | None => [] end in
                  ts ← lift (receipts transactions logs details true);
                  match ts with
                  | Err e => mret (sent ++ [reply_err e])
                  | Ok ts =>
                      mret (sent ++ [reply_ok (VRaw (jx_buf (WArrStart :: ts ++ [WArrEnd])))])
                  end
              end
          end
      end
  end.

Definition Middleware (logs_first : bool) : middleware W := λ next r,
  if bool_decide (r_method r = "eth_getBlockReceipts") then
    match GetChain (r_ctx r) with
    | Ok chain => if ForgeBlockReceipts chain then forge logs_first next r else next r
    | Err _ => next r
    end
  else next r.
End forger.
End Forger.

(** ** Lemmas: the receipts *)

Module ForgerFacts.
Import Forger.

Section facts.
Context `{J : Jrpc} `{E : Eth} `{XS : JxSpec}.

(** The abstract receipt of a transaction: some of its members, its hash under
    another name, and the logs with that hash. *)
Definition receipt_member (kv : string * json) : option (string * json) :=
  if bool_decide (kv.1 = "hash") then Some ("transactionHash", kv.2)
  else if bool_decide (kv.1 ∈ copied) then Some kv else None.

Definition tx_hash (fs : list (string * json)) : hash :=
  foldl (λ h kv, if bool_decide (kv.1 = "hash")
                 then match hash_unmarshal kv.2 with Ok h' => h' | Err _ => h end
                 else h) zero_hash fs.

Definition own_logs (hash_of : json → hash) (logs : list json) (h : hash) : list json :=
  filter (λ l, hash_of l = h) logs.

Definition receipt_json (hash_of : json → hash) (logs : list json) (tx : json) : json :=
  match tx with
  | JObj fs => JObj (omap receipt_member fs
                     ++ [("logs", JArr (own_logs hash_of logs (tx_hash fs)))])
  | v => v
  end.

(** A transaction that can be turned into a receipt. *)
Definition forgeable (tx : json) : Prop :=
  ∃ fs, tx = JObj fs ∧ json_valid tx = true ∧
        Forall (λ kv, kv.1 = "hash" → ∃ h, hash_unmarshal kv.2 = Ok h) fs.

Definition hashed (hash_of : json → hash) (log : json) : Prop :=
  ∃ fs, log = JObj fs ∧ log_hash fs = (hash_of log, None).

Definition member_tokens (kv : string * json) : list wtok := [WKey kv.1; WRaw kv.2].

Definition sep_first (first : bool) {A} (l : list A) : bool :=
  match l with [] => first | _ => false end.

Lemma receipt_members_run fs h first :
  Forall (λ kv, json_valid kv.2 = true) fs →
  Forall (λ kv, kv.1 = "hash" → ∃ h, hash_unmarshal kv.2 = Ok h) fs →
  receipt_members fs h first
  = Ok (sepj first (map member_tokens (omap receipt_member fs)),
        foldl (λ h kv, if bool_decide (kv.1 = "hash")
                       then match hash_unmarshal kv.2 with Ok h' => h' | Err _ => h end
                       else h) h fs,
        sep_first first (omap receipt_member fs)).
Proof.
  intros Hv. revert h first. induction Hv as [|[k v] fs Hv _ IH]; intros h first Hh; [done|].
  apply Forall_cons in Hh as [Hk Hh]. cbn [fst snd] in *.
  cbn [receipt_members foldl fst snd].
  change (omap receipt_member ((k, v) :: fs))
    with (match receipt_member (k, v) with
          | Some y => y :: omap receipt_member fs | None => omap receipt_member fs end).
  destruct (receipt_member (k, v)) as [kv|] eqn:Hrm; unfold receipt_member in Hrm;
    cbn [fst snd] in Hrm; case_bool_decide as Hkey; simplify_eq/=.
  - destruct Hk as [h' Hh']; [done|]. rewrite jx_raw_spec by done. cbn [mbind res_bind].
    rewrite Hh'. cbn [mbind res_bind]. rewrite IH by done. by destruct (omap receipt_member fs).
  - case_bool_decide; simplify_eq/=. rewrite jx_raw_spec by done. cbn [mbind res_bind].
    rewrite IH by done. by destruct (omap receipt_member fs).
  - case_bool_decide; simplify_eq/=. rewrite jx_skip_spec by done. by apply IH.
Qed.

Lemma log_details_run hash_of logs :
  Forall (hashed hash_of) logs → log_details logs None = (map hash_of logs, None).
Proof.
  induction 1 as [|log logs (fs & -> & Hl) _ IH]; [done|].
  cbn [log_details map]. by rewrite Hl, IH.
Qed.

Lemma receipt_logs_run hash_of logs h first :
  receipt_logs logs (map hash_of logs) h first
  = Return (sepj first (map (λ v, [WRaw v]) (own_logs hash_of logs h))).
Proof.
  revert first. induction logs as [|log logs IH]; intros first; [done|].
  cbn [receipt_logs map]. unfold own_logs. rewrite filter_cons.
  case_bool_decide as Hd.
  - rewrite decide_True by done. by rewrite IH.
  - rewrite decide_False by done. apply IH.
Qed.

(** The document a receipt is written as. *)
Definition receipt_doc (hash_of : json → hash) (logs : list json) (tx : json) : doc :=
  match tx with
  | JObj fs => DObj (map (λ kv, (kv.1, DRaw kv.2)) (omap receipt_member fs)
                     ++ [("logs", DArr (map DRaw (own_logs hash_of logs (tx_hash fs))))])
  | v => DRaw v
  end.

Lemma receipt_doc_json hash_of logs tx :
  doc_json (receipt_doc hash_of logs tx) = receipt_json hash_of logs tx.
Proof.
  destruct tx; try done. cbn [receipt_doc receipt_json doc_json].
  rewrite map_app. cbn [map fst snd doc_json]. rewrite !map_map, map_id. f_equal. f_equal.
  rewrite <- (map_id (omap _ _)) at 2. apply map_ext. by intros [].
Qed.

Lemma receipt_run hash_of logs tx :
  forgeable tx →
  receipt logs (map hash_of logs) tx
  = Return (Ok (doc_tokens (receipt_doc hash_of logs tx))).
Proof.
  intros (fs & -> & Hv & Hh). unfold receipt. rewrite jx_obj_spec by done.
  cbn [mbind res_bind].
  rewrite receipt_members_run; [|by apply Forall_forall; intros kv Hkv%list_elem_of_In;
    simpl in Hv; rewrite forallb_forall in Hv; apply Hv|done].
  fold (tx_hash fs). rewrite receipt_logs_run.
  unfold mbind, outcome_bind, mret, outcome_ret. do 2 f_equal.
  cbn [receipt_doc doc_tokens]. rewrite <- sepj_wjoin, map_app, sepj_app, map_map.
  cbn [map sepj fst snd doc_tokens]. rewrite map_map, sepj_wjoin. cbn [doc_tokens].
  rewrite sepj_wjoin. f_equal. rewrite <- app_assoc, sepj_wjoin. f_equal.
  rewrite app_nil_r, <- app_assoc. unfold comma, sep_first.
  destruct (omap receipt_member fs); cbn [map app]; by rewrite <- ?app_assoc.
Qed.

Lemma receipts_run hash_of logs txs first :
  Forall forgeable txs →
  receipts txs logs (map hash_of logs) first
  = Return (Ok (sepj first (map doc_tokens (map (receipt_doc hash_of logs) txs)))).
Proof.
  intros Htx. revert first. induction Htx as [|tx txs Htx _ IH]; intros first; [done|].
  cbn [receipts]. rewrite receipt_run by done. cbn [mbind outcome_bind].
  rewrite IH. done.
Qed.
End facts.
End ForgerFacts.

(** ** Properties *)

Module ForgerProps.
Import Forger ForgerFacts.

Section props.
Context {W : Type} `{J : Jrpc} `{E : Eth} `{XS : JxSpec} `{Sn : Sonic}.

(** C39: forged receipts are made of the block and of the logs that the two
    requests gave: one per transaction of the block, in order, with the
    transaction's own hash and members, and exactly those of the logs that carry
    its hash, in order and with their text unchanged. *)
Theorem forger_receipts logs_first (next : handler W) r chain bn logs block txs hash_of w w' :
  r_method r = "eth_getBlockReceipts" →
  GetChain (r_ctx r) = Ok chain → ForgeBlockReceipts chain = true →
  unmarshal_params (unmarshal_array1 BlockNumber.unmarshal 0) r = Ok bn →
  fetch logs_first next r bn w = (Return (Ok (JArr logs, block)), w') →
  json_valid (JArr logs) = true →
  unmarshal_field "transactions" unmarshal_raws [] block = Ok txs →
  Forall (hashed hash_of) logs → Forall forgeable txs →
  Middleware logs_first next r w
  = (Return [reply_ok (VRaw (JArr (map (receipt_json hash_of logs) txs)))], w').
Proof.
  intros Hm Hc Hf Hbn Hfetch Hv Htxs Hlogs Hforge. unfold Middleware, forge.
  rewrite bool_decide_true, Hc, Hf, Hbn by done.
  rewrite (prog_bind_return _ _ _ _ _ Hfetch), Htxs.
  unfold unmarshal_raws. rewrite Hv. rewrite (log_details_run hash_of) by done. cbn [app].
  unfold mbind at 1, prog_bind at 1, lift. rewrite receipts_run by done.
  pose proof (jx_buf_spec (DArr (map (receipt_doc hash_of logs) txs))) as Hb.
  cbn [doc_tokens doc_json] in Hb. rewrite sepj_wjoin, Hb, map_map.
  by rewrite (map_ext _ _ (receipt_doc_json hash_of logs)).
Qed.

(** a log without a usable transaction hash is reported to the client, but
    the handler does not stop there: if the block has no transactions it
    replies a second time, with an empty list of receipts, and if it has some
    that can be forged, the request panics on the log after the bad one. *)
Theorem forger_goes_on logs_first (next : handler W) r chain bn good bad bad_fs h e log logs block txs
    hash_of w w' :
  r_method r = "eth_getBlockReceipts" →
  GetChain (r_ctx r) = Ok chain → ForgeBlockReceipts chain = true →
  unmarshal_params (unmarshal_array1 BlockNumber.unmarshal 0) r = Ok bn →
  fetch logs_first next r bn w
    = (Return (Ok (JArr (good ++ bad :: log :: logs), block)), w') →
  json_valid (JArr (good ++ bad :: log :: logs)) = true →
  unmarshal_field "transactions" unmarshal_raws [] block = Ok txs →
  Forall (hashed hash_of) good → bad = JObj bad_fs → log_hash bad_fs = (h, Some e) →
  Forall forgeable txs →
  Middleware logs_first next r w
  = match txs with
    | [] => (Return [reply_err e; reply_ok (VRaw (JArr []))], w')
    | _ => (Panic "index out of range", w')
    end.
Proof.
  intros Hm Hc Hf Hbn Hfetch Hv Htxs Hgood -> Hbad Hforge. unfold Middleware, forge.
  rewrite bool_decide_true, Hc, Hf, Hbn by done.
  rewrite (prog_bind_return _ _ _ _ _ Hfetch), Htxs.
  unfold unmarshal_raws. rewrite Hv.
  assert (∀ l, log_details (good ++ JObj bad_fs :: l) None = (map hash_of good ++ [h], Some e))
    as ->.
  { intros l. clear Hv Hfetch. induction Hgood as [|g good (fs & -> & Hg) _ IH]; simpl.
    - by rewrite Hbad.
    - by rewrite Hg, IH. }
  destruct txs as [|tx txs].
  - cbn [receipts app]. unfold mbind at 1, prog_bind at 1, lift, mret at 1, outcome_ret.
    pose proof (jx_buf_spec (DArr [])) as Hb. cbn in Hb. cbn [app]. by rewrite Hb.
  - assert (∀ x first, receipt_logs (good ++ JObj bad_fs :: log :: logs)
      (map hash_of good ++ [h]) x first = Panic "index out of range") as Hp.
    { intros x. clear Hv Hfetch. induction Hgood as [|g good _ _ IH]; intros first; simpl.
      - by destruct (bool_decide (h = x)).
      - destruct (bool_decide _); by rewrite IH. }
    apply Forall_cons in Hforge as [(fs & -> & Hvt & Hh) _].
    unfold mbind at 1, prog_bind at 1, lift. cbn [receipts]. unfold receipt.
    rewrite jx_obj_spec by done. cbn [mbind res_bind].
    rewrite receipt_members_run; [|by apply Forall_forall; intros kv Hkv%list_elem_of_In;
      simpl in Hvt; rewrite forallb_forall in Hvt; apply Hvt|done].
    by rewrite Hp.
Qed.
End props.
End ForgerProps.

(** ** Witnesses *)

Module ForgerWitness.
Import Forger ForgerFacts ForgerProps StdJrpc StdEth StdJx StdSonic.

Definition chain0 : Chain := {| Chain_Name := "old"; Chain_Id := 1; Chain_Aliases := [];
  BlockTimeSeconds := QArith_base.inject_Z 12; Chain_Remotes := []; Stalk := None;
  ParsedStalk := true; ForgeBlockReceipts := true; Chain_MaxBlockLookback := 0 |}.
Definition request0 : request := {| r_ctx := WithChain [] chain0;
  r_method := "eth_getBlockReceipts"; r_params := Some (JArr [JStr "0x7"]); r_peer := "" |}.

Definition hash0 (n : Z) : json := hash_marshal (replicate 32 n).
Definition tx0 (n : Z) : json :=
  JObj [("hash", hash0 n); ("nonce", JStr "0x1"); ("from", JStr "0xab")].
Definition log0 (n : Z) : json := JObj [("transactionHash", hash0 n); ("data", JStr "0x")].
Definition block0 (txs : list json) : json :=
  JObj [("number", JStr "0x7"); ("transactions", JArr txs)].
Definition hash_of0 (v : json) : hash :=
  match v with JObj fs => (log_hash fs).1 | _ => zero_hash end.

(** A chain whose block has the given transactions and logs. *)
Definition next0 (txs logs : list json) : handler () := λ r,
  if bool_decide (r_method r = "eth_getLogs") then send_ok (VRaw (JArr logs))
  else send_ok (VRaw (block0 txs)).

Lemma tx0_forgeable n : 0 <= n < 256 → forgeable (tx0 n).
Proof.
  intros Hn. eexists. split; [done|].
  assert (is_bytes HashLength (replicate 32 n)) as Hb.
  { split; [done|]. by apply Forall_replicate. }
  split.
  - change (json_valid (hash_marshal (replicate 32 n)) && true = true).
    by rewrite hash_valid.
  - repeat constructor; try done. intros _. exists (replicate 32 n). by apply hash_roundtrip.
Qed.

(** Two transactions, of which the second has two logs. *)
Lemma forger_receipts_witness :
  Middleware true (next0 [tx0 1; tx0 2] [log0 2; log0 2]) request0 ()
  = (Return [reply_ok (VRaw (JArr
       [JObj [("transactionHash", hash0 1); ("from", JStr "0xab"); ("logs", JArr [])];
        JObj [("transactionHash", hash0 2); ("from", JStr "0xab");
              ("logs", JArr [log0 2; log0 2])]]))], ()).
Proof.
  rewrite (forger_receipts true (next0 [tx0 1; tx0 2] [log0 2; log0 2]) request0 chain0 7
    [log0 2; log0 2] (block0 [tx0 1; tx0 2]) [tx0 1; tx0 2] hash_of0 () ()).
  - vm_compute. reflexivity.
  - reflexivity.
  - reflexivity.
  - reflexivity.
  - vm_compute. reflexivity.
  - vm_compute. reflexivity.
  - vm_compute. reflexivity.
  - vm_compute. reflexivity.
  - repeat apply Forall_cons_2; try apply Forall_nil_2;
      (eexists; split; [reflexivity|vm_compute; reflexivity]).
  - repeat apply Forall_cons_2; try apply Forall_nil_2; apply tx0_forgeable; lia.
Defined.

(** A log with a hash of no length, before another log. *)
Definition bad0 : list (string * json) := [("transactionHash", JStr "0x")].

Lemma forger_goes_on_witness :
  ∃ e, Middleware true (next0 [] [JObj bad0; log0 2]) request0 ()
       = (Return [reply_err e; reply_ok (VRaw (JArr []))], ()).
Proof.
  eexists.
  rewrite (forger_goes_on true (next0 [] [JObj bad0; log0 2]) request0 chain0 7
    [] (JObj bad0) bad0 zero_hash (EText "invalid length") (log0 2) [] (block0 []) [] hash_of0 () ()).
  - reflexivity.
  - reflexivity.
  - reflexivity.
  - reflexivity.
  - vm_compute. reflexivity.
  - vm_compute. reflexivity.
  - vm_compute. reflexivity.
  - vm_compute. reflexivity.
  - apply Forall_nil_2.
  - reflexivity.
  - vm_compute. reflexivity.
  - apply Forall_nil_2.
Defined.
End ForgerWitness.
