(* ===== verification/Subcenter.v ===== *)
(** * Subscriptions: [svc/node/atoms/subcenter]

    [eth_subscribe] for new heads and for logs.  A subscription is driven by
    the heads that its channel delivers until the connection ends: they are an
    argument.  What it hands to [notifier.Notify] is part of the result; the
    notifier is an argument too, since it belongs to the jrpc library. *)
From S2P Require Import Prelude Errors Json EthTypes Config Rpc HeadStore.

Module Subcenter.

(** [SubscriptionFilterQuery] of [lib/ethtypes/filter.go]. *)
Record SubscriptionFilterQuery := {
  Sub_Addresses : list address;
  Sub_Topics : list (list hash);
}.

Section subcenter.
Context {W : Type} `{J : Jrpc} `{E : Eth} `{X : Jx} `{Sn : Sonic} `{H : HeadStore W}.

Fixpoint SubscriptionFilterQuery_members (q : SubscriptionFilterQuery)
    (fs : list (string * json)) : res goerr SubscriptionFilterQuery :=
  match fs with
  | [] => Ok q
  | (k, v) :: fs =>
      q ← (if field_match "address" k then
             a ← OneOrArray_UnmarshalJSON address_unmarshal v;
             Ok {| Sub_Addresses := a; Sub_Topics := Sub_Topics q |}
           else if field_match "topics" k then
             t ← Topics_UnmarshalJSON v;
             Ok {| Sub_Addresses := Sub_Addresses q;
                   Sub_Topics := match t with [] => Sub_Topics q | _ => t end |}
           else Ok q);
      SubscriptionFilterQuery_members q fs
  end.

Definition SubscriptionFilterQuery_unmarshal (v : json) : res goerr SubscriptionFilterQuery :=
  let zero := {| Sub_Addresses := []; Sub_Topics := [] |} in
  match v with
  | JObj fs => SubscriptionFilterQuery_members zero fs
  | JNull => Ok zero
  | _ => Err json_error
  end.

(** ** The header that is notified *)

Fixpoint header_tokens (fs : list (string * json)) (first : bool) : res goerr (list wtok) :=
  match fs with
  | [] => Ok []
  | (key, v) :: fs =>
      if bool_decide (key = "transactions") then
        match jx_skip v with
        | Some e => Err e
        | None => header_tokens fs first
        end
      else
        raw ← jx_raw v;
        rest ← header_tokens fs false;
        Ok ((if first then [] else [WComma]) ++ WKey key :: WRaw raw :: rest)
  end.

Definition removeTransactions (block : json) : res goerr json :=
  header ← jx_obj block;
  ts ← header_tokens header true;
  mret (jx_buf (WObjStart :: ts ++ [WObjEnd])).

(** ** The two subscriptions *)

Section notify.
Context (Notify : json → prog W (option goerr)).
Context (ctx : context) (h : handler W).

(** The loop over the blocks up to the head: [fuel] of them are left.  What
    was handed to [Notify]; a failure of [Notify] ends the loop, any other
    skips the block. *)
Fixpoint send_heads (fuel : nat) (i : Z) : prog W (list json) :=
  match fuel with
  | O => mret []
  | S fuel =>
      block ← Do ctx h "eth_getBlockByNumber" (JArr [JStr (EncodeUint64 i); JBool false]);
      match block with
      | Err _ => send_heads fuel (i + 1)
      | Ok block =>
          match removeTransactions block with
          | Err _ => send_heads fuel (i + 1)
          | Ok withoutTxns =>
              err ← Notify withoutTxns;
              match err with
              | Some _ => mret [withoutTxns]
              | None => rest ← send_heads fuel (i + 1); mret (withoutTxns :: rest)
              end
          end
      end
  end.

(** One head from the channel, given the last one: what is notified, and the
    new last head.  The loop [for i <= head] does not end if the head is the
    largest [uint64]. *)
Definition on_head (current head : Z) : prog W (list json * Z) :=
  let start := u64 (current + 1) in
  if head <? start then mret ([], head)
  else if bool_decide (head = two64 - 1) then block
  else
    sent ← send_heads (Z.to_nat (head + 1 - start)) start;
    mret (sent, head).

Fixpoint newHeads (current : Z) (heads : list Z) : prog W (list json) :=
  match heads with
  | [] => mret []
  | head :: heads =>
      '(sent, current) ← on_head current head;
      rest ← newHeads current heads;
      mret (sent ++ rest)
  end.

(** The logs of an answer, until [Notify] fails. *)
Fixpoint send_logs (logs : list json) : prog W (list json) :=
  match logs with
  | [] => mret []
  | v :: logs =>
      match jx_raw v with
      | Err _ => send_logs logs
      | Ok log =>
          err ← Notify log;
          match err with
          | Some _ => mret [log]
          | None => rest ← send_logs logs; mret (log :: rest)
          end
      end
  end.

Definition logs_filter (filter : SubscriptionFilterQuery) (from to : Z) : FilterQuery :=
  {| BlockHash := None; FromBlock := Some from; ToBlock := Some to;
     Addresses := Sub_Addresses filter; Topics := Sub_Topics filter |}.

Definition on_logs_head (filter : SubscriptionFilterQuery) (current head : Z)
    : prog W (list json * Z) :=
  let from := i64 (u64 (current + 1)) in
  let to := i64 head in
  logs ← Do ctx h "eth_getLogs" (JArr [FilterQuery_marshal (logs_filter filter from to)]);
  match logs with
  | Err _ => mret ([], current)
  | Ok logs =>
      match jx_arr logs with
      | Err _ => mret ([], current)
      | Ok arr => sent ← send_logs arr; mret (sent, head)
      end
  end.

Fixpoint newLogs (filter : SubscriptionFilterQuery) (current : Z) (heads : list Z)
    : prog W (list json) :=
  match heads with
  | [] => mret []
  | head :: heads =>
      '(sent, current) ← on_logs_head filter current head;
      rest ← newLogs filter current heads;
      mret (sent ++ rest)
  end.
End notify.

(** ** The middleware *)

(** A subscription's replies, and what it notified before it ended. *)
Record served := { sv_sends : list reply; sv_notified : list json }.

Definition refused (e : goerr) : served := {| sv_sends := [reply_err e]; sv_notified := [] |}.

(** [notifier]: the subscription id and [Notify], if the connection has them. *)
Definition subscribe (notifier : option (value * (json → prog W (option goerr))))
    (heads : list Z) (h : handler W) (r : request) : prog W served :=
  match GetChain (r_ctx r) with
  | Err e => mret (refused e)
  | Ok chain =>
      if negb (ParsedStalk chain)
      then mret (refused (NewInvalidRequestError "chain does not support subscriptions"))
      else
        match notifier with
        | None => mret (refused (ESentinel ErrNotificationsUnsupported))
        | Some (ID, Notify) =>
            match unmarshal_params unmarshal_raws r with
            | Err e => mret (refused e)
            | Ok [] => mret (refused (NewInvalidParamsError "expected at least one param"))
            | Ok (p0 :: params) =>
                match unmarshal_string p0 with
                | Err e => mret (refused e)
                | Ok method =>
                    current ← hs_Get chain;
                    match current with
                    | Err e => mret (refused e)
                    | Ok current =>
                        if bool_decide (method = "newHeads") then
                          sent ← newHeads Notify (r_ctx r) h current heads;
                          mret {| sv_sends := [reply_ok ID]; sv_notified := sent |}
                        else if bool_decide (method = "logs") then
                          match params with
                          | [p] =>
                              match SubscriptionFilterQuery_unmarshal p with
                              | Err e =>
                                  mret (refused (NewInvalidParamsError (error_text e)))
                              | Ok filter =>
                                  sent ← newLogs Notify (r_ctx r) h filter current heads;
                                  mret {| sv_sends := [reply_ok ID]; sv_notified := sent |}
                              end
                          | _ => mret (refused (NewInvalidParamsError "expected 1 parameter"))
                          end
                        else mret (refused
                               (NewInvalidRequestError "unknown subscription method"))
                    end
                end
            end
        end
  end.

Definition Middleware (notifier : request → option (value * (json → prog W (option goerr))))
    (heads : list Z) : middleware W := λ h r,
  if bool_decide (r_method r = "eth_subscribe") then
    s ← subscribe (notifier r) heads h r;
    mret (sv_sends s)
  else h r.
End subcenter.
End Subcenter.

(** ** Lemmas *)

Module SubcenterFacts.
Import Subcenter.

Section header.
Context `{XS : JxSpec}.

(** The members of a header that a subscriber is sent. *)
Definition light (fs : list (string * json)) : list (string * json) :=
  filter (λ kv, kv.1 ≠ "transactions") fs.

Lemma header_tokens_run fs first :
  Forall (λ kv, json_valid kv.2 = true) fs →
  header_tokens fs first
  = Ok (sepj first (map (λ kd, WKey kd.1 :: doc_tokens kd.2)
                      (map (λ kv, (kv.1, DRaw kv.2)) (light fs)))).
Proof.
  intros Hv. revert first. induction Hv as [|[k v] fs Hv _ IH]; intros first; [done|].
  cbn [header_tokens]. unfold light. rewrite filter_cons. cbn [fst snd] in *.
  case_bool_decide as Hk.
  - rewrite decide_False by naive_solver. rewrite jx_skip_spec by done. apply IH.
  - rewrite decide_True by done. rewrite jx_raw_spec by done. cbn [mbind res_bind].
    rewrite IH. done.
Qed.

Lemma removeTransactions_run fs :
  json_valid (JObj fs) = true → removeTransactions (JObj fs) = Ok (JObj (light fs)).
Proof.
  intros Hv. unfold removeTransactions. rewrite jx_obj_spec by done. cbn [mbind res_bind].
  rewrite header_tokens_run.
  2: { apply Forall_forall. intros kv Hkv%list_elem_of_In.
       simpl in Hv. rewrite forallb_forall in Hv. by apply Hv. }
  cbn [mbind res_bind]. rewrite sepj_wjoin. unfold mret, res_ret. f_equal.
  pose proof (jx_buf_spec (DObj (map (λ kv, (kv.1, DRaw kv.2)) (light fs)))) as Hb.
  cbn [doc_tokens doc_json] in Hb. rewrite Hb, map_map. f_equal.
  rewrite <- (map_id (light fs)) at 2. apply map_ext. by intros [].
Qed.
End header.

(** A channel delivers growing heads ([head_subscription_ascending]). *)
Fixpoint growing (current : Z) (heads : list Z) : Prop :=
  match heads with
  | [] => True
  | head :: heads => current < head ∧ growing head heads
  end.

Definition newest (current : Z) (heads : list Z) : Z := default current (last heads).

Lemma newest_cons current head heads : newest current (head :: heads) = newest head heads.
Proof. unfold newest. rewrite last_cons. by destruct (last heads). Qed.

Lemma growing_le current heads : growing current heads → current <= newest current heads.
Proof.
  revert current. induction heads as [|head heads IH]; intros current; [done|].
  intros [Hlt Hg]. rewrite newest_cons. specialize (IH head Hg). lia.
Qed.

Lemma seqZ_split a b c : a <= b <= c → seqZ (a + 1) (c - a) = seqZ (a + 1) (b - a) ++ seqZ (b + 1) (c - b).
Proof.
  intros H. replace (c - a) with ((b - a) + (c - b)) by lia.
  rewrite seqZ_app by lia. by replace (a + 1 + (b - a)) with (b + 1) by lia.
Qed.

Section notify.
Context {W : Type} `{J : Jrpc} `{E : Eth} `{XS : JxSpec} `{Sn : Sonic}.
Context (Notify : json → prog W (option goerr)) (ctx : context) (h : handler W).
Hypothesis Notify_ok : ∀ v w, ∃ w', Notify v w = (Return None, w').

Section heads.
(** The blocks that the handlers below have; the others are errors. *)
Context (answer : Z → option (list (string * json))).
Hypothesis answer_spec : ∀ i w, ∃ x w',
  Do ctx h "eth_getBlockByNumber" (JArr [JStr (EncodeUint64 i); JBool false]) w
  = (Return x, w') ∧
  match answer i with
  | Some fs => x = Ok (JObj fs) ∧ json_valid (JObj fs) = true
  | None => ∃ e, x = Err e
  end.

Definition header_of (i : Z) : option json := (λ fs, JObj (light fs)) <$> answer i.

Lemma send_heads_run fuel i w :
  ∃ w', send_heads Notify ctx h fuel i w
        = (Return (omap header_of (seqZ i (Z.of_nat fuel))), w').
Proof.
  revert i w. induction fuel as [|fuel IH]; intros i w; [by exists w|].
  rewrite seqZ_cons by lia. replace (Z.pred (Z.of_nat (S fuel))) with (Z.of_nat fuel) by lia.
  change (omap header_of (i :: seqZ (Z.succ i) (Z.of_nat fuel)))
    with (match header_of i with
          | Some y => y :: omap header_of (seqZ (Z.succ i) (Z.of_nat fuel))
          | None => omap header_of (seqZ (Z.succ i) (Z.of_nat fuel)) end).
  replace (Z.succ i) with (i + 1) by lia. cbn [send_heads].
  destruct (answer_spec i w) as (x & w1 & Hx & Ha).
  rewrite (prog_bind_return _ _ _ _ _ Hx). unfold header_of at 1.
  destruct (answer i) as [fs|].
  - destruct Ha as [-> Hv]. rewrite removeTransactions_run by done.
    destruct (Notify_ok (JObj (light fs)) w1) as [w2 Hn].
    rewrite (prog_bind_return _ _ _ _ _ Hn).
    destruct (IH (i + 1) w2) as [w3 Hr]. rewrite (prog_bind_return _ _ _ _ _ Hr).
    by exists w3.
  - destruct Ha as [e ->]. apply IH.
Qed.

Lemma newHeads_run current heads w :
  0 <= current → growing current heads → newest current heads < two64 - 1 →
  ∃ w', newHeads Notify ctx h current heads w
        = (Return (omap header_of (seqZ (current + 1) (newest current heads - current))), w').
Proof.
  revert current w. induction heads as [|head heads IH]; intros current w H0 Hg Hmax.
  { exists w. unfold newest. simpl. by rewrite Z.sub_diag. }
  destruct Hg as [Hlt Hg]. rewrite newest_cons in *. pose proof (growing_le _ _ Hg) as Hle.
  cbn [newHeads]. unfold on_head. rewrite u64_small by go_lia. cbv zeta.
  rewrite (proj2 (Z.ltb_ge _ _)), bool_decide_false by lia.
  destruct (send_heads_run (Z.to_nat (head + 1 - (current + 1))) (current + 1) w) as [w1 H1].
  rewrite prog_bind_assoc, (prog_bind_return _ _ _ _ _ H1), prog_ret_bind.
  destruct (IH head w1) as [w2 H2]; [lia|done|done|].
  rewrite (prog_bind_return _ _ _ _ _ H2). exists w2.
  rewrite (seqZ_split current head) by lia. rewrite omap_app.
  replace (Z.of_nat (Z.to_nat (head + 1 - (current + 1)))) with (head - current) by lia. done.
Qed.
End heads.

(** A request for new heads that is accepted. *)
Lemma subscribe_newHeads `{HS : HeadStoreSpec W} (r : request) (chain : Chain) (ID : value)
    p0 params heads w :
  GetChain (r_ctx r) = Ok chain → ParsedStalk chain = true →
  unmarshal_params unmarshal_raws r = Ok (p0 :: params) → unmarshal_string p0 = Ok "newHeads" →
  subscribe (Some (ID, Notify)) heads h r w
  = (sent ← newHeads Notify (r_ctx r) h (hs_head w (Chain_Name chain)) heads;
     mret {| sv_sends := [reply_ok ID]; sv_notified := sent |}) w.
Proof.
  intros Hc Hp Hr Hm. unfold subscribe. rewrite Hc, Hp, Hr, Hm. cbn [negb].
  by rewrite (prog_bind_return _ _ _ _ _ (hs_Get_spec chain w)), bool_decide_true by done.
Qed.

Section logs.
Context (filter : SubscriptionFilterQuery).
(** The logs of each block, and the ranges that the handlers answer for. *)
Context (logs_of : Z → list json) (served : Z → Z → bool).

Definition logs_upto (a b : Z) : list json := mjoin (logs_of <$> seqZ (a + 1) (b - a)).

Hypothesis logs_valid : ∀ i, Forall (λ v, json_valid v = true) (logs_of i).
Hypothesis served_spec : ∀ a b w, ∃ x w',
  Do ctx h "eth_getLogs" (JArr [FilterQuery_marshal (logs_filter filter (a + 1) b)]) w
  = (Return x, w') ∧
  if served a b then x = Ok (JArr (logs_upto a b)) else ∃ e, x = Err e.

Lemma send_logs_run l w :
  Forall (λ v, json_valid v = true) l → ∃ w', send_logs Notify l w = (Return l, w').
Proof.
  intros Hl. revert w. induction Hl as [|v l Hv _ IH]; intros w; [by exists w|].
  cbn [send_logs]. rewrite jx_raw_spec by done.
  destruct (Notify_ok v w) as [w1 Hn]. rewrite (prog_bind_return _ _ _ _ _ Hn).
  destruct (IH w1) as [w2 Hr]. rewrite (prog_bind_return _ _ _ _ _ Hr). by exists w2.
Qed.

Lemma logs_upto_valid a b : Forall (λ v, json_valid v = true) (logs_upto a b).
Proof.
  unfold logs_upto. induction (seqZ (a + 1) (b - a)) as [|i l IH]; [constructor|].
  cbn [fmap list_fmap mjoin list_join]. by apply Forall_app.
Qed.

(** The last head whose logs were sent. *)
Fixpoint sent_upto (current : Z) (heads : list Z) : Z :=
  match heads with
  | [] => current
  | head :: heads => sent_upto (if served current head then head else current) heads
  end.

Lemma sent_upto_range current m heads :
  current <= m → growing m heads → current <= sent_upto current heads <= newest m heads.
Proof.
  revert current m. induction heads as [|head heads IH]; intros current m Hm Hg.
  { unfold newest. simpl. lia. }
  destruct Hg as [Hlt Hg]. rewrite newest_cons. cbn [sent_upto].
  destruct (served current head).
  - specialize (IH head head ltac:(lia) Hg). lia.
  - specialize (IH current head ltac:(lia) Hg). lia.
Qed.

Lemma newLogs_run current m heads w :
  0 <= current <= m → growing m heads → newest m heads < two63 →
  ∃ w', newLogs Notify ctx h filter current heads w
        = (Return (logs_upto current (sent_upto current heads)), w').
Proof.
  revert current m w. induction heads as [|head heads IH]; intros current m w H0 Hg Hmax.
  { exists w. simpl. unfold logs_upto. by rewrite Z.sub_diag. }
  destruct Hg as [Hlt Hg]. rewrite newest_cons in Hmax. pose proof (growing_le _ _ Hg) as Hle.
  cbn [newLogs sent_upto]. unfold on_logs_head. rewrite u64_small by go_lia.
  rewrite !i64_small by go_lia. cbv zeta. rewrite prog_bind_assoc.
  destruct (served_spec current head w) as (x & w1 & Hx & Hs).
  rewrite (prog_bind_return _ _ _ _ _ Hx). destruct (served current head).
  - subst x. rewrite jx_arr_spec by (apply forallb_forall; intros v Hv%list_elem_of_In;
      pose proof (logs_upto_valid current head) as Hl; rewrite Forall_forall in Hl; auto).
    destruct (send_logs_run (logs_upto current head) w1) as [w2 H2]; [apply logs_upto_valid|].
    rewrite prog_bind_assoc, (prog_bind_return _ _ _ _ _ H2), prog_ret_bind.
    destruct (IH head head w2) as [w3 H3]; [lia|done|done|].
    rewrite (prog_bind_return _ _ _ _ _ H3). exists w3.
    pose proof (sent_upto_range head head heads ltac:(lia) Hg).
    unfold logs_upto at 3. rewrite (seqZ_split current head) by lia.
    by rewrite fmap_app, join_app.
  - destruct Hs as [e ->]. rewrite prog_ret_bind.
    destruct (IH current head w1) as [w3 H3]; [lia|done|done|].
    rewrite (prog_bind_return _ _ _ _ _ H3). by exists w3.
Qed.
End logs.
End notify.
End SubcenterFacts.

(** ** Properties *)

Module SubcenterProps.
Import Subcenter SubcenterFacts.

Section props.
Context {W : Type} `{J : Jrpc} `{E : Eth} `{XS : JxSpec} `{Sn : Sonic} `{HS : HeadStoreSpec W}.
Context (ID : value) (Notify : json → prog W (option goerr)) (h : handler W) (r : request).
Context (chain : Chain) (p0 : json) (params : list json).
Hypothesis Notify_ok : ∀ v w, ∃ w', Notify v w = (Return None, w').
Hypothesis r_chain : GetChain (r_ctx r) = Ok chain.
Hypothesis r_stalk : ParsedStalk chain = true.
Hypothesis r_raws : unmarshal_params unmarshal_raws r = Ok (p0 :: params).


(** C38: a subscriber to logs misses none: whichever requests for logs fail, it
    is notified of the logs of consecutive blocks, from the one after the head
    the subscription started from, in order and once each; and if the request
    for the newest head is served, up to that head: a failed range is asked for
    again with the next head. *)
Theorem logs_complete filter p (logs_of : Z → list json) (served : Z → Z → bool) heads head w :
  params = [p] → unmarshal_string p0 = Ok "logs" →
  SubscriptionFilterQuery_unmarshal p = Ok filter →
  (∀ i, Forall (λ v, json_valid v = true) (logs_of i)) →
  (∀ a b w, ∃ x w',
     Do (r_ctx r) h "eth_getLogs" (JArr [FilterQuery_marshal (logs_filter filter (a + 1) b)]) w
     = (Return x, w') ∧
     if served a b then x = Ok (JArr (logs_upto logs_of a b)) else ∃ e, x = Err e) →
  let current := hs_head w (Chain_Name chain) in
  0 <= current → growing current (heads ++ [head]) → head < two63 →
  ∃ m w', subscribe (Some (ID, Notify)) (heads ++ [head]) h r w
          = (Return {| sv_sends := [reply_ok ID];
                       sv_notified := logs_upto logs_of current m |}, w') ∧
    current <= m <= head ∧
    ((∀ a, served a head = true) → m = head).
Proof.
  intros -> Hm Hf Hv Hs current H0 Hg Hmax. unfold subscribe.
  assert (newest current (heads ++ [head]) = head) as Hnew.
  { unfold newest. by rewrite last_snoc. }
  rewrite r_chain, r_stalk, r_raws, Hm. cbn [negb].
  rewrite (prog_bind_return _ _ _ _ _ (hs_Get_spec chain w)).
  rewrite bool_decide_false, bool_decide_true, Hf by done.
  destruct (newLogs_run Notify (r_ctx r) h Notify_ok filter logs_of served Hv Hs
              current current (heads ++ [head]) w) as [w' Hr]; [lia|done|by rewrite Hnew|].
  rewrite (prog_bind_return _ _ _ _ _ Hr).
  pose proof (sent_upto_range served current current (heads ++ [head]) ltac:(lia) Hg) as Hb.
  rewrite Hnew in Hb.
  eexists _, w'. split; [done|]. split; [done|]. intros Hall.
  clear -Hall. generalize current. induction heads as [|x heads IH]; intros c; simpl.
  - by rewrite Hall.
  - apply IH.
Qed.
End props.
End SubcenterProps.

(** ** Witnesses *)

Module SubcenterWitness.
Import Subcenter SubcenterFacts SubcenterProps StdJrpc StdEth StdJx StdSonic.

Definition chain0 : Chain := {| Chain_Name := "ethereum"; Chain_Id := 1; Chain_Aliases := [];
  BlockTimeSeconds := QArith_base.inject_Z 12; Chain_Remotes := []; Stalk := None;
  ParsedStalk := true; ForgeBlockReceipts := false; Chain_MaxBlockLookback := 0 |}.
Definition request0 (params : list json) : request := {| r_ctx := WithChain [] chain0;
  r_method := "eth_subscribe"; r_params := Some (JArr params); r_peer := "" |}.
Definition world0 : Redihead.t := Redihead.setHead "ethereum" 5 Redihead.New.
Definition notify0 : json → prog Redihead.t (option goerr) := λ _, mret None.

(** A handler with one block, whatever is asked for, and no logs. *)
Definition block0 : list (string * json) :=
  [("number", JStr "0x6"); ("transactions", JArr []); ("hash", JStr "0x")].
Definition next0 : handler Redihead.t := λ r,
  if bool_decide (r_method r = "eth_getLogs") then send_ok (VRaw (JArr []))
  else send_ok (VRaw (JObj block0)).


Lemma logs_complete_witness :
  ∃ m w', subscribe (H := Redihead.store (λ _, mret None)) (Some (VText "0x1", notify0))
            [7; 8] next0 (request0 [JStr "logs"; JObj []]) world0
          = (Return {| sv_sends := [reply_ok (VText "0x1")]; sv_notified := [] |}, w') ∧
          5 <= m <= 8 ∧ ((∀ a : Z, true = true) → m = 8).
Proof.
  destruct (logs_complete (HS := Redihead.store_spec (λ _, mret None)) (VText "0x1") notify0
    next0 (request0 [JStr "logs"; JObj []]) chain0 (JStr "logs") [JObj []])
    with (filter := {| Sub_Addresses := []; Sub_Topics := [] |}) (p := JObj [])
      (logs_of := λ _ : Z, [] : list json) (served := λ _ _ : Z, true)
      (heads := [7]) (head := 8) (w := world0) as (m & w' & Hs & Hm & Hall).
  - intros v w. by exists w.
  - reflexivity.
  - reflexivity.
  - reflexivity.
  - reflexivity.
  - reflexivity.
  - reflexivity.
  - intros i. apply Forall_nil_2.
  - intros a b w. eexists _, w. split; [reflexivity|]. unfold logs_upto.
    assert (∀ l : list Z, mjoin ((λ _, []) <$> l) = [] :> list json) as ->; [|done].
    induction l as [|x l IH]; [done|]. exact IH.
  - vm_compute. congruence.
  - split; [reflexivity|]. by split.
  - vm_compute. reflexivity.
  - exists m, w'. split; [|split; [exact Hm|exact Hall]].
    etransitivity; [exact Hs|]. do 3 f_equal. unfold logs_upto.
    match goal with |- context [seqZ ?a ?b] => induction (seqZ a b) as [|x l IH] end; [done|].
    exact IH.
Defined.
End SubcenterWitness.
