(* ===== verification/Pipeline.v ===== *)
(** * From a poll to a notification: stalker, redis stream, head store, subscriber

    The components that carry a new head from the leader's poll of a chain to
    the clients subscribed at any process are verified one by one in
    [Stalker], [HeadStore] and [Subcenter]; here they are put together.  The
    leader's polls add to the redis stream, every process gives the stream's
    messages to its head store, the head store fills the channels of its
    subscribers, and a subscriber turns the heads it is given into blocks. *)
From S2P Require Import Prelude Errors Json EthTypes Config Rpc Validator HeadStore Stalker Subcenter.

Module Pipeline.

(** ** The leader *)

Section leader.
Context {W : Type} `{J : Jrpc} `{E : Eth} `{Sn : Sonic} `{!Lens Redihead.t W, !Lens Stalker.t W}.
Context (Add : Redihead.Head → prog W (option goerr)) (now : prog W Z).
Context (cluster : Chain → handler W).

Definition poll (c : Chain) : prog W (Z * option goerr) :=
  Stalker.tick (H := Redihead.store Add) now (WithChain [] c) c (cluster c).

(** The polls of all chains in the order in which they take place; the waits
    between them pass elsewhere. *)
Fixpoint polls (cs : list Chain) : prog W () :=
  match cs with
  | [] => mret ()
  | c :: cs => _ ← poll c; polls cs
  end.

(** The head that a chain's cluster reports when it is polled, if it does. *)
Definition report (c : Chain) (w : W) : option Redihead.Head :=
  match (Do (WithChain [] c) (cluster c) "eth_getBlockByNumber"
           (JArr [JStr "latest"; JBool false]) w).1 with
  | Return (Ok (JObj fs)) =>
      match unmarshal_field "number" uint64_unmarshal 0 (JObj fs),
            unmarshal_field "timestamp" uint64_unmarshal 0 (JObj fs) with
      | Ok n, Ok _ => Some {| Redihead.Value := n; Redihead.Head_Chain := Chain_Name c |}
      | _, _ => None
      end
  | _ => None
  end.

(** The reports that a sequence of polls meets. *)
Fixpoint reports (cs : list Chain) (w : W) : list Redihead.Head :=
  match cs with
  | [] => []
  | c :: cs => option_list (report c w) ++ reports cs (poll c w).2
  end.
End leader.

(** ** A process with a subscriber *)

(** What a process is given from the stream during a run. *)
Definition arrivals (es : list HeadRuns.event) : list Redihead.Head :=
  omap (λ e, match e with
             | HeadRuns.Arrive c v =>
                 Some {| Redihead.Value := v; Redihead.Head_Chain := c |}
             | _ => None
             end) es.

(** The reader of a subscription keeps up: it stays, and it reads between
    two arrivals for its chain and after the last one.  [waiting] says that
    it has not read since the last arrival. *)
Fixpoint prompt (chain : string) (id : Z) (waiting : bool) (es : list HeadRuns.event) : bool :=
  match es with
  | [] => negb waiting
  | HeadRuns.Arrive c _ :: es =>
      if bool_decide (c = chain) then negb waiting && prompt chain id true es
      else prompt chain id waiting es
  | HeadRuns.Recv c i :: es =>
      prompt chain id (waiting && negb (bool_decide (c = chain ∧ i = id))) es
  | HeadRuns.Subscribe _ :: es => prompt chain id waiting es
  | HeadRuns.Unsubscribe c i :: es =>
      negb (bool_decide (c = chain ∧ i = id)) && prompt chain id waiting es
  end.

Definition run (es : list HeadRuns.event) (T : Redihead.t) : Redihead.t :=
  foldl (λ T e, (HeadRuns.step e T).2) T es.

(** [current, err := store.Get(chain)], then [before] until [sub, done :=
    store.On(chain)], then [es]: the head that the subscription starts from
    and the heads its channel delivers. *)
Definition subscription (chain : string) (before es : list HeadRuns.event) (T : Redihead.t)
    : Z * list Z :=
  let T' := run before T in
  let '(id, s) := Subs.On chain (Redihead.subs T') in
  (Redihead.head T chain, HeadRuns.received chain id es (HeadRuns.with_subs s T')).
End Pipeline.

(** ** Lemmas *)

Module PipelineFacts.
Import Pipeline.

(** *** The leader *)

Section leader.
Context {W : Type} `{J : Jrpc} `{E : Eth} `{Sn : Sonic}.
Context `{LH : !Lens Redihead.t W, LS : !Lens Stalker.t W}.
Context (Add : Redihead.Head → prog W (option goerr)) (now : prog W Z).
Context (cluster : Chain → handler W) (log : W → Redihead.stream).

(** Everything of a poll but the message it adds leaves the stream alone. *)
Definition off_stream {A} (m : prog W A) : Prop :=
  ∀ w, ∃ a w', m w = (Return a, w') ∧ log w' = log w ∧ lget (S := Stalker.t) w' = lget w.

Record leader_ok (cs : list Chain) : Prop := {
  lo_add m w : ∃ w', Add m w = (Return None, w') ∧ log w' = log w ++ [m] ∧
                     lget (S := Stalker.t) w' = lget w;
  lo_now : off_stream now;
  lo_cluster c : off_stream (Do (WithChain [] c) (cluster c) "eth_getBlockByNumber"
                    (JArr [JStr "latest"; JBool false]));
  lo_sane c : c ∈ cs → StalkerFacts.sane c;
  lo_names c c' : c ∈ cs → c' ∈ cs → Chain_Name c = Chain_Name c' → c = c';
  lo_stalker (T : Stalker.t) w : log (lput T w) = log w;
}.

(** The trackers of the chains that are polled are intact. *)
Definition tracking (cs : list Chain) (T : Stalker.t) : Prop :=
  ∀ c, c ∈ cs → StalkerFacts.tracked c T.

Lemma tracking_step cs c T T' :
  leader_ok cs → c ∈ cs → tracking cs T → StalkerFacts.tracked c T' →
  (∀ x, x ≠ Chain_Name c → Stalker.dt T' !! x = Stalker.dt T !! x) → tracking cs T'.
Proof.
  intros L Hc Ht Hc' Hx c1 H1. destruct (decide (Chain_Name c1 = Chain_Name c)) as [He|Hne].
  - by rewrite (lo_names _ L _ _ H1 Hc He).
  - destruct (Ht c1 H1) as (k & ds & Hk & Hi). exists k, ds. by rewrite Hx.
Qed.

(** A poll adds the head it was reported to the stream, and nothing else. *)
Lemma leader_poll_run cs c w :
  leader_ok cs → c ∈ cs → tracking cs (lget w) →
  ∃ x w', poll Add now cluster c w = (Return x, w') ∧
    log w' = log w ++ option_list (report cluster c w) ∧ tracking cs (lget w').
Proof.
  intros L Hc Ht. unfold poll, report, Stalker.tick.
  destruct (lo_cluster _ L c w) as (res & w1 & Hr & Hl1 & Hs1).
  rewrite (prog_bind_return _ _ _ _ _ Hr), Hr. cbn [fst]. rewrite <- Hs1 in Ht.
  destruct res as [block|e]; [|eexists _, w1; by rewrite app_nil_r].
  destruct (lo_now _ L w1) as (t0 & w2 & Hn & Hl2 & Hs2).
  rewrite (prog_bind_return _ _ _ _ _ Hn). rewrite <- Hs2 in Ht. rewrite <- Hl1, <- Hl2.
  destruct block as [| | | | |fs|].
  1: by eexists _, w2; rewrite app_nil_r.
  1-4, 6: unfold unmarshal_field; destruct (json_valid _); eexists _, w2; by rewrite app_nil_r.
  destruct (unmarshal_field "number" _ _ (JObj fs)) as [n|e]; cbn [mbind res_bind];
    [|eexists _, w2; by rewrite app_nil_r].
  destruct (unmarshal_field "timestamp" _ _ (JObj fs)) as [ts|e]; cbn [mbind res_bind];
    [|eexists _, w2; by rewrite app_nil_r].
  set (rem := Validator.Sub _ _). set (m := {| Redihead.Value := n |}).
  destruct (lo_add _ L m w2) as (w3 & Ha & Hl3 & Hs3). rewrite <- Hs3 in Ht.
  unfold hs_Put, Redihead.store, Redihead.Put, Redihead.Get.
  rewrite prog_bind_assoc.
  set (prev := Redihead.head (lget w2) (Chain_Name c)).
  assert (Redihead.Get (W := W) c w2 = (Return (Ok prev), w2)) as Hget by done.
  rewrite (prog_bind_return _ _ _ _ _ Hget), prog_bind_assoc.
  fold m. rewrite (prog_bind_return _ _ _ _ _ Ha), prog_ret_bind.
  destruct (bool_decide (prev ≠ n)); [|by eexists _, w3].
  destruct (StalkerFacts.finish_run c rem w3 (lo_sane _ L c Hc) (Ht c Hc))
    as (wait & T & Hf & HT & Hx & _).
  eexists _, (lput T w3). split; [exact Hf|].
  rewrite (lo_stalker _ L), lget_lput. split; [done|]. by apply tracking_step with c (lget w3).
Qed.

Lemma polls_run cs ps w :
  leader_ok cs → ps ⊆ cs → tracking cs (lget w) →
  ∃ w', polls Add now cluster ps w = (Return (), w') ∧
    log w' = log w ++ reports Add now cluster ps w.
Proof.
  intros L. revert w. induction ps as [|c ps IH]; intros w Hps Ht.
  { exists w. by rewrite app_nil_r. }
  destruct (leader_poll_run cs c w L) as (x & w1 & Hp & Hl & Ht1); [set_solver|done|].
  destruct (IH w1) as (w2 & Hr & Hl2); [set_solver|done|].
  cbn [polls reports]. rewrite (prog_bind_return _ _ _ _ _ Hp), Hp. exists w2.
  split; [done|]. by rewrite Hl2, Hl, app_assoc.
Qed.
End leader.

(** *** The processes *)

Import HeadRuns.

Lemma values_cons chain m ms :
  Redihead.values chain (m :: ms)
  = (if decide (Redihead.Head_Chain m = chain) then [Redihead.Value m] else [])
    ++ Redihead.values chain ms.
Proof. unfold Redihead.values. rewrite filter_cons. by destruct (decide _). Qed.

(** The highest head that a run brings. *)
Definition brought (chain : string) (es : list event) : Z :=
  Redihead.highest (Redihead.values chain (arrivals es)).

Lemma brought_nonneg chain es : 0 <= brought chain es.
Proof. apply Redihead.highest_nonneg. Qed.

Lemma brought_cons chain e es :
  brought chain (e :: es) = match e with
                            | Arrive c v =>
                                if decide (c = chain) then Z.max v (brought chain es)
                                else brought chain es
                            | _ => brought chain es
                            end.
Proof.
  unfold brought. destruct e as [c v| | |]; try done.
  change (arrivals (Arrive c v :: es))
    with ({| Redihead.Value := v; Redihead.Head_Chain := c |} :: arrivals es).
  rewrite values_cons. cbn [Redihead.Head_Chain Redihead.Value]. by destruct (decide _).
Qed.

Lemma head_step e T chain :
  Redihead.head (step e T).2 chain
  = match e with
    | Arrive c v => if decide (chain = c) then Z.max (Redihead.head T c) v
                    else Redihead.head T chain
    | _ => Redihead.head T chain
    end.
Proof.
  destruct e as [c v|c i| |]; [apply Redihead.head_setHead| |done..].
  simpl. by destruct (Subs.recv c i _).
Qed.

Lemma head_run es T chain :
  0 <= Redihead.head T chain →
  Redihead.head (run es T) chain = Z.max (Redihead.head T chain) (brought chain es).
Proof.
  revert T. induction es as [|e es IH]; intros T H0.
  { change (brought chain []) with 0. simpl. lia. }
  rewrite brought_cons. change (run (e :: es) T) with (run es (step e T).2).
  rewrite IH, head_step; rewrite ?head_step; destruct e; repeat destruct (decide _);
    subst; done || lia.
Qed.

(** The channel of the subscription. *)
Abbreviation chan_in T chain id := (Subs.chan_of (Redihead.subs T) chain id).

(** What a step does to it. *)
Lemma chan_step e T chain id c :
  live id T → chan_in T chain id = Some c → e ≠ Unsubscribe chain id →
  chan_in (step e T).2 chain id
  = Some match e with
         | Arrive c' v =>
             if decide (c' = chain ∧ Redihead.head T chain < v) then Subs.try_send v c else c
         | Recv c' i =>
             if decide (c' = chain ∧ i = id)
             then {| Subs.buffer := None; Subs.chan_closed := Subs.chan_closed c |} else c
         | _ => c
         end.
Proof.
  intros Hl Hc He. destruct e as [c' v|c' i|c'|c' i]; cbn [step snd].
  - unfold Redihead.setHead. destruct (Z.leb_spec v (Redihead.head T c')).
    + rewrite decide_False; [done|]. intros [-> ?]. lia.
    + cbn [Redihead.subs]. rewrite Subs.chan_of_notify, Hc.
      destruct (decide (chain = c')) as [->|].
      * by rewrite decide_True.
      * rewrite decide_False by naive_solver. done.
  - pose proof (Subs.chan_of_recv (Redihead.subs T) c' i chain id) as Hr.
    destruct (Subs.recv c' i (Redihead.subs T)) as [v s]. cbn [snd] in *.
    cbn [with_subs Redihead.subs]. rewrite Hr, Hc.
    destruct (decide (chain = c' ∧ id = i)) as [[-> ->]|]; [by rewrite decide_True|].
    rewrite decide_False by naive_solver. done.
  - cbn [with_subs Redihead.subs]. by rewrite chan_of_On.
  - cbn [with_subs Redihead.subs]. unfold Subs.Off.
    destruct (default ∅ (Subs.subs (Redihead.subs T) !! c') !! i) eqn:Hi; [|done].
    unfold Subs.chan_of in *. cbn [Subs.subs]. destruct (decide (c' = chain)) as [->|].
    + rewrite lookup_alter_eq. destruct (Subs.subs _ !! chain); [|done]. simpl in *.
      rewrite lookup_delete_ne by naive_solver. done.
    + by rewrite lookup_alter_ne.
Qed.

Lemma received_cons chain id e es T :
  received chain id (e :: es) T
  = match e with
    | Recv c i => if decide (c = chain ∧ i = id)
                  then option_list (chan_in T chain id ≫= Subs.buffer) else []
    | _ => []
    end ++ received chain id es (step e T).2.
Proof.
  cbn [received]. destruct e as [c v|c i|c|c i]; cbn [step]; [done| |done..].
  unfold Subs.recv, Subs.chan_of. destruct (decide (c = chain ∧ i = id)) as [[-> ->]|Hne].
  - destruct (default ∅ _ !! id) as [x|]; cbn [snd mbind option_bind]; [|done].
    destruct (Subs.buffer x); [|done]. by rewrite bool_decide_true.
  - destruct (default ∅ _ !! i) as [x|]; cbn [snd]; [|done].
    destruct (Subs.buffer x); [|done]. by rewrite bool_decide_false.
Qed.

(** What the reader who keeps up has read last: the highest head brought, if
    it is above the head before, else what was there to read. *)
Lemma prompt_received chain id waiting es T c m :
  live id T → chan_in T chain id = Some c → prompt chain id waiting es = true →
  0 <= Redihead.head T chain →
  (waiting = false → Subs.buffer c = None) →
  (∀ v, Subs.buffer c = Some v → v = Redihead.head T chain) →
  SubcenterFacts.newest m (received chain id es T)
  = if decide (Redihead.head T chain < brought chain es) then brought chain es
    else default m (Subs.buffer c).
Proof.
  revert waiting T c m. induction es as [|e es IH]; intros waiting T c m Hl Hc Hp H0 Hw Hb.
  { simpl in Hp. destruct waiting; [done|]. rewrite Hw, decide_False by done || (cbn; lia).
    done. }
  assert (live id (step e T).2) as Hl' by (pose proof (step_next e T); unfold live in *; lia).
  rewrite received_cons, brought_cons.
  pose proof (λ H, chan_step e T chain id c Hl Hc H) as Hs.
  pose proof (head_step e T chain) as Hh.
  destruct e as [c' v|c' i|c'|c' i]; cbn [prompt app] in *.
  - specialize (Hs ltac:(done)). case_bool_decide as Hc'.
    + subst c'. apply andb_prop in Hp as [Hnw Hp]. destruct waiting; [done|].
      specialize (Hw eq_refl). rewrite decide_True in Hh by done.
      rewrite (IH true _ _ m Hl' Hs Hp); [|lia|done|].
      * rewrite Hh. destruct (decide (chain = chain)); [|done].
        unfold Subs.try_send. rewrite Hw.
        destruct (decide (chain = chain ∧ _)) as [[_ Hv]|Hv];
          [|assert (v <= Redihead.head T chain) by (apply Z.nlt_ge; intros ?; by apply Hv)];
          repeat destruct (decide _); simpl; rewrite ?Hw; simpl; lia.
      * intros b. rewrite Hh. unfold Subs.try_send. rewrite Hw.
        destruct (decide _); simpl; rewrite ?Hw; [intros [= <-]; lia|done].
    + rewrite decide_False in Hs by naive_solver. rewrite decide_False in Hh by naive_solver.
      destruct (decide (c' = chain)); [done|].
      rewrite (IH waiting _ _ m Hl' Hs Hp), Hh; [done|lia|done|]. by rewrite Hh.
  - specialize (Hs ltac:(done)). rewrite Hc in *. cbn [mbind option_bind].
    destruct (decide (c' = chain ∧ i = id)) as [Hy|Hn].
    + rewrite bool_decide_true, andb_false_r in Hp by done.
      rewrite <- Hh. destruct (Subs.buffer c) as [b|] eqn:Eb;
        cbn [option_list option_rect app].
      * rewrite SubcenterFacts.newest_cons. by rewrite (IH false _ _ b Hl' Hs Hp); rewrite ?Hh.
      * by rewrite (IH false _ _ m Hl' Hs Hp); rewrite ?Hh.
    + rewrite bool_decide_false, andb_true_r in Hp by done. rewrite <- Hh. cbn [app].
      apply (IH waiting _ _ m Hl' Hs Hp); [by rewrite Hh|done|by rewrite Hh].
  - rewrite <- Hh.
    apply (IH waiting _ _ m Hl' (Hs ltac:(done)) Hp); [by rewrite Hh|done|by rewrite Hh].
  - apply andb_prop in Hp as [Hne Hp]. rewrite <- Hh.
    apply (IH waiting _ _ m Hl'); [|done|by rewrite Hh|done|by rewrite Hh].
    apply Hs. intros [= -> ->]. by rewrite bool_decide_true in Hne.
Qed.

Lemma with_subs_on chain T :
  let id := Subs.next (Redihead.subs T) in
  let T' := with_subs (Subs.On chain (Redihead.subs T)).2 T in
  live id T' ∧ chan_in T' chain id = Some Subs.make_chan ∧
  (∀ c, Redihead.head T' c = Redihead.head T c).
Proof.
  simpl. split; [|split; [|done]].
  - unfold live. simpl. lia.
  - unfold Subs.chan_of. simpl. rewrite lookup_insert_eq. simpl. by rewrite lookup_insert_eq.
Qed.

Lemma sorted_growing m l : StronglySorted Z.lt l → Forall (Z.lt m) l → SubcenterFacts.growing m l.
Proof.
  revert m. induction l as [|x l IH]; intros m Hs Hf; [done|].
  apply StronglySorted_inv in Hs as [Hs Hx]. apply Forall_cons in Hf as [Hm _].
  split; [done|]. by apply IH.
Qed.

(** The newest head is not one that came between the reading of the head and
    the subscription. *)
Definition no_gap (chain : string) (before es : list event) (T : Redihead.t) : Prop :=
  brought chain before <= Redihead.head T chain ∨ brought chain before < brought chain es.

(** The heads that a subscriber who keeps up is given. *)
Lemma subscription_run chain before es T :
  0 <= Redihead.head T chain → no_gap chain before es T →
  prompt chain (Subs.next (Redihead.subs (run before T))) false es = true →
  let '(current, heads) := subscription chain before es T in
  current = Redihead.head T chain ∧ SubcenterFacts.growing current heads ∧
  SubcenterFacts.newest current heads = Z.max current (brought chain (before ++ es)).
Proof.
  intros H0 Hgap Hp. unfold subscription. cbn [Subs.On].
  destruct (with_subs_on chain (run before T)) as (Hl & Hc & Hh).
  pose proof (head_run before T chain H0) as Hb.
  set (T' := with_subs _ _) in *. set (id := Subs.next _) in *.
  split; [done|]. split.
  - destruct (received_sorted chain id (Redihead.head T chain) es T' Hl) as [Hs Hf].
    { split; [rewrite Hh; lia|]. rewrite Hc. by intros c v [= <-]. }
    by apply sorted_growing.
  - rewrite (prompt_received chain id false es T' Subs.make_chan _ Hl Hc Hp); [|rewrite Hh; lia|done..].
    assert (brought chain (before ++ es) = Z.max (brought chain before) (brought chain es)) as ->.
    { unfold brought, Redihead.values, arrivals. by rewrite omap_app, filter_app, fmap_app,
        Redihead.highest_app. }
    rewrite Hh, Hb. pose proof (brought_nonneg chain es). pose proof (brought_nonneg chain before).
    unfold no_gap in Hgap. destruct (decide _); simpl; lia.
Qed.
End PipelineFacts.

(** ** Properties *)

Module PipelineProps.
Import Pipeline PipelineFacts.

Section props.
Context {W W' : Type} `{J : Jrpc} `{E : Eth} `{XS : JxSpec} `{Sn : Sonic}.

(** The leader's process and the stream. *)
Context `{LH : !Lens Redihead.t W, LS : !Lens Stalker.t W}.
Context (Add : Redihead.Head → prog W (option goerr)) (now : prog W Z).
Context (cluster : Chain → handler W) (log : W → Redihead.stream).

(** A process, maybe another one, with a client who subscribes. *)
Context `{LF : !Lens Redihead.t W'} (Add' : Redihead.Head → prog W' (option goerr)).
Context (ID : value) (Notify : json → prog W' (option goerr)) (h : handler W') (r : request).
Context (chain : Chain) (p0 : json) (params : list json).
Hypothesis Notify_ok : ∀ v w, ∃ w', Notify v w = (Return None, w').
Hypothesis r_chain : GetChain (r_ctx r) = Ok chain.
Hypothesis r_stalk : ParsedStalk chain = true.
Hypothesis r_raws : unmarshal_params unmarshal_raws r = Ok (p0 :: params).
Hypothesis r_method : unmarshal_string p0 = Ok "newHeads".
Context (answer : Z → option (list (string * json))).
Hypothesis answer_spec : ∀ i w, ∃ x w',
  Do (r_ctx r) h "eth_getBlockByNumber" (JArr [JStr (EncodeUint64 i); JBool false]) w
  = (Return x, w') ∧
  match answer i with
  | Some fs => x = Ok (JObj fs) ∧ json_valid (JObj fs) = true
  | None => ∃ e, x = Err e
  end.

End props.
End PipelineProps.

(** ** Witness *)

Module PipelineWitness.
Import Pipeline PipelineFacts PipelineProps HeadRuns StdJrpc StdEth StdJx StdSonic.

(** The leader's world: the trackers, its head store and the redis stream. *)
Definition world : Type := Stalker.t * (Redihead.t * Redihead.stream).
Definition chain0 : Chain := StalkerWitness.chain0.
Definition log0 (w : world) : Redihead.stream := w.2.2.
Definition world0 : world := (Stalker.New {[ "ethereum" := chain0 ]}, (Redihead.New, [])).

Definition add0 (m : Redihead.Head) : prog world (option goerr) :=
  λ w, (Return None, (w.1, (w.2.1, w.2.2 ++ [m]))).
Definition now0 : prog world Z := mret (1001 * Second).

(** A chain that grows by a block from poll to poll. *)
Definition cluster0 (c : Chain) : handler world := λ r w,
  (Return [reply_ok (VRaw (JObj
     [("number", JStr (hex_text (7 + Z.of_nat (List.length (log0 w)))));
      ("timestamp", JStr "0x3e8")]))], w).

Lemma leader0 : leader_ok add0 now0 cluster0 log0 [chain0].
Proof.
  split.
  - intros m w. by eexists.
  - intros w. by eexists _, w.
  - intros c w. eexists _, w. by split.
  - intros c ->%list_elem_of_singleton. exact StalkerWitness.sane0.
  - by intros c c' ->%list_elem_of_singleton ->%list_elem_of_singleton.
  - done.
Qed.

Lemma tracking0 : tracking [chain0] (lget world0).
Proof.
  intros c ->%list_elem_of_singleton.
  exists (Delay.newDelayTracker 128 0 (Stalker.block_time chain0)), []. split; [reflexivity|].
  apply DelayFacts.inv_new; [lia|]. vm_compute. split; congruence.
Qed.

(** Two polls find the blocks 7 and 8; the client of a process at block 5
    is sent three headers. *)
Definition events0 : list event :=
  [Arrive "ethereum" 7; Recv "ethereum" 0; Arrive "ethereum" 8; Recv "ethereum" 0].

End PipelineWitness.
