(* ===== verification/Ingress.v ===== *)
(** * In front of the handlers: [lib/ratelimit], [lib/util/waiter.go],
    [promcollect]

    What every request passes before the node looks at it: the identity it is
    limited under, the limiter, the counter of running requests that the
    shutdown waits for, and the request log. *)
From S2P Require Import Prelude Errors Json Config Rpc.

(** ** [net.SplitHostPort] *)

Module Net.

(** [bytealg.IndexByteString] and [LastIndexByteString]; [-1]: absent. *)
Fixpoint index_byte (c : ascii) (s : string) : Z :=
  match s with
  | EmptyString => -1
  | String d s => if Ascii.eqb c d then 0
                  else let i := index_byte c s in if i <? 0 then -1 else i + 1
  end.

Fixpoint last_index_byte (c : ascii) (s : string) : Z :=
  match s with
  | EmptyString => -1
  | String d s => let i := last_index_byte c s in
                  if 0 <=? i then i + 1 else if Ascii.eqb c d then 0 else -1
  end.

Definition addr_error (why addr : string) : goerr :=
  EText ("address " +:+ addr +:+ ": " +:+ why).

Definition slice (i j : Z) (s : string) : string :=
  substring (Z.to_nat i) (Z.to_nat (j - i)) s.
Definition slen (s : string) : Z := Z.of_nat (String.length s).

(** The host, and the offsets [j] and [k] behind which no bracket may be. *)
Definition split_host (s : string) (i : Z) : res goerr (string * Z * Z) :=
  if has_prefix "[" s then
    let e := index_byte "]" s in
    if e <? 0 then Err (addr_error "missing ']' in address" s)
    else if e + 1 =? slen s then Err (addr_error "missing port in address" s)
    else if e + 1 =? i then Ok (slice 1 e s, 1, e + 1)
    else if has_prefix ":" (str_drop (Z.to_nat (e + 1)) s)
    then Err (addr_error "too many colons in address" s)
    else Err (addr_error "missing port in address" s)
  else
    let host := slice 0 i s in
    if 0 <=? index_byte ":" host then Err (addr_error "too many colons in address" s)
    else Ok (host, 0, 0).

(** The host and the port. *)
Definition SplitHostPort (s : string) : res goerr (string * string) :=
  let i := last_index_byte ":" s in
  if i <? 0 then Err (addr_error "missing port in address" s)
  else
    '(host, j, k) ← split_host s i;
    if 0 <=? index_byte "[" (str_drop (Z.to_nat j) s)
    then Err (addr_error "unexpected '[' in address" s)
    else if 0 <=? index_byte "]" (str_drop (Z.to_nat k) s)
    then Err (addr_error "unexpected ']' in address" s)
    else Ok (host, str_drop (Z.to_nat (i + 1)) s).
End Net.

Section split_examples.
Import Net.
#[local] Example split_v4 : SplitHostPort "10.0.0.1:80" = Ok ("10.0.0.1", "80").
Proof. reflexivity. Qed.
#[local] Example split_v6 : SplitHostPort "[::1]:80" = Ok ("::1", "80").
Proof. reflexivity. Qed.
#[local] Example split_bare : ∃ e, SplitHostPort "10.0.0.1" = Err e.
Proof. by eexists. Qed.
#[local] Example split_colons : ∃ e, SplitHostPort "::1:80" = Err e.
Proof. by eexists. Qed.
End split_examples.

(** ** [lib/ratelimit/identifier.go] *)

Module Ratelimit.

Definition Key (i : Identifier) : string :=
  Id_Endpoint i +:+ ":" +:+ Id_Type i +:+ ":" +:+ Id_Slug i.

Definition errNoIdentifier : goerr := EText "no valid ratelimit identifier for request".

Definition IdentifierFromContext (ctx : context) : res goerr Identifier :=
  match ctx_Value ctx IdentifierContextKey with
  | Some (VIdentifier i) => Ok i
  | _ => Err errNoIdentifier
  end.

(** The identifier under which requests without one are limited. *)
Definition nil_identifier : Identifier :=
  {| Id_Endpoint := ""; Id_Type := "nil"; Id_Slug := "nil"; Id_ExtraCost := 0 |}.

Section limiter.
Context {W : Type}.

Definition WithIdentifier (idFunc : request → res goerr (option Identifier)) : middleware W :=
  λ next r,
  match idFunc r with
  | Err e => send_err e
  | Ok id => next (with_ctx r (WithValue (r_ctx r) IdentifierContextKey
                                 (VIdentifier (default nil_identifier id))))
  end.

(** [AllowN] of rueidislimiter: whether the key has [n] tokens left.  The data
    that the two replies carry besides their messages are left out. *)
Definition RuedisRatelimiter (AllowN : string → Z → prog W (res goerr bool))
    : middleware W := λ next r,
  match IdentifierFromContext (r_ctx r) with
  | Err e => send_err e
  | Ok id =>
      wait ← AllowN (Key id) (i64 (1 + Id_ExtraCost id));
      match wait with
      | Err _ => send_err (ERpc 500 "Internal Server Error")
      | Ok false => send_err (ERpc 429 "Rate Limit Hit")
      | Ok true => next r
      end
  end.
End limiter.
End Ratelimit.

(** ** [lib/util/waiter.go] *)

(** golang.org/x/sync/semaphore: a semaphore of a maximum combined weight that
    serves its callers in order.  An acquisition is granted if its weight is free
    and nobody waits; otherwise it waits at the end of a queue.  A release, and an
    acquisition that is given up because its context was cancelled, grant as
    many as fit of those at the front of the queue, and none behind the first
    that does not fit, so that a large one is not starved. *)
Class Weighted (S : Type) := {
  NewWeighted : Z → S;
  Acquire : Z → S → bool * S;      (* granted, or queued *)
  Release : Z → S → nat * S;       (* how many of the queue it grants *)
  Abandon : nat → S → nat * S;     (* the one at a place of the queue gives up *)
}.

(** What is granted of a queue: how many, what is held then, and who still
    waits. *)
Fixpoint granted_of (max held : Z) (queue : list Z) : nat * Z * list Z :=
  match queue with
  | [] => (0%nat, held, [])
  | n :: rest =>
      if bool_decide (held + n <= max) then
        let '(k, held', queue') := granted_of max (held + n) rest in
        (Datatypes.S k, held', queue')
      else (0%nat, held, queue)
  end.

Class WeightedSpec (S : Type) `{X : Weighted S} := {
  sem_held : S → Z;
  sem_max : S → Z;
  sem_queue : S → list Z;
  NewWeighted_spec n : let s := NewWeighted n in
    sem_held s = 0 ∧ sem_max s = n ∧ sem_queue s = [];
  Acquire_spec n s :
    n <= sem_max s →
    let '(granted, s') := Acquire n s in
    sem_max s' = sem_max s ∧
    if bool_decide (sem_held s + n <= sem_max s ∧ sem_queue s = [])
    then granted = true ∧ sem_held s' = sem_held s + n ∧ sem_queue s' = []
    else granted = false ∧ sem_held s' = sem_held s ∧ sem_queue s' = sem_queue s ++ [n];
  Release_spec n s :
    n <= sem_held s →
    let '(k, s') := Release n s in
    sem_max s' = sem_max s ∧
    (k, sem_held s', sem_queue s') = granted_of (sem_max s) (sem_held s - n) (sem_queue s);
  Abandon_spec i s :
    (i < List.length (sem_queue s))%nat →
    let '(k, s') := Abandon i s in
    sem_max s' = sem_max s ∧
    (k, sem_held s', sem_queue s')
      = granted_of (sem_max s) (sem_held s) (delete i (sem_queue s));
}.

Module Waiter.
Section waiter.
Context {S : Type} `{X : Weighted S}.

Record t := { sema : S }.

Definition NewWaiter : t := {| sema := NewWeighted max_int64 |}.

Section ops.
Context {W : Type} `{L : !Lens t W}.

(** A call of [Acquire] that is queued blocks; what it does to the queue is
    there for the others.  Whoever grants it later lets it return, see
    [WaiterRuns]. *)
Definition acquire (n : Z) : prog W () :=
  T ← read;
  let '(granted, s) := Acquire n (sema T) in
  _ ← write {| sema := s |};
  if granted : bool then mret () else block.

Definition startRequest : prog W () := acquire 1.

Definition endRequest : prog W () := modify (λ T, {| sema := (Release 1 (sema T)).2 |}).

(** [endRequest] is deferred: it runs after a panic, too. *)
Definition Middleware : middleware W := λ next r,
  let serve : prog W (list reply) := λ w,
    match next r w with
    | (Return sends, w1) => (_ ← endRequest; mret sends) w1
    | (Panic why, w1) => (_ ← endRequest; panic why) w1
    | (Blocks, w1) => (Blocks, w1)
    end in
  startRequest ≫= λ _, serve.

Definition Wait : prog W (option goerr) := _ ← acquire max_int64; mret None.

(** A [Wait] that is at a place of the queue when its context is cancelled. *)
Definition Wait_cancelled (i : nat) (e : goerr) : prog W (option goerr) :=
  _ ← modify (λ T, {| sema := (Abandon i (sema T)).2 |}); mret (Some e).
End ops.
End waiter.
Arguments t : clear implicits.
End Waiter.

(** ** [svc/node/middlewares/promcollect/collector.go]

    [observe] is the metric and the log line, with the chain, the method and
    the success; it is deferred, and skipped if the request has no chain. *)

Module RequestCollector.
Section collector.
Context {W : Type} (observe : string → string → bool → prog W ()).

Definition record (r : request) (icept : Interceptor) : prog W () :=
  match GetChain (r_ctx r) with
  | Err _ => mret ()
  | Ok chain => observe (Chain_Name chain) (r_method r) (bool_decide (icept.2 = None))
  end.

Definition Middleware : middleware W := λ fn r,
  if has_suffix "_subscribe" (r_method r) then fn r
  else
    let serve : prog W (list reply) := λ w,
      match fn r w with
      | (Return sends, w1) =>
          let icept := intercept icept0 sends in
          (x ← send icept; _ ← record r icept; mret x) w1
      | (Panic why, w1) => (_ ← record r icept0; panic why) w1
      | (Blocks, w1) => (Blocks, w1)
      end in
    serve.
End collector.
End RequestCollector.

(** ** Lemmas *)

Module WaiterRuns.
Import Waiter.

Section runs.
Context {S : Type} `{XS : WeightedSpec S}.

(** Nobody holds all of it and nobody waits: the next request starts at once. *)
Definition open (T : Waiter.t S) : Prop :=
  0 <= sem_held (sema T) < sem_max (sema T) ∧ sem_queue (sema T) = [].

Lemma startRequest_open {W} `{L : !Lens (Waiter.t S) W} (w : W) :
  open (lget w) → ∃ T, startRequest w = (Return (), lput T w).
Proof.
  intros [Hh Hq]. unfold startRequest, acquire, read, write, mbind, prog_bind. cbn.
  pose proof (Acquire_spec 1 (sema (lget w))) as Ha.
  destruct (Acquire 1 (sema (lget w))) as [granted s]. destruct Ha as [_ Ha]; [lia|].
  rewrite bool_decide_true in Ha by (split; [lia|done]). destruct Ha as (-> & _).
  by exists {| sema := s |}.
Qed.

(** Who waits: a request that has not started, or the shutdown. *)
Inductive waiting := Req | Shut.

Definition weight (v : waiting) : Z :=
  match v with Req => 1 | Shut => max_int64 end.

(** The waiter with those that wait, the number of requests that are being
    served, and whether a [Wait] has returned without an error. *)
Record sys := { waiter : Waiter.t S; pending : list waiting; active : nat; waited : bool }.

Definition start : sys :=
  {| waiter := NewWaiter; pending := []; active := 0; waited := false |}.

(** One whose acquisition is granted goes on: the request is served, the [Wait]
    returns. *)
Definition goes_on (s : sys) (v : waiting) : sys :=
  match v with
  | Req => {| waiter := waiter s; pending := pending s; active := active s + 1;
              waited := waited s |}
  | Shut => {| waiter := waiter s; pending := pending s; active := active s; waited := true |}
  end.

(** The first [k] of those that wait go on. *)
Definition wake (k : nat) (s : sys) : sys :=
  foldl goes_on {| waiter := waiter s; pending := drop k (pending s); active := active s;
                   waited := waited s |} (take k (pending s)).

(** Requests start and end, the shutdown waits and is given up, in any order. *)
Inductive step : sys → sys → Prop :=
  | step_start T T' l a b :
      startRequest T = (Return (), T') →
      step {| waiter := T; pending := l; active := a; waited := b |}
           {| waiter := T'; pending := l; active := a + 1; waited := b |}
  | step_start_queued T T' l a b :
      startRequest T = (Blocks, T') →
      step {| waiter := T; pending := l; active := a; waited := b |}
           {| waiter := T'; pending := l ++ [Req]; active := a; waited := b |}
  | step_end T T' l a b :
      endRequest T = (Return (), T') →
      step {| waiter := T; pending := l; active := a + 1; waited := b |}
           (wake (Release 1 (sema T)).1
              {| waiter := T'; pending := l; active := a; waited := b |})
  | step_wait T T' l a b :
      Wait T = (Return None, T') →
      step {| waiter := T; pending := l; active := a; waited := b |}
           {| waiter := T'; pending := l; active := a; waited := true |}
  | step_wait_queued T T' l a b :
      Wait T = (Blocks, T') →
      step {| waiter := T; pending := l; active := a; waited := b |}
           {| waiter := T'; pending := l ++ [Shut]; active := a; waited := b |}
  | step_cancelled T T' l a b i e :
      l !! i = Some Shut → Wait_cancelled i e T = (Return (Some e), T') →
      step {| waiter := T; pending := l; active := a; waited := b |}
           (wake (Abandon i (sema T)).1
              {| waiter := T'; pending := delete i l; active := a; waited := b |}).

(** The queue of the semaphore is who waits, what it holds is what runs, and all
    of it after a [Wait]; and the first who waits has to. *)
Record counted (s : sys) : Prop := {
  c_max : sem_max (sema (waiter s)) = max_int64;
  c_queue : sem_queue (sema (waiter s)) = weight <$> pending s;
  c_held : sem_held (sema (waiter s)) = Z.of_nat (active s) + (if waited s then max_int64 else 0);
  c_bound : sem_held (sema (waiter s)) <= max_int64;
  c_head v l : pending s = v :: l → max_int64 < sem_held (sema (waiter s)) + weight v;
}.

Lemma start_counted : counted start.
Proof.
  destruct (NewWeighted_spec max_int64) as (H1 & H2 & H3).
  split; simpl; [done|done|lia|go_lia|done].
Qed.

Lemma weight_le v : 1 <= weight v <= max_int64.
Proof. destruct v; simpl; go_lia. Qed.

(** An acquisition of either kind that is not given up. *)
Lemma acquire_counted v T l a b o T' :
  counted {| waiter := T; pending := l; active := a; waited := b |} →
  acquire (weight v) T = (o, T') →
  match o with
  | Return () => counted (goes_on {| waiter := T'; pending := l; active := a; waited := b |} v) ∧
                 l = []
  | Blocks => counted {| waiter := T'; pending := l ++ [v]; active := a; waited := b |} ∧
      (l = [] → max_int64 < sem_held (sema T) + weight v)
  | Panic _ => False
  end.
Proof.
  intros [Hm Hq Hh Hb Hhd]; simpl in *. unfold acquire, read, write, mbind, prog_bind. cbn.
  pose proof (weight_le v) as Hv. pose proof (Acquire_spec (weight v) (sema T)) as Ha.
  destruct (Acquire (weight v) (sema T)) as [granted s]. destruct Ha as [Hm' Ha]; [lia|].
  case_bool_decide as Hfree; destruct Ha as (-> & Hh' & Hq'); cbn; injection 1 as <- <-.
  - destruct Hfree as [Hle Hnil]. rewrite Hq in Hnil. apply fmap_nil_inv in Hnil as ->.
    split; [|done]. destruct v; split; cbn [sema goes_on waiter pending active waited weight] in *; try done;
      try congruence; destruct b; go_lia.
  - assert (l = [] → max_int64 < sem_held (sema T) + weight v) as Hfull.
    { intros ->. apply Z.nle_gt. intros Hle. apply Hfree. split; [lia|done]. }
    split; [|done]. split; cbn [sema waiter pending active waited] in *; try congruence.
    + rewrite Hq', Hq, fmap_app. done.
    + destruct l as [|x l]; simpl; intros v' l' [= <- <-]; rewrite Hh'; [by apply Hfull|by eapply Hhd].
Qed.

(** What is woken keeps the count. *)
Lemma wake_counted l : ∀ (T : Waiter.t S) a b k held,
  sem_max (sema T) = max_int64 →
  held = Z.of_nat a + (if b : bool then max_int64 else 0) → held <= max_int64 →
  (k, sem_held (sema T), sem_queue (sema T)) = granted_of max_int64 held (weight <$> l) →
  counted (wake k {| waiter := T; pending := l; active := a; waited := b |}).
Proof.
  induction l as [|v l IH]; intros T a b k held Hm Hh Hb Hn; cbn [fmap list_fmap granted_of] in Hn.
  { injection Hn as -> Hh' Hq. split; simpl; try done; lia. }
  case_bool_decide as Hle.
  - destruct (granted_of max_int64 (held + weight v) (weight <$> l)) as [[k' h'] q'] eqn:Hrec.
    injection Hn as -> Hh' Hq.
    assert (∀ a' b', held + weight v = Z.of_nat a' + (if b' : bool then max_int64 else 0) →
      counted (wake k' {| waiter := T; pending := l; active := a'; waited := b' |})) as IH'.
    { intros a' b' Heq. apply (IH _ _ _ _ (held + weight v)); [done..|]. by rewrite Hrec, Hh', Hq. }
    destruct v; [apply (IH' (a + 1)%nat b)|apply (IH' a true)]; simpl in *; destruct b; go_lia.
  - injection Hn as -> Hh' Hq. split; cbn; try done; try lia.
    intros v' l' [= <- <-]. lia.
Qed.

Lemma step_counted s s' : counted s → step s s' → counted s'.
Proof.
  intros Hs Hst.
  destruct Hst as [T T' l a b H|T T' l a b H|T T' l a b H|T T' l a b H|T T' l a b H|T T' l a b i e Hi H].
  - by apply (acquire_counted Req _ _ _ _ _ _ Hs) in H as [? _].
  - by apply (acquire_counted Req _ _ _ _ _ _ Hs) in H as [? _].
  - destruct Hs as [Hm Hq Hh Hb Hhd]; cbn in *. injection H as <-.
    pose proof (Release_spec 1 (sema T)) as Hr. destruct (Release 1 (sema T)) as [k s].
    destruct Hr as [Hm' Hr]; [destruct b; go_lia|]. rewrite Hm, Hq in Hr. 
    apply (wake_counted _ _ _ _ _ (sem_held (sema T) - 1)); cbn; [congruence|lia|lia|done].
  - unfold Wait in H. destruct (acquire max_int64 T) as [[[]| |] T1] eqn:Ha; unfold mbind, prog_bind in H;
      rewrite Ha in H; [|done..]. injection H as <-.
    by apply (acquire_counted Shut _ _ _ _ _ _ Hs) in Ha as [? _].
  - unfold Wait in H. destruct (acquire max_int64 T) as [[[]| |] T1] eqn:Ha; unfold mbind, prog_bind in H;
      rewrite Ha in H; [done..|]. injection H as <-.
    by apply (acquire_counted Shut _ _ _ _ _ _ Hs) in Ha as [? _].
  - destruct Hs as [Hm Hq Hh Hb Hhd]; cbn in *. injection H as <-.
    pose proof (Abandon_spec i (sema T)) as Hr. destruct (Abandon i (sema T)) as [k s].
    destruct Hr as [Hm' Hr]; [rewrite Hq, length_fmap; by eapply lookup_lt_Some|].
    rewrite Hm, Hq, <- list_fmap_delete in Hr.
    apply (wake_counted _ _ _ _ _ (sem_held (sema T))); cbn; [congruence|lia|lia|done].
Qed.

Lemma steps_counted s s' : counted s → rtc step s s' → counted s'.
Proof. intros H. induction 1; eauto using step_counted. Qed.

(** The shutdown that waits in front gets everything when the last request
    ends, and nobody else gets anything then or before. *)
Lemma release_before_shut s l :
  counted s → waited s = false → pending s = Shut :: l →
  (0 < active s)%nat ∧
  (Release 1 (sema (waiter s))).1 = if decide (active s = 1%nat) then 1%nat else 0%nat.
Proof.
  intros [Hm Hq Hh Hb Hhd] Hw Hl. pose proof (Hhd _ _ Hl) as Hs. cbn in Hs. rewrite Hw in Hh.
  split; [lia|]. pose proof (Release_spec 1 (sema (waiter s))) as Hr.
  destruct (Release 1 (sema (waiter s))) as [k s']. destruct Hr as [_ Hr]; [lia|].
  rewrite Hq, Hl, Hm in Hr. cbn [fmap list_fmap granted_of weight] in Hr. cbn.
  destruct (decide (active s = 1%nat)) as [Ha|Ha].
  - rewrite bool_decide_true in Hr by lia. destruct l as [|v l]; [by simplify_eq/=|].
    cbn [fmap list_fmap granted_of] in Hr. pose proof (weight_le v).
    rewrite bool_decide_false in Hr by go_lia. by simplify_eq.
  - rewrite bool_decide_false in Hr by lia. by simplify_eq.
Qed.

(** A request that starts does so exactly if nobody waits and not all is held. *)
Lemma startRequest_counted s :
  counted s →
  if decide (pending s = [] ∧ sem_held (sema (waiter s)) < max_int64)
  then ∃ T, startRequest (waiter s) = (Return (), T)
  else ∃ T, startRequest (waiter s) = (Blocks, T).
Proof.
  intros [Hm Hq Hh Hb _]. unfold startRequest, acquire, read, write, mbind, prog_bind. cbn.
  pose proof (Acquire_spec 1 (sema (waiter s))) as Ha.
  destruct (Acquire 1 (sema (waiter s))) as [granted s']. destruct Ha as [_ Ha]; [rewrite Hm; go_lia|].
  destruct (decide (pending s = [] ∧ sem_held (sema (waiter s)) < max_int64)) as [Hd|Hd].
  - destruct Hd as [Hp Hlt]. rewrite bool_decide_true in Ha by (rewrite Hq, Hp; split; [lia|done]).
    destruct Ha as (-> & _). by eexists.
  - rewrite bool_decide_false in Ha; [destruct Ha as (-> & _); by eexists|].
    intros [Hle Hnil]. apply Hd. rewrite Hq in Hnil. apply fmap_nil_inv in Hnil. split; [done|lia].
Qed.
End runs.
End WaiterRuns.

(** ** Properties *)

Module IngressProps.
Import Waiter WaiterRuns.

Section props.
Context {S : Type} `{XS : WeightedSpec S}.

(** C28: however requests start and end around the shutdown, and whether or not
    it is given up: once [Wait] has returned without an error no request is
    being served and none starts; while a [Wait] waits in front a request is
    being served, a new request waits behind it, and of those in the queue the
    end of a request lets the [Wait] return if it was the last one that was
    served, and nobody go on otherwise; if nobody waits, a request starts at
    once, unless as many are served as there are numbers, and only then do
    requests wait in front. *)
Theorem waiter_drains s :
  rtc step start s →
  let starts o := ∃ T, startRequest (waiter s) = (o, T) in
  let woken := (Release 1 (sema (waiter s))).1 in
  if waited s then active s = 0%nat ∧ starts Blocks
  else match pending s with
       | Shut :: _ => (0 < active s)%nat ∧ starts Blocks ∧
                      woken = if decide (active s = 1%nat) then 1%nat else 0%nat
       | Req :: _ => Z.of_nat (active s) = max_int64 ∧ starts Blocks
       | [] => if decide (Z.of_nat (active s) = max_int64) then starts Blocks
               else starts (Return ())
       end.
Proof.
  intros Hs starts woken. pose proof (steps_counted _ _ start_counted Hs) as Hc.
  pose proof (startRequest_counted s Hc) as Hr. pose proof (release_before_shut s) as Hshut.
  destruct (Hc) as [Hm Hq Hh Hb Hhd]. destruct (waited s) eqn:Hw.
  - split; [lia|]. by rewrite decide_False in Hr by (intros [_ ?]; lia).
  - destruct (pending s) as [|[] l] eqn:Hp.
    + destruct (decide (Z.of_nat (active s) = max_int64)); [rewrite decide_False in Hr by (intros [_ ?]; lia)|rewrite decide_True in Hr by (split; [done|lia])]; done.
    + pose proof (Hhd _ _ eq_refl) as Hf. cbn in Hf. split; [lia|]. by rewrite decide_False in Hr by (by intros [? _]).
    + destruct (Hshut l Hc eq_refl eq_refl) as [Ha Hk]. split; [done|]. split; [|done].
      by rewrite decide_False in Hr by (by intros [? _]).
Qed.
End props.
End IngressProps.

(** *** A semaphore with the laws, and the witness *)

Module StdWeighted.
Record t := { held : Z; size : Z; queue : list Z }.

Definition notify (m h : Z) (q : list Z) : nat * t :=
  let '(k, h', q') := granted_of m h q in (k, {| held := h'; size := m; queue := q' |}).

#[export] Instance std_weighted : Weighted t := {|
  NewWeighted n := {| held := 0; size := n; queue := [] |};
  Acquire n s :=
    if bool_decide (held s + n <= size s ∧ queue s = [])
    then (true, {| held := held s + n; size := size s; queue := [] |})
    else (false, {| held := held s; size := size s; queue := (queue s ++ [n])%list |});
  Release n s := notify (size s) (held s - n) (queue s);
  Abandon i s := notify (size s) (held s) (delete i (queue s));
|}.

#[export] Instance std_weighted_spec : WeightedSpec t.
Proof.
  refine {| sem_held := held; sem_max := size; sem_queue := queue |}; [done|..]; intros n s _; simpl.
  - by case_bool_decide.
  - unfold notify. by destruct (granted_of _ _ _) as [[k h] q].
  - unfold notify. by destruct (granted_of _ _ _) as [[k h] q].
Defined.
End StdWeighted.

Module IngressWitness.
Import Waiter WaiterRuns IngressProps StdWeighted.

(** Two requests are served when the shutdown begins, a third one comes later,
    and one of the two ends. *)
Definition counting (h : Z) (q : list Z) : Waiter.t StdWeighted.t :=
  {| sema := {| held := h; size := max_int64; queue := q |} |}.
Definition serving (h : Z) (q : list Z) (l : list waiting) (a : nat) : sys :=
  {| waiter := counting h q; pending := l; active := a; waited := false |}.
Definition draining : sys := serving 1 [max_int64; 1] [Shut; Req] 1.

Lemma draining_reached : rtc step start draining.
Proof.
  apply (rtc_l _ _ (serving 1 [] [] 1)); [by apply (step_start _ _ [] 0)|].
  apply (rtc_l _ _ (serving 2 [] [] 2)); [by apply (step_start (counting 1 []) _ [] 1)|].
  apply (rtc_l _ _ (serving 2 [max_int64] [Shut] 2)).
  { by apply (step_wait_queued (counting 2 []) _ []). }
  apply (rtc_l _ _ (serving 2 [max_int64; 1] [Shut; Req] 2)).
  { by apply (step_start_queued (counting 2 [max_int64]) _ [Shut]). }
  apply rtc_once.
  replace draining with (wake (Release 1 (sema (counting 2 [max_int64; 1]))).1 draining)
    by (vm_compute; reflexivity).
  by apply (step_end (counting 2 [max_int64; 1]) _ [Shut; Req] 1 false).
Qed.

(** The end of the other one lets the shutdown go on. *)
Lemma waiter_drains_witness :
  (∃ T, startRequest (waiter draining) = (Blocks, T)) ∧
  (Release 1 (sema (waiter draining))).1 = 1%nat.
Proof. exact (proj2 (waiter_drains draining draining_reached)). Defined.

(** If the shutdown is given up instead, the request behind it is served: it does
    not block for ever. *)
Example wait_given_up :
  step draining {| waiter := counting 2 []; pending := []; active := 2; waited := false |}.
Proof.
  replace {| waiter := counting 2 []; pending := []; active := 2; waited := false |}
    with (wake (Abandon 0 (sema (counting 1 [max_int64; 1]))).1
            {| waiter := counting 2 []; pending := [Req]; active := 1; waited := false |})
    by (vm_compute; reflexivity).
  by apply (step_cancelled (counting 1 [max_int64; 1]) _ [Shut; Req] 1 false 0 (EText "deadline")).
Qed.
End IngressWitness.
