(* ===== verification/Node.v ===== *)
(** * The node: [svc/app/node/api.go]

    How the middlewares are put together into the node's handler, and the
    routes under which it is reached.  The opentelemetry tracer only observes;
    its span is left out. *)
From S2P Require Import Prelude Errors Json EthTypes Config Rpc CallCenter.
From S2P Require Import HeadStore BlockStore HeadReplacer Cacher Clusters Forger.
From S2P Require Import Subcenter Ingress.

Module Node.

(** ** The handler *)

(** Who a request is limited as.  The address is kept with its port, and one
    that cannot be split becomes the empty string. *)
Definition internal_identifier (r : request) : res goerr (option Identifier) :=
  let slug := match Net.SplitHostPort (r_peer r) with
              | Ok _ => r_peer r
              | Err _ => ""
              end in
  Ok (Some {| Id_Endpoint := "venn$internal"; Id_Type := "ip"; Id_Slug := slug;
              Id_ExtraCost := 0 |}).

Section node.
Context {W S : Type} `{J : Jrpc} `{E : Eth} `{X : Jx} `{Sn : Sonic} `{H : HeadStore W}.
Context `{Sem : Weighted S} `{L : !Lens (Waiter.t S) W}.

(** The tracing middleware: the chain's name is an attribute of the span. *)
Definition Tracing : middleware W := λ next r,
  match GetChain (r_ctx r) with
  | Err _ => panic "nil pointer dereference"
  | Ok _ => next r
  end.

(** What the constructor is given.  The subscription engine and the redis
    rate limiter are other packages'. *)
Record Params := {
  AbuseLimit : option AbuseLimit;
  NewRateLimiter : Config.AbuseLimit → res goerr (string → Z → prog W (res goerr bool));
  Subscription : option (middleware W);
  RequestCollector : option (string → string → bool → prog W ());
  store : Store W;
  logs_first : bool;
  notifier : request → option (value * (json → prog W (option goerr)));
  heads : list Z;
  Clusters : Clusters.Clusters.t;
  cluster : string → handler W;
}.

(** The middlewares that are always there, innermost first. *)
Definition core (p : Params) : list (middleware W) :=
  [Cacher.Middleware (store p); HeadReplacer.Middleware; Forger.Middleware (logs_first p);
   Subcenter.Middleware (notifier p) (heads p)].

Definition collector (p : Params) : list (middleware W) :=
  match RequestCollector p with
  | Some observe => [Ingress.RequestCollector.Middleware observe]
  | None => []
  end.

Definition limiter (p : Params) : res goerr (list (middleware W)) :=
  match AbuseLimit p with
  | Some l =>
      if 0 <? AbuseLimit_Total l then
        rLimiter ← NewRateLimiter p l;
        Ok [Ratelimit.RuedisRatelimiter rLimiter]
      else Ok []
  | None => Ok []
  end.

Definition subscription (p : Params) : list (middleware W) :=
  match Subscription p with Some m => [m] | None => [] end.

Definition middlewares (p : Params) : res goerr (list (middleware W)) :=
  limiter ← limiter p;
  Ok (core p ++ collector p ++ limiter ++ subscription p
      ++ [Ratelimit.WithIdentifier internal_identifier; Waiter.Middleware; Tracing]).

(** The loop over the middlewares, around the root handler. *)
Definition wrap (ms : list (middleware W)) (root : handler W) : handler W :=
  foldl (λ h m, m h) root ms.

Definition rootJrpcHandler (p : Params) : handler W :=
  Clusters.Clusters.Middleware (Clusters p) (cluster p) None.

Definition New (p : Params) : res goerr (handler W) :=
  ms ← middlewares p;
  Ok (MethodValidationMiddleware (wrap ms (rootJrpcHandler p))).
End node.
Arguments Params : clear implicits.

(** ** The routes *)

(** github.com/go-chi/chi: a router and its [Mount]; [route] is what a path
    leads to.  [Mount] also takes what is below the path, and in a pattern a "/"
    starts a further segment, "*" takes any rest and braces enclose a parameter.
    So the law is for paths of one segment of plain text, on a router with such
    paths only: each can be mounted once, which leaves the others alone, and
    mounting it again panics. *)
Class Router (A R : Type) := {
  router_new : R;
  Mount : string → A → R → outcome R;
  route : R → string → option A;
}.

Definition plain_name (n : string) : Prop :=
  n ≠ "" ∧ Forall (λ c, c ∉ ["/"; "*"; "{"; "}"]%char) (String.list_ascii_of_string n).

Class RouterSpec (A R : Type) `{X : Router A R} := {
  plain_router : R → Prop;
  router_new_spec : plain_router router_new ∧ ∀ path, route router_new path = None;
  Mount_spec n a r :
    plain_router r → plain_name n →
    match route r ("/" +:+ n) with
    | Some _ => ∃ why, Mount ("/" +:+ n) a r = Panic why
    | None => ∃ r', Mount ("/" +:+ n) a r = Return r' ∧ plain_router r' ∧
                ∀ n', plain_name n' →
                  route r' ("/" +:+ n') = if decide (n = n') then Some a else route r ("/" +:+ n')
    end;
}.

(** What a path leads to. *)
Inductive endpoint : Type :=
  | ToChain (c : Chain)
  | Health
  | Dashboard.

Section routes.
Context {R : Type} `{X : Router endpoint R}.

Fixpoint mount_all (a : endpoint) (paths : list string) (r : R) : outcome R :=
  match paths with
  | [] => Return r
  | path :: paths => r' ← Mount ("/" +:+ path) a r; mount_all a paths r'
  end.

Definition paths (c : Chain) : list string := Chain_Name c :: Chain_Aliases c.

Fixpoint mount_chains (chains : list Chain) (r : R) : outcome R :=
  match chains with
  | [] => Return r
  | c :: chains => r' ← mount_all (ToChain c) (paths c) r; mount_chains chains r'
  end.

(** [Route]; the chains are those of a map, in any order. *)
Definition Route (chains : list Chain) (r : R) : outcome R :=
  r ← mount_chains chains r;
  r ← Mount "/health" Health r;
  Mount "/dashboard" Dashboard r.
End routes.

(** The request a path hands to the handler. *)
Definition routed (e : option endpoint) (r : request) : option request :=
  match e with
  | Some (ToChain c) => Some (with_ctx r (WithChain (r_ctx r) c))
  | _ => None
  end.
End Node.

(** ** Lemmas *)

Module NodeFacts.
Import Node.

(** From every world with [I], the run of [h] on [r] ends in [Q], and with [I']. *)
Definition yields {W} (I I' : W → Prop) (h : handler W) (r : request)
    (Q : outcome (list reply) → Prop) : Prop :=
  ∀ w, I w → ∃ o w', h r w = (o, w') ∧ Q o ∧ I' w'.

(** One reply, or a crash. *)
Definition final (o : outcome (list reply)) : Prop :=
  (∃ x, o = Return [x]) ∨ ∃ why, o = Panic why.

(** A method that nothing in front of the head replacer is about. *)
Definition plain (chain : Chain) (method : string) : Prop :=
  (String.length method ≤ 256)%nat ∧ str_contains "_internal" method = false ∧
  has_suffix "subscribe" method = false ∧ method ≠ "eth_subscribe" ∧
  (method = "eth_getBlockReceipts" → ForgeBlockReceipts chain = false).

Section facts.
Context {W S : Type} `{J : Jrpc} `{E : Eth} `{X : Jx} `{Sn : Sonic} `{H : HeadStore W}.
Context `{XS : WeightedSpec S} `{L : !Lens (Waiter.t S) W}.

Lemma panics_bind {A B} (m : prog W A) (k : A → prog W B) why w w' :
  m w = (Panic why, w') → (m ≫= k) w = (Panic why, w').
Proof. unfold mbind, prog_bind. by intros ->. Qed.

(** What [New] is given lets requests pass and keeps [I]: the log returns, the
    client is within its limit, the subscription engine only looks at its own
    methods; and [I] is not about the count of running requests. *)
Record admits (I : W → Prop) (p : Params W) : Prop := {
  ad_collector f c m b : RequestCollector p = Some f → steady I (f c m b);
  ad_limiter l rl : AbuseLimit p = Some l → NewRateLimiter p l = Ok rl →
    ∀ k n w, I w → ∃ w', rl k n w = (Return (Ok true), w') ∧ I w';
  ad_subscription m : Subscription p = Some m →
    ∀ h r, has_suffix "subscribe" (r_method r) = false → m h r = h r;
  ad_waiter w (T : Waiter.t S) : I w → I (lput T w);
}.

(** The same while the invariant moves from [I] to [I'], whatever the limiter
    says, if any error will do for a reply. *)
Record bears (I I' : W → Prop) (Q : outcome (list reply) → Prop) (p : Params W) : Prop := {
  be_collector f c m b : RequestCollector p = Some f → steady I' (f c m b);
  be_limiter l rl : AbuseLimit p = Some l → NewRateLimiter p l = Ok rl →
    ∀ k n w, I w → ∃ a w', rl k n w = (Return a, w') ∧ I w' ∧
      (a = Ok true ∨ ∀ e, Q (Return [reply_err e]));
  be_subscription m : Subscription p = Some m →
    ∀ h r, has_suffix "subscribe" (r_method r) = false → m h r = h r;
  be_waiter w (T : Waiter.t S) : I w → I (lput T w);
  be_waiter' w (T : Waiter.t S) : I' w → I' (lput T w);
  be_later w : I w → I' w;
  be_final o : Q o → final o;
}.

Lemma admits_bears I Q p : (∀ o, Q o → final o) → admits I p → bears I I Q p.
Proof.
  intros HQ [Hc Hl Hs Hw]. split; try done.
  intros l rl H1 H2 k n w HI. destruct (Hl l rl H1 H2 k n w HI) as (w' & ? & ?). eauto 10.
Qed.

Section yields.
Context (I I' : W → Prop) (Q : outcome (list reply) → Prop) (HQ : ∀ o, Q o → final o).

Lemma yields_collector observe h r :
  (∀ c m b, steady I' (observe c m b)) →
  yields I I' h r Q → yields I I' (RequestCollector.Middleware observe h) r Q.
Proof.
  intros Hs Hh w Hw. unfold RequestCollector.Middleware.
  destruct (has_suffix _ _); [by apply Hh|].
  destruct (Hh w Hw) as (o & w1 & -> & Ho & H1). pose proof (HQ o Ho) as Hf.
  assert (∀ i, steady I' (RequestCollector.record observe r i)) as Hr.
  { intros i. unfold RequestCollector.record. destruct (GetChain _); [done|apply steady_ret]. }
  destruct Hf as [[x ->]|[why ->]].
  - unfold intercept. simpl. destruct (Hr x w1 H1) as ([] & w2 & Hx & H2).
    exists (Return [x]), w2. split; [|done]. unfold send. rewrite prog_ret_bind.
    by rewrite (prog_bind_return _ _ _ _ _ Hx).
  - destruct (Hr icept0 w1 H1) as ([] & w2 & Hx & H2). exists (Panic why), w2. split; [|done].
    by rewrite (prog_bind_return _ _ _ _ _ Hx).
Qed.

Lemma yields_limiter rl h r id :
  (∀ w, I w → I' w) → Ratelimit.IdentifierFromContext (r_ctx r) = Ok id →
  (∀ k n w, I w → ∃ a w', rl k n w = (Return a, w') ∧ I w' ∧
     (a = Ok true ∨ ∀ e, Q (Return [reply_err e]))) →
  yields I I' h r Q → yields I I' (Ratelimit.RuedisRatelimiter rl h) r Q.
Proof.
  intros HI Hid Hrl Hh w Hw. unfold Ratelimit.RuedisRatelimiter. rewrite Hid.
  destruct (Hrl (Ratelimit.Key id) (i64 (1 + Id_ExtraCost id)) w Hw) as (a & w1 & H1 & Hw1 & Ha).
  rewrite (prog_bind_return _ _ _ _ _ H1).
  destruct Ha as [->|Hx]; [by apply Hh|]. destruct a as [[]|e]; [by apply Hh|..];
    eexists _, w1; (split; [done|auto]).
Qed.

(** The waiter counts the request in and out again. *)
Lemma waiter_run h r w :
  (∀ w (T : Waiter.t S), I w → I (lput T w)) → (∀ w (T : Waiter.t S), I' w → I' (lput T w)) →
  yields I I' h r Q → I w →
  WaiterRuns.open (lget w) →
  ∃ o w', Waiter.Middleware h r w = (o, w') ∧ Q o ∧ I' w'.
Proof.
  intros HI HI' Hh Hw Hfree. unfold Waiter.Middleware.
  destruct (WaiterRuns.startRequest_open w Hfree) as [T HT]. rewrite (prog_bind_return _ _ () w (lput T w)) by exact HT.
  destruct (Hh (lput T w)) as (o & w2 & -> & Ho & H2); [by apply HI|].
  exists o, (lput {| Waiter.sema := (Release 1 (Waiter.sema (lget w2))).2 |} w2).
  pose proof (HQ o Ho) as Hf.
  split; [|split; [done|by apply HI']]. by destruct Hf as [[x ->]|[why ->]].
Qed.
End yields.

(** A plain request reaches the head replacer, with an identity. *)
Lemma node_run I I' Q p h r chain w :
  New p = Ok h → bears I I' Q p → plain chain (r_method r) → GetChain (r_ctx r) = Ok chain →
  (∀ id, yields I I' (HeadReplacer.HeadReplacer.Middleware
                     (Cacher.Cacher.Middleware (store p) (rootJrpcHandler p)))
           (with_ctx r (WithValue (r_ctx r) IdentifierContextKey (VIdentifier id))) Q) →
  I w → WaiterRuns.open (lget w) →
  ∃ o w', h r w = (o, w') ∧ Q o ∧ I' w'.
Proof.
  intros HN [Hcol Hlim Hsub HI HI' Hlater HQ] (Hm1 & Hm2 & Hm3 & Hm4 & Hm5) Hc Hh Hw Hfree.
  unfold New, middlewares in HN. destruct (limiter p) as [ms|e] eqn:Hl; [|done].
  cbn [mbind res_bind] in HN. injection HN as <-.
  unfold MethodValidationMiddleware. rewrite bool_decide_false, Hm2 by lia.
  unfold wrap, core. rewrite !foldl_app. cbn [foldl]. unfold Tracing at 1. rewrite Hc.
  apply (waiter_run I I' Q); [done..| |done|done]. intros w1 Hw1.
  unfold Ratelimit.WithIdentifier, internal_identifier. cbn [default].
  set (id := {| Id_Endpoint := "venn$internal" |}). revert w1 Hw1. simpl. fold id.
  set (r' := with_ctx r _).
  assert (yields I I' (foldl (λ h m, m h) (Subcenter.Subcenter.Middleware (notifier p) (heads p)
    (Forger.Forger.Middleware (logs_first p) (HeadReplacer.HeadReplacer.Middleware
      (Cacher.Cacher.Middleware (store p) (rootJrpcHandler p))))) (collector p)) r' Q) as Hcore.
  { assert (yields I I' (Subcenter.Subcenter.Middleware (notifier p) (heads p)
      (Forger.Forger.Middleware (logs_first p) (HeadReplacer.HeadReplacer.Middleware
        (Cacher.Cacher.Middleware (store p) (rootJrpcHandler p))))) r' Q) as Hin.
    { intros w1 Hw1. unfold Subcenter.Subcenter.Middleware, Forger.Forger.Middleware.
      rewrite bool_decide_false by done. cbn [r' with_ctx r_ctx r_method].
      change (GetChain _) with (GetChain (r_ctx r)). rewrite Hc.
      destruct (bool_decide_reflect (r_method r = "eth_getBlockReceipts")) as [Hr|_];
        [rewrite (Hm5 Hr)|]; by apply (Hh id). }
    unfold collector. destruct (RequestCollector p) as [f|]; [|done].
    apply yields_collector; eauto. }
  assert (yields I I' (foldl (λ h m, m h) (foldl (λ h m, m h)
    (Subcenter.Subcenter.Middleware (notifier p) (heads p)
    (Forger.Forger.Middleware (logs_first p) (HeadReplacer.HeadReplacer.Middleware
      (Cacher.Cacher.Middleware (store p) (rootJrpcHandler p))))) (collector p)) ms) r' Q) as Hlimited.
  { unfold limiter in Hl. destruct (AbuseLimit p) as [l|]; [|by injection Hl as <-].
    destruct (0 <? _); [|by injection Hl as <-].
    destruct (NewRateLimiter p l) as [rl|e] eqn:Hrl; [|done]. injection Hl as <-.
    apply yields_limiter with id; eauto. }
  unfold subscription. destruct (Subscription p) as [m|]; [|done].
  cbn [foldl]. intros w1 Hw1. rewrite (Hsub m eq_refl _ r' Hm3). by apply Hlimited.
Qed.

(** A method that is refused at the door. *)
Lemma method_refused p h r (w : W) :
  New p = Ok h → (256 < String.length (r_method r))%nat ∨ str_contains "_internal" (r_method r) = true →
  ∃ x, h r w = (Return [x], w).
Proof.
  unfold New. destruct (middlewares p); [|done]. intros [= <-] Hm.
  unfold MethodValidationMiddleware. case_bool_decide as Hl; [by eexists|].
  destruct Hm as [?| ->]; [done|by eexists].
Qed.

Lemma node_yields I p h r chain o w :
  New p = Ok h → admits I p → plain chain (r_method r) → GetChain (r_ctx r) = Ok chain → final o →
  (∀ id, yields I I (HeadReplacer.HeadReplacer.Middleware
                     (Cacher.Cacher.Middleware (store p) (rootJrpcHandler p)))
           (with_ctx r (WithValue (r_ctx r) IdentifierContextKey (VIdentifier id))) (eq o)) →
  I w → WaiterRuns.open (lget w) →
  ∃ w', h r w = (o, w') ∧ I w'.
Proof.
  intros HN Had Hp Hc Ho Hh Hw Hfree.
  destruct (node_run I I (eq o) p h r chain w HN) as (o' & w' & Hr & <- & Hw');
    [apply admits_bears; [by intros ? <-|done]|done..|by exists w'].
Qed.
End facts.
End NodeFacts.

(** *** Routes *)

Module RouteFacts.
Import Node.

Section facts.
Context {R : Type} `{XR : RouterSpec endpoint R}.

(** The names that [Route] mounts, in order. *)
Definition mounts (chains : list Chain) : list (string * endpoint) :=
  mjoin ((λ c, (λ p, (p, ToChain c)) <$> paths c) <$> chains)
  ++ [("health", Health); ("dashboard", Dashboard)].

Fixpoint mount_list (ms : list (string * endpoint)) (r : R) : outcome R :=
  match ms with
  | [] => Return r
  | (p, a) :: ms => r' ← Mount ("/" +:+ p) a r; mount_list ms r'
  end.

Lemma mount_list_app ms ms' r : mount_list (ms ++ ms') r = (r' ← mount_list ms r; mount_list ms' r').
Proof.
  revert r. induction ms as [|[p a] ms IH]; intros r; [done|]. simpl.
  destruct (Mount _ a r); cbn [mbind outcome_bind]; [apply IH|done..].
Qed.

Lemma mount_all_list a ps r : mount_all a ps r = mount_list ((λ p, (p, a)) <$> ps) r.
Proof.
  revert r. induction ps as [|p ps IH]; intros r; [done|]. simpl.
  destruct (Mount _ a r); cbn [mbind outcome_bind]; [apply IH|done..].
Qed.

Lemma Route_list chains r : Route chains r = mount_list (mounts chains) r.
Proof.
  unfold Route, mounts. rewrite mount_list_app.
  assert (mount_chains chains r
    = mount_list (mjoin ((λ c, (λ p, (p, ToChain c)) <$> paths c) <$> chains)) r) as ->.
  { revert r. induction chains as [|c chains IH]; intros r; [done|].
    cbn [mount_chains fmap list_fmap mjoin list_join]. rewrite mount_list_app, <- mount_all_list.
    destruct (mount_all _ _ r); cbn [mbind outcome_bind]; [apply IH|done..]. }
  destruct (mount_list _ r) as [r1| |]; cbn [mbind outcome_bind]; [|done..].
  cbn [mount_list]. change ("/" +:+ "health") with "/health". change ("/" +:+ "dashboard") with "/dashboard".
  destruct (Mount "/health" Health r1) as [r2| |]; cbn [mbind outcome_bind]; [|done..].
  by destruct (Mount _ _ r2).
Qed.

(** A name that is taken stops the mounting. *)
Lemma mount_list_taken ms (p : string) (a : endpoint) r :
  plain_router r → Forall plain_name ms.*1 → p ∈ ms.*1 → route r ("/" +:+ p) = Some a →
  ∃ why, mount_list ms r = Panic why.
Proof.
  revert r. induction ms as [|[q b] ms IH]; intros r Hr Hms Hin H1; [by apply elem_of_nil in Hin|].
  simpl in Hms. apply Forall_cons in Hms as [Hq Hms]. cbn [mount_list].
  pose proof (Mount_spec q b r Hr Hq) as Hm.
  destruct (route r ("/" +:+ q)) as [x|] eqn:Hrq; [destruct Hm as [why ->]; by exists why|].
  destruct Hm as (r2 & -> & Hr2 & H2). cbn [mbind outcome_bind].
  simpl in Hin. apply elem_of_cons in Hin as [->|Hin]; [congruence|].
  apply IH; [done..|]. rewrite H2, decide_False; [done|by intros ->; congruence|].
  rewrite Forall_forall in Hms. by apply Hms.
Qed.

(** Mounting goes through if and only if the names are new and differ. *)
Lemma mount_list_spec ms (r : R) :
  plain_router r → Forall plain_name ms.*1 → Forall (λ p, route r ("/" +:+ p) = None) ms.*1 →
  if decide (NoDup ms.*1)
  then ∃ r', mount_list ms r = Return r' ∧ (∀ p a, (p, a) ∈ ms → route r' ("/" +:+ p) = Some a) ∧
         ∀ p, plain_name p → p ∉ ms.*1 → route r' ("/" +:+ p) = route r ("/" +:+ p)
  else ∃ why, mount_list ms r = Panic why.
Proof.
  revert r. induction ms as [|[p a] ms IH]; intros r Hr Hms Hnew.
  { rewrite decide_True by constructor. exists r. split_and!; [done| |done].
    by intros ? ? ?%elem_of_nil. }
  simpl in Hnew, Hms. apply Forall_cons in Hnew as [Hp Hnew]. apply Forall_cons in Hms as [Hpl Hms].
  pose proof (Mount_spec p a r Hr Hpl) as Hm. rewrite Hp in Hm. destruct Hm as (r1 & Hm & Hr1 & Hrt).
  cbn [mount_list]. rewrite Hm. cbn [mbind outcome_bind fmap list_fmap fst].
  destruct (decide (p ∈ ms.*1)) as [Hin|Hin].
  - rewrite decide_False by (by intros [? _]%NoDup_cons).
    apply (mount_list_taken ms p a); [done..|]. by rewrite Hrt, decide_True.
  - assert (Forall (λ p, route r1 ("/" +:+ p) = None) ms.*1) as Hnew1.
    { rewrite !Forall_forall in *. intros q Hq.
      rewrite Hrt, decide_False by (congruence || by apply Hms). by apply Hnew. }
    specialize (IH r1 Hr1 Hms Hnew1). destruct (decide (NoDup ms.*1)) as [Hnd|Hnd].
    + rewrite decide_True by by constructor. destruct IH as (r2 & Hr2 & Hall & Hother).
      exists r2. split_and!; [done| |].
      * intros q b [[= -> ->]|Hq]%elem_of_cons; [|by apply Hall].
        by rewrite Hother, Hrt, decide_True.
      * intros q Hq [Hne Hnq]%not_elem_of_cons. by rewrite Hother, Hrt, decide_False by congruence.
    + rewrite decide_False by (by intros [_ ?]%NoDup_cons). done.
Qed.

(** The names and the aliases, grouped. *)
Lemma mounts_perm chains :
  (mounts chains).*1 ≡ₚ
  (Chain_Name <$> chains) ++ mjoin (Chain_Aliases <$> chains) ++ ["health"; "dashboard"].
Proof.
  unfold mounts. rewrite fmap_app, app_assoc. apply Permutation_app; [|done].
  induction chains as [|c chains IH]; [done|]. cbn [fmap list_fmap mjoin list_join].
  rewrite fmap_app, IH, <- list_fmap_compose.
  assert (∀ l, (fst ∘ λ p, (p, ToChain c)) <$> l = l) as -> by (intros l; apply list_fmap_id).
  unfold paths. cbn [app]. apply perm_skip. solve_Permutation.
Qed.

Lemma mounts_chain chains c p : c ∈ chains → p ∈ paths c → (p, ToChain c) ∈ mounts chains.
Proof.
  intros Hc Hp. unfold mounts. apply elem_of_app. left. apply list_elem_of_join.
  exists ((λ p, (p, ToChain c)) <$> paths c). split.
  - by apply (list_elem_of_fmap_2 (λ p, (p, ToChain c))).
  - by apply (list_elem_of_fmap_2 (λ c, (λ p, (p, ToChain c)) <$> paths c)).
Qed.

(** When names and aliases differ all together. *)
Lemma NoDup_parts (names aliases extra : list string) :
  NoDup names → NoDup aliases → NoDup extra →
  NoDup (names ++ aliases ++ extra) ↔
  Forall (λ n, n ∉ aliases) names ∧ Forall (λ n, n ∉ names ++ aliases) extra.
Proof.
  intros Hn Ha He. rewrite !NoDup_app, !Forall_forall. split.
  - intros (_ & H1 & _ & H2 & _). split.
    + intros n Hin. specialize (H1 n Hin). set_solver.
    + intros n Hin [Hin'|Hin']%elem_of_app; [specialize (H1 n Hin')|specialize (H2 n Hin')];
        set_solver.
  - intros [H1 H2]. split_and!; [done| |done| |done].
    + intros n Hin [Hin'|Hin']%elem_of_app; [by apply (H1 n)|].
      apply (H2 n Hin'). set_solver.
    + intros n Hin Hin'. apply (H2 n Hin'). set_solver.
Qed.
End facts.
End RouteFacts.

(** ** Properties *)

Module NodeProps.
Import Node NodeFacts RouteFacts.

Section handler.
Context {W S : Type} `{J : Jrpc} `{ES : EthSpec} `{XS : JxSpec} `{Sn : Sonic}.
Context `{HS : HeadStoreSpec W} `{SS : WeightedSpec S} `{L : !Lens (Waiter.t S) W}.
Context (I : W → Prop).

(** C4: from the validation in front to the store behind, a client that asks
    for the latest block gets the one the block store has at the number of the
    head: once, whatever remotes there are, whether or not there is a rate
    limit, a log or a subscription engine, with the transactions' hashes only
    unless it asked for their details.  The shut-down has not begun: the
    semaphore of the waiter is free. *)
Theorem node_latest_block p h r chain details head e fs w :
  New p = Ok h → admits I p → GetChain (r_ctx r) = Ok chain →
  r_method r = "eth_getBlockByNumber" →
  r_params r = Some (JArr [JStr "latest"; JBool details]) →
  0 < head < two63 → (∀ w, I w → hs_head w (Chain_Name chain) = head) →
  (∀ w, I w → ∃ w', st_Get (store p) chain EntryBlockHeader (QueryNumber head) w
                    = (Return (Ok [e]), w') ∧ I w') →
  Value e = JObj fs → Forall CacherFacts.strippable fs →
  I w → WaiterRuns.open (lget w) →
  ∃ w', h r w = (Return [reply_ok (VRaw (if details then JObj fs
                          else JObj (map CacherFacts.strip_member fs)))], w') ∧ I w'.
Proof.
  intros HN Had Hc Hm Hp Hh Hhead Hget He Hfs Hw Hfree.
  eapply node_yields; [exact HN|exact Had| |exact Hc|by left; eexists| |done|done].
  { rewrite Hm. split_and!; [simpl; lia|reflexivity|reflexivity|done..]. }
  intros id w1 Hw1. destruct (Hget w1 Hw1) as (w2 & H2 & Hw2). eexists _, w2.
  split_and!; [|reflexivity|done].
  specialize (Hhead w1 Hw1).
  rewrite (HeadReplacerProps.latest_run _ _ 0 chain [JStr "latest"; JBool details] (JStr "latest")
    BlockNumber.LatestBlockNumber); 
    [|by cbn [with_ctx r_method]; rewrite Hm|exact Hc|exact Hp|done|done|reflexivity|lia].
  rewrite Hhead, decide_True by (split; [done|lia]).
  unfold Cacher.Cacher.Middleware. cbn [with_params with_ctx r_ctx r_method].
  change (GetChain _) with (GetChain (r_ctx r)). rewrite Hc, Hm, bool_decide_true by done.
  apply (CacherProps.block_by_number_run _ _ _ _ (BlockNumber.MarshalJSON head) head details
    w1 e fs w2); [done| | |lia|done..].
  - by destruct (BlockNumberFacts.MarshalJSON_text head) as [s ->].
  - apply BlockNumberFacts.unmarshal_MarshalJSON.
    unfold BlockNumber.LatestExecutedBlockNumber. go_lia.
Qed.
End handler.

(** C5: one request for logs from a block by its number to a block by its tag
    brings the node down: the head replacer leaves the tag alone, the cache
    takes its negative number for a small range, as a word it is the largest
    block number there is, and the slice for the entries in between is too
    large to be made.  The panic is in a goroutine of the single flight, which
    nothing recovers from.  The shut-down has not begun. *)
Theorem node_getLogs_panics {W S LN LH} `{J : Jrpc} `{ES : EthSpec} `{XS : JxSpec} `{Sn : Sonic}
    `{HS : HeadStoreSpec W} `{SS : WeightedSpec S} `{L : !Lens (Waiter.t S) W}
    `{SN : !Simplelru LruStore.lruNumberKey Entry LN}
    `{SH : !Simplelru LruStore.lruHashKey Entry LH} `{LL : !Lens (LruStore.t LN LH) W}
    Hex DoChan ctx_done rediblock chainblock (I : W → Prop) p h r chain q n t w :
  New p = Ok h → admits I p → GetChain (r_ctx r) = Ok chain →
  store p = vennstore_New LruStore.store rediblock chainblock
              (SingleFlight.store Hex DoChan ctx_done) →
  (∀ k f w, DoChan k f w = f w) →
  r_method r = "eth_getLogs" →
  unmarshal_params (unmarshal_slice FilterQuery_unmarshal) r = Ok [q] →
  EthTypes.BlockHash q = None → FromBlock q = Some n → 1 <= n <= two63 - 5 →
  ToBlock q = Some t → -5 <= t < 0 →
  (∀ w, I w → 0 <= hs_head w (Chain_Name chain) < two63) →
  I w → WaiterRuns.open (lget w) →
  ∃ w', h r w = (Panic "makeslice: cap out of range", w') ∧ I w'.
Proof.
  intros HN Had Hc Hst Hdo Hm Hq Hbh Hf Hn Ht Htag Hhead Hw Hfree.
  eapply node_yields; [exact HN|exact Had| |exact Hc|by right; eexists| |done|done].
  { rewrite Hm. split_and!; [simpl; lia|reflexivity|reflexivity|done..]. }
  intros id w1 Hw1. eexists _, w1. split_and!; [|reflexivity|done].
  rewrite (HeadReplacerProps.getLogs_run _ _ chain q);
    [|exact Hm|exact Hc|exact Hq|exact Hbh|by apply Hhead].
  rewrite decide_False.
  2: { rewrite Hf. intros (_ & Hl & _). simpl in Hl. unfold BlockNumber.LatestBlockNumber in Hl. lia. }
  unfold Cacher.Cacher.Middleware. cbn [with_ctx r_ctx r_method].
  change (GetChain _) with (GetChain (r_ctx r)). rewrite Hc, Hm.
  do 3 rewrite bool_decide_false by done. rewrite bool_decide_true by done.
  unfold Cacher.Cacher.serve_getLogs.
  change (unmarshal_params _ _)
    with (unmarshal_params (unmarshal_slice FilterQuery_unmarshal) r).
  rewrite Hq, Hbh, Hf, Ht. rewrite i64_small by go_lia.
  rewrite (proj2 (Z.ltb_ge _ _)) by (unfold Cacher.Cacher.maxLogRange; lia).
  rewrite Hst. cbn [vennstore_New SingleFlight.store st_Get]. unfold SingleFlight.Get.
  do 2 apply panics_bind. rewrite Hdo. unfold SingleFlight.store. cbn [Compound.store st_Get].
  unfold Compound.Get. rewrite u64_small, u64_neg by go_lia. cbn [Compound.backwards].
  rewrite (proj2 (Z.ltb_ge _ _)) by go_lia. apply panics_bind.
  assert (∀ l, Compound.find chain EntryLogs (QueryRange n (two64 + t)) []
    (("lru", LruStore.store) :: l) None w1 = (Panic "makeslice: cap out of range", w1)) as Hfind.
  { intros l. cbn [Compound.find]. apply panics_bind. unfold LruStore.store. cbn [st_Get].
    unfold LruStore.Get, read. rewrite (prog_bind_return _ _ (lget w1) w1 w1) by done.
    apply panics_bind. unfold make_pointers. rewrite (u64_small (_ + 1)) by go_lia.
    by rewrite (proj2 (Z.ltb_lt _ _)) by (unfold maxAlloc; go_lia). }
  destruct rediblock; refine (Hfind _).
Qed.

(** the limit is per connection, not per client: two requests are counted
    under one key exactly if they come from the same address and port, or if
    neither address has a port. *)
Theorem node_limit_key r r' :
  let key r := Ratelimit.Key <$> (default Ratelimit.nil_identifier <$> internal_identifier r) in
  let portless r := ∃ e, Net.SplitHostPort (r_peer r) = Err e in
  key r = key r' ↔ r_peer r = r_peer r' ∨ portless r ∧ portless r'.
Proof.
  intros key portless.
  assert (∀ r, key r = Ok ("venn$internal:ip:" +:+ match Net.SplitHostPort (r_peer r) with
    | Ok _ => r_peer r | Err _ => "" end)) as Hkey by done.
  rewrite !Hkey. assert (∀ a b : string, Ok (E := goerr) ("venn$internal:ip:" +:+ a)
    = Ok ("venn$internal:ip:" +:+ b) ↔ a = b) as ->.
  { intros a b. split; [by injection 1|by intros ->]. }
  unfold portless. destruct (Net.SplitHostPort (r_peer r)) as [x|e] eqn:H1,
    (Net.SplitHostPort (r_peer r')) as [x'|e'] eqn:H2; split.
  - by left.
  - intros [?|[[? [=]] _]]. done.
  - intros Hr. by rewrite Hr in H1.
  - intros [Hr|[[? [=]] _]]. by rewrite Hr, H2 in H1.
  - intros Hr. by rewrite <- Hr in H2.
  - intros [Hr|[_ [? [=]]]]. by rewrite Hr, H2 in H1.
  - right. split; by eexists.
  - done.
Qed.

(** C35: with a configuration that the parser accepts, and whose names and
    aliases are plain text, every chain is served under its name and under each
    of its aliases, whatever the order of the map, provided no chain's name is
    another's alias and none of them is "health" or "dashboard"; the parser
    accepts these too, but then mounting the routes panics.  It also accepts
    names that are not plain, which are excepted here: the router takes "/", "*"
    and braces in them as parts of a pattern, and one that only adds a "/" to
    another is taken already. *)
Theorem routes_of_config {R} `{XR : RouterSpec endpoint R} expand cfg res chains :
  NodeFileParser expand cfg = Ok res →
  chains ≡ₚ (map_to_list (Result_Chains res)).*2 →
  let names := Chain_Name <$> chains in
  let aliases := mjoin (Chain_Aliases <$> chains) in
  Forall plain_name (names ++ aliases) →
  if decide (Forall (λ n, n ∉ aliases) names ∧
             Forall (λ n, n ∉ names ++ aliases) ["health"; "dashboard"])
  then ∃ r, Route chains router_new = Return r ∧ route r "/health" = Some Health ∧
         ∀ c p, c ∈ chains → p ∈ paths c → route r ("/" +:+ p) = Some (ToChain c)
  else ∃ why, Route chains router_new = Panic why.
Proof.
  intros Hcfg Hch names aliases Hplain. unfold NodeFileParser in Hcfg.
  destruct (ParseNodeConfig expand cfg) as [cfg'|e]; [|done].
  cbn [mbind res_bind] in Hcfg.
  destruct (add_chains (∅, ∅) (Node_Chains cfg')) as [[m eps]|e] eqn:Hadd; [|done].
  injection Hcfg as <-. apply add_chains_inv in Hadd as (Hp & Hn & _ & Ha & _).
  cbn [Result_Chains] in Hch. rewrite Hp, map_to_list_empty, app_nil_r in Hch.
  assert (NoDup names) as Hnames by (unfold names; by rewrite Hch).
  assert (NoDup aliases) as Haliases by (unfold aliases; by rewrite Hch).
  assert (NoDup (mounts chains).*1 ↔ Forall (λ n, n ∉ aliases) names ∧
    Forall (λ n, n ∉ names ++ aliases) ["health"; "dashboard"]) as Hiff.
  { rewrite mounts_perm. fold names aliases.
    apply NoDup_parts; [done..|]. by apply (bool_decide_unpack _). }
  rewrite Route_list. destruct router_new_spec as [Hpr Hnone].
  assert (Forall plain_name (mounts chains).*1) as Hms.
  { rewrite mounts_perm, app_assoc. apply Forall_app. split; [done|]. by apply (bool_decide_unpack _). }
  pose proof (mount_list_spec (mounts chains) router_new Hpr Hms) as Hm.
  assert (Forall (λ p, route router_new ("/" +:+ p) = None) (mounts chains).*1) as Hnew.
  { apply Forall_forall. intros p _. apply Hnone. }
  specialize (Hm Hnew). destruct (decide (NoDup (mounts chains).*1)) as [Hnd|Hnd].
  - rewrite decide_True by by apply Hiff. destruct Hm as (r & Hr & Hall & _).
    exists r. split_and!; [done| |].
    + apply (Hall "health"). unfold mounts. apply elem_of_app. right. by left.
    + intros c p Hc Hpc. by apply Hall, mounts_chain.
  - rewrite decide_False by (intros Hok; apply Hnd; by apply Hiff). done.
Qed.
End NodeProps.

(** ** Witnesses *)

Module NodeWitness.
Import Node NodeFacts NodeProps StdJrpc StdEth StdJx StdSonic StdWeighted CacherWitness.
Import BlockStoreWitness.
#[local] Existing Instances LruStore.EntryType_countable StdLru.std_lru StdLru.std_lru_spec.

Definition chain0 : Chain := {| Chain_Name := "ethereum"; Chain_Id := 1;
  Chain_Aliases := ["mainnet"]; BlockTimeSeconds := QArith_base.inject_Z 12;
  Chain_Remotes := []; Stalk := None; ParsedStalk := true; ForgeBlockReceipts := false;
  Chain_MaxBlockLookback := 0 |}.

(** The waiter, the memory cache and the heads: block 7 is the latest. *)
Definition world : Type := Waiter.t StdWeighted.t * (LruStore.t LN LH * Redihead.t).
Definition world0 : world :=
  (Waiter.NewWaiter, (LruStore.NewLruStore 8, Redihead.setHead "ethereum" 7 Redihead.New)).
#[local] Instance heads0 : HeadStore world := Redihead.store (λ _, mret None).
#[local] Instance heads0_spec : HeadStoreSpec world := Redihead.store_spec (λ _, mret None).

Definition same_heads (w : world) : Prop := w.2.2 = world0.2.2.

(** A node with a log and a rate limit that is never reached. *)
Definition params0 (s : Store world) : Params world := {|
  AbuseLimit := Some {| AbuseLimit_Id := "total"; AbuseLimit_Total := 10;
                        AbuseLimit_Window := 1 |};
  NewRateLimiter _ := Ok (λ _ _, mret (Ok true));
  Subscription := None;
  RequestCollector := Some (λ _ _ _, mret ());
  store := s;
  logs_first := true;
  notifier _ := None;
  heads := [];
  Clusters := Clusters.Clusters.New [chain0];
  cluster _ := const_handler (reply_err (ESentinel ErrUnhealthy)) |}.

Lemma params0_admits s : admits same_heads (params0 s).
Proof.
  split; simpl.
  - intros f c m b [= <-]. apply steady_ret.
  - intros l rl _ [= <-] k n w Hw. by exists w.
  - done.
  - done.
Qed.

Definition blocks0 : Store world := {|
  st_Get _ _ _ := mret (Ok [{| BlockHash := replicate 32 7; BlockNumber := 7;
                               ParentHash := None; Value := JObj block0 |}]);
  st_Put _ _ _ := mret None |}.

Definition handler0 (s : Store world) : handler world :=
  match New (params0 s) with Ok h => h | Err _ => λ _, mret [] end.

Lemma node_latest_block_witness :
  ∃ w', handler0 blocks0
    {| r_ctx := WithChain [] chain0; r_method := "eth_getBlockByNumber";
       r_params := Some (JArr [JStr "latest"; JBool false]); r_peer := "10.0.0.1:80" |} world0
    = (Return [reply_ok (VRaw stripped0)], w') ∧ same_heads w'.
Proof.
  refine (node_latest_block same_heads (params0 blocks0) _ _ chain0 false 7
    {| BlockHash := replicate 32 7; BlockNumber := 7; ParentHash := None; Value := JObj block0 |}
    block0 world0
    _ (params0_admits _) _ _ _ _ _ _ _ block0_strippable _ _); try reflexivity.
  - by vm_compute; split.
  - intros w Hw. unfold same_heads in Hw. transitivity (Redihead.head w.2.2 "ethereum").
    + reflexivity.
    + rewrite Hw. vm_compute. reflexivity.
  - intros w Hw. by exists w.
  - by split.
Defined.

Definition lru0 : Store world :=
  vennstore_New LruStore.store None blocks0 (SingleFlight.store StdHex.Hex (λ _ f, f) (mret None)).

Lemma node_getLogs_panics_witness :
  let q := JObj [("fromBlock", JStr "0x10"); ("toBlock", JStr "latest")] in
  ∃ w', handler0 lru0
    {| r_ctx := WithChain [] chain0; r_method := "eth_getLogs";
       r_params := Some (JArr [q]); r_peer := "10.0.0.1:80" |} world0
    = (Panic "makeslice: cap out of range", w') ∧ same_heads w'.
Proof.
  intros q.
  refine (node_getLogs_panics StdHex.Hex (λ _ f, f) (mret None) None blocks0 same_heads
    (params0 lru0) _ _ chain0
    {| EthTypes.BlockHash := None; FromBlock := Some 16; ToBlock := Some (-1);
       Addresses := []; Topics := [] |} 16 (-1) world0
    _ (params0_admits _) _ _ _ _ _ _ _ _ _ _ _ _ _); try reflexivity.
  - by vm_compute; split.
  - by vm_compute; split.
  - intros w Hw. unfold same_heads in Hw.
    change (0 <= Redihead.head w.2.2 "ethereum" < two63). rewrite Hw. by vm_compute; split.
  - by split.
Defined.

(** A router that keeps a table. *)
#[local] Instance table : Router endpoint (gmap string endpoint) := {|
  router_new := ∅;
  Mount path a r := match r !! path with
                    | Some _ => Panic "attempting to Mount() a handler on an existing path"
                    | None => Return (<[path := a]> r)
                    end;
  route r path := r !! path |}.
#[local] Instance table_spec : RouterSpec endpoint (gmap string endpoint).
Proof.
  refine {| plain_router _ := True |}; [by split|]. intros n a r _ Hn. simpl.
  destruct (r !! _) eqn:Hp; [by eexists|].
  exists (<["/" +:+ n := a]> r). split; [done|]. split; [done|]. intros n' _. rewrite lookup_insert.
  destruct (decide (n = n')) as [->|Hne]; [by rewrite decide_True|].
  rewrite decide_False; [done|]. by injection 1.
Qed.

(** The second chain's name is an alias of the first. *)
Definition chain1 : Chain := {| Chain_Name := "mainnet"; Chain_Id := 2; Chain_Aliases := [];
  BlockTimeSeconds := QArith_base.inject_Z 12; Chain_Remotes := []; Stalk := None;
  ParsedStalk := true; ForgeBlockReceipts := false; Chain_MaxBlockLookback := 0 |}.
Definition config0 : NodeConfig := {|
  Node_Redis := {| Redis_URI := ""; Redis_Namespace := "" |}; Node_Ratelimit := None;
  Node_Chains := [chain0; chain1]; Node_Filters := [] |}.
Definition result0 : NodeConfigResult :=
  match NodeFileParser (λ s, s) config0 with
  | Ok res => res
  | Err _ => {| Result_Chains := ∅; Result_Remotes := []; Result_Ratelimit := None;
                Result_Redis := Node_Redis config0 |}
  end.

Lemma routes_of_config_witness :
  ∃ why, Route (map_to_list (Result_Chains result0)).*2 router_new = Panic why.
Proof.
  pose proof (routes_of_config (λ s, s) config0 result0 (map_to_list (Result_Chains result0)).*2)
    as H. assert (NodeFileParser (λ s, s) config0 = Ok result0) as Hres by reflexivity.
  specialize (H Hres (Permutation_refl _)). cbv zeta in H. rewrite decide_False in H; [apply H|].
  - apply (bool_decide_unpack _). vm_compute. reflexivity.
  - refine (bool_decide_eq_false_1 _ _). vm_compute. reflexivity.
Defined.
End NodeWitness.
