(* ===== verification/Fleet.v ===== *)
(** * The clusters of all chains over all their remotes

    [Clusters] and [Cluster] put together as in svc/node/quarks/cluster: every
    chain has a cluster of remotes, each with its states.  The remotes and the
    clusters are parts of one world that do not overlap; what is outside of
    them -- clocks, token buckets, metrics, the connections -- is an argument
    that leaves them alone. *)
From S2P Require Import Prelude Errors Json EthTypes Config Rpc CallCenter Backer Validator Doctor Cluster HeadStore LookBack Clusters.

(** ** The world of the clusters *)

Module Fleet.
Section fleet.
Context {R W : Type} `{J : Jrpc} `{E : Eth} `{X : Jx} `{Sn : Sonic} `{H : HeadStore W}.

(** A remote: its state when it was made, and what [RemoteTarget] calls. *)
Record Env := {
  target : RemoteTarget.t;
  now : prog W Z;
  too_slow : prog W bool;
  Allow : prog W bool;
  Request : prog W ();
  Result : string → bool → prog W ();
  Debug : request → prog W ();
  proxier : handler W;
}.

(** Where the remotes and the clusters of the chains are. *)
Context (Lr : R → Lens RemoteTarget.t W) (Lc : string → Lens (Cluster.t R) W).
Context (env : R → Env).

Definition remote (a : R) : handler W :=
  RemoteTarget.remote_handler (L := Lr a) (now (env a)) (too_slow (env a)) (Allow (env a))
    (Request (env a)) (Result (env a)) (Debug (env a)) (proxier (env a)) (target (env a)).

(** [cluster] of [Clusters.Middleware]: the handler of a chain's cluster. *)
Definition cluster (c : string) : handler W :=
  Cluster.ServeRPC (L := Lc c) remote.
End fleet.
End Fleet.

(** ** Lemmas: a cluster replies once *)

Module ClusterRuns.
Import Cluster ClustersFacts.

(** The result that [Do] reads from the value of a reply. *)
Definition reads `{Sn : Sonic} (v : value) : res goerr json :=
  match v with
  | VRaw v => Ok v
  | v => sonic_marshal v
  end.

Section results.
Context `{Sn : Sonic}.
(** What is asked of the result of a request. *)
Context (V : request → json → Prop).

Definition result_ok (r : request) (x : reply) : Prop := ∀ j, reads x.1 = Ok j → V r j.
Definition tells (r : request) (x : reply) : Prop := definite x ∧ result_ok r x.

(** Nothing is asked of a null, of the number of the newest block, and of the
    parameters of a call. *)
Record fitting : Prop := {
  fit_nil r j : sonic_marshal VNil = Ok j → V r j;
  fit_number r j : r_method r = "eth_blockNumber" → V r j;
  fit_call r p j : r_method r = "eth_call" → V (with_params r p) j → V r j;
}.

Lemma result_ok_nil r e : fitting → result_ok r (VNil, e).
Proof. intros Hfit j. by apply fit_nil. Qed.

Lemma result_ok_value r v e e' : result_ok r (v, e) → result_ok r (v, e').
Proof. done. Qed.

Lemma tells_lax : fitting → lax tells.
Proof.
  intros Hfit. pose proof Hfit as [_ Hn Hc]. split.
  - intros r e. split; [done|by apply result_ok_nil].
  - intros r n e Hr. split; [by destruct e|]. intros j _. by apply Hn.
  - intros r v e e' [_ Hv]. by split.
  - intros r p x Hr [Hd Hx]. split; [done|]. intros j Hj. by eapply Hc, Hx.
Qed.
End results.
#[export] Hint Resolve result_ok_nil result_ok_value : core.

(** A cluster that has a remote, with no more than [N] requests behind it, and
    only remotes with [D]; the counter of a bucket and its slice are far from
    what an [int64] can hold. *)
Definition bucket_ok {R} (D : R → Prop) (N : Z) (p : clustererPriority R) : Prop :=
  (p_remotes p ≠ [] ∧ Forall D (p_remotes p)) ∧ 0 <= round p <= N ∧
  Z.of_nat (List.length (p_remotes p)) <= 2 ^ 32.
Definition served {R} (D : R → Prop) (N : Z) (T : Cluster.t R) : Prop :=
  priorities T ≠ [] ∧ Forall (bucket_ok D N) (priorities T).

Section runs.
Context {R W : Type} `{J : Jrpc} `{Sn : Sonic} `{L : !Lens (Cluster.t R) W}.
Context (Handler : R → handler W) (I : W → Prop) (V : request → json → Prop) (D : R → Prop).
(** The remotes reply, say something, and leave the cluster alone. *)
Hypothesis Hremote : ∀ a T, D a →
  replies_with (λ w, I w ∧ lget w = T) (tells V) (Handler a).
Hypothesis Hput : ∀ w (T : Cluster.t R), I w → I (lput T w).
Hypothesis Hfit : fitting V.

Lemma index_ok (rems : list R) j :
  0 <= j → rems ≠ [] ∧ Forall D rems →
  ∃ a, index rems (Z.rem j (Z.of_nat (List.length rems))) = Return a ∧ D a.
Proof.
  intros Hj [Hne HD]. assert (0 < List.length rems)%nat by (destruct rems; simpl; [done|lia]).
  destruct (lookup_lt_is_Some_2 rems (Z.to_nat j mod List.length rems)%nat) as [a Ha].
  { apply Nat.mod_upper_bound. lia. }
  exists a. split; [by apply ClusterSpec.index_visit|by eapply Forall_lookup_1].
Qed.

(** A bucket ends with a reply, or leaves it to the next one. *)
Lemma try_bucket_run r lb rems rest j icept w :
  0 <= j → j + Z.of_nat rest < two63 → rems ≠ [] ∧ Forall D rems → I w →
  ∃ o w', try_bucket Handler r lb rems rest j icept w = (Return o, w') ∧ I w' ∧
    lget w' = lget w ∧
    ((∃ x, o = inl [x] ∧ result_ok V r x) ∨ (∃ i, o = inr i) ∧ (lb = false ∨ rest = O)).
Proof.
  intros Hj Hr Hne. revert j icept w Hj Hr. induction rest as [|rest IH]; intros j icept w Hj Hr Hw.
  { eexists _, w. split_and!; eauto 7. }
  cbn [try_bucket]. rewrite i64_small by go_lia.
  destruct (index_ok rems (j + 1)) as (a & Ha & Da); [lia|done|].
  destruct (Hremote a (lget w) Da r w) as (x & w1 & Hx & [H1 Hg] & Hd & HV); [done|].
  unfold lift, mbind at 1, prog_bind at 1. rewrite Ha.
  rewrite (prog_bind_return _ _ _ _ _ Hx). cbv zeta. unfold intercept. cbn [last default].
  destruct (IH (j + 1) x w1) as (o & w2 & Ho & H2 & Hg2 & Hc); [lia|lia|done|].
  assert (rest ≠ O ∨ lb = false → ∃ o' w', try_bucket Handler r lb rems rest (j + 1) x w1
    = (Return o', w') ∧ I w' ∧ lget w' = lget w ∧
    ((∃ x, o' = inl [x] ∧ result_ok V r x) ∨ (∃ i, o' = inr i) ∧ (lb = false ∨ S rest = O))) as Hnext.
  { intros Hlb. exists o, w2. split_and!; [done|done|congruence|].
    destruct Hc as [?|[? [->| ->]]]; [by left|by right; auto|].
    right. split; [done|]. destruct Hlb; [done|by left]. }
  destruct x as [v [e|]]; cbn [fst snd id].
  - destruct (IsUserError (Some e)); [by eexists _, w1; split_and!; eauto 7|].
    destruct lb; cbn [negb orb].
    + case_bool_decide; cbn [negb]; [|by apply Hnext; left].
      destruct (errors_is e ErrHeadOld); eexists _, w1; split_and!; eauto 7.
    + apply Hnext. by right.
  - destruct v; [by destruct Hd|..]; eexists _, w1; split_and!; eauto 7.
Qed.

(** A turn in a bucket changes that bucket only. *)
Lemma next_round_run N i p w :
  priorities (lget w) !! i = Some p → bucket_ok D N p → N < 2 ^ 62 → I w →
  ∃ j p' w', next_round i p w = (Return j, w') ∧ I w' ∧
    priorities (lget w') = <[i := p']> (priorities (lget w)) ∧ bucket_ok D (N + 1) p' ∧
    0 <= j ∧ j + Z.of_nat (List.length (p_remotes p)) < two63.
Proof.
  intros Hi (Hne & Hr & Hl) HN Hw. unfold next_round. case_bool_decide as H1.
  - exists (round p + 1), (bump p). eexists. split.
    { unfold read, write, mbind, prog_bind. rewrite Hi, i64_small by go_lia. reflexivity. }
    split; [by apply Hput|]. split; [|split; [split; [done|split; [|done]]|split; [lia|go_lia]]].
    + rewrite lget_lput. simpl. apply list_eq. intros k.
      destruct (decide (k = i)) as [->|Hk].
      * rewrite list_lookup_alter_eq, Hi, list_lookup_insert_eq; [done|].
        by apply lookup_lt_Some in Hi.
      * by rewrite list_lookup_alter_ne, list_lookup_insert_ne by done.
    + cbn [bump round]. rewrite i64_small by go_lia. lia.

  - exists 0, p, w. split; [done|]. split; [done|]. split; [by rewrite list_insert_id|].
    split; [split; [done|split; [lia|done]]|split; [lia|go_lia]].
Qed.

(** The buckets in turn: those before [i] were tried. *)
Lemma try_buckets_run N r ps i icept w :
  ps ≠ [] → drop i (priorities (lget w)) = ps →
  Forall (bucket_ok D (N + 1)) (take i (priorities (lget w))) → Forall (bucket_ok D N) ps →
  0 <= N < 2 ^ 62 → I w →
  ∃ x w', try_buckets Handler r i ps icept w = (Return [x], w') ∧ I w' ∧
    served D (N + 1) (lget w') ∧ result_ok V r x.
Proof.
  revert i icept w. induction ps as [|p ps IH]; intros i icept w Hps Hd Ht Hf HN Hw; [done|].
  apply Forall_cons in Hf as [Hp Hf]. pose proof Hp as (Hne & _).
  assert (priorities (lget w) !! i = Some p) as Hi.
  { rewrite <- (Nat.add_0_r i), <- lookup_drop. by rewrite Hd. }
  destruct (next_round_run N i p w Hi Hp (proj2 HN) Hw) as (j & p' & w1 & Hn & H1 & Hg & Hp' & Hj & Hj').
  cbn [try_buckets]. rewrite (prog_bind_return _ _ _ _ _ Hn).
  destruct (try_bucket_run r (bool_decide (ps = [])) (p_remotes p) _ j icept w1 Hj Hj' Hne H1)
    as (o & w2 & Ho & H2 & Hg2 & Hc).
  rewrite (prog_bind_return _ _ _ _ _ Ho).
  pose proof (lookup_lt_Some _ _ _ Hi) as Hlt.
  assert (take (S i) (priorities (lget w2)) = take i (priorities (lget w)) ++ [p']) as Htake.
  { rewrite Hg2, Hg, (take_S_r _ _ p'), take_insert_ge; [done|lia|].
    by apply list_lookup_insert_eq. }
  assert (drop (S i) (priorities (lget w2)) = ps) as Hdrop.
  { rewrite Hg2, Hg, drop_insert_lt by lia. rewrite <- (Nat.add_1_r i), <- drop_drop, Hd. done. }
  assert (Forall (bucket_ok D (N + 1)) (take (S i) (priorities (lget w2)))) as Hall.
  { rewrite Htake. apply Forall_app. by split; [|apply Forall_singleton]. }
  destruct Hc as [(x & -> & HV)|[[i' ->] Hlast]].
  - exists x, w2. split_and!; [done|done|split|done].
    + rewrite Hg2, Hg. intros He. apply (f_equal List.length) in He.
      rewrite length_insert in He. simpl in He. lia.
    + rewrite <- (take_drop (S i) (priorities (lget w2))), Hdrop. apply Forall_app. split; [done|].
      eapply Forall_impl; [exact Hf|]. intros q (? & ? & ?). split; [done|]. split; [lia|done].
  - apply IH; try done. destruct Hlast as [Hb|Hl]; [by apply bool_decide_eq_false in Hb|].
    destruct Hne as [Hne _]. by destruct (p_remotes p).
Qed.

Lemma cluster_run N r w :
  0 <= N < 2 ^ 62 → served D N (lget w) → I w →
  ∃ x w', ServeRPC Handler r w = (Return [x], w') ∧ I w' ∧ served D (N + 1) (lget w') ∧
    result_ok V r x.
Proof.
  intros HN [Hne Hf] Hw. unfold ServeRPC, read, mbind, prog_bind. by apply try_buckets_run.
Qed.
End runs.
End ClusterRuns.

(** ** Lemmas: the clusters of a node *)

Module FleetFacts.
Import Fleet ClusterRuns ClustersFacts RemoteTarget.

Section world.
Context {R W : Type} `{!EqDecision R} `{J : Jrpc} `{ES : EthSpec} `{XS : JxSpec} `{Sn : Sonic}.
Context `{HS : HeadStoreSpec W}.
Context (Lr : R → Lens RemoteTarget.t W) (Lc : string → Lens (Cluster.t R) W).
Context (env : R → Env (W := W)) (clusters : Clusters.t) (K : W → Prop).
(** The chain a remote is of, and what is asked of the results of requests for
    its chain. *)
Context (home : R → string) (V : request → json → Prop).

Definition asks (c : string) (r : request) : Prop :=
  ∃ chain, GetChain (r_ctx r) = Ok chain ∧ Chain_Name chain = c.
Definition at_home (c : string) (r : request) (j : json) : Prop := asks c r → V r j.

Lemma at_home_fitting c : fitting V → fitting (at_home c).
Proof.
  intros [H0 Hn Hc]. split; unfold at_home; eauto. Qed.

(** The parts of the world do not overlap, and [K] is about none of them. *)
Record apart : Prop := {
  ap_rr a b T w : a ≠ b → lget (Lens := Lr a) (lput (Lens := Lr b) T w) = lget (Lens := Lr a) w;
  ap_rc a c T w : lget (Lens := Lr a) (lput (Lens := Lc c) T w) = lget (Lens := Lr a) w;
  ap_cr c a T w : lget (Lens := Lc c) (lput (Lens := Lr a) T w) = lget (Lens := Lc c) w;
  ap_cc c d T w : c ∈ Clusters.Remotes clusters → d ∈ Clusters.Remotes clusters → c ≠ d →
    lget (Lens := Lc c) (lput (Lens := Lc d) T w) = lget (Lens := Lc c) w;
  ap_Kr a T w : K w → K (lput (Lens := Lr a) T w);
  ap_Kc c T w : K w → K (lput (Lens := Lc c) T w);
}.

(** A call that comes back, keeps [K] and leaves remotes and clusters alone. *)
Definition outside {A} (Q : A → Prop) (m : prog W A) : Prop :=
  ∀ w, K w → ∃ x w', m w = (Return x, w') ∧ K w' ∧ Q x ∧
    (∀ a, lget (Lens := Lr a) w' = lget (Lens := Lr a) w) ∧
    ∀ c, lget (Lens := Lc c) w' = lget (Lens := Lc c) w.
Definition some_value {A} (x : A) : Prop := True.

Lemma outside_ret {A} (Q : A → Prop) a : Q a → outside Q (mret a).
Proof. intros HQ w Hw. by exists a, w. Qed.

(** What a remote calls is outside; its proxy says something. *)
Record env_ok (a : R) : Prop := {
  ok_now : outside some_value (now (env a));
  ok_too_slow : outside some_value (too_slow (env a));
  ok_Allow : outside some_value (Allow (env a));
  ok_Request : outside some_value (Request (env a));
  ok_Result m b : outside some_value (Result (env a) m b);
  ok_Debug r : outside some_value (Debug (env a) r);
  ok_proxier r : outside (λ sends, tells (at_home (home a)) r (intercept icept0 sends))
                   (proxier (env a) r);
}.

(** The doctors have finished their first checks, and every chain has a cluster
    with remotes, with no more than [N] requests behind it. *)
Definition ready (N : Z) (w : W) : Prop :=
  K w ∧ (∀ a, ClustersProps.known (L := Lr a) w) ∧
  ∀ c, c ∈ Clusters.Remotes clusters → served (λ a, home a = c) N (lget (Lens := Lc c) w).

(** The same, but for the cluster of [c], which is [T]. *)
Definition but (N : Z) (c : string) (w : W) : Prop :=
  K w ∧ (∀ a, ClustersProps.known (L := Lr a) w) ∧
  ∀ d, d ∈ Clusters.Remotes clusters → d ≠ c →
    served (λ a, home a = d) N (lget (Lens := Lc d) w).

Hypothesis Hap : apart.
Hypothesis Henv : ∀ a, env_ok a.
Hypothesis Hfit : fitting V.

Lemma served_later {A} D N M (T : Cluster.t A) : N <= M → served D N T → served D M T.
Proof.
  intros HM [Hne Hf]. split; [done|]. eapply Forall_impl; [exact Hf|].
  intros p (? & ? & ?). split; [done|]. split; [lia|done].
Qed.

Lemma ready_later N M w : N <= M → ready N w → ready M w.
Proof.
  intros HM (HK & Hd & Hs). split_and!; [done|done|].
  intros c Hc. eapply served_later; [done|by apply Hs].
Qed.

(** What is outside keeps everything else. *)
Lemma outside_but {A} Q (m : prog W A) N c T w :
  outside Q m → but N c w ∧ lget (Lens := Lc c) w = T →
  ∃ x w', m w = (Return x, w') ∧ (but N c w' ∧ lget (Lens := Lc c) w' = T) ∧ Q x.
Proof.
  intros Hm [(HK & Hd & Hs) HT]. destruct (Hm w HK) as (x & w' & Hx & HK' & HQ & Hr & Hc).
  exists x, w'. split; [done|]. split; [|done]. split; [|by rewrite Hc].
  split_and!; [done| |].
  - intros a. unfold ClustersProps.known. rewrite Hr. apply Hd.
  - intros d Hd1 Hd2. rewrite Hc. by apply Hs.
Qed.

Lemma outside_steady {A} Q (m : prog W A) N c T :
  outside Q m → steady (λ w, but N c w ∧ lget (Lens := Lc c) w = T) m.
Proof.
  intros Hm w Hw. destruct (outside_but Q m N c T w Hm Hw) as (x & w' & ? & ? & _). eauto.
Qed.

(** So do the remote's own states, as long as its doctor keeps its verdict. *)
Lemma but_put N c T a (T' : RemoteTarget.t) w :
  but N c w ∧ lget (Lens := Lc c) w = T →
  Doctor.health (RemoteTarget.Doctor T') ≠ Doctor.HealthStatusUnknown →
  but N c (lput (Lens := Lr a) T' w) ∧ lget (Lens := Lc c) (lput (Lens := Lr a) T' w) = T.
Proof.
  intros [(HK & Hd & Hs) HT] HD. split; [|by rewrite (ap_cr Hap)]. split_and!.
  - by apply (ap_Kr Hap).
  - intros b. unfold ClustersProps.known. destruct (decide (b = a)) as [->|Hne].
    + by rewrite lget_lput.
    + rewrite (ap_rr Hap) by done. apply Hd.
  - intros d Hd1 Hd2. rewrite (ap_cr Hap). by apply Hs.
Qed.

Lemma remote_run N c T a :
  replies_with (λ w, but N c w ∧ lget (Lens := Lc c) w = T) (tells (at_home (home a)))
    (remote Lr env a).
Proof.
  destruct (Henv a) as [H1 H2 H3 H4 H5 H6 H7].
  apply ClustersProps.remote_replies; [|by apply tells_lax, at_home_fitting|].
  - split; try (intros; by eapply outside_steady).
    + intros c' w Hw. eexists _, w. split; [apply hs_Get_spec|done].
    + intros w [(_ & Hd & _) _]. apply Hd.
    + intros w T' Hw. apply but_put; [done|]. apply Hw.
    + intros w T' Hw. apply but_put; [done|]. apply Hw.
    + intros w T' Hw Hd. by apply but_put.
  - intros r w Hw. destruct (outside_but _ _ N c T w (H7 r) Hw) as (x & w' & ? & ? & ?). eauto.
Qed.

(** A chain's cluster replies once. *)
Lemma cluster_ready N c r w :
  0 <= N < 2 ^ 62 → c ∈ Clusters.Remotes clusters → ready N w →
  ∃ x w', cluster Lr Lc env c r w = (Return [x], w') ∧ ready (N + 1) w' ∧
    result_ok (at_home c) r x.
Proof.
  intros HN Hc (HK & Hd & Hs).
  destruct (cluster_run (L := Lc c) (remote Lr env) (but N c) (at_home c) (λ a, home a = c)
    ltac:(intros a T <-; apply remote_run))
    with (N := N) (r := r) (w := w) as (x & w' & Hx & (HK' & Hd' & Hs') & Hc' & HV).
  - intros v T (HvK & Hvd & Hvs). split_and!.
    + by apply (ap_Kc Hap).
    + intros a. unfold ClustersProps.known. rewrite (ap_rc Hap). apply Hvd.
    + intros d Hd1 Hd2. rewrite (ap_cc Hap) by done. by apply Hvs.
  - by apply at_home_fitting.
  - done.
  - by apply Hs.
  - split_and!; [done|done|]. intros d Hd1 _. by apply Hs.
  - exists x, w'. split; [done|]. split; [|done]. split_and!; [done|done|].
    intros d Hd1. destruct (decide (d = c)) as [->|Hne]; [done|].
    apply (served_later _ N); [lia|by apply Hs'].
Qed.

(** So does the middleware of the clusters, for every chain. *)
Lemma root_ready N next r w :
  (∀ h r w, next = Some h → ready N w → ∃ x w', h r w = (Return [x], w') ∧ ready (N + 1) w' ∧ result_ok V r x) →
  0 <= N < 2 ^ 62 → ready N w →
  ∃ x w', Clusters.Middleware clusters (cluster Lr Lc env) next r w = (Return [x], w') ∧
    ready (N + 1) w' ∧ result_ok V r x.
Proof.
  intros Hnext HN Hw. unfold Clusters.Middleware.
  assert (ready (N + 1) w) as Hw' by (eapply ready_later; [|exact Hw]; lia).
  assert (∀ e, result_ok V r (reply_err e)) as Herr by (intros; by apply result_ok_nil).
  destruct (GetChain (r_ctx r)) as [chain|e] eqn:Hchain; [|by eexists _, w].
  case_bool_decide as Hc; cbn [negb]; [|destruct next; [by apply Hnext|by eexists _, w]].
  assert (∀ w, ready N w → ∃ x w', cluster Lr Lc env (Chain_Name chain) r w = (Return [x], w') ∧
    ready (N + 1) w' ∧ result_ok V r x) as Hcl.
  { intros v Hv. destruct (cluster_ready N (Chain_Name chain) r v) as (x & v' & Hx & Hv' & Ho); [done..|].
    exists x, v'. split_and!; [done|done|]. intros j Hj. apply (Ho j Hj). by exists chain. }
  destruct (Clusters.chainLookBack clusters !! Chain_Name chain) as [m|];
    [|by apply Hcl].
  unfold LookBack.Middleware.
  assert (∀ c, steady (ready N) (hs_Get c)) as Hg.
  { intros c v Hv. eexists _, v. split; [apply hs_Get_spec|done]. }
  destruct (LookBack_check_steady (ready N) m r Hg w Hw) as (e & w1 & He & H1).
  rewrite (prog_bind_return _ _ _ _ _ He). destruct e as [e|]; [|by apply Hcl].
  eexists _, w1. split; [done|]. split; [|done]. eapply ready_later; [|exact H1]. lia.
Qed.

Lemma outside_ready {A} Q (m : prog W A) N : outside Q m → steady (ready N) m.
Proof.
  intros Hm w (HK & Hd & Hs). destruct (Hm w HK) as (x & w' & Hx & HK' & _ & Hr & Hc).
  exists x, w'. split; [done|]. split_and!; [done| |].
  - intros a. unfold ClustersProps.known. rewrite Hr. apply Hd.
  - intros c Hc1. rewrite Hc. by apply Hs.
Qed.
End world.
End FleetFacts.

