(* ===== verification/Supply.v ===== *)
(** * The block store of a node, over its clusters

    [vennstore_New] with the memory cache, redis if there is one, and the
    remotes behind the clusters ([Fleet]): every query the cache middleware can
    make comes back, at the cost of at most eleven requests to a cluster; what is
    kept as a block or as receipts was told about the chain at that number, and
    what is kept as logs has logs of the chain, that can be filtered. *)
From S2P Require Import Prelude Errors Json EthTypes Logs Config Rpc Cluster HeadStore BlockStore Chainblock Cacher Clusters Fleet.

(** ** Logs that can be filtered *)

Module LogsFacts.
Import Cacher CacherFacts ChainblockFacts Chainblock.

Section facts.
Context `{ES : EthSpec} `{XS : JxSpec} `{Sn : Sonic} (P : json → Prop).

(** A log with [P] that the filter reads without going past the end of a hash or
    an address, and an answer in which all logs are. *)
Definition log_ok (log : json) : Prop :=
  json_valid log = true ∧ (∃ o, log_head log = Return o) ∧ P log.
Definition logs_ok (v : json) : Prop := ∀ l, jx_arr v = Ok l → Forall log_ok l.

(** What the filter keeps of the logs is among them. *)
Lemma entry_logs_kept f logs first :
  Forall log_ok logs → ∃ x, entry_logs f logs first = Return x ∧
    ∀ ts b, x = Ok (ts, b) → ∃ kept, Forall log_ok kept ∧ ts = sepj first (raws kept) ∧
      b = match kept with [] => first | _ => false end.
Proof.
  intros H. revert first. induction H as [|log logs Hlog _ IH]; intros first.
  { eexists. split; [done|]. intros ts b [= <- <-]. exists []. by split_and!. }
  pose proof Hlog as (Hv & [o Ho] & _). cbn [entry_logs]. rewrite jx_raw_spec by done. rewrite Ho.
  cbn [mbind outcome_bind]. destruct o as [header|e]; [|by eexists]. destruct (negb _); [apply IH|].
  destruct (IH false) as (x & -> & Hx). eexists. split; [done|]. cbn [mbind res_bind].
  destruct x as [[ts f']|e]; [|done]. intros ts' b [= <- <-].
  destruct (Hx ts f' eq_refl) as (kept & Hk & -> & ->). exists (log :: kept).
  split; [by constructor|]. split; [|by destruct kept]. by destruct first.
Qed.

Lemma entries_logs_kept f es first :
  Forall (λ e, logs_ok (Value e)) es → ∃ x, entries_logs f es first = Return x ∧
    ∀ ts, x = Ok ts → ∃ kept, Forall log_ok kept ∧ ts = sepj first (raws kept).
Proof.
  intros H. revert first. induction H as [|e es He _ IH]; intros first; cbn [entries_logs].
  { eexists. split; [done|]. intros ts [= <-]. by exists []. }
  destruct (jx_arr (Value e)) as [logs|er] eqn:Ha; [|by eexists].
  destruct (entry_logs_kept f logs first (He logs Ha)) as (x & -> & Hx). cbn [mbind outcome_bind].
  destruct x as [[ts f']|er]; [|by eexists]. destruct (Hx ts f' eq_refl) as (kept & Hk & -> & ->).
  destruct (IH (match kept with [] => first | _ => false end)) as (y & -> & Hy).
  eexists. split; [done|]. cbn [mbind res_bind]. destruct y as [rest|er]; [|done]. intros ts [= <-].
  destruct (Hy rest eq_refl) as (kept' & Hk' & ->). exists (kept ++ kept').
  split; [by apply Forall_app|]. unfold raws. rewrite map_app, sepj_app. f_equal.
  by destruct kept.
Qed.

(** An array of such logs. *)
Lemma logs_ok_array l : Forall log_ok l → logs_ok (JArr l).
Proof.
  intros Hl k Hk. rewrite jx_arr_spec in Hk; [by injection Hk as <-|].
  simpl. apply forallb_forall. intros v Hv%list_elem_of_In.
  rewrite Forall_forall in Hl. by destruct (Hl v Hv).
Qed.

Lemma filterLogs_kept f es :
  Forall (λ e, logs_ok (Value e)) es →
  ∃ o, filterLogs f es = Return o ∧ ∀ v, o = Ok v → logs_ok v.
Proof.
  intros Hes. unfold filterLogs. destruct (entries_logs_kept f es true Hes) as (x & -> & Hx).
  eexists. split; [done|]. destruct x as [ts|e]; [|done]. cbn [mbind res_bind]. intros v [= <-].
  destruct (Hx ts eq_refl) as (kept & Hk & ->). rewrite sepj_wjoin.
  pose proof (jx_buf_spec (DArr (map DRaw kept))) as Hb. cbn [doc_tokens doc_json] in Hb.
  rewrite !map_map in Hb. cbn [doc_tokens doc_json] in Hb. rewrite map_id in Hb.
  unfold raws. rewrite Hb. by apply logs_ok_array.
Qed.

(** The logs of a block, cut out of an answer, and written anew. *)
Definition slot_ok (s : slot) : Prop :=
  ∃ l, s.1 = block_tokens l ∧ Forall log_ok l ∧ (s.2 ≠ None → l ≠ []).

Lemma add_log_ok s slots raw slots' :
  log_ok raw → Forall slot_ok slots → add_log s slots raw = Ok slots' → Forall slot_ok slots'.
Proof.
  intros Hraw Hs. unfold add_log. destruct (sonic_hash _ raw) as [h|]; [|done].
  cbn [mbind res_bind]. destruct (sonic_number _ raw) as [n|]; [|done]. cbn [mbind res_bind].
  destruct (_ || _); intros [= <-]; [done|].
  apply Forall_lookup. intros i x. rewrite Forall_lookup in Hs.
  match goal with |- alter _ ?k slots !! i = _ → _ => destruct (decide (i = k)) as [->|Hne] end.
  - rewrite list_lookup_alter_eq. destruct (slots !! _) as [[enc res]|] eqn:Hx; [|done].
    intros [= <-]. destruct (Hs _ _ Hx) as (l & Henc & Hl & _). simpl in Henc. subst enc.
    exists (l ++ [raw]). cbn [fst snd]. rewrite block_tokens_snoc. split; [by destruct (block_tokens l)|].
    split; [|intros _; by destruct l].
    apply Forall_app. by split; [|apply Forall_singleton].
  - rewrite list_lookup_alter_ne by done. apply Hs.
Qed.

Lemma add_logs_ok s logs slots slots' :
  Forall log_ok logs → Forall slot_ok slots → add_logs s slots logs = Ok slots' →
  Forall slot_ok slots'.
Proof.
  intros Hl. revert slots. induction Hl as [|log logs Hlog _ IH]; intros slots Hs; [by intros [= <-]|].
  cbn [add_logs]. rewrite jx_raw_spec by apply Hlog. cbn [mbind res_bind].
  destruct (add_log s slots log) as [s1|] eqn:Ha; [|done]. apply IH. by eapply add_log_ok.
Qed.

Lemma close_slots_ok slots :
  Forall slot_ok slots → Forall (λ e, logs_ok (Value e)) (close_slots slots).
Proof.
  induction 1 as [|[enc [res|]] slots (l & Henc & Hl & Hne) _ IH]; [constructor| |exact IH].
  cbn [close_slots omap list_omap fmap option_fmap option_map]. constructor; [|exact IH].
  cbn [Value entry]. simpl in Henc. subst enc. rewrite block_tokens_buf by by apply Hne.
  by apply logs_ok_array.
Qed.
End facts.
End LogsFacts.

(** ** What a query costs *)

Module SupplyFacts.
Import FleetFacts ClusterRuns ClustersFacts LogsFacts LruStore.

(** The queries of the cache middleware: words that count up, and hashes. *)
Definition fair (q : Query) : Prop :=
  match q with
  | QueryRange s e => 0 <= s <= e ∧ e < two63 ∧ e - s <= Cacher.maxLogRange
  | QueryHash _ => True
  end.

(** *** What is kept *)

Section truth.
Context `{ES : EthSpec} `{XS : JxSpec} `{Sn : Sonic}.
(** What a request may be answered, and what the chain of a name has at a
    number: a block, the receipts of a block, a log in it. *)
Context (V : request → json → Prop) (fact : EntryType → string → Z → json → Prop).

Definition told (k : EntryType) (c : string) (n : Z) (v : json) : Prop :=
  v = JNull ∨ fact k c n v.

(** An answer whose logs are the chain's, and can be filtered. *)
Definition logs_told (c : string) (v : json) : Prop :=
  logs_ok (λ log, ∃ n, fact EntryLogs c n log) v.

(** What is kept is what the chain has there, or the null of what it has not. *)
Definition entry_ok (c : string) (k : EntryType) (e : Entry) : Prop :=
  match k with
  | EntryLogs => logs_told c (Value e)
  | _ => told k c (BlockNumber e) (Value e)
  end.
Definition good (c : string) (k : EntryType) (es : list Entry) : Prop := Forall (entry_ok c k) es.

Definition numbered (q : Query) (es : list Entry) : Prop :=
  match q with
  | QueryRange s e => Forall (λ x, s <= BlockNumber x <= e) es
  | QueryHash _ => True
  end.

(** The answers that are asked for are about the chain: a block by its number,
    by a tag, or by its hash, receipts by their number, and logs. *)
Record truthful : Prop := {
  tr_number ctx c i v : GetChain ctx = Ok c →
    V (internal_request ctx "eth_getBlockByNumber" (JArr [JStr (EncodeUint64 i); JBool true])) v →
    told EntryBlockHeader (Chain_Name c) i v;
  tr_tag ctx c bn v n : GetChain ctx = Ok c → bn < 0 →
    V (internal_request ctx "eth_getBlockByNumber" (JArr [BlockNumber.MarshalJSON bn; JBool true])) v →
    unmarshal_field "number" uint64_unmarshal 0 v = Ok n → told EntryBlockHeader (Chain_Name c) n v;
  tr_hash ctx c h v n : GetChain ctx = Ok c →
    V (internal_request ctx "eth_getBlockByHash" (JArr [hash_marshal h; JBool true])) v →
    sonic_number "number" v = Ok n → told EntryBlockHeader (Chain_Name c) n v;
  tr_receipts ctx c i v : GetChain ctx = Ok c →
    V (internal_request ctx "eth_getBlockReceipts" (JArr [JStr (EncodeUint64 i)])) v →
    told EntryReceipts (Chain_Name c) i v;
  tr_logs r c v : GetChain (r_ctx r) = Ok c → r_method r = "eth_getLogs" → V r v →
    logs_told (Chain_Name c) v;
}.
End truth.

(** *** The memory cache *)

Section lru.
Context `{ES : EthSpec} `{XS : JxSpec} `{Sn : Sonic} (fact : EntryType → string → Z → json → Prop).
Abbreviation entry_ok := (entry_ok fact).
Abbreviation good := (good fact).
Context {LN LH : Type} `{SN : !Simplelru lruNumberKey Entry LN} `{SH : !Simplelru lruHashKey Entry LH}.
Context `{SNs : !SimplelruSpec lruNumberKey Entry LN} `{SHs : !SimplelruSpec lruHashKey Entry LH}.
Implicit Types T : LruStore.t LN LH.

(** What it holds is true. *)
Record lru_ok T : Prop := {
  lk_inv : LruFacts.inv T;
  lk_number k n c e : lru_map (byNumber T) !! (k, n, c) = Some e → entry_ok c k e;
  lk_hash k h c e : lru_map (byHash T) !! (k, h, c) = Some e → entry_ok c k e;
}.

Lemma range_loop_in fuel typ chain i e entries (l : LN) es x :
  (range_loop fuel typ chain i e entries l).1 = Some (Ok es) → x ∈ es →
  x ∈ entries ∨ ∃ n, lru_map l !! (typ, n, chain) = Some x.
Proof.
  revert i entries l. induction fuel as [|fuel IH]; intros i entries l; cbn [range_loop];
    destruct (i <=? e); try done; try (by intros [= <-]; left).
  destruct (lru_get_spec (typ, i, chain) l) as (Hv & Hm & _).
  destruct (lru_get _ l) as [[y|] l']; simpl in *; [|done]. intros Hr Hx.
  destruct (IH _ _ _ Hr Hx) as [Hin|[n Hn]]; [|right; exists n; by rewrite <- Hm].
  apply elem_of_app in Hin as [?|Hy%list_elem_of_singleton]; [by left|]. subst y.
  right. by exists i.
Qed.

(** A read: what comes back, and the cache it leaves. *)
Lemma lru_read {W} `{L : !Lens (LruStore.t LN LH) W} c k q w :
  lru_ok (lget w) → fair q →
  ∃ x T, st_Get LruStore.store c k q w = (Return x, lput T w) ∧ lru_ok T ∧
    ∀ es, x = Ok es → good (Chain_Name c) k es ∧ numbered q es.
Proof.
  intros Hok Hq.
  assert (∀ x T, st_Get LruStore.store c k q w = (Return x, lput T w) → ∀ es, x = Ok es → numbered q es)
    as Hnum.
  { intros x T Hx es ->. destruct q as [s e|h]; [|done].
    pose proof (LruFacts.Get_inv c k (QueryRange s e) w (lk_inv _ Hok)) as Hi.
    cbn [LruStore.store st_Get] in Hx. rewrite Hx in Hi. destruct Hi as [_ Hf]; [destruct Hq as (? & ? & ?); split; go_lia|].
    by apply (full_answer_answers (QueryRange s e)), Hf. }
  assert (∃ x T, st_Get LruStore.store c k q w = (Return x, lput T w) ∧ lru_ok T ∧
    ∀ es, x = Ok es → good (Chain_Name c) k es) as (x & T & Hx & HT & Hg).
  2: { exists x, T. split_and!; [done..|]. intros es Hes. split; [by apply Hg|by eapply Hnum]. }
  clear Hnum. destruct Hok as [[Hn Hh Hc Hs] Hln Hlh]. cbn [LruStore.store st_Get]. unfold LruStore.Get.
  unfold read. rewrite (prog_bind_return _ _ (lget w) w w) by done. destruct q as [s e|h].
  - unfold make_pointers. destruct Hq as (Hse & He & Hr). unfold Cacher.maxLogRange in Hr.
    rewrite (proj2 (Z.ltb_ge _ _)) by (rewrite u64_small by go_lia; unfold maxAlloc; lia).
    destruct (LruFacts.range_loop_total k (Chain_Name c) s e [] (byNumber (lget w)) _ Hc Hs)
      as [r Hr']; [go_lia|].
    pose proof (LruFacts.range_loop_map (Datatypes.S (Z.to_nat (size (lget w)))) k (Chain_Name c) s e []
      (byNumber (lget w))) as [Hm Hc'].
    pose proof (range_loop_in (Datatypes.S (Z.to_nat (size (lget w)))) k (Chain_Name c) s e []
      (byNumber (lget w))) as Hin.
    unfold lift. rewrite (prog_bind_return _ _ () w w) by done.
    destruct (range_loop _ _ _ _ _ _ _) as [r' l]. cbn [fst snd] in *. subst r'.
    eexists r, _. split; [reflexivity|]. split; [split; [split|..]; simpl; rewrite ?Hm; auto; congruence|].
    intros es ->. apply Forall_forall. intros x Hx.
    destruct (Hin es x eq_refl Hx) as [?%elem_of_nil|[n Hn']]; [done|by eapply Hln].
  - destruct (lru_get_spec (k, h, Chain_Name c) (byHash (lget w))) as (Hv & Hm & Hc').
    destruct (lru_get _ (byHash (lget w))) as [x l]. cbn [fst snd] in *.
    eexists _, _. split; [reflexivity|]. split; [split; [split|..]; simpl; rewrite ?Hm; auto|].
    intros es He. destruct x as [x|]; [|done]. injection He as <-.
    apply Forall_singleton. by eapply Hlh.
Qed.

Lemma put1_ok chain k e T :
  entry_ok chain k e → lru_ok T → lru_ok (put1 chain k e T).
Proof.
  intros He [Hinv Hln Hlh]. split; [by apply LruFacts.put1_inv|..]; unfold put1; simpl;
    fold (LruFacts.checked_parent chain k e (byNumber T)).
  - destruct (LruFacts.checked_parent_spec chain k e (byNumber T)) as (_ & Hmap & _).
    destruct (lru_add_spec (k, BlockNumber e, chain) e
      (LruFacts.checked_parent chain k e (byNumber T))) as (_ & Ha & _).
    intros k' n c' e' [[[= -> _ ->] ->]|Hx]%Ha; [done|].
    destruct Hmap as [Hmap|Hmap]; rewrite Hmap in Hx; [by eapply Hln|by rewrite lookup_empty in Hx].
  - destruct (lru_add_spec (k, BlockHash e, chain) e (byHash T)) as (_ & Ha & _).
    intros k' h c' e' [[[= -> _ ->] ->]|Hx]%Ha; [done|by eapply Hlh].
Qed.

Lemma puts_ok chain k es T :
  good chain k es → lru_ok T → lru_ok (foldl (λ T e, put1 chain k e T) T es).
Proof.
  intros Hes. revert T. induction Hes as [|e es He _ IH]; intros T HT; [done|]. by apply IH, put1_ok.
Qed.
End lru.

Section supply.
Context {R W : Type} `{!EqDecision R} `{J : Jrpc} `{ES : EthSpec} `{XS : JxSpec} `{SnS : SonicSpec}.
Context `{HS : HeadStoreSpec W}.
Context (Lr : R → Lens RemoteTarget.t W) (Lc : string → Lens (Cluster.t R) W).
Context (env : R → Fleet.Env (W := W)) (clusters : Clusters.t) (K : W → Prop).
Context (home : R → string) (V : request → json → Prop).
Context (fact : EntryType → string → Z → json → Prop).

Abbreviation ready := (ready Lr Lc clusters K home).
Abbreviation outside := (outside Lr Lc K).
Abbreviation entry_ok := (entry_ok fact).
Abbreviation good := (good fact).

(** What a query gives. *)
Definition gives (c : string) (k : EntryType) (q : Query) (x : res goerr (list Entry)) : Prop :=
  ∀ es, x = Ok es → good c k es ∧ numbered q es.

(** [m] returns a value with [Q], at the cost of [b] requests. *)
Definition costs {A} (b : Z) (Q : A → Prop) (m : prog W A) : Prop :=
  ∀ N w, 0 <= N → N + b < 2 ^ 62 → ready N w →
    ∃ a w', m w = (Return a, w') ∧ ready (N + b) w' ∧ Q a.

Lemma costs_ret {A} (Q : A → Prop) a : Q a → costs 0 Q (mret a).
Proof. intros HQ N w HN Hb Hw. exists a, w. by rewrite Z.add_0_r. Qed.

Lemma costs_bind {A B} b1 b2 (Q : A → Prop) (R' : B → Prop) m k :
  0 <= b1 → 0 <= b2 → costs b1 Q m → (∀ a, Q a → costs b2 R' (k a)) → costs (b1 + b2) R' (m ≫= k).
Proof.
  intros H1 H2 Hm Hk N w HN Hb Hw.
  destruct (Hm N w) as (a & w1 & Ha & Hw1 & HQ); [done|lia|done|].
  destruct (Hk a HQ (N + b1) w1) as (x & w2 & Hx & Hw2 & HR); [lia|lia|done|].
  exists x, w2. rewrite (prog_bind_return _ _ _ _ _ Ha), Z.add_assoc. done.
Qed.

Lemma costs_le {A} b b' (Q Q' : A → Prop) m :
  b <= b' → (∀ a, Q a → Q' a) → costs b Q m → costs b' Q' m.
Proof.
  intros Hb HQ Hm N w HN Hb' Hw. destruct (Hm N w) as (a & w1 & Ha & Hw1 & HQa); [done|lia|done|].
  exists a, w1. split; [done|]. split; [|by apply HQ]. eapply ready_later; [|exact Hw1]. lia.
Qed.

Lemma costs_then {A B} b (Q : A → Prop) (Q' : B → Prop) m (f : A → B) :
  0 <= b → (∀ a, Q a → Q' (f a)) → costs b Q m → costs b Q' (x ← m; mret (f x)).
Proof.
  intros Hb HQ Hm. rewrite <- (Z.add_0_r b). eapply costs_bind; [done|done|exact Hm|].
  intros a Ha. by apply costs_ret, HQ.
Qed.

Lemma costs_outside {A} (Q : A → Prop) (m : prog W A) : outside Q m → costs 0 Q m.
Proof.
  intros Hm N w HN Hb (HK & Hd & Hs). destruct (Hm w HK) as (x & w' & Hx & HK' & HQ & Hr & Hc).
  exists x, w'. rewrite Z.add_0_r. split; [done|]. split; [|done]. split_and!; [done| |].
  - intros a. unfold ClustersProps.known. rewrite Hr. apply Hd.
  - intros c Hc1. rewrite Hc. by apply Hs.
Qed.

Lemma costs_lift {A B} b (Q : A → Prop) (a : B) (k : B → prog W A) o :
  o = Return a → costs b Q (k a) → costs b Q (lift o ≫= k).
Proof. by intros ->. Qed.

(** *** A store whose queries cost [b] requests *)

Record priced (b : Z) (s : Store W) : Prop := {
  pr_get c k q : fair q → costs b (gives (Chain_Name c) k q) (st_Get s c k q);
  pr_put c k es : good (Chain_Name c) k es → costs 0 (λ _, True) (st_Put s c k es);
}.

(** *** Several stores *)

Definition puts (s : Store W) : Prop :=
  ∀ c k es, good (Chain_Name c) k es → costs 0 (λ _, True) (st_Put s c k es).

Lemma put_all_costs c k es stores merr :
  good (Chain_Name c) k es → Forall (λ ns, puts ns.2) stores →
  costs 0 (λ _, True) (Compound.put_all c k es stores merr).
Proof.
  intros Hg Hs. revert merr. induction Hs as [|[n s] stores Hs _ IH]; intros merr; [by apply costs_ret|].
  cbn [Compound.put_all]. apply (costs_bind 0 0 (λ _, True)); [done|done|by apply Hs|].
  intros a _. apply IH.
Qed.

Lemma find_costs c k q (bs : list Z) before stores merr :
  fair q → Forall (λ b, 0 <= b) bs → Forall2 (λ b ns, priced b ns.2) bs stores →
  Forall (λ ns, puts ns.2) before →
  costs (foldr Z.add 0 bs)
    (λ x, ∀ b es, x = inr (b, es) → gives (Chain_Name c) k q (Ok es) ∧ Forall (λ ns, puts ns.2) b)
    (Compound.find c k q before stores merr).
Proof.
  intros Hq Hb Hs. revert before merr.
  induction Hs as [|b [n s] bs stores [Hget Hput] _ IH]; intros before merr Hbefore.
  { apply costs_ret. by intros b es. }
  apply Forall_cons in Hb as [Hb0 Hb]. cbn [Compound.find foldr].
  assert (0 <= foldr Z.add 0 bs) as Hsum by (clear - Hb; induction Hb; simpl; lia).
  eapply costs_bind; [done|done|by apply Hget|].
  intros [es|e] Hes; [|apply IH; [done|]; apply Forall_app; by split; [|apply Forall_singleton]].
  apply (costs_le 0 _ _ _ _ Hsum (λ a Ha, Ha)), costs_ret. intros b' es' [= <- <-]. split; [by intros l [= <-]; apply Hes|done].
Qed.

Lemma compound_priced bs (T : Compound.t W) :
  Forall (λ b, 0 <= b) bs → Forall2 (λ b ns, priced b ns.2) bs T →
  priced (foldr Z.add 0 bs) (Compound.store T).
Proof.
  intros Hb HT. assert (0 <= foldr Z.add 0 bs) as Hsum by (clear - Hb; induction Hb; simpl; lia).
  split; intros c k.
  - intros q Hq. cbn [Compound.store st_Get]. unfold Compound.Get.
    destruct (Compound.backwards q).
    { apply (costs_le 0 _ _ _ _ Hsum (λ a Ha, Ha)), costs_ret. intros es [= <-].
      split; [constructor|by destruct q; [constructor|]]. }
    rewrite <- (Z.add_0_r (foldr _ _ _)).
    eapply costs_bind; [done|done|apply (find_costs c k); [done..|constructor]|].
    intros [[e|]|[b es]] Hx; [by apply costs_ret..|]. destruct (Hx b es eq_refl) as [Hg Hputs].
    destruct (Hg es eq_refl) as [Hes _].
    apply (costs_then 0 (λ _, True)); [done| |by apply put_all_costs].
    intros [e|] _ es'; [done|]. by apply Hg.
  - intros es Hg. apply put_all_costs; [done|].
    clear - HT. induction HT as [|b ns bs T Hp _ IH]; constructor; [|done]. intros c k es. apply Hp.
Qed.

(** *** The remotes: [Chainblock] *)

Section chainblock.
Context (remote : handler W).
Hypothesis Htrue : truthful V fact.
(** One request to the clusters, and what comes of it. *)
Hypothesis Hremote : ∀ r, costs 1 (λ sends, ∃ x, sends = [x] ∧ result_ok V r x) (remote r).

Definition answers (r : request) (x : res goerr json) : Prop := ∀ v, x = Ok v → V r v.

Lemma Do_costs ctx m args :
  costs 1 (answers (internal_request ctx m args)) (Do ctx remote m args).
Proof.
  apply (costs_then 1 (λ sends, ∃ x, sends = [x] ∧ result_ok V (internal_request ctx m args) x));
    [done| |apply Hremote].
  intros sends ([v e] & -> & Hv) j. unfold intercept. cbn [last default].
  destruct e; [by destruct v|]. intros Hj. apply Hv. by destruct v.
Qed.

(** A loop over a range asks once for each number. *)
Definition each_has (P : Entry → Prop) (x : res goerr (list Entry)) : Prop :=
  ∀ es, x = Ok es → Forall P es.

Lemma fetch_range_costs (P : Entry → Prop) fetch s e fuel i out :
  (∀ i, s <= i <= e → costs 1 (λ x, ∀ y, x = Ok (Some y) → P y) (fetch i)) → Forall P out →
  0 <= s <= i → i <= e + 1 → e < two63 → Z.of_nat fuel = e + 2 - i →
  costs (Z.of_nat fuel - 1) (each_has P)
    (Chainblock.fetch_range fetch s e (u64 (e - s + 1)) fuel i out).
Proof.
  intros Hf Hout Hs Hi He. revert i out Hout Hs Hi.
  induction fuel as [|fuel IH]; intros i out Hout Hs Hi Hfuel; [lia|]. cbn [Chainblock.fetch_range].
  assert (∀ b x, 0 <= b → each_has P x →
    costs b (each_has P) (mret x)) as Hret.
  { intros b x Hb Hx. by apply (costs_le 0 b _ _ _ Hb (λ a Ha, Ha)), costs_ret. }
  destruct (Z.leb_spec i e) as [Hie|Hie]; [|by apply Hret; [lia|intros es [= <-]]].
  replace (Z.of_nat (Datatypes.S fuel) - 1) with (1 + (Z.of_nat fuel - 1)) by lia.
  eapply costs_bind; [lia|lia|by apply Hf; lia|]. intros [[x|]|er] Hx.
  - rewrite !u64_small by go_lia. rewrite (proj2 (Z.ltb_lt _ _)) by lia.
    rewrite <- (u64_small (e - s + 1)) by go_lia. apply IH; try lia.
    apply Forall_app. split; [done|]. by apply Forall_singleton, Hx.
  - apply Hret; [lia|]. intros es [= <-]. constructor.
  - apply Hret; [lia|done].
Qed.

Lemma get_range_costs (P : Entry → Prop) fetch s e :
  (∀ i, s <= i <= e → costs 1 (λ x, ∀ y, x = Ok (Some y) → P y) (fetch i)) →
  fair (QueryRange s e) →
  costs 11 (each_has P) (Chainblock.get_range fetch s e).
Proof.
  intros Hf (Hs & He & Hr). unfold Cacher.maxLogRange in Hr. unfold Chainblock.get_range.
  rewrite (proj2 (Z.ltb_ge _ _)) by lia. unfold make_slice.
  rewrite (proj2 (Z.ltb_ge maxAlloc _)) by (rewrite u64_small by go_lia; unfold maxAlloc; lia).
  change (costs 11 (each_has P)
    (Chainblock.fetch_range fetch s e (u64 (e - s + 1)) (Datatypes.S (Z.to_nat (e - s + 1))) s [])).
  eapply costs_le; [|intros a Ha; exact Ha|apply fetch_range_costs; [done|constructor|lia..]]. lia.
Qed.

(** Blocks and receipts, which are asked for one by one. *)
Lemma fetch_header_costs ctx c i :
  costs 1 (λ x, ∀ y, x = Ok (Some y) → entry_ok (Chain_Name c) EntryBlockHeader y ∧ BlockNumber y = i)
    (Chainblock.fetch_header (WithChain ctx c) remote i).
Proof.
  eapply (costs_then 1); [done| |apply Do_costs]. intros [v|er] Hv y; [|done]. cbn [mbind res_bind].
  destruct (sonic_hash "hash" v) as [h|]; [|done]. cbn [mbind res_bind].
  destruct (sonic_hash "parentHash" v) as [p|]; [|done]. cbn [mbind res_bind].
  destruct (Chainblock.no_hash h); [done|]. intros [= <-]. split; [|done].
  eapply tr_number; [exact Htrue| |by apply Hv]. apply GetChain_WithChain.
Qed.

Lemma fetch_receipts_costs ctx c i :
  costs 1 (λ x, ∀ y, x = Ok (Some y) → entry_ok (Chain_Name c) EntryReceipts y ∧ BlockNumber y = i)
    (Chainblock.fetch_receipts (WithChain ctx c) remote i).
Proof.
  eapply (costs_then 1); [done| |apply Do_costs]. intros [v|er] Hv y; [|done]. cbn [mbind res_bind].
  destruct (sonic_first v) as [first|]; [|done]. cbn [mbind res_bind].
  destruct (sonic_hash "blockHash" first) as [h|]; [|done]. cbn [mbind res_bind].
  destruct (Chainblock.no_hash h); [done|]. intros [= <-]. split; [|done].
  eapply tr_receipts; [exact Htrue| |by apply Hv]. apply GetChain_WithChain.
Qed.

Lemma header_by_hash_costs ctx c h :
  costs 1 (gives (Chain_Name c) EntryBlockHeader (QueryHash h))
    (Chainblock.getBlockHeaders (WithChain ctx c) remote (QueryHash h)).
Proof.
  cbn [Chainblock.getBlockHeaders]. eapply (costs_then 1); [done| |apply Do_costs].
  intros [v|er] Hv es; [|done]. cbn [mbind res_bind].
  destruct (sonic_hash "hash" v) as [h'|]; [|done]. cbn [mbind res_bind].
  destruct (sonic_number "number" v) as [n|] eqn:Hn; [|done]. cbn [mbind res_bind].
  destruct (sonic_hash "parentHash" v) as [p|]; [|done]. cbn [mbind res_bind].
  case_bool_decide; intros [= <-]; (split; [|done]); [|constructor]. apply Forall_singleton.
  eapply tr_hash; [exact Htrue| |by apply Hv|exact Hn]. apply GetChain_WithChain.
Qed.

(** The entries of a range come in the range. *)
Lemma range_gives c k s e m :
  costs 11 (each_has (λ y, entry_ok (Chain_Name c) k y ∧ s <= BlockNumber y <= e)) m →
  costs 11 (gives (Chain_Name c) k (QueryRange s e)) m.
Proof.
  apply costs_le; [done|]. intros x Hx es Hes. specialize (Hx es Hes). by apply Forall_and in Hx.
Qed.

(** The logs that are asked for. *)
Lemma getLogs_costs ctx c writer_size q :
  0 <= writer_size <= 2 ^ 32 → fair q →
  costs 11 (each_has (λ e, logs_told fact (Chain_Name c) (Value e)))
    (Chainblock.getLogs writer_size (WithChain ctx c) remote q).
Proof.
  intros Hsize Hq.
  assert (∀ args v, V (internal_request (WithChain ctx c) "eth_getLogs" args) v →
    logs_told fact (Chain_Name c) v) as Hlogs.
  { intros args v. apply (tr_logs _ _ Htrue (internal_request (WithChain ctx c) _ args)); [|done].
    change (GetChain (WithChain ctx c) = Ok c). apply GetChain_WithChain. }
  unfold Chainblock.getLogs. destruct q as [s e|h].
  - destruct Hq as (Hs & He & Hr). unfold Cacher.maxLogRange in Hr.
    rewrite (proj2 (Z.ltb_ge _ _)) by lia.
    eapply costs_le; [|intros a Ha; exact Ha|eapply (costs_bind 1 0); [done|done|apply Do_costs|]];
      [done|]. intros [v|er] Hv; [|by apply costs_ret].
    assert (logs_told fact (Chain_Name c) v) as Hv' by by eapply Hlogs, Hv. clear Hv.
    destruct (_ =? _).
    + apply costs_ret. intros es. cbn [mbind res_bind].
      destruct (sonic_first v) as [first|]; [|done]. cbn [mbind res_bind].
      destruct (sonic_hash _ first) as [h|]; [|done]. cbn [mbind res_bind].
      destruct (Chainblock.no_hash h); intros [= <-]; [constructor|by apply Forall_singleton].
    + unfold make_slice. rewrite u64_small by go_lia.
      do 2 rewrite (proj2 (Z.ltb_ge maxAlloc _)) by (unfold maxAlloc; nia).
      do 2 (eapply costs_lift; [reflexivity|]).
      apply costs_ret. intros es. destruct (jx_arr v) as [arr|] eqn:Ha; [|done]. cbn [mbind res_bind].
      destruct (Chainblock.add_logs _ _ arr) as [slots|] eqn:Hadd; [|done]. intros [= <-].
      apply close_slots_ok. eapply add_logs_ok; [by apply Hv'| |exact Hadd].
      apply Forall_replicate. exists []. by split_and!.
  - eapply costs_le; [|intros a Ha; exact Ha|eapply (costs_then 1); [done| |apply Do_costs]]; [done|].
    intros [v|er] Hv es; [|done].
    assert (logs_told fact (Chain_Name c) v) as Hv' by by eapply Hlogs, Hv. cbn [mbind res_bind].
    destruct (sonic_first v) as [first|]; [|done]. cbn [mbind res_bind].
    destruct (sonic_hash _ first) as [h'|]; [|done]. cbn [mbind res_bind].
    destruct (sonic_number _ first) as [n|]; [|done]. cbn [mbind res_bind].
    case_bool_decide; intros [= <-]; [by apply Forall_singleton|constructor].
Qed.

(** What every run gives besides. *)
Lemma costs_and {A} b (Q Q' : A → Prop) m :
  (∀ w a w', m w = (Return a, w') → Q' a) → costs b Q m → costs b (λ a, Q a ∧ Q' a) m.
Proof.
  intros HQ Hm N w HN Hb Hw. destruct (Hm N w HN Hb Hw) as (a & w' & Ha & Hw' & Hq).
  exists a, w'. split_and!; [done|done|done|by eapply HQ].
Qed.
End chainblock.

(** *** The store of a node *)

Section store.
Context {LN LH : Type} `{SN : !Simplelru lruNumberKey Entry LN} `{SH : !Simplelru lruHashKey Entry LH}.
Context `{SNs : !SimplelruSpec lruNumberKey Entry LN} `{SHs : !SimplelruSpec lruHashKey Entry LH}.
Context `{LL : !Lens (LruStore.t LN LH) W}.
Context (Hex : hash → string) (ctx_done : prog W (option goerr)).
Context (DoChan : string → prog W (res goerr (list Entry)) → prog W (res goerr (list Entry))).
Context (rediblock : option (Store W)) (writer_size : Z) (ctx : context).

Definition chainblock : Store W :=
  Chainblock.store (λ next, Clusters.Middleware clusters (Fleet.cluster Lr Lc env) (Some next))
    writer_size ctx.

Definition node_store : Store W :=
  vennstore_New LruStore.store rediblock chainblock (SingleFlight.store Hex DoChan ctx_done).

(** The cache is a part of the world of its own; redis, if there is one, gives
    what is true; the single flight lets a request run. *)
Record supplied : Prop := {
  su_lru w : K w → lru_ok fact (lget w);
  su_put T w : K w → lru_ok fact T → K (lput T w) ∧
    (∀ a, lget (Lens := Lr a) (lput T w) = lget (Lens := Lr a) w) ∧
    ∀ c, lget (Lens := Lc c) (lput T w) = lget (Lens := Lc c) w;
  su_redis_get s c k q : rediblock = Some s →
    outside (gives (Chain_Name c) k q) (st_Get s c k q);
  su_redis_put s c k es : rediblock = Some s → outside some_value (st_Put s c k es);
  su_DoChan key f w : DoChan key f w = f w;
  su_ctx_done : outside some_value ctx_done;
  su_size : 0 <= writer_size <= 2 ^ 32;
}.

Hypothesis Hap : apart Lr Lc clusters K.
Hypothesis Henv : ∀ a, env_ok Lr Lc env K home V a.
Hypothesis Hfit : fitting V.
Hypothesis Htrue : truthful V fact.
Hypothesis Hsu : supplied.

Lemma lru_priced : priced 0 LruStore.store.
Proof.
  split.
  - intros c k q Hq. apply costs_outside. intros w Hw.
    destruct (lru_read fact c k q w (su_lru Hsu w Hw) Hq) as (x & T & Hx & HT & Hg).
    destruct (su_put Hsu T w Hw HT) as (? & ? & ?). exists x, (lput T w). by split_and!.
  - intros c k es Hg. apply costs_outside. intros w Hw. eexists _, _. split; [reflexivity|].
    pose proof (puts_ok fact (Chain_Name c) k es (lget w) Hg (su_lru Hsu w Hw)) as HT.
    destruct (su_put Hsu _ w Hw HT) as (? & ? & ?). by split_and!.
Qed.

Lemma clusters_cost next r :
  (∀ r w, ∃ x, next r w = (Return [x], w) ∧ result_ok V r x) →
  costs 1 (λ sends, ∃ x, sends = [x] ∧ result_ok V r x)
    (Clusters.Middleware clusters (Fleet.cluster Lr Lc env) (Some next) r).
Proof.
  intros Hnext N w HN Hb Hw.
  destruct (root_ready Lr Lc env clusters K home V Hap Henv Hfit N (Some next) r w)
    as (x & w' & Hx & Hw' & Hv); [|lia|done|eexists _, w'; eauto].
  intros h r' w1 [= <-] Hw1. destruct (Hnext r' w1) as (x & Hx & Hv). exists x, w1.
  split_and!; [done| |done]. eapply ready_later; [|exact Hw1]. lia.
Qed.

Lemma chainblock_priced : priced 11 chainblock.
Proof.
  split.
  2: { intros c k es _. by apply (costs_ret (λ _, True)). }
  intros c k q Hq. unfold chainblock. cbn [Chainblock.store st_Get]. unfold Chainblock.Get.
  match goal with |- context [Chainblock.getBlockHeaders _ ?h _] => set (remote := h) end.
  assert (∀ r, costs 1 (λ sends, ∃ x, sends = [x] ∧ result_ok V r x) (remote r)) as Hr.
  { intros r. apply clusters_cost. intros r' w. eexists. split; [reflexivity|]. by apply result_ok_nil. }
  destruct k.
  - destruct q as [s e|h].
    + cbn [Chainblock.getBlockHeaders]. apply range_gives, get_range_costs; [|done]. intros i Hi.
      eapply costs_le; [done| |by apply fetch_header_costs]. intros x Hx y Hy.
      by destruct (Hx y Hy) as [? ->].
    + eapply costs_le; [|intros a Ha; exact Ha|by apply header_by_hash_costs]. done.
  - apply (costs_le 11 11 (λ x, each_has (λ e, logs_told fact (Chain_Name c) (Value e)) x ∧
      ∀ es, x = Ok es → numbered q es)); [done|intros x [Hx Hn] es Hes; split; [by apply Hx|by apply Hn]|].
    apply costs_and; [|by apply getLogs_costs; [..|apply (su_size Hsu)|]].
    intros w x w' Hx es ->. destruct q as [s e|h]; [|done].
    eapply (ChainblockProps.getLogs_sound writer_size _ _ (QueryRange s e)); [|exact Hx].
    destruct Hq as (? & ? & ?). split; go_lia.
  - destruct q as [s e|h]; cbn [Chainblock.getReceipts].
    + apply range_gives, get_range_costs; [|done]. intros i Hi.
      eapply costs_le; [done| |by apply fetch_receipts_costs]. intros x Hx y Hy.
      by destruct (Hx y Hy) as [? ->].
    + by apply (costs_le 0 11 _ _ _ ltac:(done) (λ a Ha, Ha)), costs_ret.
Qed.

Lemma single_flight_priced b (s : Store W) :
  0 <= b → priced b s → priced b (SingleFlight.store Hex DoChan ctx_done s).
Proof.
  intros Hb [Hget Hput]. split; [|done]. intros c k q Hq. cbn [SingleFlight.store st_Get].
  unfold SingleFlight.Get. rewrite <- (Z.add_0_r b).
  eapply costs_bind; [done|done| |intros r Hr].
  - intros N w HN HNb Hw. rewrite (su_DoChan Hsu). by apply Hget.
  - eapply (costs_then 0 some_value); [done| |apply costs_outside, (su_ctx_done Hsu)].
    intros [e|] _; [done|exact Hr].
Qed.

Lemma redis_priced s : rediblock = Some s → priced 0 s.
Proof.
  intros Hs. split.
  - intros c k q _. by apply costs_outside, (su_redis_get Hsu).
  - intros c k es _. eapply costs_outside, (su_redis_put Hsu); exact Hs.
Qed.

Lemma node_store_priced : priced 11 node_store.
Proof.
  unfold node_store, vennstore_New. apply single_flight_priced; [done|].
  pose proof lru_priced as Hlru. pose proof chainblock_priced as Hchain.
  pose proof redis_priced as Hredis. case_eq rediblock.
  - intros s Hs. specialize (Hredis s Hs).
    apply (compound_priced [0; 0; 11]); by repeat first [done | constructor].
  - intros _. apply (compound_priced [0; 11]); by repeat first [done | constructor].
Qed.
End store.
End supply.
End SupplyFacts.
