(* ===== verification/Whole.v ===== *)
(** * The whole node: from the client to the proxies of the remotes

    The clusters ([Fleet]) and the block store over them ([Supply]) under the
    handler of the node ([Node]): every request is replied to, once, and what is
    shown as a block or as a log was told by a remote of the chain. *)
From S2P Require Import Prelude Errors Json EthTypes Logs Config Rpc CallCenter Doctor Cluster HeadStore BlockStore HeadReplacer Cacher Clusters Forger Subcenter Ingress Node Fleet Supply.

(** ** Lemmas: the middlewares in front of the clusters reply once *)

Module OnceFacts.
Import NodeFacts ClustersFacts ClusterRuns LogsFacts SupplyFacts.

(** One reply, with [Q]. *)
Definition replies (Q : reply → Prop) (o : outcome (list reply)) : Prop :=
  ∃ x, o = Return [x] ∧ Q x.
Definition one_reply : outcome (list reply) → Prop := replies (λ _, True).

Section once.
Context {W : Type} `{J : Jrpc} `{ES : EthSpec} `{XS : JxSpec} `{Sn : Sonic} `{HS : HeadStoreSpec W}.
Context (V : request → json → Prop) (fact : EntryType → string → Z → json → Prop).

(** The block that is shown to a client, with its transactions or their hashes. *)
Definition shown (details : bool) (v u : json) : Prop :=
  (u = v ∧ (details = true ∨ v = JNull)) ∨
  (details = false ∧ Cacher.removeTransactionDetails v = Ok u).

(** The block a request by number is for, when the newest block is [head]; [0]
    stands for none that is known. *)
Definition asked (head bn : Z) : Z :=
  if decide (bn = BlockNumber.LatestBlockNumber ∧ head ≠ 0) then head else bn.

(** A reply to a request for a block is an error, or nothing, or it shows a
    block of the chain, and under its number the one that was asked for. *)
Definition block_reply (c : string) (head : Z) (r : request) (x : reply) : Prop :=
  x.2 = None → x.1 ≠ VNil → ∃ p0 p1 details n v u,
    unmarshal_params unmarshal_raws r = Ok [p0; p1] ∧ unmarshal_bool p1 = Ok details ∧
    told fact EntryBlockHeader c n v ∧ shown details v u ∧ x.1 = VRaw u ∧
    (r_method r = "eth_getBlockByNumber" → ∃ bn, BlockNumber.unmarshal p0 = Ok bn ∧
       (0 <= asked head bn → n = asked head bn)).

(** A reply to a request for logs is an error, or has logs of the chain. *)
Definition logs_reply (c : string) (x : reply) : Prop :=
  x.2 = None → ∀ j, reads x.1 = Ok j → logs_told fact c j.

(** A request for logs by numbers that the cache does not pass on counts up,
    from a number that is no tag. *)
Definition counts_up (r : request) : Prop :=
  ∀ q f t, unmarshal_params (unmarshal_slice FilterQuery_unmarshal) r = Ok [q] →
    EthTypes.BlockHash q = None → FromBlock q = Some f → ToBlock q = Some t →
    i64 (t - f) <= Cacher.maxLogRange → 0 <= f <= t.

(** The handler below replies, and so does the store; the logs it has are ones
    that can be filtered. *)
Context (I I' : W → Prop) (next : handler W) (store : Store W).
Hypothesis Hlater : ∀ w, I w → I' w.
Hypothesis Htrue : truthful V fact.
Hypothesis Hnext : ∀ r, yields I I' next r (replies (result_ok V r)).
Hypothesis Hget : ∀ c k q w, fair q → I w → ∃ es w', st_Get store c k q w = (Return es, w') ∧
  I' w' ∧ gives fact (Chain_Name c) k q es.
Hypothesis Hput : ∀ c es, good fact (Chain_Name c) EntryBlockHeader es →
  steady I' (st_Put store c EntryBlockHeader es).

Lemma yields_replies (P Q : reply → Prop) (h : handler W) r :
  (∀ x, P x → Q x) → yields I I' h r (replies P) → yields I I' h r (replies Q).
Proof.
  intros HPQ Hh w Hw. destruct (Hh w Hw) as (o & w' & Ho & (x & -> & HP) & Hw').
  exists (Return [x]), w'. split; [done|]. split; [|done]. exists x. auto.
Qed.

Lemma next_once r : yields I I' next r one_reply.
Proof. by apply (yields_replies (result_ok V r)). Qed.

(** What [Do] reads of the reply of the handler below. *)
Lemma Do_run ctx m args w :
  I w → ∃ b w', Do ctx next m args w = (Return b, w') ∧ I' w' ∧
    ∀ v, b = Ok v → V (internal_request ctx m args) v.
Proof.
  intros Hw. destruct (Hnext (internal_request ctx m args) w Hw) as (o & w' & Hx & ([v e] & -> & Hv) & Hw').
  unfold Do. rewrite (prog_bind_return _ _ _ _ _ Hx). eexists _, w'. split; [reflexivity|]. split; [done|].
  intros j. unfold intercept. cbn [last default]. destruct e; [by destruct v|].
  intros Hj. apply Hv. by destruct v.
Qed.

(** What is in a decoded slice was decoded. *)
Lemma unmarshal_slice_elem {A} (f : json → res goerr A) v l x :
  unmarshal_slice f v = Ok l → x ∈ l → ∃ u, f u = Ok x.
Proof.
  unfold unmarshal_slice. destruct (json_valid v); [|done].
  destruct v as [| | | |vs| |]; try done; [by intros [= <-] ?%elem_of_nil|].
  revert l. induction vs as [|u vs IH]; intros l; [by intros [= <-] ?%elem_of_nil|].
  cbn [unmarshal_elems]. destruct (f u) as [y|] eqn:Hy; [|done]. cbn [mbind res_bind].
  destruct (unmarshal_elems f vs) as [l'|]; [|done]. intros [= <-] [->|Hx]%elem_of_cons; [by exists u|].
  by apply (IH l').
Qed.

Lemma params_elem {A} (f : json → res goerr A) r l x :
  unmarshal_params (unmarshal_slice f) r = Ok l → x ∈ l → ∃ u, f u = Ok x.
Proof. unfold unmarshal_params. destruct (r_params r); [apply unmarshal_slice_elem|done]. Qed.

Lemma one_send (Q : reply → Prop) x (w : W) :
  I' w → Q x → ∃ o w', send x w = (o, w') ∧ replies Q o ∧ I' w'.
Proof. intros Hw HQ. eexists _, w. split; [done|]. split; [by eexists|done]. Qed.

Lemma one_error c head r e (w : W) :
  I' w → ∃ o w', send_err e w = (o, w') ∧ replies (block_reply c head r) o ∧ I' w'.
Proof. intros Hw. by apply one_send. Qed.

Lemma one_nil c head r (w : W) :
  I' w → ∃ o w', send (VNil, None) w = (o, w') ∧ replies (block_reply c head r) o ∧ I' w'.
Proof. intros Hw. apply one_send; [done|]. by intros _ []. Qed.

Lemma rewritten_once what x (w : W) :
  I' w → ∃ o w', Cacher.send_rewritten what x w = (o, w') ∧ one_reply o ∧ I' w'.
Proof. intros Hw. destruct x; by apply one_send. Qed.

(** A block that was told is shown. *)
Section block.
Context (c : string) (r : request) (p0 p1 : json) (details : bool).
Hypothesis Hp : unmarshal_params unmarshal_raws r = Ok [p0; p1].
Hypothesis Hd : unmarshal_bool p1 = Ok details.

Lemma shown_reply n v u x :
  told fact EntryBlockHeader c n v → shown details v u → x.1 = VRaw u →
  (r_method r = "eth_getBlockByNumber" → ∃ bn, BlockNumber.unmarshal p0 = Ok bn ∧ (0 <= bn → n = bn)) →
  block_reply c 0 r x.
Proof.
  intros Ht Hs Hx Hn _ _. exists p0, p1, details, n, v, u. split_and!; [done..|].
  intros Hm. destruct (Hn Hm) as (bn & Hbn & Hnum). exists bn. split; [done|].
  unfold asked. by destruct (decide _) as [[_ []]|_].
Qed.

Lemma stripped_reply what n v w :
  I' w → details = false → told fact EntryBlockHeader c n v →
  (r_method r = "eth_getBlockByNumber" → ∃ bn, BlockNumber.unmarshal p0 = Ok bn ∧ (0 <= bn → n = bn)) →
  ∃ o w', Cacher.send_rewritten what (Cacher.removeTransactionDetails v) w = (o, w') ∧
    replies (block_reply c 0 r) o ∧ I' w'.
Proof.
  intros Hw Hf Ht Hn. destruct (Cacher.removeTransactionDetails v) as [u|] eqn:Hu; [|by apply one_send].
  apply one_send; [done|]. apply (shown_reply n v u); [done| |done|done]. by right.
Qed.

Lemma header_reply what es w :
  I' w → Forall (λ e, told fact EntryBlockHeader c (BlockNumber e) (Value e) ∧
    (r_method r = "eth_getBlockByNumber" → ∃ bn, BlockNumber.unmarshal p0 = Ok bn ∧
       (0 <= bn → BlockNumber e = bn))) es →
  ∃ o w', Cacher.send_header details what es w = (o, w') ∧ replies (block_reply c 0 r) o ∧ I' w'.
Proof.
  intros Hw Hes. destruct es as [|e [|]]; [by apply one_nil| |by apply one_nil].
  apply Forall_singleton in Hes as [Ht Hn]. cbn [Cacher.send_header].
  destruct (Bool.bool_dec details true) as [Hdet|Hdet%Bool.not_true_is_false]; rewrite Hdet;
    [|by eapply stripped_reply].
  apply one_send; [done|]. apply (shown_reply (BlockNumber e) (Value e) (Value e)); [done| |done|done].
  left. auto.
Qed.
End block.

(** A block behind a tag, from the handler below. *)
Lemma tagged_reply chain r p0 p1 bn details w :
  unmarshal_params unmarshal_raws r = Ok [p0; p1] → BlockNumber.unmarshal p0 = Ok bn →
  unmarshal_bool p1 = Ok details → GetChain (r_ctx r) = Ok chain → bn < 0 → I w →
  r_method r = "eth_getBlockByNumber" →
  ∃ o w', Cacher.serve_getBlockByNumber store next chain r w = (o, w') ∧
    replies (block_reply (Chain_Name chain) 0 r) o ∧ I' w'.
Proof.
  intros Hp Hbn Hd Hc Hneg Hw Hm. unfold Cacher.serve_getBlockByNumber. rewrite Hp, Hbn, Hd.
  rewrite (proj2 (Z.leb_gt _ _)) by done.
  destruct (Do_run (r_ctx r) "eth_getBlockByNumber"
    (JArr [BlockNumber.MarshalJSON bn; JBool true]) w Hw) as (b & w1 & Hx & H1 & HV).
  rewrite (prog_bind_return _ _ _ _ _ Hx). destruct b as [block|e]; [|by apply one_error].
  destruct (unmarshal_field "number" uint64_unmarshal 0 block) as [n|] eqn:Hn; [|by apply one_error].
  cbn [mbind res_bind]. destruct (unmarshal_field "hash" _ _ _) as [h|]; [|by apply one_error].
  cbn [mbind res_bind]. destruct (unmarshal_field "parentHash" _ _ _) as [p|]; [|by apply one_error].
  cbn [mbind res_bind].
  assert (told fact EntryBlockHeader (Chain_Name chain) n block) as Ht.
  { by eapply (tr_tag _ _ Htrue); [..|apply HV|]. }
  assert (r_method r = "eth_getBlockByNumber" →
    ∃ bn, BlockNumber.unmarshal p0 = Ok bn ∧ (0 <= bn → n = bn)) as Hnum.
  { intros _. exists bn. split; [done|lia]. }
  match goal with |- context [st_Put store chain EntryBlockHeader [?e]] => set (entry := e) end.
  assert (good fact (Chain_Name chain) EntryBlockHeader [entry]) as Hg by by apply Forall_singleton.
  destruct (Hput chain [entry] Hg w1 H1) as (err & w2 & Hput' & H2).
  rewrite (prog_bind_return _ _ _ _ _ Hput'). destruct err as [e|]; [by apply one_error|].
  destruct details; cbn [negb andb].
  - apply one_send; [done|]. eapply shown_reply; [done|done|exact Ht| |done|done]. left. auto.
  - destruct block; cbn [negb]; try by eapply stripped_reply.
    apply one_send; [done|]. eapply shown_reply; [done|done|exact Ht| |done|done]. left. auto.
Qed.

Lemma getBlockByNumber_reply chain r :
  GetChain (r_ctx r) = Ok chain → r_method r = "eth_getBlockByNumber" →
  yields I I' (Cacher.serve_getBlockByNumber store next chain) r
    (replies (block_reply (Chain_Name chain) 0 r)).
Proof.
  intros Hc Hm w Hw. pose proof (Hlater w Hw) as Hw'.
  destruct (unmarshal_params unmarshal_raws r) as [[|p0 [|p1 [|]]]|e] eqn:Hp;
    try (unfold Cacher.serve_getBlockByNumber; rewrite Hp; by apply one_error).
  destruct (BlockNumber.unmarshal p0) as [bn|e] eqn:Hbn;
    [|unfold Cacher.serve_getBlockByNumber; rewrite Hp, Hbn; by apply one_error].
  destruct (unmarshal_bool p1) as [details|e] eqn:Hd;
    [|unfold Cacher.serve_getBlockByNumber; rewrite Hp, Hbn, Hd; by apply one_error].
  destruct (Z.leb_spec 0 bn) as [H0|H0]; [|by eapply tagged_reply].
  unfold Cacher.serve_getBlockByNumber. rewrite Hp, Hbn, Hd, (proj2 (Z.leb_le _ _)) by done.
  pose proof (BlockNumberFacts.unmarshal_max _ _ Hbn) as Hmax.
  assert (u64 bn = bn) as Hu by (apply u64_small; go_lia).
  destruct (Hget chain EntryBlockHeader (QueryNumber (u64 bn)) w) as (es & w1 & Hg & H1 & Hes);
    [|done|].
  { simpl. rewrite Hu. unfold Cacher.maxLogRange. split_and!; go_lia. }
  rewrite (prog_bind_return _ _ _ _ _ Hg).
  destruct es as [es|]; [|by apply one_error]. destruct (Hes es eq_refl) as [Hgood Hnum].
  eapply header_reply; [done|done|done|]. simpl in Hnum. rewrite Hu in Hnum.
  eapply Forall_impl; [apply Forall_and; split; [exact Hgood|exact Hnum]|].
  intros e [Ht Hn]. split; [exact Ht|]. intros _. exists bn. split; [done|lia].
Qed.

Lemma getBlockByHash_reply chain r :
  r_method r = "eth_getBlockByHash" →
  yields I I' (Cacher.serve_getBlockByHash store chain) r
    (replies (block_reply (Chain_Name chain) 0 r)).
Proof.
  intros Hm w Hw. pose proof (Hlater w Hw) as Hw'. unfold Cacher.serve_getBlockByHash.
  destruct (unmarshal_params unmarshal_raws r) as [[|p0 [|p1 [|]]]|e] eqn:Hp; try by apply one_error.
  destruct (hash_unmarshal p0) as [h|e]; [|by apply one_error].
  destruct (unmarshal_bool p1) as [details|e] eqn:Hd; [|by apply one_error].
  destruct (Hget chain EntryBlockHeader (QueryHash h) w) as (es & w1 & Hg & H1 & Hes); [done..|].
  rewrite (prog_bind_return _ _ _ _ _ Hg).
  destruct es as [es|]; [|by apply one_error]. destruct (Hes es eq_refl) as [Hgood _].
  eapply header_reply; [done|done|done|]. apply (Forall_impl _ _ _ Hgood).
  intros e Ht. split; [exact Ht|]. by rewrite Hm.
Qed.

Lemma getBlockReceipts_once chain r :
  yields I I' (Cacher.serve_getBlockReceipts store next chain) r one_reply.
Proof.
  intros w Hw. pose proof (Hlater w Hw) as Hw'. unfold Cacher.serve_getBlockReceipts.
  destruct (unmarshal_params _ r) as [[|bn [|]]|e] eqn:Hp; try by apply one_send.
  destruct (Z.leb_spec 0 bn); [|by apply (next_once r w)].
  destruct (Hget chain EntryReceipts (QueryNumber (u64 bn)) w) as (es & w1 & Hg & H1 & _);
    [|done|].
  { destruct (params_elem _ r _ bn Hp) as [u Hu]; [by left|].
    pose proof (BlockNumberFacts.unmarshal_max _ _ Hu). simpl.
    rewrite u64_small by go_lia. unfold Cacher.maxLogRange. split_and!; go_lia. }
  rewrite (prog_bind_return _ _ _ _ _ Hg).
  destruct es as [[|e [|]]|e]; by apply one_send.
Qed.

Lemma send_logs_reply c q es w :
  I' w → (∀ l, es = Ok l → Forall (λ e, logs_told fact c (Value e)) l) →
  ∃ o w', Cacher.send_logs q es w = (o, w') ∧ replies (logs_reply c) o ∧ I' w'.
Proof.
  intros Hw Hf. destruct es as [l|e]; [|by apply one_send]. simpl.
  destruct (filterLogs_kept _ (CompileFilter (Addresses q) (Topics q)) l (Hf l eq_refl)) as (o & Ho & Hv).
  rewrite Ho. unfold lift, mbind, prog_bind. destruct o as [v|e]; [|by apply one_send].
  apply one_send; [done|]. intros _ k [= <-]. by apply Hv.
Qed.

Lemma next_logs chain r w :
  GetChain (r_ctx r) = Ok chain → r_method r = "eth_getLogs" → I w →
  ∃ o w', next r w = (o, w') ∧ replies (logs_reply (Chain_Name chain)) o ∧ I' w'.
Proof.
  intros Hc Hm Hw. apply (yields_replies (result_ok V r)); [|by apply Hnext|done].
  intros x Hx _ j Hj. eapply (tr_logs _ _ Htrue r); [done|done|by apply Hx].
Qed.

Lemma getLogs_reply chain r :
  GetChain (r_ctx r) = Ok chain → r_method r = "eth_getLogs" → counts_up r →
  yields I I' (Cacher.serve_getLogs store next chain) r (replies (logs_reply (Chain_Name chain))).
Proof.
  intros Hc Hm Hup w Hw. pose proof (Hlater w Hw) as Hw'. unfold Cacher.serve_getLogs.
  destruct (unmarshal_params _ r) as [[|q [|]]|e] eqn:Hp; try by apply one_send.
  destruct (EthTypes.BlockHash q) as [h|] eqn:Hh.
  - destruct (Hget chain EntryLogs (QueryHash h) w) as (es & w1 & Hg & H1 & Hl); [done..|].
    rewrite (prog_bind_return _ _ _ _ _ Hg). apply send_logs_reply; [done|]. intros l Hes. by apply (Hl l Hes).
  - destruct (FromBlock q) as [f|] eqn:Hf; [|by apply next_logs].
    destruct (ToBlock q) as [t|] eqn:Ht; [|by apply next_logs].
    destruct (Z.ltb_spec Cacher.maxLogRange (i64 (t - f))) as [Hr|Hr]; [by apply next_logs|].
    destruct (Hup q f t Hp Hh Hf Ht Hr) as [H0 Hft].
    destruct (params_elem _ r _ q Hp) as [u Hu]; [by left|].
    pose proof (FilterQuery_range u q t Hu (or_intror Ht)).
    destruct (Hget chain EntryLogs (QueryRange (u64 f) (u64 t)) w) as (es & w1 & Hg & Hw1 & Hl);
      [|done|].
    { rewrite i64_small in Hr by go_lia. simpl. rewrite !u64_small by go_lia. split_and!; go_lia. }
    rewrite (prog_bind_return _ _ _ _ _ Hg). apply send_logs_reply; [done|]. intros l Hes. by apply (Hl l Hes).
Qed.

(** The cache. *)
Lemma cacher_once r :
  (r_method r = "eth_getLogs" → counts_up r) →
  yields I I' (Cacher.Middleware store next) r one_reply.
Proof.
  intros Hup w Hw. unfold Cacher.Middleware.
  destruct (GetChain (r_ctx r)) as [chain|e] eqn:Hc; [|by apply one_send; [apply Hlater|]].
  case_bool_decide; [by eapply yields_replies; [|apply getBlockByNumber_reply|]|].
  case_bool_decide; [by eapply yields_replies; [|apply getBlockByHash_reply|]|].
  case_bool_decide; [by apply getBlockReceipts_once|].
  case_bool_decide; [|by apply (next_once r w)].
  by eapply yields_replies; [|apply getLogs_reply; auto|].
Qed.

Lemma cacher_block chain r :
  GetChain (r_ctx r) = Ok chain → r_method r ∈ ["eth_getBlockByNumber"; "eth_getBlockByHash"] →
  yields I I' (Cacher.Middleware store next) r (replies (block_reply (Chain_Name chain) 0 r)).
Proof.
  intros Hc Hm w Hw. unfold Cacher.Middleware. rewrite Hc.
  apply elem_of_cons in Hm as [Hm|Hm%list_elem_of_singleton].
  - rewrite bool_decide_true by done. by apply getBlockByNumber_reply.
  - rewrite bool_decide_false by by rewrite Hm. rewrite bool_decide_true by done.
    by apply getBlockByHash_reply.
Qed.

Lemma cacher_logs chain r :
  GetChain (r_ctx r) = Ok chain → r_method r = "eth_getLogs" → counts_up r →
  yields I I' (Cacher.Middleware store next) r (replies (logs_reply (Chain_Name chain))).
Proof.
  intros Hc Hm Hup w Hw. unfold Cacher.Middleware. rewrite Hc, Hm.
  rewrite !(bool_decide_false (_ = _)) by done. rewrite bool_decide_true by done.
  by apply getLogs_reply.
Qed.

(** The head replacer, in front of a handler that wants requests that count up. *)
Section replacer.
Context (front : handler W).
Hypothesis Hfront : ∀ r, (r_method r = "eth_getLogs" → counts_up r) → yields I I' front r one_reply.
Hypothesis Hheads : ∀ w c, I w → 0 <= hs_head w c < two63.

(** The request with the number of the newest block for the tag "latest". *)
Lemma replace_run r i w chain :
  GetChain (r_ctx r) = Ok chain → I w →
  ∃ x, HeadReplacer.ReplaceBlockNumberInRequest r i w = (Return x, w) ∧
    ∀ r', x = Ok r' → r' = r ∧
        (hs_head w (Chain_Name chain) = 0 ∨ ∃ p ps u bn, r_params r = Some p ∧
          unmarshal_raws p = Ok ps ∧ ps !! i = Some u ∧
          BlockNumber.unmarshal u = Ok bn ∧ bn ≠ BlockNumber.LatestBlockNumber) ∨
      ∃ p ps u, r_params r = Some p ∧ unmarshal_raws p = Ok ps ∧ ps !! i = Some u ∧
        BlockNumber.unmarshal u = Ok BlockNumber.LatestBlockNumber ∧
        r' = with_params r (JArr (<[i:=BlockNumber.MarshalJSON (hs_head w (Chain_Name chain))]> ps)).
Proof.
  intros Hc Hw. unfold HeadReplacer.ReplaceBlockNumberInRequest. rewrite Hc.
  destruct (r_params r) as [p|] eqn:Hp; [|by eexists].
  destruct (unmarshal_raws p) as [ps|e] eqn:Hps; [|by eexists].
  destruct (ps !! i) as [u|] eqn:Hu; [|by eexists].
  destruct (BlockNumber.unmarshal u) as [bn|e] eqn:Hbn; [|by eexists].
  rewrite (prog_bind_return _ _ _ _ _
    (HeadReplacerProps.toNumeric_run chain bn w (Hheads w _ Hw))).
  eexists. split; [reflexivity|]. intros r'. cbn [mbind res_bind].
  destruct (decide (bn = _ ∧ _)) as [[-> H0]|Hd]; intros [= <-].
  - right. by exists p, ps, u.
  - left. split; [done|]. destruct (decide (bn = BlockNumber.LatestBlockNumber)) as [->|Hl].
    + left. destruct (decide (hs_head w (Chain_Name chain) = 0)); [done|]. by destruct Hd.
    + right. by exists p, ps, u, bn.
Qed.

Lemma replace_method r i w chain r' :
  GetChain (r_ctx r) = Ok chain → I w →
  (HeadReplacer.ReplaceBlockNumberInRequest r i w).1 = Return (Ok r') →
  r_method r' = r_method r ∧ r_ctx r' = r_ctx r.
Proof.
  intros Hc Hw Hr. destruct (replace_run r i w chain Hc Hw) as (x & Hx & Hall). rewrite Hx in Hr.
  injection Hr as ->. by destruct (Hall r' eq_refl) as [[-> _]|(? & ? & ? & _ & _ & _ & _ & ->)].
Qed.

Lemma replace_yields (Q : reply → Prop) chain r i w :
  GetChain (r_ctx r) = Ok chain → I w → r_method r ≠ "eth_getLogs" → (∀ e, Q (reply_err e)) →
  (∀ r', (HeadReplacer.ReplaceBlockNumberInRequest r i w).1 = Return (Ok r') →
     yields I I' front r' (replies Q)) →
  ∃ o w', HeadReplacer.replace_and_serve front r i w = (o, w') ∧ replies Q o ∧ I' w'.
Proof.
  intros Hc Hw Hm He Hr. unfold HeadReplacer.replace_and_serve.
  destruct (replace_run r i w chain Hc Hw) as (x & Hx & _). rewrite Hx in Hr.
  rewrite (prog_bind_return _ _ _ _ _ Hx).
  destruct x as [r'|e]; [|by apply one_send; [apply Hlater|]]. by apply Hr.
Qed.

(** A query for the logs of the head counts up. *)
Lemma counts_up_head r q head :
  0 <= head < two63 → EthTypes.BlockHash q = None →
  counts_up (with_params r (JArr [FilterQuery_marshal (HeadReplacer.with_range q head head)])).
Proof.
  intros Hh Hb q' f t Hq _ Hf Ht _. unfold unmarshal_params in Hq. cbn [with_params r_params] in Hq.
  unfold unmarshal_slice in Hq. destruct (json_valid _); [|done]. cbn [unmarshal_elems] in Hq.
  destruct (FilterQuery_unmarshal _) as [q2|] eqn:Hd; [|done]. injection Hq as ->.
  assert (∀ n, Some head = Some n → bn_ok n) as Hok.
  { intros n [= <-]. unfold bn_ok, BlockNumber.LatestExecutedBlockNumber. go_lia. }
  apply FilterQuery_marshal_range in Hd as [Hf' Ht']; [|done..].
  rewrite Hf' in Hf. rewrite Ht' in Ht. injection Hf as <-. injection Ht as <-. lia.
Qed.

(** A query for logs goes on as one that counts up. *)
Lemma replacer_getLogs (Q : reply → Prop) r :
  (∀ e, Q (reply_err e)) →
  (∀ r', r_ctx r' = r_ctx r → r_method r' = "eth_getLogs" → counts_up r' →
     yields I I' front r' (replies Q)) →
  r_method r = "eth_getLogs" → counts_up r →
  yields I I' (HeadReplacer.Middleware front) r (replies Q).
Proof.
  intros He Hnexts Hm Hup w Hw. pose proof (Hlater w Hw) as Hw'.
  destruct (GetChain (r_ctx r)) as [chain|e] eqn:Hc.
  2: { unfold HeadReplacer.Middleware. rewrite Hc. by apply one_send. }
  destruct (unmarshal_params (unmarshal_slice FilterQuery_unmarshal) r) as [qs|e] eqn:Hq.
  2: { unfold HeadReplacer.Middleware, HeadReplacer.serve_getLogs. rewrite Hc, Hm, Hq.
       by apply one_send. }
  destruct qs as [|q [|q2 qs]].
  1,3: unfold HeadReplacer.Middleware, HeadReplacer.serve_getLogs; rewrite Hc, Hm, Hq;
    by apply one_send.
  destruct (EthTypes.BlockHash q) eqn:Hb.
  { unfold HeadReplacer.Middleware, HeadReplacer.serve_getLogs. rewrite Hc, Hm, Hq, Hb.
    by apply Hnexts. }
  rewrite (HeadReplacerProps.getLogs_run front r chain q w Hm Hc Hq Hb (Hheads w _ Hw)).
  destruct (decide _); [|by apply Hnexts].
  apply Hnexts; [done..| |done]. apply counts_up_head; [by apply Hheads|done].
Qed.

Lemma replacer_once r :
  (r_method r = "eth_getLogs" → counts_up r) →
  yields I I' (HeadReplacer.Middleware front) r one_reply.
Proof.
  intros Hup w Hw. pose proof (Hlater w Hw) as Hw'.
  destruct (decide (r_method r = "eth_getLogs")) as [Hm|Hm].
  - apply (replacer_getLogs (λ _, True)); auto.
  - unfold HeadReplacer.Middleware.
    destruct (GetChain (r_ctx r)) as [chain|e] eqn:Hc; [|by apply one_send].
    assert (∀ i, ∃ o w', HeadReplacer.replace_and_serve front r i w = (o, w') ∧ one_reply o ∧ I' w')
      as Hreplaced.
    { intros i. apply (replace_yields _ chain); [done..|]. intros r' Hr'.
      apply Hfront. by rewrite (proj1 (replace_method r i w chain r' Hc Hw Hr')). }
    case_bool_decide; [by apply one_send|]. case_bool_decide; [by apply one_send|].
    case_bool_decide.
    { rewrite (prog_bind_return _ _ _ _ _ (hs_Get_spec chain w)). by apply one_send. }
    do 3 (case_bool_decide; [by apply Hreplaced|]).
    case_bool_decide; [done|]. apply Hfront; [|done]. by intros.
Qed.

(** A reply about the block that is asked for is one about the block "latest",
    once the number of that is known. *)
Lemma block_reply_same c head r x :
  r_method r ≠ "eth_getBlockByNumber" ∨ head = 0 ∨ (∃ p ps u bn, r_params r = Some p ∧ unmarshal_raws p = Ok ps ∧ ps !! 0%nat = Some u ∧
    BlockNumber.unmarshal u = Ok bn ∧ bn ≠ BlockNumber.LatestBlockNumber) →
  block_reply c 0 r x → block_reply c head r x.
Proof.
  intros Hh Hx H0 H1. destruct (Hx H0 H1) as (p0 & p1 & details & n & v & u & Hp & Hd & Ht & Hs & Hu & Hn).
  exists p0, p1, details, n, v, u. split_and!; [done..|]. intros Hm.
  destruct (Hn Hm) as (bn & Hbn & Ha). exists bn. split; [done|].
  replace (asked head bn) with (asked 0 bn); [done|]. unfold asked.
  rewrite decide_False by (intros [_ []]; done). destruct (decide _) as [[Hl Hne]|]; [|done]. exfalso.
  destruct Hh as [?|[->|(p & ps & u' & bn' & Hp' & Hps & Hu' & Hbn' & Hne')]]; [done..|].
  unfold unmarshal_params in Hp. rewrite Hp', Hps in Hp. injection Hp as ->.
  injection Hu' as ->. congruence.
Qed.

Lemma block_reply_latest c head r p ps u x :
  0 <= head < two63 → r_params r = Some p → unmarshal_raws p = Ok ps → ps !! 0%nat = Some u →
  BlockNumber.unmarshal u = Ok BlockNumber.LatestBlockNumber →
  block_reply c 0 (with_params r (JArr (<[0%nat:=BlockNumber.MarshalJSON head]> ps))) x →
  block_reply c head r x.
Proof.
  intros Hh Hp Hps Hu Hbn Hx H0 H1.
  destruct (Hx H0 H1) as (p0 & p1 & details & n & v & y & Hp' & Hd & Ht & Hs & Hy & Hn).
  unfold unmarshal_params in Hp'. cbn [with_params r_params r_method] in *.
  unfold unmarshal_raws in Hp' at 1. destruct (json_valid _); [|done]. injection Hp' as Hp'.
  destruct ps as [|u' ps]; [done|]. injection Hu as ->. cbn in Hp'. injection Hp' as <- ->.
  exists u, p1, details, n, v, y. split_and!; [|done..|].
  { unfold unmarshal_params. by rewrite Hp. }
  intros Hm. destruct (Hn Hm) as (bn & Hbn' & Ha).
  assert (bn = head) as ->.
  { rewrite BlockNumberFacts.unmarshal_MarshalJSON in Hbn'; [by injection Hbn'|].
    unfold BlockNumber.LatestExecutedBlockNumber. go_lia. }
  eexists. split; [exact Hbn|]. unfold asked in *.
  destruct (decide (head = _ ∧ _)) as [[_ []]|_]; [done|].
  destruct (decide (_ ∧ head ≠ 0)) as [_|Hd0]; [done|]. intros Hl.
  by exfalso; unfold BlockNumber.LatestBlockNumber in Hl; lia.
Qed.

Hypothesis Hblock : ∀ r chain, GetChain (r_ctx r) = Ok chain →
  r_method r ∈ ["eth_getBlockByNumber"; "eth_getBlockByHash"] →
  yields I I' front r (replies (block_reply (Chain_Name chain) 0 r)).

Lemma replacer_block chain head r :
  GetChain (r_ctx r) = Ok chain → r_method r ∈ ["eth_getBlockByNumber"; "eth_getBlockByHash"] →
  (∀ w, I w → hs_head w (Chain_Name chain) = head) →
  yields I I' (HeadReplacer.Middleware front) r (replies (block_reply (Chain_Name chain) head r)).
Proof.
  intros Hc Hm Hhead w Hw. pose proof Hm as [Hm'|Hm'%list_elem_of_singleton]%elem_of_cons.
  - rewrite (HeadReplacerProps.replace_serves front r 0 chain); [|by rewrite Hm'|done].
    apply (replace_yields _ chain); [done|done|by rewrite Hm'|done|]. intros r' Hr'.
    pose proof (replace_method r 0 w chain r' Hc Hw Hr') as [Hme Hctx].
    destruct (replace_run r 0 w chain Hc Hw) as (y & Hy & Hall). rewrite Hy in Hr'.
    injection Hr' as ->.
    apply yields_replies with (block_reply (Chain_Name chain) 0 r');
      [|by apply Hblock; rewrite ?Hctx, ?Hme].
    intros x. rewrite (Hhead w Hw) in Hall. pose proof (Hheads w (Chain_Name chain) Hw) as Hb.
    rewrite (Hhead w Hw) in Hb.
    destruct (Hall r' eq_refl) as [[-> Hh]|(p & ps & u & Hp & Hps & Hu & Hbn & ->)];
      [by apply block_reply_same; right|by eapply block_reply_latest].
  - unfold HeadReplacer.Middleware. rewrite Hc, Hm'. cbn [bool_decide decide].
    repeat (rewrite bool_decide_false by done).
    eapply yields_replies; [|by apply Hblock|done]. intros x. apply block_reply_same. left. by rewrite Hm'.
Qed.
End replacer.
End once.
End OnceFacts.

(** ** Properties *)

Module WholeProps.
Import Fleet FleetFacts ClusterRuns SupplyFacts LogsFacts OnceFacts NodeFacts ClustersFacts.
#[local] Existing Instance LruStore.EntryType_countable.

Section node.
Context {R W S : Type} `{!EqDecision R} `{J : Jrpc} `{ES : EthSpec} `{XS : JxSpec} `{SnS : SonicSpec}.
Context `{HS : HeadStoreSpec W} `{SS : WeightedSpec S} `{L : !Lens (Waiter.t S) W}.
Context {LN LH : Type} `{SN : !Simplelru LruStore.lruNumberKey Entry LN}
  `{SH : !Simplelru LruStore.lruHashKey Entry LH}.
Context `{SNs : !SimplelruSpec LruStore.lruNumberKey Entry LN}
  `{SHs : !SimplelruSpec LruStore.lruHashKey Entry LH} `{LL : !Lens (LruStore.t LN LH) W}.
Context (Lr : R → Lens RemoteTarget.t W) (Lc : string → Lens (Cluster.t R) W).
Context (env : R → Env (W := W)) (K : W → Prop) (home : R → string).
Context (V : request → json → Prop) (fact : EntryType → string → Z → json → Prop).
Context (Hex : hash → string) (ctx_done : prog W (option goerr)).
Context (DoChan : string → prog W (res goerr (list Entry)) → prog W (res goerr (list Entry))).
Context (rediblock : option (Store W)) (writer_size : Z) (ctx : context) (p : Node.Params W).

Abbreviation ready := (ready Lr Lc (Node.Clusters p) K home).
Abbreviation outside := (outside Lr Lc K).

(** A node over the clusters of its chains and its block store over them; what
    a request meets besides them comes back, and the proxies of the remotes of a
    chain answer what [V] asks of a request for it, which makes blocks those of
    the chain, and logs such that the filter can decode them ([tr_logs]).  The subscription engine looks at its own methods only. *)
Record deployment : Prop := {
  dp_apart : apart Lr Lc (Node.Clusters p) K;
  dp_env a : env_ok Lr Lc env K home V a;
  dp_fitting : fitting V;
  dp_truthful : truthful V fact;
  dp_cluster : Node.cluster p = cluster Lr Lc env;
  dp_store : Node.store p = node_store Lr Lc env (Node.Clusters p) Hex ctx_done DoChan rediblock
                              writer_size ctx;
  dp_supplied : supplied Lr Lc K fact ctx_done DoChan rediblock writer_size;
  dp_heads w c : K w → 0 <= hs_head w c < two63;
  dp_collector f c m b : Node.RequestCollector p = Some f → outside some_value (f c m b);
  dp_limiter l rl k n : Node.AbuseLimit p = Some l → Node.NewRateLimiter p l = Ok rl →
    outside some_value (rl k n);
  dp_subscription m : Node.Subscription p = Some m →
    ∀ h r, has_suffix "subscribe" (r_method r) = false → m h r = h r;
  dp_waiter (T : Waiter.t S) : outside some_value (write T);
}.

Lemma deployment_bears N M (Q : reply → Prop) :
  N <= M → deployment → (∀ e, Q (reply_err e)) → bears (ready N) (ready M) (replies Q) p.
Proof.
  intros HM [] He. split.
  - intros f c m b Hf. eapply outside_ready; eauto.
  - intros l rl H1 H2 k n w Hw.
    destruct (outside_ready _ _ _ _ _ _ _ N (dp_limiter0 l rl k n H1 H2) w Hw) as (a & w' & Ha & Hw').
    exists a, w'. split_and!; [done|done|]. right. intros e. by exists (reply_err e).
  - done.
  - intros w T Hw. by destruct (outside_ready _ _ _ _ _ _ _ N (dp_waiter0 T) w Hw) as (? & ? & [= <- <-] & ?).
  - intros w T Hw. by destruct (outside_ready _ _ _ _ _ _ _ M (dp_waiter0 T) w Hw) as (? & ? & [= <- <-] & ?).
  - intros w. by apply ready_later.
  - intros o (x & -> & _). left. by exists x.
Qed.

(** What the cache has below and behind it. *)
Section below.
Context (N : Z) (HN : 0 <= N) (HNB : N + 11 < 2 ^ 62) (Hdep : deployment).

Lemma later_ready w : ready N w → ready (N + 11) w.
Proof. apply ready_later. lia. Qed.

Lemma root_yields r :
  yields (ready N) (ready (N + 11)) (Node.rootJrpcHandler p) r (replies (result_ok V r)).
Proof.
  intros w Hw. unfold Node.rootJrpcHandler. rewrite (dp_cluster Hdep).
  destruct (root_ready Lr Lc env (Node.Clusters p) K home V (dp_apart Hdep) (dp_env Hdep)
    (dp_fitting Hdep) N None r w) as (x & w3 & Hx & H3 & Hv); [done|lia|done|].
  eexists _, w3. split; [exact Hx|]. split; [by eexists|].
  eapply ready_later; [|exact H3]. lia.
Qed.

Lemma store_priced : priced Lr Lc (Node.Clusters p) K home fact 11 (Node.store p).
Proof.
  rewrite (dp_store Hdep). by apply (node_store_priced Lr Lc env (Node.Clusters p) K home V fact);
    apply Hdep.
Qed.

Lemma store_gives c k q w :
  fair q → ready N w → ∃ es w', st_Get (Node.store p) c k q w = (Return es, w') ∧
    ready (N + 11) w' ∧ gives fact (Chain_Name c) k q es.
Proof. intros Hq Hw. by apply (pr_get _ _ _ _ _ _ _ _ store_priced c k q Hq N w). Qed.

Lemma store_puts c es :
  good fact (Chain_Name c) EntryBlockHeader es →
  steady (ready (N + 11)) (st_Put (Node.store p) c EntryBlockHeader es).
Proof.
  intros Hes w Hw.
  destruct (pr_put _ _ _ _ _ _ _ _ store_priced c EntryBlockHeader es Hes (N + 11) w) as (e & w' & He & Hw' & _);
    [lia|lia|done|]. exists e, w'. by rewrite Z.add_0_r in Hw'.
Qed.

Lemma heads_ready w c : ready N w → 0 <= hs_head w c < two63.
Proof. intros (HK & _). by apply (dp_heads Hdep). Qed.

(** The head replacer and the cache over the clusters. *)
Abbreviation cached := (Cacher.Middleware (Node.store p) (Node.rootJrpcHandler p)).

Lemma cached_once r :
  (r_method r = "eth_getLogs" → counts_up r) → yields (ready N) (ready (N + 11)) cached r one_reply.
Proof.
  apply (cacher_once V fact); [apply later_ready|apply (dp_truthful Hdep)|apply root_yields
    |apply store_gives|apply store_puts].
Qed.

Lemma cached_block r chain :
  GetChain (r_ctx r) = Ok chain → r_method r ∈ ["eth_getBlockByNumber"; "eth_getBlockByHash"] →
  yields (ready N) (ready (N + 11)) cached r (replies (block_reply fact (Chain_Name chain) 0 r)).
Proof.
  apply (cacher_block V fact); [apply later_ready|apply (dp_truthful Hdep)|apply root_yields
    |apply store_gives|apply store_puts].
Qed.

Lemma cached_logs r chain :
  GetChain (r_ctx r) = Ok chain → r_method r = "eth_getLogs" → counts_up r →
  yields (ready N) (ready (N + 11)) cached r (replies (logs_reply fact (Chain_Name chain))).
Proof.
  apply (cacher_logs V fact); [apply later_ready|apply (dp_truthful Hdep)|apply root_yields
    |apply store_gives].
Qed.
End below.

(** C1: whatever state the remotes' backoffs, validators and doctors are in,
    and whether their proxies fail or answer, the node replies exactly once to
    a request, and leaves remotes, clusters and stores ready for the next one.
    This is under these conditions: the logs that remotes give have addresses
    and topics that the filter can decode, as one that is too long makes
    hex.Decode panic; the doctors have finished their first checks and every
    chain has a remote; and the shut-down has not begun, so that the semaphore
    of the waiter is free and nobody queues for it.  Excepted are subscriptions,
    receipts that are forged, and queries for logs over a small range that does
    not count up. *)
Theorem node_replies N h r chain w :
  deployment → Node.New p = Ok h → GetChain (r_ctx r) = Ok chain →
  has_suffix "subscribe" (r_method r) = false →
  (r_method r = "eth_getBlockReceipts" → ForgeBlockReceipts chain = false) →
  (r_method r = "eth_getLogs" → counts_up r) →
  0 <= N → N + 11 < 2 ^ 62 → ready N w →
  WaiterRuns.open (lget w) →
  ∃ x w', h r w = (Return [x], w') ∧ ready (N + 11) w'.
Proof.
  intros Hdep HN Hc Hsub Hforge Hup HN0 HNB Hw Hfree.
  assert (ready (N + 11) w) as Hlater by (eapply ready_later; [|exact Hw]; lia).
  destruct (decide (256 < String.length (r_method r))%nat) as [Hlen|Hlen].
  { destruct (method_refused p h r w HN) as [x Hx]; [by left|by exists x, w]. }
  destruct (str_contains "_internal" (r_method r)) eqn:Hint.
  { destruct (method_refused p h r w HN) as [x Hx]; [by right|by exists x, w]. }
  destruct (node_run (ready N) (ready (N + 11)) one_reply p h r chain w HN) as (o & w' & Ho & (x & -> & _) & H').
  - by apply deployment_bears; [lia|..].
  - split_and!; [lia|done|done| |done]. by intros Hm; rewrite Hm in Hsub.
  - done.
  - intros id. apply replacer_once; [by apply later_ready| |by apply heads_ready|done].
    intros r'. by apply cached_once.
  - done.
  - done.
  - by exists x, w'.
Qed.

(** C2: the node never makes up a block: whatever the backoffs, validators and
    doctors, the memory cache, the remotes that fail and the shortcuts of the
    middlewares do, a request for a block by number or by hash is replied to
    once, with an error, with nothing, or with a block that a remote of the
    chain of the request gave, the transactions cut down to their hashes if the
    client asked for that; and the block under a number, or behind the tag
    "latest" when the newest block is known, is one a remote gave for that
    number.  This is under the conditions of [node_replies]. *)
Theorem node_blocks_true N h r chain head w :
  deployment → Node.New p = Ok h → GetChain (r_ctx r) = Ok chain →
  r_method r ∈ ["eth_getBlockByNumber"; "eth_getBlockByHash"] →
  (∀ w, K w → hs_head w (Chain_Name chain) = head) →
  0 <= N → N + 11 < 2 ^ 62 → ready N w →
  WaiterRuns.open (lget w) →
  ∃ x w', h r w = (Return [x], w') ∧ ready (N + 11) w' ∧
    block_reply fact (Chain_Name chain) head r x.
Proof.
  intros Hdep HN Hc Hm Hhead HN0 HNB Hw Hfree.
  assert (plain chain (r_method r)) as Hplain.
  { apply elem_of_cons in Hm as [Hm|Hm%list_elem_of_singleton]; rewrite Hm; split_and!; try done; simpl; lia. }
  destruct (node_run (ready N) (ready (N + 11)) (replies (block_reply fact (Chain_Name chain) head r))
    p h r chain w HN) as (o & w' & Ho & (x & -> & Hx) & H'); [|done..| |done|done|].
  - by apply deployment_bears; [lia|..].
  - intros id. set (r' := with_ctx _ _).
    apply (replacer_block fact (ready N) (ready (N + 11)) (later_ready N) _ (heads_ready N Hdep)
      (cached_block N HN0 HNB Hdep) chain head r'); [done..|].
    intros w1 (HK & _). by apply Hhead.
  - by exists x, w'.
Qed.

(** C3: nor does it make up a log: provided that the logs remotes give have
    addresses and topics that the filter can decode, as one that is too long
    makes hex.Decode panic and brings the node down, a query for logs that
    counts up is replied to once, with an error or with logs that remotes of the
    chain gave, whether they come from the memory cache, where the logs of a
    range are kept block by block, or right from a remote; and cutting them
    apart and filtering them adds none.  The shut-down has not begun. *)
Theorem node_logs_true N h r chain w :
  deployment → Node.New p = Ok h → GetChain (r_ctx r) = Ok chain →
  r_method r = "eth_getLogs" → counts_up r →
  0 <= N → N + 11 < 2 ^ 62 → ready N w →
  WaiterRuns.open (lget w) →
  ∃ x w', h r w = (Return [x], w') ∧ ready (N + 11) w' ∧ logs_reply fact (Chain_Name chain) x.
Proof.
  intros Hdep HN Hc Hm Hup HN0 HNB Hw Hfree.
  assert (plain chain (r_method r)) as Hplain by (rewrite Hm; split_and!; try done; simpl; lia).
  destruct (node_run (ready N) (ready (N + 11)) (replies (logs_reply fact (Chain_Name chain)))
    p h r chain w HN) as (o & w' & Ho & (x & -> & Hx) & H'); [|done..| |done|done|].
  - by apply deployment_bears; [lia|..].
  - intros id. apply (replacer_getLogs (ready N) (ready (N + 11)) (later_ready N) _ (heads_ready N Hdep));
      [done| |done|done].
    intros r' Hr' Hm' Hup'. apply cached_logs; [done..| |done|done]. by rewrite Hr'.
  - by exists x, w'.
Qed.
End node.
End WholeProps.

(** ** Witnesses *)

Module WholeWitness.
Import Fleet FleetFacts ClusterRuns SupplyFacts LogsFacts OnceFacts ClustersFacts WholeProps.
Import StdJrpc StdEth StdJx StdSonic StdWeighted BlockStoreWitness.
#[local] Existing Instances LruStore.EntryType_countable StdLru.std_lru StdLru.std_lru_spec.

(** Two remotes of one chain: the first is down, the second answers. *)
Definition remote0 (name : string) : Config.Remote := {|
  Remote_Name := name; Remote_Url := ""; Remote_Priority := 1; Remote_Headers := ∅;
  HealthCheckIntervalMin := Minute; HealthCheckIntervalMax := Hour;
  RateLimitBackoff := 5 * Second; ErrorBackoffMin := 5 * Second; ErrorBackoffMax := 5 * Second;
  Remote_Filters := []; Remote_ParsedFilters := []; Remote_RateLimit := None;
  SendDataAndInput := false; Remote_MaxBlockLookback := 128 |}.
Definition chain0 : Chain := {| Chain_Name := "ethereum"; Chain_Id := 1; Chain_Aliases := [];
  BlockTimeSeconds := QArith_base.inject_Z 12; Chain_Remotes := [remote0 "a"; remote0 "b"];
  Stalk := None; ParsedStalk := true; ForgeBlockReceipts := false; Chain_MaxBlockLookback := 128 |}.

(** The remotes, the cluster, the waiter, the memory cache and the heads. *)
Record world := {
  w_a : RemoteTarget.t;
  w_b : RemoteTarget.t;
  w_cluster : Cluster.t bool;
  w_rest : Waiter.t StdWeighted.t * (LruStore.t LN LH * Redihead.t);
}.

Definition lens_a : Lens RemoteTarget.t world.
Proof. by refine {| lget := w_a; lput T w := Build_world T (w_b w) (w_cluster w) (w_rest w) |}; [..|intros []]. Defined.
Definition lens_b : Lens RemoteTarget.t world.
Proof. by refine {| lget := w_b; lput T w := Build_world (w_a w) T (w_cluster w) (w_rest w) |}; [..|intros []]. Defined.
Definition lens_cluster : Lens (Cluster.t bool) world.
Proof. by refine {| lget := w_cluster; lput T w := Build_world (w_a w) (w_b w) T (w_rest w) |}; [..|intros []]. Defined.
#[local] Instance lens_rest : Lens (Waiter.t StdWeighted.t * (LruStore.t LN LH * Redihead.t)) world.
Proof. by refine {| lget := w_rest; lput T w := Build_world (w_a w) (w_b w) (w_cluster w) T |}; [..|intros []]. Defined.
#[local] Instance lens_waiter : Lens (Waiter.t StdWeighted.t) world := lens_comp (lens_fst _ _) lens_rest.
#[local] Instance lens_lru : Lens (LruStore.t LN LH) world :=
  lens_comp (lens_snd _ _ _) lens_rest.
#[local] Instance lens_heads : Lens Redihead.t world := lens_comp (lens_snd _ _ _) lens_rest.
#[local] Instance heads0 : HeadStore world := Redihead.store (λ _, mret None).
#[local] Instance heads0_spec : HeadStoreSpec world := Redihead.store_spec (λ _, mret None).

Definition Lr (a : bool) : Lens RemoteTarget.t world := if a then lens_a else lens_b.
Definition Lc (_ : string) : Lens (Cluster.t bool) world := lens_cluster.

(** The block 200 of the chain and its log, which is all that is known of it. *)
Definition hash200 : json :=
  JStr "0x00000000000000000000000000000000000000000000000000000000000000c8".
Definition block200 : json := JObj [("number", JStr "0xc8"); ("hash", hash200);
  ("parentHash",
    JStr "0x00000000000000000000000000000000000000000000000000000000000000c7");
  ("transactions", JArr [JObj [("hash", JStr "0xaa"); ("value", JStr "0x1")]])].
Definition bare200 : json := JObj [("number", JStr "0xc8"); ("hash", hash200);
  ("parentHash",
    JStr "0x00000000000000000000000000000000000000000000000000000000000000c7"); ("transactions", JArr [JStr "0xaa"])].
Definition log200 : json := JObj [("blockNumber", JStr "0xc8"); ("blockHash", hash200);
  ("address", JStr "0x00000000000000000000000000000000000000aa"); ("topics", JArr [])].
Definition fact0 (k : EntryType) (c : string) (n : Z) (v : json) : Prop :=
  c = "ethereum" ∧ EncodeUint64 n = "0xc8" ∧
  match k with EntryBlockHeader => v = block200 | EntryLogs => v = log200 | EntryReceipts => False end.

Definition about_blocks (m : string) : bool :=
  bool_decide (m ∈ ["eth_getBlockByNumber"; "eth_getBlockByHash"; "eth_getBlockReceipts"; "eth_getLogs"]).
Definition by_number200 (r : request) : bool :=
  bool_decide (r_method r = "eth_getBlockByNumber") &&
  match r_params r with Some (JArr [JStr n; JBool true]) => bool_decide (n = "0xc8") | _ => false end.
Definition answer0 (r : request) : json :=
  if about_blocks (r_method r) then
    if by_number200 r then block200
    else if bool_decide (r_method r = "eth_getLogs") then JArr [log200] else JNull
  else JStr "0x3b9aca00".
Definition V0 (r : request) (v : json) : Prop :=
  about_blocks (r_method r) = true → v = JNull ∨ asks "ethereum" r ∧ v = answer0 r.

(** A remote after its first check. *)
Definition target0 (name : string) : RemoteTarget.t := RemoteTarget.NewRemoteTarget (remote0 name) chain0.
Definition checked0 (name : string) : RemoteTarget.t :=
  lput (Lens := RemoteTarget.lens_doctor)
    (Doctor.first_done (Doctor.checked 0 (Doctor.ChainId (Ok 1) 0)
       (Doctor.attach 0 (RemoteTarget.Doctor (target0 name))))) (target0 name).
Definition env0 (a : bool) : Env (W := world) := {|
  target := target0 (if a then "a" else "b");
  now := mret 0; too_slow := mret false; Allow := mret true; Request := mret ();
  Result _ _ := mret (); Debug _ := mret ();
  proxier r := if a then send_err (EText "connection refused") else send_ok (VRaw (answer0 r)) |}.

Definition clusters0 : Clusters.t := Clusters.New [chain0].
Definition heads_known : Redihead.t := Redihead.setHead "ethereum" 200 Redihead.New.
Definition world0 : world := {|
  w_a := checked0 "a"; w_b := checked0 "b";
  w_cluster := Cluster.Add 1 false (Cluster.Add 1 true Cluster.NewCluster);
  w_rest := (Waiter.NewWaiter, (LruStore.NewLruStore 8, heads_known)) |}.

(** The heads stay, and the cache has what is true. *)
Definition K0 (w : world) : Prop := lru_ok fact0 (w_rest w).2.1 ∧ (w_rest w).2.2 = heads_known.

Definition params0 : Node.Params world := {|
  Node.AbuseLimit := Some {| AbuseLimit_Id := "total"; AbuseLimit_Total := 10;
                             AbuseLimit_Window := 1 |};
  Node.NewRateLimiter _ := Ok (λ _ _, mret (Ok true));
  Node.Subscription := None;
  Node.RequestCollector := Some (λ _ _ _, mret ());
  Node.store := node_store Lr Lc env0 clusters0 StdHex.Hex (mret None) (λ _ f, f) None 128 [];
  Node.logs_first := true; Node.notifier _ := None; Node.heads := [];
  Node.Clusters := clusters0; Node.cluster := cluster Lr Lc env0 |}.

Lemma fitting0 : fitting V0.
Proof.
  split.
  - intros r j [= <-] _. by left.
  - intros r j Hm. unfold V0. by rewrite Hm.
  - intros r p j Hm _. unfold V0. by rewrite Hm.
Qed.

Lemma asks0 ctx m p c : GetChain ctx = Ok c → asks "ethereum" (internal_request ctx m p) → Chain_Name c = "ethereum".
Proof. intros Hc (c' & Hc' & <-). change (GetChain ctx = Ok c') in Hc'. rewrite Hc in Hc'. by injection Hc' as ->. Qed.

Lemma log200_told : logs_told fact0 "ethereum" (JArr [log200]).
Proof.
  apply logs_ok_array, Forall_singleton. split; [by vm_compute|].
  split; [eexists; vm_compute; reflexivity|]. exists 200. by vm_compute.
Qed.

Lemma truthful0 : truthful V0 fact0.
Proof.
  split.
  - intros ctx c i v Hc Hv. destruct (Hv eq_refl) as [->|(Ha & ->)]; [by left|].
    unfold answer0. cbn [internal_request r_method about_blocks].
    destruct (by_number200 _) eqn:Hb; [|by left]. right. split; [by eapply asks0|]. split; [|done].
    apply andb_prop in Hb as [_ Hb]. by apply bool_decide_eq_true in Hb.
  - intros ctx c bn v n Hc _ Hv. destruct (Hv eq_refl) as [->|(Ha & ->)]; [by left|].
    unfold answer0. cbn [internal_request r_method about_blocks].
    destruct (by_number200 _) eqn:Hb; [|by left]. intros Hn. right. split; [by eapply asks0|].
    split; [|done]. vm_compute in Hn. by injection Hn as <-.
  - intros ctx c h v n Hc Hv. destruct (Hv eq_refl) as [->|(Ha & ->)]; by left.
  - intros ctx c i v Hc Hv. destruct (Hv eq_refl) as [->|(Ha & ->)]; by left.
  - intros r c v Hc Hm Hv. unfold V0, answer0, by_number200 in Hv. rewrite Hm in Hv.
    destruct (Hv eq_refl) as [->|((c' & Hc' & He) & ->)]; [by intros l|].
    rewrite Hc in Hc'. injection Hc' as <-. rewrite He. apply log200_told.
Qed.

Lemma answer0_ok a r : tells (at_home V0 "ethereum") r
  (if a : bool then reply_err (EText "connection refused") else reply_ok (VRaw (answer0 r))).
Proof.
  destruct a.
  - split; [done|]. apply result_ok_nil, at_home_fitting, fitting0.
  - split; [done|]. intros j [= <-] Ha Hb. by right.
Qed.

Lemma params0_deployment :
  deployment Lr Lc env0 K0 (λ _, "ethereum") V0 fact0 StdHex.Hex (mret None) (λ _ f, f) None 128 [] params0.
Proof.
  split; simpl.
  - split; [|by intros []|by intros ? []| |by intros []|done].
    + intros [] [] T w Hne; try done; by destruct Hne.
    + intros c d T w Hc Hd []. apply elem_of_union in Hc, Hd. set_solver.
  - intros a. split; intros; try by apply outside_ret.
    intros w Hw. exists [if a then reply_err (EText "connection refused") else reply_ok (VRaw (answer0 r))], w.
    split; [by destruct a|]. split; [done|]. split; [apply answer0_ok|done].
  - apply fitting0.
  - apply truthful0.
  - done.
  - done.
  - split; try done.
    + by intros w [].
    + intros T w [_ Hw] HT. split; [by split|]. split; [by intros []|done].
    + by apply outside_ret.
  - intros w c [_ Hw]. change (0 <= Redihead.head (w_rest w).2.2 c < two63). rewrite Hw.
    change (Redihead.head heads_known c) with (default 0 ((<["ethereum" := 200]> ∅ : gmap string Z) !! c)).
    rewrite lookup_insert, lookup_empty. destruct (decide _); simpl; go_lia.
  - intros f c m b [= <-]. by apply outside_ret.
  - intros l rl k n _ [= <-]. by apply outside_ret.
  - done.
  - intros T w Hw. eexists (), _. split; [reflexivity|]. split; [exact Hw|]. split; [done|]. split; [by intros []|done].
Qed.

Lemma world0_ready : ready Lr Lc clusters0 K0 (λ _, "ethereum") 0 world0.
Proof.
  split_and!.
  - split; [|done]. split; [by apply LruFacts.NewLruStore_inv|..]; intros n c e He;
      by vm_compute in He.
  - intros []; by vm_compute.
  - intros c Hc. assert ("ethereum" = c) as <- by (apply elem_of_union in Hc; set_solver).
    split; [done|]. repeat constructor; by vm_compute.
Qed.

Definition handler0 : handler world :=
  match Node.New params0 with Ok h => h | Err _ => λ _, mret [] end.

Lemma node_replies_witness :
  ∃ x w', handler0 {| r_ctx := WithChain [] chain0; r_method := "eth_gasPrice"; r_params := None;
                      r_peer := "10.0.0.1:80" |} world0 = (Return [x], w') ∧
    ready Lr Lc clusters0 K0 (λ _, "ethereum") 11 w'.
Proof.
  refine (node_replies Lr Lc env0 K0 (λ _, "ethereum") V0 fact0 StdHex.Hex (mret None) (λ _ f, f) None 128 []
    params0 0 handler0 _ chain0 world0 params0_deployment _ _ _ _ _ _ _ world0_ready _);
    try reflexivity; try done.
Defined.

(** The newest block, without the details of its transactions. *)
Definition request0 : request := {|
  r_ctx := WithChain [] chain0; r_method := "eth_getBlockByNumber";
  r_params := Some (JArr [JStr "latest"; JBool false]); r_peer := "10.0.0.1:80" |}.

Lemma node_blocks_true_witness :
  (handler0 request0 world0).1 = Return [reply_ok (VRaw bare200)] ∧
  ∃ x w', handler0 request0 world0 = (Return [x], w') ∧
    ready Lr Lc clusters0 K0 (λ _, "ethereum") 11 w' ∧ block_reply fact0 "ethereum" 200 request0 x.
Proof.
  split; [vm_compute; reflexivity|].
  refine (node_blocks_true Lr Lc env0 K0 (λ _, "ethereum") V0 fact0 StdHex.Hex (mret None) (λ _ f, f) None 128 []
    params0 0 handler0 request0 chain0 200 world0 params0_deployment _ _ _ _ _ _ world0_ready _);
    try reflexivity; try done.
  - by left.
  - intros w [_ Hw]. change (Redihead.head (w_rest w).2.2 "ethereum" = 200). by rewrite Hw.
Defined.

(** The logs of two blocks. *)
Definition request1 : request := {|
  r_ctx := WithChain [] chain0; r_method := "eth_getLogs";
  r_params := Some (JArr [JObj [("fromBlock", JStr "0xc7"); ("toBlock", JStr "0xc8")]]);
  r_peer := "10.0.0.1:80" |}.

Lemma node_logs_true_witness :
  (handler0 request1 world0).1 = Return [reply_ok (VRaw (JArr [log200]))] ∧
  ∃ x w', handler0 request1 world0 = (Return [x], w') ∧
    ready Lr Lc clusters0 K0 (λ _, "ethereum") 11 w' ∧ logs_reply fact0 "ethereum" x.
Proof.
  split; [vm_compute; reflexivity|].
  refine (node_logs_true Lr Lc env0 K0 (λ _, "ethereum") V0 fact0 StdHex.Hex (mret None) (λ _ f, f) None 128 []
    params0 0 handler0 request1 chain0 world0 params0_deployment _ _ _ _ _ _ world0_ready _);
    try reflexivity; try done.
  intros q f t Hq _ Hf Ht _. vm_compute in Hq. injection Hq as <-. injection Hf as <-. injection Ht as <-.
  done.
Defined.
End WholeWitness.
