(* ===== verification/Rediblock.v ===== *)
(** * The redis block store: [svc/node/stores/vennstores/rediblock]

    Entries under two families of keys, by hash and by number; every write
    checks the parents for a reorganisation of the chain and then runs a
    script that also keeps the head.  Redis and go-redis are an interface with
    the documented behaviour of the commands; the scripts are part of the
    source and modelled here. *)
From S2P Require Import Prelude Errors Json EthTypes Config Rpc BlockStore.
From Stdlib Require Import QArith_base Qround.
#[local] Open Scope Z_scope.

(** ** Redis *)

(** A value: text the program formats, or the bytes of an entry. *)
Inductive rval : Type :=
  | Txt (s : string)
  | Raw (v : json).

Definition rtext (v : rval) : string := match v with Txt s => s | Raw v => render v end.

(** GET, SET, SETEX, KEYS and DEL. *)
Class Redis (S : Type) := {
  rd_get : string → S → option rval;
  rd_set : string → rval → S → S;
  rd_setex : string → Z → rval → S → S;
  rd_keys : string → S → list string;
  rd_del : list string → S → S;
}.

(** No character of a glob pattern. *)
Definition glob_plain (s : string) : Prop :=
  Forall (λ a, str_contains a s = false) ["*"; "?"; "["; "\"].

(** Between two commands of a test no key lapses. *)
Class RedisSpec (S : Type) `{R : Redis S} : Prop := {
  rd_get_set k v s k' :
    rd_get k' (rd_set k v s) = if decide (k = k') then Some v else rd_get k' s;
  rd_get_setex k exp v s k' : 0 < exp →
    rd_get k' (rd_setex k exp v s) = if decide (k = k') then Some v else rd_get k' s;
  rd_get_del ks s k : rd_get k (rd_del ks s) = if decide (k ∈ ks) then None else rd_get k s;
  rd_keys_prefix p s k : glob_plain p →
    k ∈ rd_keys (p +:+ "*") s ↔ has_prefix p k = true ∧ is_Some (rd_get k s);
}.

(** go-redis' [redis.Nil]. *)
Definition redis_Nil : goerr := EText "redis: nil".

(** Lua's [tonumber] and the text redis makes of a Lua number: doubles. *)
Class Lua := {
  lua_tonumber : string → option Z;
  lua_tostring : Z → string;
}.
Class LuaSpec `{U : Lua} : Prop := {
  lua_exact n : 0 <= n <= 2 ^ 53 →
    lua_tonumber (pretty n) = Some n ∧ lua_tostring n = pretty n;
}.

(** [common.Hash.Hex] and [common.HexToHash]. *)
Class HashText := {
  Hex : hash → string;
  HexToHash : string → hash;
}.

(** ** The scripts *)

Section scripts.
Context {S : Type} `{R : Redis S} `{U : Lua}.

(** [checkReorgScript]: the first value that is not the expected one. *)
Fixpoint checkReorgScript (KEYS : list string) (ARGV : list rval) (s : S) : string :=
  match KEYS, ARGV with
  | key :: KEYS, expected :: ARGV =>
      match rd_get key s with
      | Some actual =>
          if bool_decide (rtext actual = rtext expected) then checkReorgScript KEYS ARGV s
          else rtext actual
      | None => checkReorgScript KEYS ARGV s
      end
  | _, _ => ""
  end.

(** [tonumber] of a value. *)
Definition tonumber (v : rval) : option Z :=
  match v with Txt s => lua_tonumber s | Raw _ => None end.

Definition script_error : goerr := EText "attempt to compare number with nil".

(** How long an entry is kept, in seconds. *)
Definition expiry (head number secondsPerBlock : Z) : Z :=
  let behind := Z.max 1 (head - number + 1) in
  Z.min 3600 (Z.max 1 (behind * secondsPerBlock)).

(** The loop of [addEntriesScript]: four keys and three arguments a turn. *)
Fixpoint add_entries (head_key : string) (secondsPerBlock : Z)
    (KEYS : list string) (ARGV : list rval) (head : Z) (s : S) : res goerr Z * S :=
  match KEYS, ARGV with
  | byHashValue :: byHashNumber :: byNumberValue :: byNumberHash :: KEYS,
    value :: number :: hash :: ARGV =>
      match tonumber number with
      | None => (Err script_error, s)
      | Some number =>
          let '(head, s) := if head <? number
                            then (number, rd_set head_key (Txt (lua_tostring number)) s)
                            else (head, s) in
          let exp := expiry head number secondsPerBlock in
          let s := rd_setex byHashValue exp value s in
          let s := rd_setex byHashNumber exp (Txt (lua_tostring number)) s in
          let s := rd_setex byNumberValue exp value s in
          let s := rd_setex byNumberHash exp hash s in
          add_entries head_key secondsPerBlock KEYS ARGV head s
      end
  | [], _ => (Ok head, s)
  | _, _ => (Err script_error, s)
  end.

Definition addEntriesScript (KEYS : list string) (secondsPerBlock : Z) (ARGV : list rval)
    (s : S) : res goerr Z * S :=
  match KEYS with
  | [] => (Err script_error, s)
  | head_key :: KEYS =>
      let head := default 0 (rd_get head_key s ≫= tonumber) in
      add_entries head_key secondsPerBlock KEYS ARGV head s
  end.
End scripts.

(** ** The store *)

Module Rediblock.

(** The keys of a chain. *)
Inductive key : Type :=
  | KHead
  | KHashValue (typ : EntryType) (h : string)
  | KHashNumber (typ : EntryType) (h : string)
  | KNumberValue (typ : EntryType) (n : Z)
  | KNumberHash (typ : EntryType) (n : Z).

#[export] Instance key_eq_dec : EqDecision key.
Proof. solve_decision. Defined.

Definition by_hash (typ : EntryType) (h field : string) : string :=
  ":entries:by_hash:" +:+ pretty (EntryType_val typ) +:+ ":" +:+ h +:+ ":" +:+ field.
Definition by_number (typ : EntryType) (n : Z) (field : string) : string :=
  ":entries:by_number:" +:+ pretty (EntryType_val typ) +:+ ":" +:+ pretty n +:+ ":" +:+ field.

Definition key_suffix (k : key) : string :=
  match k with
  | KHead => ":head"
  | KHashValue typ h => by_hash typ h "value"
  | KHashNumber typ h => by_hash typ h "number"
  | KNumberValue typ n => by_number typ n "value"
  | KNumberHash typ n => by_number typ n "hash"
  end.

Section rediblock.
Context {S W : Type} `{R : Redis S} `{U : Lua} `{HT : HashText} `{L : !Lens S W}.
(** The namespace of the configuration; a failing round trip to the server. *)
Context (Namespace : string) (net : prog W (option goerr)).

Definition namespace (c : Chain) : string := Namespace +:+ ":{" +:+ Chain_Name c +:+ "}".
Definition key_text (c : Chain) (k : key) : string := namespace c +:+ key_suffix k.

(** One round trip. *)
Definition ask {A} (m : S → A * S) : prog W (res goerr A) :=
  e ← net;
  match e with
  | Some e => mret (Err e)
  | None => s ← read; let '(a, s') := m s in _ ← write s'; mret (Ok a)
  end.

(** [Pipeline.Exec] of GETs: the first missing key is the error. *)
Fixpoint exec (ks : list string) (s : S) : option (list rval) :=
  match ks with
  | [] => Some []
  | k :: ks => v ← rd_get k s; vs ← exec ks s; mret (v :: vs)
  end.

Definition pipeline (ks : list string) : prog W (res goerr (list rval)) :=
  r ← ask (λ s, (exec ks s, s));
  mret (r ← r; match r with Some vs => Ok vs | None => Err redis_Nil end).

(** [Bytes], [Uint64] and [Val] of a command. *)
Definition cmd_bytes (v : rval) : json := match v with Txt s => JBad s | Raw v => v end.
Definition cmd_uint64 (v : rval) : option Z :=
  match v with Txt s => ParseUint10 s | Raw _ => None end.
Definition cmd_val (v : rval) : string := rtext v.

(** The keys of a range: the loop ends unless [End] is the largest word. *)
Fixpoint range_keys (fuel : nat) (c : Chain) (typ : EntryType) (i End : Z)
    : option (list string) :=
  if i <=? End then
    match fuel with
    | O => None
    | Datatypes.S fuel =>
        ks ← range_keys fuel c typ (u64 (i + 1)) End;
        mret (key_text c (KNumberValue typ i) :: key_text c (KNumberHash typ i) :: ks)
    end
  else Some [].

(** The entries of the commands, two a turn. *)
Fixpoint results (i : Z) (vs : list rval) : list Entry :=
  match vs with
  | value :: hash :: vs =>
      {| BlockHash := HexToHash (cmd_val hash); BlockNumber := u64 i; ParentHash := None;
         Value := cmd_bytes value |} :: results (i + 1) vs
  | _ => []
  end.

Definition Get (c : Chain) (typ : EntryType) (q : Query) : prog W (res goerr (list Entry)) :=
  match q with
  | QueryHash h =>
      r ← pipeline [key_text c (KHashValue typ (Hex h)); key_text c (KHashNumber typ (Hex h))];
      match r with
      | Ok [value; number] =>
          match cmd_uint64 number with
          | Some n => mret (Ok [{| BlockHash := h; BlockNumber := n; ParentHash := None;
                                   Value := cmd_bytes value |}])
          | None => panic "strconv.ParseUint"
          end
      | Ok _ => mret (Err redis_Nil)
      | Err e => mret (Err e)
      end
  | QueryRange Start End =>
      _ ← lift (make_pointers (u64 (u64 (End - Start + 1) * 2)));
      match range_keys (Datatypes.S (Z.to_nat (End - Start))) c typ Start End with
      | None => block
      | Some ks =>
          r ← pipeline ks;
          match r with
          | Err e => mret (Err e)
          | Ok vs =>
              _ ← lift (make_pointers (u64 (End - Start + 1)));
              mret (Ok (results Start vs))
          end
      end
  end.

(** [reorg]: all entries by number go. *)
Definition reorg (c : Chain) : prog W (option goerr) :=
  r ← ask (λ s, (rd_keys (namespace c +:+ ":entries:by_number:*") s, s));
  match r with
  | Err e => mret (if bool_decide (e = redis_Nil) then None else Some e)
  | Ok [] => mret (Some (EText "ERR wrong number of arguments for 'del' command"))
  | Ok keys =>
      r ← ask (λ s, ((), rd_del keys s));
      mret match r with Ok _ => None | Err e => Some e end
  end.

(** What an entry adds to the lists that [Put] collects. *)
Definition entry_keys (c : Chain) (typ : EntryType) (e : Entry) : list string :=
  key_text c <$> [KHashValue typ (Hex (BlockHash e)); KHashNumber typ (Hex (BlockHash e));
                  KNumberValue typ (BlockNumber e); KNumberHash typ (BlockNumber e)].
Definition entry_values (e : Entry) : list rval :=
  [Raw (Value e); Txt (pretty (BlockNumber e)); Txt (Hex (BlockHash e))].

Definition parents (es : list Entry) : list (Z * hash) :=
  omap (λ e, p ← ParentHash e; mret (u64 (BlockNumber e - 1), p)) es.

(** [int(math.Max(1, chain.BlockTimeSeconds))]. *)
Definition seconds_per_block (c : Chain) : Z := Z.max 1 (Qfloor (BlockTimeSeconds c)).

Definition Put (c : Chain) (typ : EntryType) (es : list Entry) : prog W (option goerr) :=
  let keys := key_text c KHead :: mjoin (entry_keys c typ <$> es) in
  let values := mjoin (entry_values <$> es) in
  let reorgKeys := (λ np : Z * hash, key_text c (KNumberHash typ np.1)) <$> parents es in
  let reorgValues := (λ np : Z * hash, Txt (Hex np.2)) <$> parents es in
  checked ← (match reorgKeys with
             | [] => mret None
             | _ =>
                 r ← ask (λ s, (checkReorgScript reorgKeys reorgValues s, s));
                 match r with
                 | Err e => mret (Some e)
                 | Ok found => if bool_decide (found = "") then mret None else reorg c
                 end
             end);
  match checked with
  | Some e => mret (Some e)
  | None =>
      r ← ask (addEntriesScript keys (seconds_per_block c) values);
      mret match r with
           | Err e | Ok (Err e) => if bool_decide (e = redis_Nil) then None else Some e
           | Ok (Ok _) => None
           end
  end.

Definition store : Store W := {| st_Get := Get; st_Put := Put |}.
End rediblock.
End Rediblock.

(** ** Lemmas: decimal text *)

Module KeyText.

(** [c] does not occur in [s]. *)
Fixpoint no_char (c : ascii) (s : string) : bool :=
  match s with
  | EmptyString => true
  | String d s => negb (bool_decide (c = d)) && no_char c s
  end.

Lemma first_char_inj c a b a' b' :
  no_char c a = true → no_char c a' = true →
  a +:+ String c b = a' +:+ String c b' → a = a' ∧ b = b'.
Proof.
  revert a'. induction a as [|d a IH]; intros [|d' a'] Ha Ha' H; simpl in *.
  - by injection H.
  - injection H as <- _. by rewrite bool_decide_true in Ha'.
  - injection H as -> _. by rewrite bool_decide_true in Ha.
  - apply andb_true_iff in Ha as [_ Ha]. apply andb_true_iff in Ha' as [_ Ha'].
    injection H as <- H. by destruct (IH a' Ha Ha' H) as [-> ->].
Qed.

Lemma app_inj_l (p a b : string) : p +:+ a = p +:+ b → a = b.
Proof. induction p as [|c p IH]; [done|]. intros H. injection H as H. auto. Qed.

Lemma pretty_go_no_char c x s :
  (∀ d, c ≠ pretty_N_char d) → no_char c s = true →
  no_char c (pretty_N_go x s) = true.
Proof.
  intros Hc. revert s. induction (N.lt_wf_0 x) as [x _ IH]; intros s Hs.
  destruct (decide (x = 0)%N) as [->|Hx]; [by rewrite pretty_N_go_0|].
  rewrite pretty_N_go_step by lia. apply IH; [apply N.div_lt; lia|].
  cbn [no_char]. by rewrite Hs, bool_decide_false.
Qed.

Lemma pretty_no_colon (n : Z) : 0 <= n → no_char ":" (pretty n) = true.
Proof.
  intros Hn. destruct n as [|p|p]; [done| |lia].
  change (pretty (Z.pos p)) with (pretty (N.pos p)). unfold pretty, pretty_N.
  rewrite decide_False by done. apply pretty_go_no_char; [|done].
  intros d. unfold pretty_N_char. by repeat case_match.
Qed.

Lemma parse_pretty_go x s : parse_digits (pretty_N_go x s) 0 = parse_digits s (Z.of_N x).
Proof.
  revert s. induction (N.lt_wf_0 x) as [x _ IH]; intros s.
  destruct (decide (x = 0)%N) as [->|Hx]; [by rewrite pretty_N_go_0|].
  rewrite pretty_N_go_step by lia. rewrite IH by (apply N.div_lt; lia). cbn [parse_digits].
  pose proof (N.div_mod x 10 ltac:(done)) as Hdm. pose proof (N.mod_lt x 10 ltac:(done)) as Hlt.
  set (q := (x `div` 10)%N) in *. set (d := (x `mod` 10)%N) in *.
  assert (Search.byte_of (pretty_N_char d) = 48 + Z.of_N d) as ->.
  { clear Hdm. clearbody d. assert (d = 0 ∨ d = 1 ∨ d = 2 ∨ d = 3 ∨ d = 4 ∨ d = 5 ∨ d = 6 ∨ d = 7 ∨ d = 8
      ∨ d = 9)%N as H by lia.
    repeat (destruct H as [->|H]; [reflexivity|]). by subst. }
  rewrite (proj2 (Z.leb_le _ _)), (proj2 (Z.leb_le _ _)) by lia. cbn [andb]. f_equal. lia.
Qed.

(** [strconv.ParseUint] reads what [fmt] wrote. *)
Lemma ParseUint10_pretty n : in_u64 n → ParseUint10 (pretty n) = Some n.
Proof.
  unfold in_u64. intros Hn. assert (parse_digits (pretty n) 0 = Some n) as Hp.
  { destruct n as [|p|p]; [done| |lia].
    change (pretty (Z.pos p)) with (pretty (N.pos p)). unfold pretty, pretty_N.
    rewrite decide_False by done. apply parse_pretty_go. }
  unfold ParseUint10. rewrite Hp. destruct (pretty n) eqn:He.
  - simpl in Hp. injection Hp as <-. done.
  - cbn [mbind option_bind]. by rewrite (proj2 (Z.ltb_lt _ _)) by lia.
Qed.
End KeyText.

(** ** Lemmas: the store *)

Module RediblockFacts.
Import Rediblock KeyText.

(** The documented form of the hash texts. *)
Class HashTextSpec `{HT : HashText} : Prop := {
  HexToHash_Hex h : is_bytes HashLength h → HexToHash (Hex h) = h;
  Hex_no_colon h : is_bytes HashLength h → no_char ":" (Hex h) = true;
  Hex_nonempty h : is_bytes HashLength h → Hex h ≠ "";
}.

(** Keys as the program makes them. *)
Definition key_ok (k : key) : Prop :=
  match k with
  | KHead => True
  | KHashValue _ h | KHashNumber _ h => no_char ":" h = true
  | KNumberValue _ n | KNumberHash _ n => 0 <= n
  end.

Lemma typ_no_colon typ : no_char ":" (pretty (EntryType_val typ)) = true.
Proof. by destruct typ. Qed.

Lemma fields_inj typ typ' (a a' f f' : string) :
  no_char ":" a = true → no_char ":" a' = true →
  pretty (EntryType_val typ) +:+ ":" +:+ a +:+ ":" +:+ f
  = pretty (EntryType_val typ') +:+ ":" +:+ a' +:+ ":" +:+ f' → typ = typ' ∧ a = a' ∧ f = f'.
Proof.
  intros Ha Ha' H. apply first_char_inj in H as [Ht H]; [|apply typ_no_colon..].
  apply first_char_inj in H as [-> H]; [|done..]. split; [|by simplify_eq].
  by destruct typ, typ'.
Qed.

Lemma key_text_inj ns c k k' :
  key_ok k → key_ok k' → key_text ns c k = key_text ns c k' → k = k'.
Proof.
  intros Hk Hk' H. unfold key_text in H. apply app_inj_l in H.
  destruct k as [|t h|t h|t n|t n], k' as [|t' h'|t' h'|t' n'|t' n']; simpl in Hk, Hk';
    cbn [key_suffix] in H; unfold by_hash, by_number in H; try done;
    try (exfalso; simpl in H; discriminate H);
    apply app_inj_l, fields_inj in H as (-> & Hx & Hf); auto using pretty_no_colon;
    try discriminate Hf; try (by rewrite Hx); apply (inj pretty) in Hx; by rewrite Hx.
Qed.

Lemma number_prefix ns c typ n f :
  has_prefix (namespace ns c +:+ ":entries:by_number:") (namespace ns c +:+ by_number typ n f)
  = true.
Proof.
  apply prefix_app. eexists. rewrite str_app_assoc. unfold by_number. done.
Qed.

(** A key by hash or the head's is not listed with the keys by number. *)
Definition is_number (k : key) : bool :=
  match k with KNumberValue _ _ | KNumberHash _ _ => true | _ => false end.

Lemma prefix_is_number ns c k :
  has_prefix (namespace ns c +:+ ":entries:by_number:") (key_text ns c k) = is_number k.
Proof.
  destruct (is_number k) eqn:Hk.
  - destruct k; try done; apply number_prefix.
  - destruct (has_prefix _ _) eqn:Hp; [|done]. exfalso. apply prefix_app in Hp as [t Ht].
    unfold key_text in Ht. rewrite str_app_assoc in Ht. apply app_inj_l in Ht.
    destruct k; try done; simpl in Ht; discriminate Ht.
Qed.

(** *** What a write leaves *)

Section facts.
Context {S : Type} `{RS : RedisSpec S} `{US : LuaSpec} `{HTS : HashTextSpec}.
Context (ns : string) (c : Chain).

(** What one entry writes under a key, and what the last of several does. *)
Definition entry_write (typ : EntryType) (e : Entry) (k : key) : option rval :=
  match k with
  | KHead => None
  | KHashValue t h => if decide (t = typ ∧ h = Hex (BlockHash e)) then Some (Raw (Value e)) else None
  | KHashNumber t h =>
      if decide (t = typ ∧ h = Hex (BlockHash e)) then Some (Txt (pretty (BlockNumber e))) else None
  | KNumberValue t n => if decide (t = typ ∧ n = BlockNumber e) then Some (Raw (Value e)) else None
  | KNumberHash t n =>
      if decide (t = typ ∧ n = BlockNumber e) then Some (Txt (Hex (BlockHash e))) else None
  end.

Fixpoint written (typ : EntryType) (es : list Entry) (k : key) : option rval :=
  match es with
  | [] => None
  | e :: es => match written typ es k with Some v => Some v | None => entry_write typ e k end
  end.

Definition entry_ok (e : Entry) : Prop :=
  0 <= BlockNumber e <= 2 ^ 53 ∧ is_bytes HashLength (BlockHash e).

Lemma expiry_pos head n spb : 0 < expiry head n spb.
Proof. unfold expiry. lia. Qed.

(** One key among those of an entry. *)
Lemma get_setex_key k k' exp v s :
  key_ok k → key_ok k' → 0 < exp →
  rd_get (key_text ns c k') (rd_setex (key_text ns c k) exp v s)
  = if decide (k = k') then Some v else rd_get (key_text ns c k') s.
Proof.
  intros Hk Hk' He. rewrite rd_get_setex by done. destruct (decide (k = k')) as [->|Hne].
  - by rewrite decide_True.
  - rewrite decide_False; [done|]. intros H. by apply Hne, (key_text_inj ns c).
Qed.

Lemma add_entries_run typ es spb head s :
  Forall entry_ok es → ∃ head' s',
  add_entries (key_text ns c KHead) spb (mjoin (entry_keys ns c typ <$> es))
    (mjoin (entry_values <$> es)) head s = (Ok head', s') ∧
  ∀ k, key_ok k → k ≠ KHead →
    rd_get (key_text ns c k) s'
    = match written typ es k with Some v => Some v | None => rd_get (key_text ns c k) s end.
Proof.
  intros Hes. revert head s. induction Hes as [|e es [Hn Hh] _ IH]; intros head s.
  { exists head, s. done. }
  rewrite !mjoin_fmap_cons. set (ks := mjoin _) in *. set (vs := mjoin (entry_values <$> es)) in *.
  cbn [fmap list_fmap entry_keys entry_values app add_entries tonumber].
  destruct (lua_exact (BlockNumber e) Hn) as [-> Hts]. rewrite Hts.
  set (hs := if head <? BlockNumber e then _ else _).
  assert (∀ k, key_ok k → k ≠ KHead →
    rd_get (key_text ns c k) hs.2 = rd_get (key_text ns c k) s) as Hhead.
  { intros k Hk Hne. unfold hs. destruct (head <? _); [|done]. cbn [snd].
    rewrite rd_get_set, decide_False; [done|]. intros H. by apply (key_text_inj ns c KHead k) in H. }
  destruct hs as [head1 s1] eqn:Hhs. cbn [snd] in Hhead.
  set (exp := expiry head1 (BlockNumber e) spb).
  assert (0 < exp) as Hexp by apply expiry_pos.
  match goal with |- context [add_entries _ _ _ _ head1 ?x] => set (s2 := x) end.
  destruct (IH head1 s2) as (head' & s' & -> & Hs'). exists head', s'. split; [done|].
  intros k Hk Hne. rewrite Hs' by done. cbn [written].
  destruct (written typ es k) as [v|]; [done|]. rewrite <- (Hhead k Hk Hne). unfold s2.
  assert (no_char ":" (Hex (BlockHash e)) = true) as Hc by by apply Hex_no_colon.
  rewrite !get_setex_key by (done || simpl; lia). cbn [entry_write]. clear - Hne.
  destruct k as [|t h|t h|t n|t n]; try done; cbn [entry_write];
    repeat match goal with |- context [decide ?P] => destruct (decide P) end;
    simplify_eq; try done; naive_solver.
Qed.

(** *** The check for a reorganisation *)

(** Some new entry's parent is not the block that is stored below it. *)
Definition conflict (typ : EntryType) (es : list Entry) (s : S) : bool :=
  existsb (λ np : Z * hash,
    match rd_get (key_text ns c (KNumberHash typ np.1)) s with
    | Some v => negb (bool_decide (rtext v = Hex np.2))
    | None => false
    end) (parents es).

(** The hashes by number have some text. *)
Definition hashes_ok (s : S) : Prop :=
  ∀ typ n v, 0 <= n → rd_get (key_text ns c (KNumberHash typ n)) s = Some v → rtext v ≠ "".

Lemma checkReorg_run typ (ps : list (Z * hash)) s :
  hashes_ok s → Forall (λ np : Z * hash, 0 <= np.1) ps →
  checkReorgScript ((λ np : Z * hash, key_text ns c (KNumberHash typ np.1)) <$> ps)
    ((λ np : Z * hash, Txt (Hex np.2)) <$> ps) s ≠ "" ↔
  existsb (λ np : Z * hash,
    match rd_get (key_text ns c (KNumberHash typ np.1)) s with
    | Some v => negb (bool_decide (rtext v = Hex np.2))
    | None => false
    end) ps = true.
Proof.
  intros Hok Hps. induction Hps as [|[n p] ps Hn _ IH]; [done|].
  cbn [fmap list_fmap checkReorgScript existsb fst snd rtext].
  destruct (rd_get _ s) as [v|] eqn:Hv; [|exact IH].
  case_bool_decide; [exact IH|]. split; [done|]. intros _. by apply (Hok typ n v).
Qed.

Lemma parents_ok es : Forall (λ np : Z * hash, 0 <= np.1) (parents es).
Proof.
  apply Forall_forall. intros [n p] Hin. unfold parents in Hin.
  apply list_elem_of_omap in Hin as (e & _ & He).
  destruct (ParentHash e); [|done]. injection He as <- _. simpl. apply u64_range.
Qed.

Context {W : Type} `{L : !Lens S W} (net : prog W (option goerr)).
Hypothesis net_up : ∀ w, net w = (Return None, w).
Hypothesis ns_plain : glob_plain (namespace ns c +:+ ":entries:by_number:").

Lemma ask_run {A} (m : S → A * S) w :
  ask net m w = (Return (Ok (m (lget w)).1), lput (m (lget w)).2 w).
Proof.
  unfold ask. rewrite (prog_bind_return _ _ _ _ _ (net_up w)). unfold read, write.
  rewrite (prog_bind_return _ _ (lget w) w w) by done. by destruct (m (lget w)) as [a s].
Qed.

(** The reorganisation drops every entry by number, of every type. *)
Lemma reorg_run typ n w :
  0 <= n → is_Some (rd_get (key_text ns c (KNumberHash typ n)) (lget w)) →
  ∃ w', reorg ns net c w = (Return None, w') ∧
  ∀ k, key_ok k → rd_get (key_text ns c k) (lget w')
    = if is_number k then None else rd_get (key_text ns c k) (lget w).
Proof.
  intros Hn Hs. unfold reorg.
  rewrite (prog_bind_return _ _ _ _ _ (ask_run (λ s,
    (rd_keys (namespace ns c +:+ ":entries:by_number:*") s, s)) w)). cbn [fst snd].
  rewrite lput_lget.
  assert (∀ k, key_text ns c k ∈ rd_keys (namespace ns c +:+ ":entries:by_number:*") (lget w)
    ↔ is_number k = true ∧ is_Some (rd_get (key_text ns c k) (lget w))) as Hks.
  { intros k. rewrite <- (prefix_is_number ns c k), <- (rd_keys_prefix _ _ _ ns_plain).
    by rewrite str_app_assoc. }
  generalize dependent (rd_keys (namespace ns c +:+ ":entries:by_number:*") (lget w)).
  intros [|k0 keys] Hks; [by destruct (not_elem_of_nil (key_text ns c (KNumberHash typ n))); apply Hks|].
  rewrite (prog_bind_return _ _ _ _ _ (ask_run (λ s, ((), rd_del (k0 :: keys) s)) w)). cbn [fst snd].
  eexists. split; [done|]. intros k Hk. rewrite lget_lput, rd_get_del.
  destruct (decide _) as [Hin|Hin].
  - by apply Hks in Hin as [-> _].
  - destruct (is_number k) eqn:Hnum; [|done].
    destruct (rd_get (key_text ns c k) (lget w)) eqn:Hg; [|done].
    exfalso. by apply Hin, Hks.
Qed.

(** The first step of [Put]. *)
Lemma check_run typ es w :
  hashes_ok (lget w) →
  ∃ w1,
  match (λ np : Z * hash, key_text ns c (KNumberHash typ np.1)) <$> parents es with
  | [] => mret None
  | _ =>
      r ← ask net (λ s, (checkReorgScript
        ((λ np : Z * hash, key_text ns c (KNumberHash typ np.1)) <$> parents es)
        ((λ np : Z * hash, Txt (Hex np.2)) <$> parents es) s, s));
      match r with
      | Err e => mret (Some e)
      | Ok found => if bool_decide (found = "") then mret None else reorg ns net c
      end
  end w = (Return None, w1) ∧
  ∀ k, key_ok k → rd_get (key_text ns c k) (lget w1)
    = if conflict typ es (lget w) && is_number k then None
      else rd_get (key_text ns c k) (lget w).
Proof.
  intros Hok. pose proof (checkReorg_run typ _ _ Hok (parents_ok es)) as Hr.
  fold (conflict typ es (lget w)) in Hr. destruct ((λ np, _) <$> parents es) as [|k0 ks] eqn:Hks.
  { apply fmap_nil_inv in Hks. unfold conflict. rewrite Hks. by exists w. }
  rewrite (prog_bind_return _ _ _ _ _ (ask_run _ w)). cbn [fst snd]. rewrite lput_lget.
  destruct (conflict typ es (lget w)) eqn:Hc.
  - rewrite bool_decide_false by by apply Hr.
    unfold conflict in Hc. apply existsb_exists in Hc as ([n p] & Hin & Hv).
    apply list_elem_of_In in Hin. pose proof (parents_ok es) as Hpos.
    rewrite Forall_forall in Hpos. specialize (Hpos _ Hin). simpl in Hpos, Hv.
    destruct (reorg_run typ n w Hpos) as (w1 & Hw1 & H1); [by destruct (rd_get _ _)|].
    by exists w1.
  - rewrite bool_decide_true.
    2: { destruct (decide (checkReorgScript (k0 :: ks) ((λ np : Z * hash, Txt (Hex np.2))
           <$> parents es) (lget w) = "")) as [He|He]; [exact He|]. apply Hr in He. done. }
    by exists w.
Qed.

(** Hashes are written as non-empty text. *)
Lemma written_text typ es t n v :
  Forall entry_ok es → written typ es (KNumberHash t n) = Some v → rtext v ≠ "".
Proof.
  intros Hes. induction Hes as [|e es [_ Hh] _ IH]; [done|]. cbn [written].
  destruct (written typ es _) as [v'|]; [exact IH|]. cbn [entry_write].
  destruct (decide _); [|done]. intros [= <-]. by apply Hex_nonempty.
Qed.

Lemma redi_Put_run typ es w :
  Forall entry_ok es → hashes_ok (lget w) →
  ∃ w', Put ns net c typ es w = (Return None, w') ∧
  (∀ k, key_ok k → k ≠ KHead →
    rd_get (key_text ns c k) (lget w')
    = match written typ es k with
      | Some v => Some v
      | None => if conflict typ es (lget w) && is_number k then None
                else rd_get (key_text ns c k) (lget w)
      end) ∧
  hashes_ok (lget w').
Proof.
  intros Hes Hok. unfold Put.
  destruct (check_run typ es w Hok) as (w1 & Hw1 & H1).
  rewrite (prog_bind_return _ _ _ _ _ Hw1).
  destruct (add_entries_run typ es (seconds_per_block c)
    (default 0 (rd_get (key_text ns c KHead) (lget w1) ≫= tonumber)) (lget w1) Hes)
    as (head' & s' & Hadd & Hs').
  rewrite (prog_bind_return _ _ _ _ _ (ask_run _ w1)). unfold addEntriesScript. rewrite Hadd.
  eexists. split; [done|]. cbn [snd]. rewrite lget_lput.
  assert (∀ k, key_ok k → k ≠ KHead → rd_get (key_text ns c k) s'
    = match written typ es k with
      | Some v => Some v
      | None => if conflict typ es (lget w) && is_number k then None
                else rd_get (key_text ns c k) (lget w)
      end) as Hkeys.
  { intros k Hk Hne. rewrite Hs' by done. destruct (written typ es k); [done|]. by apply H1. }
  split; [exact Hkeys|]. intros t n v Hn Hv. rewrite Hkeys in Hv by done.
  destruct (written typ es (KNumberHash t n)) as [v'|] eqn:Hw.
  - injection Hv as ->. by eapply written_text.
  - destruct (_ && _); [done|]. by apply (Hok t n v).
Qed.

(** *** What a read finds *)

Lemma entry_write_number typ e e' :
  BlockNumber e' ≠ BlockNumber e →
  entry_write typ e' (KNumberValue typ (BlockNumber e)) = None ∧
  entry_write typ e' (KNumberHash typ (BlockNumber e)) = None.
Proof. intros H. simpl. by rewrite !decide_False by naive_solver. Qed.

Lemma written_number typ es e :
  NoDup (BlockNumber <$> es) → e ∈ es →
  written typ es (KNumberValue typ (BlockNumber e)) = Some (Raw (Value e)) ∧
  written typ es (KNumberHash typ (BlockNumber e)) = Some (Txt (Hex (BlockHash e))).
Proof.
  induction es as [|e' es IH]; intros Hnd Hin; [by apply elem_of_nil in Hin|].
  cbn [written]. apply NoDup_cons in Hnd as [Hn Hnd].
  apply elem_of_cons in Hin as [<-|Hin].
  - assert (∀ k, (k = KNumberValue typ (BlockNumber e) ∨ k = KNumberHash typ (BlockNumber e)) →
      written typ es k = None) as Hw.
    { intros k Hk. clear IH Hnd. induction es as [|e' es IH]; [done|]. cbn [written].
      apply not_elem_of_cons in Hn as [Hne Hn]. rewrite IH by done.
      destruct (entry_write_number typ e e') as [H1 H2]; [congruence|].
      by destruct Hk as [->| ->]. }
    rewrite !Hw by auto. cbn [entry_write]. by rewrite !decide_True by done.
  - destruct (IH Hnd Hin) as [-> ->]. done.
Qed.

Lemma written_hash typ es e :
  NoDup (BlockHash <$> es) → Forall entry_ok es → e ∈ es →
  written typ es (KHashValue typ (Hex (BlockHash e))) = Some (Raw (Value e)) ∧
  written typ es (KHashNumber typ (Hex (BlockHash e))) = Some (Txt (pretty (BlockNumber e))).
Proof.
  intros Hnd Hok. induction es as [|e' es IH]; intros Hin; [by apply elem_of_nil in Hin|].
  cbn [written]. apply NoDup_cons in Hnd as [Hn Hnd]. apply Forall_cons in Hok as [[_ Hh] Hok].
  apply elem_of_cons in Hin as [<-|Hin].
  - assert (∀ k, (k = KHashValue typ (Hex (BlockHash e)) ∨ k = KHashNumber typ (Hex (BlockHash e))) →
      written typ es k = None) as Hw.
    { intros k Hk. clear IH Hnd. induction Hok as [|e' es [_ Hh'] _ IH]; [done|]. cbn [written].
      apply not_elem_of_cons in Hn as [Hne Hn]. rewrite IH by done.
      assert (Hex (BlockHash e) ≠ Hex (BlockHash e')) as Hx.
      { intros Hx. apply (f_equal HexToHash) in Hx. by rewrite !HexToHash_Hex in Hx. }
      destruct Hk as [->| ->]; cbn [entry_write]; by rewrite decide_False by naive_solver. }
    rewrite !Hw by auto. cbn [entry_write]. by rewrite !decide_True by done.
  - destruct (IH Hnd Hok Hin) as [-> ->]. done.
Qed.

Lemma range_keys_run fuel typ i End :
  0 <= i <= End + 1 → End < two64 - 1 → (Z.to_nat (End - i + 1) ≤ fuel)%nat →
  range_keys ns fuel c typ i End
  = Some (mjoin ((λ n, [key_text ns c (KNumberValue typ n); key_text ns c (KNumberHash typ n)])
                 <$> seqZ i (End - i + 1))).
Proof.
  revert i. induction fuel as [|fuel IH]; intros i Hi He Hf; cbn [range_keys].
  - rewrite (proj2 (Z.leb_gt _ _)) by lia. by rewrite seqZ_nil by lia.
  - destruct (Z.leb_spec i End) as [Hle|Hlt]; [|by rewrite seqZ_nil by lia].
    rewrite u64_small by go_lia. rewrite IH by lia.
    rewrite (seqZ_cons i) by lia. replace (Z.pred (End - i + 1)) with (End - (i + 1) + 1) by lia.
    done.
Qed.

(** An entry as redis gives it back: the parent is lost. *)
Definition stored (e : Entry) : Entry :=
  {| BlockHash := BlockHash e; BlockNumber := BlockNumber e; ParentHash := None;
     Value := Value e |}.

Lemma results_run es i s typ :
  Forall entry_ok es → BlockNumber <$> es = seqZ i (Z.of_nat (List.length es)) → 0 <= i →
  Forall (λ e, rd_get (key_text ns c (KNumberValue typ (BlockNumber e))) s = Some (Raw (Value e)) ∧
    rd_get (key_text ns c (KNumberHash typ (BlockNumber e))) s = Some (Txt (Hex (BlockHash e)))) es →
  ∃ vs, exec (mjoin ((λ n, [key_text ns c (KNumberValue typ n); key_text ns c (KNumberHash typ n)])
                     <$> seqZ i (Z.of_nat (List.length es)))) s = Some vs ∧
    results i vs = stored <$> es.
Proof.
  revert i. induction es as [|e es IH]; intros i Hok Hn Hi Hg; [by exists []|].
  apply Forall_cons in Hok as [[Hnum Hh] Hok]. apply Forall_cons in Hg as [[Hv Hx] Hg].
  cbn [List.length] in *. rewrite seqZ_cons in Hn by lia. injection Hn as He Hn.
  rewrite seqZ_cons by lia.
  replace (Z.pred (Z.of_nat (Datatypes.S (List.length es)))) with (Z.of_nat (List.length es)) in * by lia.
  destruct (IH (Z.succ i)) as (vs & Hvs & Hr); [done|exact Hn|lia|done|].
  rewrite mjoin_fmap_cons. cbn [app exec]. rewrite He in Hv, Hx. rewrite Hv, Hx.
  cbn [mbind option_bind]. rewrite Hvs. cbn [mbind option_bind].
  eexists. split; [done|]. cbn [results cmd_val rtext cmd_bytes]. rewrite HexToHash_Hex by done.
  replace (i + 1) with (Z.succ i) by lia. rewrite Hr. rewrite u64_small by go_lia.
  change (stored <$> e :: es) with (stored e :: (stored <$> es)). f_equal. unfold stored.
  by rewrite He.
Qed.

Lemma Get_range_run es typ i w :
  Forall entry_ok es → BlockNumber <$> es = seqZ i (Z.of_nat (List.length es)) → 0 <= i →
  (0 < List.length es)%nat → Z.of_nat (List.length es) <= 2 ^ 44 →
  Forall (λ e, rd_get (key_text ns c (KNumberValue typ (BlockNumber e))) (lget w)
      = Some (Raw (Value e)) ∧
    rd_get (key_text ns c (KNumberHash typ (BlockNumber e))) (lget w)
      = Some (Txt (Hex (BlockHash e)))) es →
  Get ns net c typ (QueryRange i (i + Z.of_nat (List.length es) - 1)) w
  = (Return (Ok (stored <$> es)), w).
Proof.
  intros Hok Hn Hi Hpos Hlen Hg. unfold Get.
  set (l := Z.of_nat (List.length es)) in *.
  assert (i + l - 1 <= 2 ^ 53) as Hmax.
  { assert (i + l - 1 ∈ BlockNumber <$> es) as Hin by (rewrite Hn; apply elem_of_seqZ; lia).
    apply list_elem_of_fmap in Hin as (e & -> & Hin). rewrite Forall_forall in Hok.
    by apply Hok. }
  replace (i + l - 1 - i) with (l - 1) by lia. replace (l - 1 + 1) with l by lia.
  rewrite (u64_small l), u64_small by go_lia.
  assert (∀ k, k <= 2 * l → make_pointers k = Return ()) as Hmake.
  { intros k Hk. unfold make_pointers. by rewrite (proj2 (Z.ltb_ge _ _)) by (unfold maxAlloc; lia). }
  rewrite (Hmake (l * 2)) by lia. rewrite range_keys_run by (go_lia || lia).
  replace (i + l - 1 - i + 1) with l by lia.
  destruct (results_run es i (lget w) typ Hok Hn Hi Hg) as (vs & Hvs & Hr). fold l in Hvs.
  unfold pipeline. rewrite (prog_bind_return _ _ () w w) by done.
  rewrite prog_bind_assoc. rewrite (prog_bind_return _ _ _ _ _ (ask_run _ w)). cbn [fst snd].
  rewrite lput_lget, Hvs. cbn [mbind res_bind]. rewrite prog_ret_bind.
  rewrite (Hmake l) by lia. rewrite (prog_bind_return _ _ () w w) by done. by rewrite Hr.
Qed.

(** A read of one number. *)
Lemma Get_number_run typ n w :
  0 <= n < two64 - 1 →
  Get ns net c typ (QueryNumber n) w
  = (Return (match rd_get (key_text ns c (KNumberValue typ n)) (lget w),
                   rd_get (key_text ns c (KNumberHash typ n)) (lget w) with
             | Some v, Some h => Ok [{| BlockHash := HexToHash (rtext h); BlockNumber := n;
                                        ParentHash := None; Value := cmd_bytes v |}]
             | _, _ => Err redis_Nil
             end), w).
Proof.
  intros Hn. unfold Get, QueryNumber. replace (n - n) with 0 by lia.
  change (u64 (0 + 1)) with 1. change (u64 (1 * 2)) with 2.
  assert (∀ k, k <= 2 → make_pointers k = Return ()) as Hmake.
  { intros k Hk. unfold make_pointers. by rewrite (proj2 (Z.ltb_ge _ _)) by (unfold maxAlloc; lia). }
  rewrite (Hmake 2), range_keys_run by lia. replace (n - n + 1) with 1 by lia.
  unfold pipeline. rewrite (prog_bind_return _ _ () w w) by done.
  rewrite prog_bind_assoc. rewrite (prog_bind_return _ _ _ _ _ (ask_run _ w)). cbn [fst snd].
  rewrite lput_lget, prog_ret_bind.
  change (seqZ n 1) with [Z.of_nat 0 + n]. replace (Z.of_nat 0 + n) with n by lia.
  cbn [fmap list_fmap mjoin list_join app exec].
  destruct (rd_get (key_text ns c (KNumberValue typ n)) (lget w)) as [v|]; [|reflexivity]. cbn [mbind option_bind].
  destruct (rd_get (key_text ns c (KNumberHash typ n)) (lget w)) as [h|]; [|reflexivity].
  cbn [mbind option_bind res_bind mret option_ret].
  rewrite (Hmake 1) by lia. rewrite (prog_bind_return _ _ () w w) by done.
  cbn [results]. by rewrite u64_small by go_lia.
Qed.

Lemma written_other typ es typ' n :
  typ' ≠ typ ∨ n ∉ BlockNumber <$> es →
  written typ es (KNumberValue typ' n) = None ∧ written typ es (KNumberHash typ' n) = None.
Proof.
  intros H. induction es as [|e es IH]; [done|]. cbn [written].
  destruct IH as [-> ->].
  { destruct H as [?|H]; [by left|right]. by apply not_elem_of_cons in H as [_ ?]. }
  cbn [entry_write]. rewrite !decide_False; [done|..];
    (intros [-> ->]; destruct H as [?|H]; [done|]; by apply H; left).
Qed.

Lemma written_other_hash typ es typ' h :
  Forall entry_ok es → is_bytes HashLength h → typ' ≠ typ ∨ h ∉ BlockHash <$> es →
  written typ es (KHashValue typ' (Hex h)) = None ∧ written typ es (KHashNumber typ' (Hex h)) = None.
Proof.
  intros Hes Hh H. induction Hes as [|e es [_ He] _ IH]; [done|]. cbn [written].
  destruct IH as [-> ->].
  { destruct H as [?|H]; [by left|right]. by apply not_elem_of_cons in H as [_ ?]. }
  assert (¬ (typ' = typ ∧ Hex h = Hex (BlockHash e))) as Hne.
  { intros [Ht Hx]. apply (f_equal HexToHash) in Hx. rewrite !HexToHash_Hex in Hx by done.
    destruct H as [?|H]; [done|]. apply H. rewrite Hx. by left. }
  cbn [entry_write]. by rewrite !decide_False by exact Hne.
Qed.

(** A read of one hash. *)
Lemma Get_hash_run typ h w :
  Get ns net c typ (QueryHash h) w
  = (match rd_get (key_text ns c (KHashValue typ (Hex h))) (lget w),
           rd_get (key_text ns c (KHashNumber typ (Hex h))) (lget w) with
     | Some v, Some n =>
         match cmd_uint64 n with
         | Some n => Return (Ok [{| BlockHash := h; BlockNumber := n; ParentHash := None;
                                    Value := cmd_bytes v |}])
         | None => Panic "strconv.ParseUint"
         end
     | _, _ => Return (Err redis_Nil)
     end, w).
Proof.
  unfold Get, pipeline. rewrite prog_bind_assoc.
  rewrite (prog_bind_return _ _ _ _ _ (ask_run _ w)). cbn [fst snd].
  rewrite lput_lget. cbn [exec].
  destruct (rd_get (key_text ns c (KHashValue typ (Hex h))) (lget w)) as [v|]; [|done].
  destruct (rd_get (key_text ns c (KHashNumber typ (Hex h))) (lget w)) as [x|]; [|done].
  cbn [mbind option_bind mret option_ret res_bind]. rewrite prog_ret_bind.
  by destruct (cmd_uint64 x).
Qed.

(** What was written last under a number or a hash is there. *)
Lemma Put_Get_number typ es e w' :
  Forall entry_ok es → NoDup (BlockNumber <$> es) → e ∈ es →
  (∀ k, key_ok k → k ≠ KHead → ∀ v, written typ es k = Some v →
     rd_get (key_text ns c k) (lget w') = Some v) →
  (Get ns net c typ (QueryNumber (BlockNumber e)) w').1 = Return (Ok [stored e]).
Proof.
  intros Hes Hnd He Hw. destruct (written_number typ es e Hnd He) as [Hv Hx].
  rewrite Forall_forall in Hes. destruct (Hes e He) as [Hnum Hh].
  rewrite Get_number_run by go_lia. cbn [fst].
  rewrite (Hw (KNumberValue typ (BlockNumber e)) (proj1 Hnum) ltac:(done) _ Hv),
    (Hw (KNumberHash typ (BlockNumber e)) (proj1 Hnum) ltac:(done) _ Hx).
  cbn [rtext cmd_bytes]. by rewrite HexToHash_Hex.
Qed.

Lemma Put_Get_hash typ es e w' :
  Forall entry_ok es → NoDup (BlockHash <$> es) → e ∈ es →
  (∀ k, key_ok k → k ≠ KHead → ∀ v, written typ es k = Some v →
     rd_get (key_text ns c k) (lget w') = Some v) →
  Get ns net c typ (QueryHash (BlockHash e)) w' = (Return (Ok [stored e]), w').
Proof.
  intros Hes Hnd He Hw. destruct (written_hash typ es e Hnd Hes He) as [Hv Hx].
  rewrite Forall_forall in Hes. destruct (Hes e He) as [Hnum Hh]. rewrite Get_hash_run.
  assert (no_char ":" (Hex (BlockHash e)) = true) as Hc by by apply Hex_no_colon.
  rewrite (Hw (KHashValue typ (Hex (BlockHash e))) Hc ltac:(done) _ Hv),
    (Hw (KHashNumber typ (Hex (BlockHash e))) Hc ltac:(done) _ Hx).
  cbn [cmd_uint64 cmd_bytes]. by rewrite ParseUint10_pretty by go_lia.
Qed.
End facts.
End RediblockFacts.

(** ** Properties *)

Module RediblockProps.
Import Rediblock RediblockFacts KeyText.

Section props.
Context {S W : Type} `{RS : RedisSpec S} `{US : LuaSpec} `{HTS : HashTextSpec} `{L : !Lens S W}.
(** A server that is up, and a namespace without glob characters. *)
Context (ns : string) (c : Chain) (net : prog W (option goerr)).
Hypothesis net_up : ∀ w, net w = (Return None, w).
Hypothesis ns_plain : glob_plain (namespace ns c +:+ ":entries:by_number:").

(** what was written is read back, by the range of the blocks' numbers in
    order and by each block's hash, with its number and its text; the parent
    hash is not kept, so a copy of the entries in the memory cache can no
    longer reveal a reorganisation. *)
Theorem rediblock_roundtrip typ es start w :
  Forall entry_ok es → hashes_ok ns c (lget w) →
  BlockNumber <$> es = seqZ start (Z.of_nat (List.length es)) → NoDup (BlockHash <$> es) →
  (0 < List.length es)%nat → Z.of_nat (List.length es) <= 2 ^ 44 →
  ∃ w', Put ns net c typ es w = (Return None, w') ∧
    Get ns net c typ (QueryRange start (start + Z.of_nat (List.length es) - 1)) w'
    = (Return (Ok (stored <$> es)), w') ∧
    ∀ e, e ∈ es → Get ns net c typ (QueryHash (BlockHash e)) w'
                  = (Return (Ok [stored e]), w').
Proof.
  intros Hes Hok Hn Hnd Hpos Hlen.
  destruct (redi_Put_run ns c net net_up ns_plain typ es w Hes Hok) as (w' & HP & Hw' & Hok').
  exists w'. split; [done|].
  assert (NoDup (BlockNumber <$> es)) as Hnums by (rewrite Hn; apply NoDup_seqZ).
  rewrite Forall_forall in Hes.
  assert (0 <= start).
  { destruct es as [|e es]; [simpl in Hpos; lia|]. cbn [List.length] in Hn.
    rewrite seqZ_cons in Hn by lia. injection Hn as <- _. by apply (Hes e); left. }
  split.
  - apply Get_range_run; try done; [by apply Forall_forall|].
    apply Forall_forall. intros e He. destruct (written_number typ es e Hnums He) as [Hv Hx].
    destruct (Hes e He) as [? _]. rewrite !Hw' by (done || simpl; lia). by rewrite Hv, Hx.
  - intros e He. apply (Put_Get_hash ns c net net_up typ es e w'); [by apply Forall_forall|done..|].
    intros k Hk Hne v Hv. by rewrite Hw', Hv.
Qed.

(** C27: a write whose entries' parents agree with the blocks stored below them
    changes nothing about other blocks; one with a conflicting parent makes the
    store forget every other block by its number, of every type of entry.
    Either way what is stored under other hashes stays as it is, that of the
    blocks by number that are forgotten included; and the blocks just written
    are there, by their number and by their hash, if no two of them have the
    same one.  The server is up, the namespace has no glob characters, and that
    entries lapse with time is left aside. *)
Theorem rediblock_reorg typ es w :
  Forall entry_ok es → hashes_ok ns c (lget w) →
  ∃ w', Put ns net c typ es w = (Return None, w') ∧ hashes_ok ns c (lget w') ∧
    (∀ typ' n, 0 <= n < two64 - 1 → typ' ≠ typ ∨ n ∉ BlockNumber <$> es →
       (Get ns net c typ' (QueryNumber n) w').1
       = if conflict ns c typ es (lget w) then Return (Err redis_Nil)
         else (Get ns net c typ' (QueryNumber n) w).1) ∧
    (∀ typ' h, is_bytes HashLength h → typ' ≠ typ ∨ h ∉ BlockHash <$> es →
       (Get ns net c typ' (QueryHash h) w').1 = (Get ns net c typ' (QueryHash h) w).1) ∧
    ∀ e, e ∈ es →
      (NoDup (BlockNumber <$> es) →
       (Get ns net c typ (QueryNumber (BlockNumber e)) w').1 = Return (Ok [stored e])) ∧
      (NoDup (BlockHash <$> es) →
       (Get ns net c typ (QueryHash (BlockHash e)) w').1 = Return (Ok [stored e])).
Proof.
  intros Hes Hok.
  destruct (redi_Put_run ns c net net_up ns_plain typ es w Hes Hok) as (w' & HP & Hw' & Hok').
  assert (∀ k, key_ok k → k ≠ KHead → ∀ v, written typ es k = Some v →
     rd_get (key_text ns c k) (lget w') = Some v) as Hwritten.
  { intros k Hk Hne v Hv. by rewrite Hw', Hv. }
  exists w'. split; [done|]. split; [done|]. split; [|split].
  - intros typ' n Hn Hother. rewrite !Get_number_run by done. cbn [fst].
    destruct (written_other typ es typ' n Hother) as [Hv Hx].
    rewrite !Hw', Hv, Hx by (done || simpl; lia). cbn [is_number]. rewrite andb_true_r.
    by destruct (conflict _ _ _ _ _).
  - intros typ' h Hh Hother. rewrite !Get_hash_run by done. cbn [fst].
    destruct (written_other_hash typ es typ' h Hes Hh Hother) as [Hv Hx].
    rewrite !Hw', Hv, Hx by (done || by apply Hex_no_colon). cbn [is_number].
    by rewrite andb_false_r.
  - intros e He. split; intros Hnd; [by apply (Put_Get_number ns c net net_up typ es)|].
    by rewrite (Put_Get_hash ns c net net_up typ es).
Qed.
End props.
End RediblockProps.

(** ** A redis, and witnesses *)

Module StdRedis.
Import KeyText RediblockFacts.

(** A table, in which no key lapses. *)
#[export] Instance std_redis : Redis (gmap string rval) := {|
  rd_get k s := s !! k;
  rd_set k v s := <[k := v]> s;
  rd_setex k _ v s := <[k := v]> s;
  rd_keys pattern s :=
    match BlockNumber.strip_last "*" pattern with
    | Some p => filter (λ k, has_prefix p k = true) (map_to_list s).*1
    | None => []
    end;
  rd_del ks s := foldr delete s ks |}.

#[export] Instance std_redis_spec : RedisSpec (gmap string rval).
Proof.
  split.
  - intros k v s k'. simpl. by rewrite lookup_insert.
  - intros k e v s k' _. simpl. by rewrite lookup_insert.
  - intros ks s k. simpl. induction ks as [|k' ks IH]; [done|]. simpl.
    rewrite lookup_delete, IH.
    destruct (decide (k' = k)) as [->|Hne]; [by rewrite decide_True by by left|].
    destruct (decide (k ∈ ks)); [by rewrite decide_True by by right|].
    by rewrite decide_False by (by intros [?|?]%elem_of_cons).
  - intros p s k _. simpl. rewrite BlockNumberFacts.strip_last_app, list_elem_of_filter.
    apply and_iff_compat_l. rewrite list_elem_of_fmap. split.
    + intros ([k' v] & -> & Hin%elem_of_map_to_list). by exists v.
    + intros [v Hv]. exists (k, v). split; [done|]. by apply elem_of_map_to_list.
Qed.

#[export] Instance std_lua : Lua := {| lua_tonumber := ParseUint10; lua_tostring := pretty |}.
#[export] Instance std_lua_spec : LuaSpec.
Proof. split. intros n Hn. split; [|done]. apply ParseUint10_pretty. go_lia. Qed.

#[export] Instance std_hash : HashText := {|
  Hex := StdHex.Hex;
  HexToHash s := default [] (StdEth.unhex (str_drop 2 s)) |}.
#[export] Instance std_hash_spec : HashTextSpec.
Proof.
  split.
  - intros h [_ Hf]. change (str_drop 2 _) with (StdEth.hex_bytes h). cbn [HexToHash std_hash].
    change (str_drop 2 (Hex h)) with (StdEth.hex_bytes h). by rewrite StdEth.unhex_hex.
  - intros h [_ Hf]. change (no_char ":" (StdEth.hex_bytes h) = true).
    induction Hf as [|b l Hb _ IH]; [done|]. cbn [StdEth.hex_bytes no_char].
    destruct (StdEth.nibbles b Hb) as [H1 H2].
    assert (∀ d, 0 <= d < 16 → ":"%char ≠ hex_char d) as Hd.
    { intros d Hd Heq. pose proof (StdEth.hex_val_char d Hd) as Hx. by rewrite <- Heq in Hx. }
    by rewrite !bool_decide_false, IH by (by apply Hd).
  - done.
Qed.
End StdRedis.

Module RediblockWitness.
Import Rediblock RediblockFacts RediblockProps StdRedis BlockStoreWitness.

Definition net0 : prog (gmap string rval) (option goerr) := mret None.

Lemma up0 : ∀ w, net0 w = (Return None, w).
Proof. done. Qed.
Lemma plain0 : glob_plain (namespace "venn" chain0 +:+ ":entries:by_number:").
Proof. repeat constructor. Qed.
Lemma entry_ok0 n : 0 <= n < 256 → entry_ok (entry n).
Proof.
  intros Hn. split; [simpl; lia|]. split; [done|]. by apply Forall_replicate.
Qed.

Lemma none_stored : hashes_ok "venn" chain0 (∅ : gmap string rval).
Proof. intros typ n v _ H. discriminate H. Qed.

Lemma rediblock_roundtrip_witness :
  let w1 := (Put "venn" net0 chain0 EntryLogs [entry 6; entry 7] ∅).2 in
  Get "venn" net0 chain0 EntryLogs (QueryRange 6 7) w1
  = (Return (Ok [stored (entry 6); stored (entry 7)]), w1).
Proof.
  intros w1.
  destruct (rediblock_roundtrip "venn" chain0 net0 up0 plain0 EntryLogs [entry 6; entry 7] 6 ∅)
    as (w' & HP & HG & _).
  - repeat apply Forall_cons_2; try apply Forall_nil_2; apply entry_ok0; lia.
  - exact none_stored.
  - reflexivity.
  - refine (bool_decide_eq_true_1 _ _). vm_compute. reflexivity.
  - simpl. lia.
  - vm_compute. congruence.
  - unfold w1. rewrite HP. exact HG.
Defined.

(** Block 8 on another block 7 than the stored one. *)
Definition fork8 : Entry := {| BlockHash := replicate 32 8; BlockNumber := 8;
  ParentHash := Some (replicate 32 99); Value := JNull |}.
Definition world7 : gmap string rval := (Put "venn" net0 chain0 EntryLogs [entry 7] ∅).2.

Lemma world7_ok : hashes_ok "venn" chain0 world7.
Proof.
  destruct (redi_Put_run "venn" chain0 net0 up0 plain0 EntryLogs [entry 7] (∅ : gmap string rval))
    as (w' & HP & _ & Hok); [|exact none_stored|].
  - apply Forall_cons_2; [apply entry_ok0; lia|apply Forall_nil_2].
  - unfold world7. rewrite HP. exact Hok.
Qed.

Lemma fork8_ok : Forall entry_ok [fork8].
Proof.
  apply Forall_cons_2; [|apply Forall_nil_2]. split; [simpl; lia|]. split; [done|].
  apply Forall_replicate. lia.
Qed.

(** Block 7 is forgotten by its number, and kept by its hash; block 8 is there. *)
Lemma rediblock_reorg_witness :
  ∃ w', Put "venn" net0 chain0 EntryLogs [fork8] world7 = (Return None, w') ∧
    (Get "venn" net0 chain0 EntryLogs (QueryNumber 7) w').1 = Return (Err redis_Nil) ∧
    (Get "venn" net0 chain0 EntryLogs (QueryHash (replicate 32 7)) w').1
    = Return (Ok [stored (entry 7)]) ∧
    (Get "venn" net0 chain0 EntryLogs (QueryNumber 8) w').1 = Return (Ok [stored fork8]).
Proof.
  destruct (rediblock_reorg "venn" chain0 net0 up0 plain0 EntryLogs [fork8] world7 fork8_ok)
    as (w' & HP & _ & HN & HH & HW); [exact world7_ok|].
  exists w'. split; [exact HP|]. split; [|split].
  - rewrite HN; [vm_compute; reflexivity|vm_compute; split; congruence|].
    right. refine (bool_decide_eq_true_1 _ _). vm_compute. reflexivity.
  - rewrite HH; [vm_compute; reflexivity| |].
    + split; [reflexivity|]. apply Forall_replicate. lia.
    + right. refine (bool_decide_eq_true_1 _ _). vm_compute. reflexivity.
  - apply (proj1 (HW fork8 ltac:(by left))). refine (bool_decide_eq_true_1 _ _). vm_compute. reflexivity.
Defined.
End RediblockWitness.
