(* ===== verification/Services.v ===== *)
(** * Shared services: [svc/shared/services/redi/redi.go], [gnat/nats.go], and
    what the commands of [cmd/venn] do besides wiring

    The client of redis or of a redis inside the process, the script that
    raises a number, the connection to nats, the log of the chains' heads, and
    which metrics there are and where they are served.  miniredis, go-redis and
    rueidis are parameters; redis and Lua are the classes of the redis block
    store. *)
From S2P Require Import Prelude Errors Json EthTypes Config Rpc Rediblock HeadStore HeadReplacer.
#[local] Open Scope Z_scope.

(** ** [redi.go] *)

Module Redi.

(** *** The client *)

Section client.
(** The clients of the two libraries. *)
Context {C R : Type}.
Context (mini_Start : res goerr string) (NewClient : string → C).
Context (rueidis_NewClient : string → res goerr R).
Context (ParseURL rueidis_ParseURL : string → res goerr string).

(** The interface [rueidis] may be nil. *)
Record t := { c : C; rueidis : option R }.

Definition embedded (URI : string) : bool := bool_decide (URI ∈ ["embedded"; ""]).

(** [New], for the configured URI.  Of the redis inside the process the error
    of the second client is assigned and not looked at. *)
Definition New (URI : string) : res goerr t :=
  if embedded URI then
    addr ← mini_Start;
    Ok {| c := NewClient addr;
          rueidis := match rueidis_NewClient addr with Ok r => Some r | Err _ => None end |}
  else
    opts ← ParseURL URI;
    rudidisOpts ← rueidis_ParseURL URI;
    r ← rueidis_NewClient rudidisOpts;
    Ok {| c := NewClient opts; rueidis := Some r |}.
End client.

(** The goroutine that moves the clock of the redis inside the process: what
    it is forwarded by at the ticks. *)
Fixpoint forwards (prev : Z) (ticks : list Z) : list Z :=
  match ticks with
  | [] => []
  | next :: ticks => next - prev :: forwards next ticks
  end.

(** *** [CompareAndSwapIfGreater] *)

Section script.
Context {S : Type} `{R : Redis S} `{U : Lua}.

Definition compareAndSwapIfGreaterScript (KEYS : list string) (ARGV : list rval) (s : S)
    : res goerr Z * S :=
  match KEYS, ARGV with
  | key :: _, arg :: _ =>
      let old := default 0 (rd_get key s ≫= tonumber) in
      match tonumber arg with
      | None => (Err script_error, s)
      | Some n => (Ok old, if old <? n then rd_set key arg s else s)
      end
  | _, _ => (Err script_error, s)
  end.

(** The script runs as one command. *)
Definition CompareAndSwapIfGreater (key : string) (new : Z) (s : S) : res goerr Z * S :=
  compareAndSwapIfGreaterScript [key] [Txt (pretty new)] s.

(** The calls of any number of processes, in the order redis ran them. *)
Fixpoint calls (key : string) (news : list Z) (s : S) : list (res goerr Z) * S :=
  match news with
  | [] => ([], s)
  | new :: news =>
      let '(r, s) := CompareAndSwapIfGreater key new s in
      let '(rs, s) := calls key news s in
      (r :: rs, s)
  end.

(** The number at a key, zero if there is none. *)
Definition number (key : string) (s : S) : Z := default 0 (rd_get key s ≫= tonumber).
End script.
End Redi.

(** ** The head logger of [service.go] *)

Module HeadLogger.
Section logger.
Context {W : Type} `{S : Sonic}.

(** A turn of the loop over the chains: the number that is logged, or the
    error. *)
Definition log_head (ctx : context) (h : handler W) (chain : Chain)
    : prog W (string * res goerr Z) :=
  number ← Do_uint64 (WithChain ctx chain) h "eth_blockNumber" JNull;
  mret (Chain_Name chain, i64 <$> number).

Fixpoint logHeads (ctx : context) (h : handler W) (chains : list Chain)
    : prog W (list (string * res goerr Z)) :=
  match chains with
  | [] => mret []
  | chain :: chains =>
      l ← log_head ctx h chain;
      rest ← logHeads ctx h chains;
      mret (l :: rest)
  end.
End logger.
End HeadLogger.

(** ** [nats.go] *)

Module Gnat.
Section gnat.
(** The connections of nats.go and the servers of nats-server. *)
Context {W C Sv : Type} (nats_Connect : string → prog W (res goerr C)).
Context (NewServer : prog W (res goerr Sv)) (Start : Sv → prog W ()).
Context (ReadyForConnections : Sv → prog W bool) (ClientURL : Sv → string).
Context (IsConnected : C → bool).

(** [New]; without a URI a server is started inside the process. *)
Definition New (URI : string) : prog W (res goerr C) :=
  if bool_decide (URI ≠ "") then nats_Connect URI
  else
    ns ← NewServer;
    match ns with
    | Err e => mret (Err e)
    | Ok ns =>
        _ ← Start ns;
        ready ← ReadyForConnections ns;
        if negb ready then mret (Err (EText "failed to start embedded nats server"))
        else nats_Connect (ClientURL ns)
    end.

Definition Health (c : C) : option goerr :=
  if negb (IsConnected c) then Some (EText "not connected to nats server") else None.
End gnat.
End Gnat.

(** ** The metrics of [svc/shared/services/prom/metrics.go] *)

Module Prom.
Inductive collector : Type :=
  | Gauge
  | Counter
  | Histogram (buckets : list Z).

(** A field of the structs that [gotoprom.MustInit] fills: what is registered,
    and the labels it takes. *)
Record family := { metric : string; kind : collector; labels : list string }.

Definition namespace : string := "venn".

Definition Gateway : list family :=
  let GatewayRequestLabel := ["endpoint"; "target"; "method"; "success"] in
  [{| metric := "gateway_request_latency_ms"; labels := GatewayRequestLabel;
      kind := Histogram [1; 10; 50; 100; 250; 500; 1000; 2000; 5000; 10000; 50000] |};
   {| metric := "gateway_subscription_created"; labels := GatewayRequestLabel; kind := Counter |};
   {| metric := "gateway_subscription_closed"; labels := GatewayRequestLabel; kind := Counter |}].

Definition Requests : list family :=
  [{| metric := "request_latency_ms"; labels := ["chain"; "method"; "success"];
      kind := Histogram [1; 10; 50; 100; 250; 500; 1000; 2000; 5000; 10000; 50000] |}].

Definition Remotes : list family :=
  [{| metric := "remote_latency_ms"; labels := ["chain"; "remote"; "method"; "success"];
      kind := Histogram [1; 10; 50; 100; 250; 500; 1000; 2000; 5000; 10000; 50000] |}].

Definition Stalker : list family :=
  let StalkerLabel := ["chain"] in
  [{| metric := "propagation_delay_ms"; labels := StalkerLabel; kind := Gauge |};
   {| metric := "block_propagation_delay_ms"; labels := StalkerLabel;
      kind := Histogram [1; 10; 50; 100; 250; 500; 1000; 2000; 3000; 4000; 5000; 6000; 8000; 9000;
                         10000; 12000; 24000; 30000] |};
   {| metric := "stalker_head_block"; labels := StalkerLabel; kind := Gauge |}].

Definition RemoteHealth : list family :=
  let RemoteHealthLabel := ["chain"; "remote"] in
  [{| metric := "remote_health_status"; labels := RemoteHealthLabel; kind := Gauge |};
   {| metric := "remote_health_check_latency_ms"; labels := RemoteHealthLabel;
      kind := Histogram [1; 10; 50; 100; 250; 500; 1000; 2000; 5000; 10000; 30000] |};
   {| metric := "remote_health_check_failures_total"; labels := RemoteHealthLabel; kind := Counter |};
   {| metric := "remote_health_last_success_timestamp"; labels := RemoteHealthLabel; kind := Gauge |}].

Definition ChainHealth : list family :=
  let ChainHealthLabel := ["chain"] in
  [{| metric := "chain_availability_percent"; labels := ChainHealthLabel; kind := Gauge |};
   {| metric := "chain_healthy_remote_count"; labels := ChainHealthLabel; kind := Gauge |};
   {| metric := "chain_total_remote_count"; labels := ChainHealthLabel; kind := Gauge |};
   {| metric := "chain_request_success_rate"; labels := ChainHealthLabel; kind := Gauge |}].

(** What [init] hands to the registry, in its order. *)
Definition registered : list family :=
  Requests ++ Remotes ++ Stalker ++ Gateway ++ RemoteHealth ++ ChainHealth.

(** A registry panics at a name it has and at buckets that do not rise. *)
Definition full_name (f : family) : string := namespace +:+ "_" +:+ metric f.
Definition rising (c : collector) : bool :=
  match c with
  | Histogram buckets => bool_decide (StronglySorted Z.lt buckets)
  | _ => true
  end.
End Prom.

(** ** The metrics of [node.go] and [gateway.go] *)

Module MetricsServer.
Record Metrics := { Disabled : bool; Bind : string }.

(** Where they are served, if they are. *)
Definition bind (m : option Metrics) : option string :=
  match m with
  | None => Some ":6060"
  | Some m => if Disabled m then None
              else Some (if bool_decide (Bind m ≠ "") then Bind m else ":6060")
  end.
End MetricsServer.

(** ** What holds *)

Module ServicesProps.
Import Redi HeadLogger.

Section redis.
Context {S : Type} `{R : RedisSpec S} `{U : LuaSpec}.

(** The largest of a number and of those that come after it. *)
Fixpoint running (m : Z) (l : list Z) : list Z :=
  match l with [] => [] | x :: l => m :: running (Z.max m x) l end.

Lemma cas_run key new m s :
  number key s = m → 0 <= new <= 2 ^ 53 →
  ∃ s', CompareAndSwapIfGreater key new s = (Ok m, s') ∧ number key s' = Z.max m new ∧
    ∀ k, k ≠ key → rd_get k s' = rd_get k s.
Proof.
  intros Hm Hn. unfold CompareAndSwapIfGreater, compareAndSwapIfGreaterScript.
  fold (number key s). rewrite Hm. destruct (lua_exact new Hn) as [Ht _].
  cbn [tonumber]. rewrite Ht. eexists. split; [done|].
  destruct (Z.ltb_spec m new) as [Hlt|Hge].
  - split.
    + unfold number. rewrite rd_get_set, decide_True by done. cbn. rewrite Ht. cbn. lia.
    + intros k Hk. by rewrite rd_get_set, decide_False.
  - split; [rewrite Hm; lia|done].
Qed.

(** However many processes raise a number, in whatever order: every call is
    answered the largest number until then, the key ends with the largest of
    all, and no other key is touched. *)
Theorem cas_maximum key news m s :
  number key s = m → Forall (λ n, 0 <= n <= 2 ^ 53) news →
  ∃ s', calls key news s = (Ok <$> running m news, s') ∧
    number key s' = foldl Z.max m news ∧ ∀ k, k ≠ key → rd_get k s' = rd_get k s.
Proof.
  revert m s. induction news as [|new news IH]; intros m s Hm Hall; [by exists s|].
  apply Forall_cons in Hall as [Hn Hall].
  destruct (cas_run key new m s Hm Hn) as (s1 & Hr & H1 & Hk1).
  destruct (IH _ s1 H1 Hall) as (s2 & Hr2 & H2 & Hk2).
  exists s2. cbn [calls]. rewrite Hr, Hr2. split_and!; [done|done|].
  intros k Hk. by rewrite Hk2, Hk1.
Qed.
End redis.

(** The clock of the redis inside the process has moved as far as the ticks
    have. *)
Theorem clock_forwarded start ticks :
  foldr Z.add 0 (forwards start ticks) = default start (last ticks) - start.
Proof.
  revert start. induction ticks as [|next ticks IH]; intros start; cbn [forwards foldr]; [cbn; lia|].
  rewrite IH. destruct ticks as [|t ticks]; cbn; [lia|].
  destruct (last (t :: ticks)) eqn:Hl; cbn; [lia|].
  by apply last_None in Hl.
Qed.

(** Without its second client the redis inside the process is started all the
    same, where a redis outside is an error. *)
Theorem embedded_ignores {C R} mini (NewClient : string → C) (rueidis_new : string → res goerr R)
    parse rueidis_parse URI e :
  (embedded URI = true → ∀ addr, mini = Ok addr → rueidis_new addr = Err e →
     New mini NewClient rueidis_new parse rueidis_parse URI
     = Ok {| c := NewClient addr; rueidis := None |}) ∧
  (embedded URI = false → ∀ o o', parse URI = Ok o → rueidis_parse URI = Ok o' →
     rueidis_new o' = Err e → New mini NewClient rueidis_new parse rueidis_parse URI = Err e).
Proof.
  unfold New. split.
  - intros -> addr -> He. cbn. by rewrite He.
  - intros -> o o' Ho Ho' He. rewrite Ho. cbn. rewrite Ho'. cbn. by rewrite He.
Qed.

Section heads.
Context {W : Type} `{J : Jrpc} `{E : Eth} `{X : Jx} `{Sn : Sonic, !SonicSpec} `{HS : HeadStoreSpec W}.

(** The registration of the metrics does not panic. *)
Theorem metrics_register :
  NoDup (Prom.full_name <$> Prom.registered) ∧
  Forall (λ f, Prom.rising (Prom.kind f) = true) Prom.registered.
Proof.
  split; [apply (bool_decide_unpack (NoDup _)); vm_compute; done|].
  repeat (constructor; [vm_compute; reflexivity|]). constructor.
Qed.

(** Behind the head replacer the log has, for every chain, the head of its
    store, if that is encoded at all, and asks no remote. *)
Theorem heads_logged ctx (next : handler W) chains w :
  Forall (λ c, ∃ v, sonic_marshal (VUint64 (hs_head w (Chain_Name c))) = Ok v) chains →
  Forall (λ c, 0 <= hs_head w (Chain_Name c) < two63) chains →
  logHeads ctx (HeadReplacer.Middleware next) chains w =
  (Return ((λ c, (Chain_Name c, Ok (hs_head w (Chain_Name c)))) <$> chains), w).
Proof.
  intros Hv Hh. induction chains as [|c chains IH]; [done|].
  apply Forall_cons in Hv as [[v Hv] Hvs]. apply Forall_cons in Hh as [Hc Hhs].
  cbn [logHeads]. unfold log_head, Do_uint64.
  assert (HeadReplacer.Middleware next (internal_request (WithChain ctx c) "eth_blockNumber" JNull) w
    = (Return [(VUint64 (hs_head w (Chain_Name c)), None)], w)) as Hr.
  { transitivity ((head ← hs_Get c;
      match head with Ok n => send_ok (VUint64 n) | Err e => send (VUint64 0, Some e) end) w);
      [reflexivity|].
    by rewrite (prog_bind_return _ _ _ _ _ (hs_Get_spec c w)). }
  rewrite !prog_bind_assoc, (prog_bind_return _ _ _ _ _ Hr).
  change (intercept icept0 [_]) with (VUint64 (hs_head w (Chain_Name c)), None : option goerr).
  cbv beta iota. rewrite Hv. cbn [mbind res_bind]. rewrite (sonic_uint64_marshal _ _ Hv).
  rewrite !prog_ret_bind, (prog_bind_return _ _ _ _ _ (IH Hvs Hhs)).
  cbn. by rewrite i64_small by go_lia.
Qed.
End heads.

(** With a URI nothing is started inside the process; without one the
    connection is to the server that was started, once that is ready. *)
Theorem gnat_connects {W C Sv} Connect (server : prog W (res goerr Sv)) Start Ready (url : Sv → string)
    URI (w : W) (c : C) w' :
  Gnat.New Connect server Start Ready url URI w = (Return (Ok c), w') →
  (URI ≠ "" ∧ Connect URI w = (Return (Ok c), w')) ∨
  (URI = "" ∧ ∃ ns w1 w2 w3, server w = (Return (Ok ns), w1) ∧ Start ns w1 = (Return (), w2) ∧
     Ready ns w2 = (Return true, w3) ∧ Connect (url ns) w3 = (Return (Ok c), w')).
Proof.
  unfold Gnat.New. case_bool_decide as Hu; [by left|]. intros H. right.
  split; [by destruct (decide (URI = ""))|].
  prog_inv H. destruct a as [ns|e]; [|done]. prog_inv H. destruct a. prog_inv H.
  destruct a; [|done]. eauto 10.
Qed.
End ServicesProps.

Module ServicesWitness.
Import Redi HeadLogger ServicesProps HeadReplacer.HeadReplacerWitness StdRedis StdJrpc StdEth StdJx StdSonic.
#[local] Existing Instance heads0.
#[local] Existing Instance heads0_spec.

(** Four calls of two processes. *)
Lemma cas_maximum_witness :
  ∃ s', calls (S := gmap string rval) "best" [5; 3; 9; 9] ∅ = ([Ok 0; Ok 5; Ok 5; Ok 9], s') ∧
    number "best" s' = 9.
Proof.
  destruct (cas_maximum (S := gmap string rval) "best" [5; 3; 9; 9] 0 ∅) as (s' & Hr & Hn & _).
  - reflexivity.
  - repeat constructor; try lia.
  - exists s'. split; [exact Hr|exact Hn].
Defined.

Lemma embedded_ignores_witness :
  New (Ok "127.0.0.1:1") id (λ _ : string, (Err json_error : res goerr unit)) Ok Ok ""
  = Ok {| c := "127.0.0.1:1"; rueidis := None |}.
Proof.
  apply (embedded_ignores (Ok "127.0.0.1:1") id (λ _ : string, (Err json_error : res goerr unit))
           Ok Ok "" json_error); reflexivity.
Defined.

Lemma heads_logged_witness :
  logHeads [] (HeadReplacer.Middleware echo) [chain0] store0
  = (Return [("ethereum", Ok 100)], store0).
Proof.
  rewrite (heads_logged [] echo [chain0] store0); [reflexivity| |].
  - repeat constructor. eexists. reflexivity.
  - repeat constructor; vm_compute; congruence.
Defined.
End ServicesWitness.
