(* ===== verification/Origin.v ===== *)
(** * Origins: [lib/util/origin/origin.go]

    Matching the Origin header of a request against patterns.  Text is ASCII;
    parsing an URL ([net/url]) is an argument of the definitions, which takes a
    text to its scheme, its host name and its port. *)
From S2P Require Import Prelude Errors Json EthTypes Config Rpc Ingress.

(** ** [strings] *)

Definition to_lower_char (c : ascii) : ascii :=
  let b := Search.byte_of c in
  if (65 <=? b) && (b <=? 90) then ascii_of_nat (Z.to_nat (b + 32)) else c.

Fixpoint ToLower (s : string) : string :=
  match s with
  | EmptyString => EmptyString
  | String c s => String (to_lower_char c) (ToLower s)
  end.

(** [strings.EqualFold]. *)
Definition EqualFold (s t : string) : bool := bool_decide (ToLower s = ToLower t).

(** [strings.Split] at a character. *)
Fixpoint split_at (sep : ascii) (s : string) : list string :=
  match s with
  | EmptyString => [EmptyString]
  | String c s =>
      if Ascii.eqb c sep then EmptyString :: split_at sep s
      else match split_at sep s with
           | [] => [String c EmptyString]
           | x :: xs => String c x :: xs
           end
  end.

(** [strings.SplitN(s, sep, 2)]: what is before and after the first [sep]. *)
Fixpoint split_first (sep s : string) : option (string * string) :=
  if has_prefix sep s then Some (EmptyString, str_drop (String.length sep) s)
  else match s with
       | EmptyString => None
       | String c s => '(a, b) ← split_first sep s; mret (String c a, b)
       end.

(** ** The package *)

Module Origin.

Section origin.
Context `{J : Jrpc}.

Definition wildcard : string := "*".
Definition anyValue : string := "*://*:*".

Definition knownPorts : gmap string string := list_to_map
  [("https", "443"); ("wss", "443"); ("http", "80"); ("ws", "80"); ("ftp", "23");
   ("gopher", "70")].

Definition missing_port : goerr := EText "invalid origin: missing port".

(** [splitPattern].  Without a scheme the error is noted, not returned, and the
    second part of the split, which is not there, is read. *)
Definition splitPattern (pattern : string) : outcome (res goerr (string * string * string)) :=
  if bool_decide (pattern = wildcard) then Return (Ok (wildcard, wildcard, wildcard))
  else
    match split_first "://" pattern with
    | None => Panic "index out of range"
    | Some (scheme, host) =>
        if str_contains ":" host then
          match Net.SplitHostPort host with
          | Ok (host, port) => Return (Ok (scheme, host, port))
          | Err e => Return (Err (EText ("invalid pattern: " +:+ error_text e)))
          end
        else
          match knownPorts !! scheme with
          | Some port => Return (Ok (scheme, host, port))
          | None => Return (Err missing_port)
          end
    end.

Definition normalize (s : string) : string := ToLower (BlockNumber.TrimSpace s).

(** The loop of [matchHostname], over the labels below [n]. *)
Fixpoint labels_match (a b : list string) (n : nat) : bool :=
  match n with
  | O => true
  | S i =>
      match a !! i, b !! i with
      | Some x, Some y =>
          if bool_decide (x = wildcard) || bool_decide (y = wildcard)
          then labels_match a b i
          else if bool_decide (x ≠ y) then false
          else labels_match a b i
      | _, _ => false
      end
  end.

Definition matchHostname (origin pattern : string) : bool :=
  let a := split_at "." (normalize pattern) in
  let b := split_at "." (normalize origin) in
  if bool_decide (List.length a < List.length b)%nat then false
  else labels_match a b (List.length a).

Definition matchString (origin pattern : string) : bool :=
  if bool_decide (origin = "") then false
  else if bool_decide (pattern = wildcard) then true
  else EqualFold origin pattern.

Section url.
(** [url.Parse]: the scheme, the host name and the port. *)
Context (url_Parse : string → res goerr (string * string * string)).

Definition Split (origin : string) : res goerr (string * string * string) :=
  match url_Parse origin with
  | Err e => Err (EText ("invalid origin: " +:+ error_text e))
  | Ok (scheme, host, port) =>
      if bool_decide (scheme = "") then Err (EText "invalid origin: missing scheme")
      else if bool_decide (port = "") then
        match knownPorts !! scheme with
        | Some port => Ok (scheme, host, port)
        | None => Err missing_port
        end
      else Ok (scheme, host, port)
  end.

Definition Match (origin pattern : string) : outcome (res goerr bool) :=
  match Split origin with
  | Err e => Return (Err e)
  | Ok (os, oh, op) =>
      if bool_decide (pattern = "") then Return (Err (EText "pattern cannot be an empty string"))
      else if bool_decide (pattern = wildcard) || bool_decide (pattern = anyValue)
      then Return (Ok true)
      else
        p ← splitPattern pattern;
        Return (match p with
                | Err e => Err e
                | Ok (ps, ph, pp) =>
                    if negb (matchString os ps) then Ok false
                    else if negb (matchHostname oh ph) then Ok false
                    else if negb (matchString op pp) then Ok false
                    else Ok true
                end)
  end.

(** [Patterns.Match]: the loop over the patterns. *)
Fixpoint match_any (origin : string) (patterns : list string) : outcome (res goerr bool) :=
  match patterns with
  | [] => Return (Ok false)
  | item :: patterns =>
      r ← Match origin item;
      match r with
      | Err e => Return (Err e)
      | Ok true => Return (Ok true)
      | Ok false => match_any origin patterns
      end
  end.

Definition Patterns_Match (patterns : list string) (origin : string) : outcome (res goerr bool) :=
  if bool_decide (origin = "") then Return (Ok false) else match_any origin patterns.
End url.

(** [Get], of the header's value. *)
Definition Get (header : string) : string := if EqualFold header "null" then "" else header.
End origin.
End Origin.

(** ** Lemmas *)

Module OriginFacts.
Import Origin.

Lemma str_drop_app p t : str_drop (String.length p) (p +:+ t) = t.
Proof. induction p as [|c p IH]; [by destruct t|exact IH]. Qed.

Lemma split_first_spec sep s :
  match split_first sep s with
  | Some (a, b) => s = a +:+ sep +:+ b
  | None => str_contains sep s = false
  end.
Proof.
  induction s as [|c s IH]; cbn [split_first str_contains]; unfold has_prefix.
  - destruct (String.prefix sep "") eqn:Hp; [|done].
    apply prefix_app in Hp as [t Ht]. by destruct sep.
  - destruct (String.prefix sep (String c s)) eqn:Hp.
    + apply prefix_app in Hp as [t ->]. by rewrite str_drop_app.
    + destruct (split_first sep s) as [[a b]|]; [by rewrite IH|done].
Qed.

(** A label of the origin against one of the pattern. *)
Definition label_ok (x y : string) : Prop := x = wildcard ∨ y = wildcard ∨ x = y.

Definition labels (host : string) : list string := split_at "." (normalize host).

(** The scheme or the port. *)
Definition part_ok (x y : string) : Prop := x ≠ "" ∧ (y = wildcard ∨ ToLower x = ToLower y).

Lemma matchString_spec x y : matchString x y = true ↔ part_ok x y.
Proof.
  unfold matchString, part_ok, EqualFold. repeat case_bool_decide; naive_solver.
Qed.

Lemma labels_match_spec a b n :
  (n ≤ List.length a)%nat →
  labels_match a b n = true ↔ Forall2 label_ok (take n b) (take n a) ∧ (n ≤ List.length b)%nat.
Proof.
  induction n as [|i IH]; intros Hn; cbn [labels_match].
  { rewrite !take_0. split; [intros _; split; [constructor|lia]|done]. }
  destruct (lookup_lt_is_Some_2 a i) as [x Hx]; [lia|]. rewrite Hx.
  destruct (b !! i) as [y|] eqn:Hy.
  - rewrite (take_S_r a i x), (take_S_r b i y) by done.
    pose proof (lookup_lt_Some _ _ _ Hy) as Hlt.
    assert ((if bool_decide (x = wildcard) || bool_decide (y = wildcard)
             then labels_match a b i
             else if bool_decide (x ≠ y) then false else labels_match a b i) = true
      ↔ labels_match a b i = true ∧ label_ok y x) as ->.
    { unfold label_ok. repeat case_bool_decide; simpl; naive_solver. }
    rewrite IH by lia. split.
    + intros [[H _] Hl]. split; [|lia]. apply Forall2_app; [done|]. by constructor.
    + intros [H _]. apply Forall2_app_inv in H as [H1 H2].
      2: { rewrite !length_take. lia. }
      split; [split; [done|lia]|]. by apply Forall2_cons in H2 as [? _].
  - split; [done|]. intros [_ Hl]. apply lookup_ge_None in Hy. lia.
Qed.

Lemma matchHostname_spec origin pattern :
  matchHostname origin pattern = true ↔ Forall2 label_ok (labels origin) (labels pattern).
Proof.
  unfold matchHostname, labels. set (a := split_at _ (normalize pattern)).
  set (b := split_at _ (normalize origin)). case_bool_decide as Hl.
  - split; [done|]. intros H%Forall2_length. lia.
  - rewrite labels_match_spec by done. rewrite (take_ge a) by lia. rewrite take_ge by lia.
    split; [by intros [? _]|]. intros H. split; [done|]. by apply Forall2_length in H as ->.
Qed.
End OriginFacts.

(** ** Properties *)

Module OriginProps.
Import Origin OriginFacts.

Section props.
Context `{J : Jrpc} (url_Parse : string → res goerr (string * string * string)).

(** C36: what an origin with a scheme and a port matches.  The patterns "*" and
    "*://*:*" it matches whatever its host is.  Any other pattern that can be
    split it matches exactly if their schemes and their ports agree up to case
    or the pattern has "*" there, and their host names have the same number of
    labels which agree pairwise, "*" on either side agreeing with any.  So in
    these patterns a wildcard stands for one label, and one for the subdomains of
    a host does not cover their own subdomains, although the doc of [Match] says
    that "https://*.example.com:*" covers any subdomain. *)
Theorem origin_match o p os oh op ps ph pp :
  Split url_Parse o = Ok (os, oh, op) → p ≠ "" →
  splitPattern p = Return (Ok (ps, ph, pp)) →
  ∃ b, Match url_Parse o p = Return (Ok b) ∧
    (b = true ↔
     if decide (p ∈ [wildcard; anyValue]) then True
     else part_ok os ps ∧ Forall2 label_ok (labels oh) (labels ph) ∧ part_ok op pp) ∧
    (p ∉ [wildcard; anyValue] → List.length (labels oh) ≠ List.length (labels ph) → b = false).
Proof.
  intros Ho Hp Hs. unfold Match. rewrite Ho, (bool_decide_false (p = "")) by done.
  destruct (decide (p ∈ [wildcard; anyValue])) as [Hin|Hin].
  { exists true. split; [|done].
    apply elem_of_cons in Hin as [->|[->|[]%elem_of_nil]%elem_of_cons]; reflexivity. }
  pose proof Hin as Hin'. rewrite !not_elem_of_cons in Hin'. destruct Hin' as (H2 & H3 & _).
  rewrite !bool_decide_false by done. simpl orb. cbv iota.
  rewrite Hs. cbn [mbind outcome_bind].
  pose proof (matchString_spec os ps). pose proof (matchHostname_spec oh ph) as Hh.
  pose proof (matchString_spec op pp).
  assert (List.length (labels oh) ≠ List.length (labels ph) → matchHostname oh ph = false) as Hl.
  { intros Hl. destruct (matchHostname oh ph); [|done]. by apply proj1, Forall2_length in Hh. }
  destruct (matchString os ps), (matchHostname oh ph), (matchString op pp);
    eexists; (split; [done|]); naive_solver.
Qed.

(** a pattern without a scheme is not refused: whenever an origin is checked
    against it, and whatever the origin is, the check panics. *)
Theorem origin_pattern_panics o p x :
  Split url_Parse o = Ok x →
  (∃ why, Match url_Parse o p = Panic why) ↔
  (p ∉ [""; wildcard]) ∧ str_contains "://" p = false.
Proof.
  intros Ho. rewrite !not_elem_of_cons. unfold Match. rewrite Ho. destruct x as [[os oh] op].
  pose proof (split_first_spec "://" p) as Hs. unfold splitPattern.
  case_bool_decide as H1; [split; [by intros [? ?]|naive_solver]|].
  destruct (decide (p = wildcard)) as [H2|H2].
  { rewrite (bool_decide_true (p = wildcard)) by done. split; [by intros [? ?]|naive_solver]. }
  rewrite (bool_decide_false (p = wildcard)) by done. simpl orb.
  destruct (split_first "://" p) as [[a b]|].
  - assert (str_contains "://" p = true) as Ht by (apply str_contains_spec; eauto).
    split; [|intros [_ Hc]; congruence]. case_bool_decide; [by intros [? ?]|].
    destruct (str_contains ":" b); [destruct (Net.SplitHostPort b) as [[? ?]|?]|
      destruct (knownPorts !! a)]; by intros [? ?].
  - rewrite bool_decide_false by (intros ->; discriminate Hs).
    split; [intros _|by eexists]. split_and!; try done. by intros ?%elem_of_nil.
Qed.
End props.
End OriginProps.

Module OriginWitness.
Import Origin OriginFacts OriginProps StdJrpc.

(** One URL. *)
Definition url0 (s : string) : res goerr (string * string * string) :=
  if bool_decide (s = "HTTPS://app.example.com") then Ok ("https", "app.example.com", "")
  else Err (EText "parse").
Definition origin0 : string := "HTTPS://app.example.com".

Lemma origin_match_witness :
  Match url0 origin0 "https://*.Example.com:*" = Return (Ok true) ∧
  Match url0 origin0 "https://*.com:443" = Return (Ok false).
Proof.
  split.
  - destruct (origin_match url0 origin0 "https://*.Example.com:*" "https" "app.example.com" "443"
      "https" "*.Example.com" "*") as (b & -> & [_ Hb] & _).
    + reflexivity.
    + discriminate.
    + vm_compute. reflexivity.
    + do 2 f_equal. apply Hb. split_and!.
      * by split; [|right].
      * unfold labels. vm_compute (split_at _ _).
        repeat apply Forall2_cons_2; [by right; left|by right; right..|apply Forall2_nil_2].
      * by split; [|left].
  - destruct (origin_match url0 origin0 "https://*.com:443" "https" "app.example.com" "443"
      "https" "*.com" "443") as (b & -> & _ & Hb).
    + reflexivity.
    + discriminate.
    + vm_compute. reflexivity.
    + rewrite Hb; [reflexivity| |vm_compute; discriminate].
      refine (bool_decide_eq_true_1 _ _). vm_compute. reflexivity.
Defined.

Lemma origin_pattern_panics_witness : ∃ why, Match url0 origin0 "example.com" = Panic why.
Proof.
  apply (origin_pattern_panics url0 origin0 "example.com" ("https", "app.example.com", "443")).
  - reflexivity.
  - split; [|reflexivity]. refine (bool_decide_eq_true_1 _ _). vm_compute. reflexivity.
Defined.
End OriginWitness.
