(* ===== verification/Gateway.v ===== *)
(** * The gateway: [svc/app/gateway/api.go], [telemetry], [hybridproxy.go]

    What stands between the clients and a node: the checks of the HTTP request,
    the middlewares of the call, the usage telemetry, and the proxy to the
    node with its pool of websockets. *)
From S2P Require Import Prelude Errors Json EthTypes Config Rpc CallCenter Ingress Origin.

(** ** The websocket pool: [lib/callcenter/hybridproxy.go] *)

Module SocketPool.
Section pool.
Context {conn : Type}.

Record t := {
  pool : gmap Z conn;
  size : Z;
  nextId : Z;
}.

Definition newSocketPool (size : Z) : t := {| pool := ∅; size := size; nextId := 0 |}.

Section ops.
Context {W : Type} `{L : !Lens t W}.
(** Whether a connection is closed, and dialling a new one. *)
Context (Closed : conn → prog W bool) (dialer : prog W (res goerr conn)).

Definition took (T : t) : t := {| pool := pool T; size := size T; nextId := nextId T + 1 |}.
Definition added (c : conn) (T : t) : t :=
  {| pool := <[nextId T := c]> (pool T); size := size T; nextId := nextId T + 1 |}.

(** The body of the loop, which always returns; under the lock. *)
Definition get : prog W (res goerr conn) :=
  _ ← modify (λ T, {| pool := pool T; size := size T;
                      nextId := if size T <=? nextId T then 0 else nextId T |});
  T ← read;
  let redial : prog W (res goerr conn) :=
    c ← dialer;
    match c with
    | Err e => mret (Err e)
    | Ok c => _ ← modify (added c); mret (Ok c)
    end in
  match pool T !! nextId T with
  | Some c =>
      closed ← Closed c;
      if closed : bool then redial else _ ← modify took; mret (Ok c)
  | None => redial
  end.
End ops.
End pool.
Arguments t : clear implicits.
End SocketPool.

(** ** The proxy of an endpoint *)

Module HybridProxy.

(** *** The clients of a path *)

Record t := { baseUrl : string; websocketBaseUrl : string }.

(** [strings.Replace(s, old, new, 1)]. *)
Fixpoint replace_first (old new s : string) : string :=
  if has_prefix old s then new +:+ str_drop (String.length old) s
  else match s with
       | EmptyString => ""
       | String c s => String c (replace_first old new s)
       end.

Definition NewHybridProxy (url : string) : t := {|
  baseUrl := url; websocketBaseUrl := replace_first "http" "ws" url |}.

(** The start of [EndpointHandler]: the client for calls, and the URL at which
    the pool of 8 opens its sockets. *)
Definition clients {C : Type} (JoinPath : string → string → res goerr string)
    (Dial : string → res goerr C) (p : t) (to : string) : res goerr (C * string) :=
  joinedHttpUrl ← JoinPath (baseUrl p) to;
  httpClient ← Dial joinedHttpUrl;
  joinedWsUrl ← JoinPath (websocketBaseUrl p) to;
  Ok (httpClient, joinedWsUrl).

(** An URL of http gets the scheme ws, one of https the scheme wss. *)
Lemma websocket_scheme rest :
  websocketBaseUrl (NewHybridProxy ("http" +:+ rest)) = "ws" +:+ rest.
Proof. unfold NewHybridProxy. cbn. by destruct rest. Qed.

Section proxy.
Context {W : Type}.

(** How one turn of the subscription loop goes: no connection, one that cannot
    be upgraded, a subscription that the node refuses, or one that delivers
    until something ends it; [last]: the client or its context is gone. *)
Inductive turn : Type :=
  | NoConn (e : goerr)
  | NoUpgrade (e : goerr)
  | Refused (e : goerr)
  | Served (data : list json) (last : bool).

(** What the client of a subscription gets: replies and notifications. *)
Record outputs := { o_sends : list reply; o_notified : list json }.

Definition nothing : outputs := {| o_sends := []; o_notified := [] |}.
Definition sent (e : goerr) : outputs := {| o_sends := [reply_err e]; o_notified := [] |}.

Definition notified (data : list json) (o : outputs) : outputs :=
  {| o_sends := o_sends o; o_notified := data ++ o_notified o |}.

(** The loop over the turns; it ends when the turns do. *)
Fixpoint turns (first : bool) (ts : list turn) : outputs :=
  match ts with
  | [] => nothing
  | NoConn e :: ts => if first then sent e else turns first ts
  | NoUpgrade e :: _ => sent e
  | Refused e :: ts => if first then sent e else turns first ts
  | Served data last :: ts =>
      notified data (if last : bool then nothing else turns false ts)
  end.

Definition handleEthSubscription (notifier : bool) (ts : list turn) : outputs :=
  if negb notifier then sent (ESentinel ErrNotificationsUnsupported) else turns true ts.

(** One call of the node; the result is sent with the error. *)
Definition handleHttp (conn_Do : request → prog W (json * option goerr)) : handler W := λ r,
  x ← conn_Do r;
  send (VRaw x.1, x.2).

Definition EndpointHandler (conn_Do : request → prog W (json * option goerr))
    (notifier : request → bool) (subscription : request → list turn) : handler W := λ r,
  if bool_decide (r_method r = "eth_subscribe")
  then mret (o_sends (handleEthSubscription (notifier r) (subscription r)))
  else handleHttp conn_Do r.
End proxy.
End HybridProxy.

(** ** Telemetry: [svc/gateway/quarks/telemetry/component.go] *)

Module Telemetry.

(** The channel of publications under way, by their number, and whether the
    goroutine that [New] starts is still waiting for its one publication. *)
Record t := {
  enabled : bool;
  pending : list Z;
  waiting : bool;
}.

Definition capacity : nat := 128.

(** [stream]: the configured stream, if any; [connect]: what comes of creating
    it. *)
Definition New (on : bool) (stream : option string) (connect : option goerr) : res goerr t :=
  if negb on then Ok {| enabled := false; pending := []; waiting := false |}
  else
    match stream, connect with
    | None, _ => Err (EText "telemetry jetstream stream config is nil")
    | Some _, Some e => Err e
    | Some _, None => Ok {| enabled := true; pending := []; waiting := true |}
    end.

Section ops.
Context {W : Type} `{L : !Lens t W}.
(** [jjson.Marshal] of the entry and [PublishAsync] of the stream. *)
Context (PublishAsync : prog W (res goerr Z)).

Definition Publish : prog W (option goerr) :=
  T ← read;
  if negb (enabled T) then mret None
  else
    fut ← PublishAsync;
    match fut with
    | Err e => mret (Some e)
    | Ok fut =>
        T ← read;
        if bool_decide (List.length (pending T) < capacity)%nat
        then _ ← write {| enabled := enabled T; pending := pending T ++ [fut];
                          waiting := waiting T |};
             mret None
        else block
    end.
End ops.

(** The goroutine: one [select], no loop. *)
Definition consume (T : t) : option t :=
  match pending T with
  | _ :: rest =>
      if waiting T then Some {| enabled := enabled T; pending := rest; waiting := false |}
      else None
  | [] => None
  end.
End Telemetry.

(** ** The calls: [svc/app/gateway/api.go] *)

Module Gateway.

Definition maxRequestBodySize : Z := 5 * 1024 * 1024.

Definition text_error (msg : string) : goerr := EText msg.

Section gateway.
Context {W : Type} `{J : Jrpc}.
(** The length of the parameters' text; the proxy of a path of the node; the
    metrics and the log of a call; handing its record to the telemetry. *)
Context (params_len : request → Z) (proxy : string → handler W).
Context (observe : request → list reply → prog W ()) (Publish : request → prog W (option goerr)).
Context (AllowN : AbuseLimit → string → Z → prog W (res goerr bool)).

(** [createBaseHandler]: the proxies by the path of the node. *)
Definition endpointProxies (p : EndpointSpec) : gmap string (handler W) :=
  foldr (λ to m, <[to := proxy to]> m) ∅ (map_to_list (Endpoint_Paths p)).*2.

Definition createBaseHandler (p : EndpointSpec) : handler W := λ r,
  match GetEndpointPath (r_ctx r) with
  | Err e => send_err e
  | Ok target =>
      match endpointProxies p !! target with
      | None => send_err (text_error ("no target proxy for " +:+ target))
      | Some h => h r
      end
  end.

(** The middlewares, outermost first. *)
Definition max_size : middleware W := λ next r,
  if maxRequestBodySize <? params_len r
  then send_err (text_error "request body too large") else next r.

Definition whitelist (methods : list string) : middleware W := λ next r,
  if bool_decide (methods = []) then next r
  else if bool_decide (r_method r ∈ methods) then next r
  else send_err (text_error "method not allowed").

(** Who a call is limited as: the address without its port. *)
Definition identifier (r : request) : res goerr (option Identifier) :=
  endpoint ← GetEndpointSpec (r_ctx r);
  let slug := match Net.SplitHostPort (r_peer r) with
              | Ok (host, _) => host
              | Err _ => r_peer r
              end in
  Ok (Some {| Id_Endpoint := Endpoint_Name endpoint; Id_Type := "ip"; Id_Slug := slug;
              Id_ExtraCost := 0 |}).

Definition metrics : middleware W := λ fn r,
  match (_ ← GetEndpointSpec (r_ctx r); _ ← GetEndpointPath (r_ctx r);
         Ratelimit.IdentifierFromContext (r_ctx r)) with
  | Err e => send_err e
  | Ok _ =>
      if has_suffix "_subscribe" (r_method r) then fn r
      else
        let serve : prog W (list reply) := λ w,
          match fn r w with
          | (Return sends, w1) => (_ ← observe r sends; mret sends) w1
          | (Panic why, w1) => (_ ← observe r []; panic why) w1
          | (Blocks, w1) => (Blocks, w1)
          end in
        serve
  end.

(** The record is published after the call; if that fails the error is sent,
    too. *)
Definition telemetry : middleware W := λ next r,
  match Ratelimit.IdentifierFromContext (r_ctx r) with
  | Err e => send_err e
  | Ok _ =>
      sends ← next r;
      err ← Publish r;
      match err with
      | Some e => more ← send_err e; mret (sends ++ more)
      | None => mret sends
      end
  end.

(** [mux.Use]: the first is the outermost. *)
Definition wrap (ms : list (middleware W)) (base : handler W) : handler W :=
  foldr (λ m h, m h) base ms.

Definition New (p : EndpointSpec) (subscription : middleware W) : handler W :=
  wrap ([subscription; max_size; MethodValidationMiddleware; whitelist (Endpoint_Methods p);
         Ratelimit.WithIdentifier identifier]
        ++ map (λ v, Ratelimit.RuedisRatelimiter (AllowN v)) (Endpoint_Abuse p)
        ++ [metrics; telemetry])
    (createBaseHandler p).

(** The request that a path of the gateway hands on. *)
Definition routed (p : EndpointSpec) (from : string) (r : request) : option request :=
  to ← Endpoint_Paths p !! from;
  mret (with_ctx r (WithEndpointSpec (WithEndpointPath (r_ctx r) to) p)).
End gateway.

(** ** The HTTP requests *)

Record http_request := {
  h_method : string;
  h_remote : string;                     (* RemoteAddr *)
  h_header : string → string;            (* Header.Get *)
  h_length : Z;                          (* ContentLength *)
}.

Definition with_remote (r : http_request) (a : string) : http_request :=
  {| h_method := h_method r; h_remote := a; h_header := h_header r; h_length := h_length r |}.

(** A middleware answers a request with a status and headers, or passes it on
    with the headers set so far. *)
Inductive http_result : Type :=
  | Answered (status : Z) (headers : list (string * string))
  | Passed (r : http_request) (headers : list (string * string)).

Section http.
Context `{J : Jrpc} (url_Parse : string → res goerr (string * string * string)).
(** [netip.ParseAddr] into the set of trusted prefixes, and [net.ParseIP]. *)
Context (trusted : string → bool) (is_ip : string → bool).

(** [util.HostFromRemoteAddr]. *)
Definition HostFromRemoteAddr (remoteAddr : string) : string :=
  match Net.SplitHostPort remoteAddr with
  | Ok (host, _) => host
  | Err _ => remoteAddr
  end.

(** The address a request is taken to come from. *)
Definition real_remote (s : Security) (r : http_request) : string :=
  if trusted (HostFromRemoteAddr (h_remote r)) then
    match List.find (λ h, negb (bool_decide (h_header r h = "")) && is_ip (h_header r h))
            (TrustedIpHeaders s) with
    | Some h => h_header r h
    | None => h_remote r
    end
  else h_remote r.

Definition join (l : list string) : string := String.concat ", " l.

(** The headers allowed in a preflight: those asked for are added. *)
Definition add_header (allowed : list string) (h : string) : list string :=
  let h := BlockNumber.TrimSpace h in
  if existsb (EqualFold h) allowed then allowed else allowed ++ [h].

Definition allowed_headers (s : Security) (requested : string) : list string :=
  let allowed := match CorsAllowedHeaders s with
                 | [] => ["Content-Type"; "Accept"; "Authorization"]
                 | l => l
                 end in
  if bool_decide (requested = "") then allowed
  else foldl add_header allowed (split_at "," requested).

(** The CORS headers of a matching origin. *)
Definition cors_headers (s : Security) (origin : string) : list (string * string) :=
  [("Access-Control-Allow-Origin", origin)]
  ++ (if CorsAllowCredentials s then [("Access-Control-Allow-Credentials", "true")] else [])
  ++ (match CorsExposeHeaders s with
      | [] => []
      | l => [("Access-Control-Expose-Headers", join l)]
      end).

Definition preflight_headers (s : Security) (r : http_request) : list (string * string) :=
  [("Access-Control-Allow-Methods",
     join (match CorsAllowedMethods s with [] => ["POST"; "GET"; "OPTIONS"] | l => l end));
   ("Access-Control-Allow-Headers",
     join (allowed_headers s (h_header r "Access-Control-Request-Headers")));
   ("Access-Control-Max-Age", pretty (if CorsMaxAge s =? 0 then 86400 else CorsMaxAge s))].

(** The origin and CORS part. *)
Definition check_origin (s : Security) (r : http_request) : outcome http_result :=
  match AllowedOrigins s with
  | [] => Return (Passed r [])
  | patterns =>
      let o := h_header r "Origin" in
      m ← Origin.match_any url_Parse o patterns;
      Return (match m with
      | Err _ | Ok false => Answered 403 []
      | Ok true =>
          if CorsEnabled s && negb (bool_decide (o = "")) then
            if bool_decide (h_method r = "OPTIONS")
            then Answered 204 (cors_headers s o ++ preflight_headers s r)
            else Passed r (cors_headers s o)
          else Passed r []
      end)
  end.

(** The first two HTTP middlewares. *)
Definition security (sec : option Security) (r : http_request) : outcome http_result :=
  match sec with
  | None => Return (Passed r [])
  | Some s => check_origin s (with_remote r (real_remote s r))
  end.

Definition limit_length (x : http_result) : http_result :=
  match x with
  | Answered c hs => Answered c hs
  | Passed r hs => if maxRequestBodySize <? h_length r then Answered 413 hs else Passed r hs
  end.

Definition Route (sec : option Security) (r : http_request) : outcome http_result :=
  x ← security sec r; Return (limit_length x).
End http.
End Gateway.

(** ** Lemmas *)

Module TelemetryRuns.
Import Telemetry.

(** The telemetry and the number of publications that have returned. *)
Inductive step : t * nat → t * nat → Prop :=
  | step_publish T T' n fut :
      Publish (mret (Ok fut)) T = (Return None, T') → step (T, n) (T', (n + 1)%nat)
  | step_consume T T' n : consume T = Some T' → step (T, n) (T', n).

Definition counted (x : t * nat) : Prop :=
  enabled x.1 = true ∧ (List.length (pending x.1) ≤ capacity)%nat ∧
  x.2 = (List.length (pending x.1) + if waiting x.1 then 0 else 1)%nat.

Lemma Publish_run T fut :
  enabled T = true →
  Publish (mret (Ok fut)) T
  = if bool_decide (List.length (pending T) < capacity)%nat
    then (Return None, {| enabled := enabled T; pending := pending T ++ [fut];
                          waiting := waiting T |})
    else (Blocks, T).
Proof.
  intros He. unfold Publish, read, mbind, prog_bind. cbn. rewrite He. cbn.
  unfold write, block. cbn. by case_bool_decide; rewrite ?He.
Qed.

Lemma conn_step_counted x y : counted x → step x y → counted y.
Proof.
  intros (He & Hc & Hn) Hs. destruct Hs as [T T' n fut H|T T' n H]; unfold counted; simpl in *.
  - rewrite Publish_run in H by done. case_bool_decide; [|done]. injection H as <-. simpl.
    rewrite length_app. simpl. split_and!; [done|lia|]. destruct (waiting T); lia.
  - unfold consume in H. destruct (pending T) as [|x rest] eqn:Hp; [done|].
    destruct (waiting T); [|done]. injection H as <-. simpl in *. split_and!; [done|lia|lia].
Qed.

Lemma conn_steps_counted x y : counted x → rtc step x y → counted y.
Proof. intros H. induction 1; eauto using conn_step_counted. Qed.
End TelemetryRuns.

Module PoolFacts.
Import SocketPool.

(** The connections are in the slots, and the next slot is one or the end. *)
Definition pool_ok {conn} (T : t conn) : Prop :=
  0 < size T ∧ 0 <= nextId T <= size T ∧ map_Forall (λ i _, 0 <= i < size T) (pool T).

Definition slot {conn} (T : t conn) : Z := if size T <=? nextId T then 0 else nextId T.

Lemma pool_bounded {conn} (T : t conn) :
  pool_ok T → Z.of_nat (base.size (pool T)) <= size T.
Proof.
  intros (H0 & _ & Hall).
  assert (dom (pool T) ⊆ (list_to_set (seqZ 0 (size T)) : gset Z)) as Hsub.
  { intros i Hi. apply elem_of_dom in Hi as [c Hc]. apply elem_of_list_to_set, elem_of_seqZ.
    specialize (Hall i c Hc). simpl in Hall. lia. }
  apply subseteq_size in Hsub. rewrite size_dom, size_list_to_set in Hsub by apply NoDup_seqZ.
  rewrite length_seqZ in Hsub. lia.
Qed.

Section get.
Context {conn W : Type} `{L : !Lens (SocketPool.t conn) W}.
Context (Closed : conn → prog W bool) (dialer : prog W (res goerr conn)).
Hypothesis Closed_pool : ∀ c w b w', Closed c w = (Return b, w') → lget w' = lget w.
Hypothesis dialer_pool : ∀ w r w', dialer w = (Return r, w') → lget w' = lget w.

(** What [get] does to the pool. *)
Lemma get_run w r w' :
  pool_ok (lget w) → get Closed dialer w = (Return r, w') →
  pool_ok (lget w') ∧ SocketPool.size (lget w') = SocketPool.size (lget w) ∧
  match r with
  | Ok c => pool (lget w') !! slot (lget w) = Some c ∧ nextId (lget w') = slot (lget w) + 1
  | Err _ => pool (lget w') = pool (lget w) ∧ nextId (lget w') = slot (lget w)
  end.
Proof.
  intros (H0 & Hn & Hall) H. unfold get in H. set (T := lget w) in *.
  assert (0 <= slot T < size T) as Hslot.
  { unfold slot. destruct (Z.leb_spec (size T) (nextId T)); lia. }
  set (T1 := {| pool := pool T; size := size T; nextId := slot T |}).
  prog_inv H. injection Hm as <- <-. prog_inv H. injection Hm as <- <-.
  rewrite lget_lput in H. fold T in H. fold (slot T) in H. fold T1 in H. cbn [pool nextId T1] in H.
  assert (∀ w1 w2 r, lget w1 = T1 →
    (c ← dialer; match c with
                 | Err e => mret (Err e)
                 | Ok c => _ ← modify (added c); mret (Ok c)
                 end) w1 = (Return r, w2) →
    pool_ok (lget w2) ∧ size (lget w2) = size T ∧
    match r with
    | Ok c => pool (lget w2) !! slot T = Some c ∧ nextId (lget w2) = slot T + 1
    | Err _ => pool (lget w2) = pool T ∧ nextId (lget w2) = slot T
    end) as Hredial.
  { intros w1 w2 r0 Hw1 Hr. prog_inv Hr. apply dialer_pool in Hm. rewrite Hw1 in Hm.
    destruct a as [c|e].
    - prog_inv Hr. injection Hm0 as <- <-. apply prog_ret_inv in Hr as [<- <-].
      rewrite lget_lput, Hm. unfold added. cbn. split_and!; [|done|by rewrite lookup_insert_eq|done].
      unfold pool_ok. cbn. split_and!; [lia..|]. by apply map_Forall_insert_2.
    - apply prog_ret_inv in Hr as [<- <-]. rewrite Hm. unfold pool_ok. cbn. split_and!; done || lia. }
  destruct (pool T !! slot T) as [c|] eqn:Hc.
  - prog_inv H. apply Closed_pool in Hm. rewrite lget_lput in Hm.
    destruct a; [by eapply Hredial|]. prog_inv H. injection Hm0 as <- <-.
    apply prog_ret_inv in H as [<- <-]. rewrite lget_lput, Hm. cbn.
    unfold pool_ok. cbn. split_and!; try done; lia.
  - eapply Hredial; [|exact H]. by rewrite lget_lput.
Qed.
End get.
End PoolFacts.

Module GatewayFacts.
Import Gateway.

(** The pattern that matched, and those before it. *)
Lemma match_any_true `{J : Jrpc} url_Parse o ps :
  Origin.match_any url_Parse o ps = Return (Ok true) →
  ∃ pre p post, ps = pre ++ p :: post ∧ Origin.Match url_Parse o p = Return (Ok true) ∧
    Forall (λ q, Origin.Match url_Parse o q = Return (Ok false)) pre.
Proof.
  induction ps as [|q ps IH]; [done|]. cbn [Origin.match_any].
  destruct (Origin.Match url_Parse o q) as [[[]|]| |] eqn:Hq; cbn [mbind outcome_bind]; try done.
  - intros _. by exists [], q, ps.
  - intros H. destruct (IH H) as (pre & p & post & -> & ? & ?).
    exists (q :: pre), p, post. split_and!; [done..|by constructor].
Qed.

Section facts.
Context {W : Type} `{J : Jrpc}.
Context (proxy : string → handler W) (observe : request → list reply → prog W ()).
Context (AllowN : AbuseLimit → string → Z → prog W (res goerr bool)).

(** Who a call on one of the gateway's paths is limited as, and the call with
    this identity. *)
Definition client (p : EndpointSpec) (r : request) : Identifier :=
  {| Id_Endpoint := Endpoint_Name p; Id_Type := "ip";
     Id_Slug := match Net.SplitHostPort (r_peer r) with
                | Ok (host, _) => host
                | Err _ => r_peer r
                end;
     Id_ExtraCost := 0 |}.
Definition accepted (p : EndpointSpec) (r : request) : request :=
  with_ctx r (WithValue (r_ctx r) IdentifierContextKey (VIdentifier (client p r))).

(** All limits let the client pass, one after the other. *)
Fixpoint within (ls : list AbuseLimit) (id : Identifier) (w w' : W) : Prop :=
  match ls with
  | [] => w' = w
  | l :: ls => ∃ w1, AllowN l (Ratelimit.Key id) (i64 (1 + Id_ExtraCost id)) w
                     = (Return (Ok true), w1) ∧ within ls id w1 w'
  end.

Lemma limits_run ls (h : handler W) id r w w' :
  Ratelimit.IdentifierFromContext (r_ctx r) = Ok id → within ls id w w' →
  foldr (λ m h, m h) h (map (λ v, Ratelimit.RuedisRatelimiter (AllowN v)) ls) r w = h r w'.
Proof.
  intros Hid. revert w. induction ls as [|l ls IH]; intros w; [by intros ->|].
  intros (w1 & Hl & Hw). cbn [map foldr]. unfold Ratelimit.RuedisRatelimiter at 1.
  rewrite Hid. rewrite (prog_bind_return _ _ _ _ _ Hl). by apply IH.
Qed.

Lemma metrics_run (h : handler W) r sends w w' w2 :
  is_Some (match GetEndpointSpec (r_ctx r) with Ok _ => Some () | Err _ => None end) →
  is_Some (match GetEndpointPath (r_ctx r) with Ok _ => Some () | Err _ => None end) →
  is_Some (match Ratelimit.IdentifierFromContext (r_ctx r) with Ok _ => Some () | Err _ => None end) →
  has_suffix "_subscribe" (r_method r) = false →
  h r w = (Return sends, w') → observe r sends w' = (Return (), w2) →
  metrics observe h r w = (Return sends, w2).
Proof.
  intros H1 H2 H3 Hm Hh Ho. unfold metrics. rewrite Hm.
  destruct (GetEndpointSpec _); [|by destruct H1]. destruct (GetEndpointPath _); [|by destruct H2].
  destruct (Ratelimit.IdentifierFromContext _); [|by destruct H3].
  cbn [mbind res_bind]. rewrite Hh. by rewrite (prog_bind_return _ _ _ _ _ Ho).
Qed.

(** Every path of the configuration has its proxy. *)
Lemma endpointProxies_lookup p from to :
  Endpoint_Paths p !! from = Some to → endpointProxies proxy p !! to = Some (proxy to).
Proof.
  intros Hf. unfold endpointProxies. apply elem_of_map_to_list in Hf.
  apply (list_elem_of_fmap_2 snd) in Hf. simpl in Hf.
  generalize dependent ((map_to_list (Endpoint_Paths p)).*2). intros l Hf.
  induction l as [|x l IH]; [by apply elem_of_nil in Hf|]. simpl.
  destruct (decide (x = to)) as [->|Hne]; [by rewrite lookup_insert_eq|].
  rewrite lookup_insert_ne by done. apply IH. by apply elem_of_cons in Hf as [->|?].
Qed.
End facts.
End GatewayFacts.

(** ** Properties *)

Module GatewayProps.
Import Gateway TelemetryRuns PoolFacts GatewayFacts.

(** C30: with the telemetry on, at most 129 calls whose publication is accepted
    ever get past it: the channel holds 128 publications, and the goroutine that should empty it takes one
    and ends.  Every further publication blocks for good, whatever happens in
    between. *)
Theorem telemetry_stalls stream connect T0 T n fut :
  Telemetry.New true stream connect = Ok T0 → rtc step (T0, 0%nat) (T, n) →
  (n ≤ 129)%nat ∧
  (n = 129%nat → Telemetry.Publish (mret (Ok fut)) T = (Blocks, T) ∧
                 ∀ x, ¬ step (T, n) x).
Proof.
  intros HN Hs. assert (T0 = {| Telemetry.enabled := true; Telemetry.pending := [];
    Telemetry.waiting := true |}) as ->.
  { destruct stream, connect; unfold Telemetry.New in HN; simpl in HN; congruence. }
  apply conn_steps_counted in Hs as (He & Hc & Hn); [|by vm_compute; split_and!; try lia].
  unfold Telemetry.capacity in Hc. cbn [fst snd] in *.
  split; [destruct (Telemetry.waiting T); lia|]. intros ->.
  destruct (Telemetry.waiting T) eqn:Hw; [lia|].
  assert (∀ fut, Telemetry.Publish (mret (Ok fut)) T = (Blocks, T)) as Hblock.
  { intros f. rewrite Publish_run by done. rewrite bool_decide_false; [done|].
    unfold Telemetry.capacity. lia. }
  split; [done|]. intros x Hx. inversion Hx as [? T' ? f H|? T' ? H]; subst.
  - rewrite Hblock in H. discriminate H.
  - unfold Telemetry.consume in H. destruct (Telemetry.pending T); [done|]. by rewrite Hw in H.
Qed.

Section pool.
Context {conn W : Type} `{L : !Lens (SocketPool.t conn) W}.
Context (Closed : conn → prog W bool) (dialer : prog W (res goerr conn)).
(** Looking at a connection and dialling one leave the pool alone. *)
Hypothesis Closed_pool : ∀ c w b w', Closed c w = (Return b, w') → lget w' = lget w.
Hypothesis dialer_pool : ∀ w r w', dialer w = (Return r, w') → lget w' = lget w.

(** C34: the pool never holds more connections than its size; the slots are used
    in turn, a connection that is handed out is the one kept in its slot, and a
    failed dial leaves everything as it was, so the next call tries the same
    slot again. *)
Theorem socket_pool w r w' :
  pool_ok (lget w) → SocketPool.get Closed dialer w = (Return r, w') →
  pool_ok (lget w') ∧
  Z.of_nat (base.size (SocketPool.pool (lget w'))) <= SocketPool.size (lget w) ∧
  match r with
  | Ok c => SocketPool.pool (lget w') !! slot (lget w) = Some c ∧
            SocketPool.nextId (lget w') = slot (lget w) + 1
  | Err _ => SocketPool.pool (lget w') = SocketPool.pool (lget w) ∧
             SocketPool.nextId (lget w') = slot (lget w)
  end.
Proof.
  intros Hok H. assert (pool_ok (lget w') ∧ SocketPool.size (lget w') = SocketPool.size (lget w) ∧
    match r with
    | Ok c => SocketPool.pool (lget w') !! slot (lget w) = Some c ∧
              SocketPool.nextId (lget w') = slot (lget w) + 1
    | Err _ => SocketPool.pool (lget w') = SocketPool.pool (lget w) ∧
               SocketPool.nextId (lget w') = slot (lget w)
    end) as (H1 & H2 & H3).
  { revert H. by apply get_run. }
  split_and!; [done| |done]. rewrite <- H2. by apply pool_bounded.
Qed.
End pool.

Section calls.
Context {W : Type} `{J : Jrpc}.
Context (params_len : request → Z) (proxy : string → handler W).
Context (observe : request → list reply → prog W ()) (Publish : request → prog W (option goerr)).
Context (AllowN : AbuseLimit → string → Z → prog W (res goerr bool)).

(** with a list of methods in the configuration, a call of any other method
    gets one error, whatever its parameters and wherever it comes from, and
    nothing else happens: no limit is charged, nothing is recorded or
    published, and no node is called. *)
Theorem gateway_whitelist p subscription r w :
  Endpoint_Methods p ≠ [] → r_method r ∉ Endpoint_Methods p → subscription = (λ next, next) →
  ∃ e, New params_len proxy observe Publish AllowN p subscription r w = (Return [reply_err e], w).
Proof.
  intros Hne Hm ->. unfold New, wrap. cbn [app foldr]. unfold max_size.
  destruct (_ <? _); [by eexists|]. unfold MethodValidationMiddleware.
  case_bool_decide; [by eexists|]. destruct (str_contains _ _); [by eexists|].
  unfold whitelist. rewrite !bool_decide_false by done. by eexists.
Qed.

(** C31: a call on one of the gateway's paths whose method and size are accepted
    and whose client is within its limits is answered with what the node's path
    it is configured for answers, which is also what is recorded; if the
    telemetry then fails, its error follows as one more reply.  The call is not
    for the engine of the subscriptions, whose methods end in _subscribe and
    _unsubscribe and which hands on every other call, and the node's path is not
    empty, as an empty one counts as none. *)
Theorem gateway_reaches p subscription from to r r' sends w w1 w2 pub w3 w4 :
  (∀ h r, has_suffix "_subscribe" (r_method r) = false →
          has_suffix "_unsubscribe" (r_method r) = false → subscription h r = h r) →
  Endpoint_Paths p !! from = Some to → to ≠ "" → routed p from r = Some r' →
  params_len r' <= maxRequestBodySize →
  (Endpoint_Methods p = [] ∨ r_method r ∈ Endpoint_Methods p) →
  (String.length (r_method r) ≤ 256)%nat → str_contains "_internal" (r_method r) = false →
  has_suffix "_subscribe" (r_method r) = false → has_suffix "_unsubscribe" (r_method r) = false →
  within AllowN (Endpoint_Abuse p) (client p r') w w1 →
  proxy to (accepted p r') w1 = (Return sends, w2) →
  Publish (accepted p r') w2 = (Return pub, w3) →
  let replies := sends ++ match pub with Some e => [reply_err e] | None => [] end in
  observe (accepted p r') replies w3 = (Return (), w4) →
  New params_len proxy observe Publish AllowN p subscription r' w = (Return replies, w4).
Proof.
  intros Hsub Hfrom Hto Hr Hlen Hm Hm1 Hm2 Hm3 Hm4 Hlim Hproxy Hpub replies Hobs.
  unfold routed in Hr. rewrite Hfrom in Hr. injection Hr as <-.
  set (r' := with_ctx r _) in *. unfold New, wrap. rewrite !foldr_app. cbn [foldr].
  rewrite Hsub by done. unfold max_size. rewrite (proj2 (Z.ltb_ge _ _)) by done.
  unfold MethodValidationMiddleware. rewrite bool_decide_false by (simpl; lia).
  change (r_method r') with (r_method r). rewrite Hm2. unfold whitelist.
  change (r_method r') with (r_method r).
  match goal with |- (if _ then ?x else if _ then ?x else _) _ = _ =>
    assert (x w = (Return replies, w4)) as Hx end.
  { unfold Ratelimit.WithIdentifier. change (identifier r') with (Ok (E := goerr) (Some (client p r'))).
    cbv iota. change (with_ctx r' (WithValue _ _ _)) with (accepted p r').
    rewrite (limits_run AllowN _ _ (client p r') _ w w1); [|done|done].
    assert (GetEndpointPath (r_ctx (accepted p r')) = Ok to) as Hpath.
    { unfold GetEndpointPath. change (ctx_Value _ _) with (Some (VString to)). cbv iota.
      by rewrite bool_decide_false. }
    apply (metrics_run _ _ _ _ w1 w3);
      [by eexists|rewrite Hpath; by eexists|by eexists|exact Hm3| |exact Hobs].
    unfold telemetry. change (Ratelimit.IdentifierFromContext _) with
      (Ok (E := goerr) (client p r')). cbv iota.
    assert (createBaseHandler proxy p (accepted p r') w1 = (Return sends, w2)) as Hbase.
    { unfold createBaseHandler. rewrite Hpath.
      pose proof (endpointProxies_lookup proxy p from to Hfrom) as Hl. unfold handler in *.
      by rewrite Hl. }
    rewrite (prog_bind_return _ _ _ _ _ Hbase), (prog_bind_return _ _ _ _ _ Hpub).
    unfold replies. destruct pub; [done|]. by rewrite app_nil_r. }
  destruct Hm as [Hm|Hm]; [by rewrite (bool_decide_true (_ = [])) by done|].
  case_bool_decide; [done|]. by rewrite bool_decide_true by done.
Qed.
End calls.

(** C29: when an HTTP request gets past the security settings: the length it
    declares is within the limit; origins are not restricted, or its origin
    matches an allowed pattern and none of the patterns before that one is in
    error; and the address it is then limited by is the peer's, or one that a
    configured header of a trusted peer gives.  Nothing else of the request is
    changed, and only the headers of a matching origin are set.  The limit is on
    the declared length alone: a request that declares none (-1) passes it
    whatever it then sends ([gateway_unknown_length]). *)
Theorem gateway_security `{J : Jrpc} url_Parse trusted is_ip s r r' hs :
  Route url_Parse trusted is_ip (Some s) r = Return (Passed r' hs) →
  let o := h_header r "Origin" in
  (AllowedOrigins s = [] ∧ hs = [] ∨
   ∃ pre p post, AllowedOrigins s = pre ++ p :: post ∧
     Origin.Match url_Parse o p = Return (Ok true) ∧
     Forall (λ q, Origin.Match url_Parse o q = Return (Ok false)) pre ∧
     (hs = [] ∨ hs = cors_headers s o)) ∧
  h_length r <= maxRequestBodySize ∧ r' = with_remote r (h_remote r') ∧
  (h_remote r' = h_remote r ∨
   trusted (HostFromRemoteAddr (h_remote r)) = true ∧
   ∃ h, h ∈ TrustedIpHeaders s ∧ h_remote r' = h_header r h ∧ is_ip (h_header r h) = true).
Proof.
  intros H o. unfold Route, security in H.
  destruct (check_origin _ _ _) as [x| |] eqn:Hx; [|done..]. injection H as H.
  destruct x as [c h|r1 h1]; [done|]. simpl in H.
  destruct (Z.ltb_spec maxRequestBodySize (h_length r1)) as [?|Hlen]; [done|].
  injection H as -> ->.
  assert (r' = with_remote r (real_remote trusted is_ip s r) ∧
    (AllowedOrigins s = [] ∧ hs = [] ∨
     Origin.match_any url_Parse o (AllowedOrigins s) = Return (Ok true) ∧
     (hs = [] ∨ hs = cors_headers s o))) as [-> Hhs].
  { unfold check_origin in Hx. destruct (AllowedOrigins s) as [|p ps].
    { injection Hx as <- <-. split; [done|by left]. }
    change (h_header (with_remote r _) "Origin") with o in Hx.
    destruct (Origin.match_any _ o _) as [[[]|]| |]; try done.
    cbn [mbind outcome_bind] in Hx.
    destruct (CorsEnabled s && _); [case_bool_decide; [done|]|];
      injection Hx as <- <-; split; auto. }
  split_and!; [|done|done|].
  - destruct Hhs as [?|[Hm Hhs]]; [by left|right].
    destruct (match_any_true _ _ _ Hm) as (pre & p & post & ? & ? & ?).
    by exists pre, p, post.
  - cbn [with_remote h_remote]. unfold real_remote.
    destruct (trusted _) eqn:Ht; [|by left].
    destruct (List.find _ _) as [h|] eqn:Hf; [right|by left].
    apply List.find_some in Hf as [Hin Hh]. apply andb_true_iff in Hh as [_ Hip].
    split; [done|]. exists h. by apply list_elem_of_In in Hin.
Qed.

(** a request that does not declare its length is never refused for it. *)
Theorem gateway_unknown_length `{J : Jrpc} url_Parse trusted is_ip sec r :
  h_length r = -1 → Route url_Parse trusted is_ip sec r = security url_Parse trusted is_ip sec r.
Proof.
  intros Hl. unfold Route. destruct (security _ _ _ _ _) as [x| |] eqn:Hx; [|done..].
  cbn [mbind outcome_bind]. f_equal. destruct x as [c hs|r' hs]; [done|]. unfold limit_length.
  assert (h_length r' = -1) as ->; [|done]. revert Hx. unfold security, check_origin.
  destruct sec as [s|]; [|by intros [= <- <-]].
  destruct (AllowedOrigins s) as [|p ps]; [by intros [= <- <-]|].
  destruct (Origin.match_any _ _ _) as [[[]|]| |]; try done. cbn [mbind outcome_bind].
  destruct (_ && _); [case_bool_decide|]; try done; by intros [= <- <-].
Qed.
End GatewayProps.

(** ** Witnesses *)

Module GatewayWitness.
Import Gateway TelemetryRuns PoolFacts GatewayFacts GatewayProps StdJrpc.

Fixpoint repeat_publish (n : nat) (T : Telemetry.t) : Telemetry.t :=
  match n with
  | O => T
  | S n => (Telemetry.Publish (mret (Ok 0)) (repeat_publish n T)).2
  end.

(** One publication, its acknowledgement, and 128 more. *)
Definition T0 : Telemetry.t :=
  {| Telemetry.enabled := true; Telemetry.pending := []; Telemetry.waiting := true |}.
Definition T1 : Telemetry.t := repeat_publish 1 T0.
Definition T2 : Telemetry.t := default T1 (Telemetry.consume T1).
Definition full : Telemetry.t := repeat_publish 128 T2.

Lemma repeat_steps n T k :
  (n ≤ 128)%nat → Telemetry.enabled T = true → Telemetry.pending T = [] →
  rtc step (T, k) (repeat_publish n T, (k + n)%nat) ∧
  Telemetry.enabled (repeat_publish n T) = true ∧
  List.length (Telemetry.pending (repeat_publish n T)) = n.
Proof.
  intros Hn He Hp. induction n as [|n IH].
  { rewrite Nat.add_0_r. split_and!; [apply rtc_refl|done|]. simpl. by rewrite Hp. }
  destruct IH as (Hs & He' & Hl); [lia|]. cbn [repeat_publish].
  pose proof (Publish_run (repeat_publish n T) 0 He') as HP.
  rewrite bool_decide_true in HP by (unfold Telemetry.capacity; lia).
  split_and!; [|by rewrite HP|].
  - eapply rtc_r; [exact Hs|]. replace (k + S n)%nat with (k + n + 1)%nat by lia.
    apply step_publish with 0. rewrite HP. done.
  - rewrite HP. cbn [snd Telemetry.pending]. rewrite length_app, Hl. simpl. lia.
Qed.

Lemma telemetry_stalls_witness : Telemetry.Publish (mret (Ok 0)) full = (Blocks, full).
Proof.
  refine (proj1 (proj2 (telemetry_stalls (Some "usage") None T0 full 129 0 eq_refl _) eq_refl)).
  etransitivity; [exact (proj1 (repeat_steps 1 T0 0 ltac:(lia) eq_refl eq_refl))|].
  apply rtc_l with (T2, 1%nat); [by apply step_consume|].
  exact (proj1 (repeat_steps 128 T2 1 ltac:(lia) eq_refl eq_refl)).
Defined.

(** A pool of two, with a dead connection in the second slot. *)
Definition pool0 : SocketPool.t nat :=
  {| SocketPool.pool := {[ 0 := 10%nat; 1 := 11%nat ]}; SocketPool.size := 2;
     SocketPool.nextId := 1 |}.
Definition closed0 (c : nat) : prog (SocketPool.t nat) bool := mret (bool_decide (c = 11%nat)).
Definition dialer0 : prog (SocketPool.t nat) (res goerr nat) := mret (Ok 12%nat).

Lemma socket_pool_witness :
  let w' := (SocketPool.get closed0 dialer0 pool0).2 in
  SocketPool.pool w' !! 1 = Some 12%nat ∧ SocketPool.nextId w' = 2.
Proof.
  destruct (SocketPool.get closed0 dialer0 pool0) as [o w'] eqn:H.
  assert (o = Return (Ok 12%nat)) as ->.
  { transitivity (fst (o, w')); [reflexivity|]. rewrite <- H. vm_compute. reflexivity. }
  refine (proj2 (proj2 (socket_pool closed0 dialer0 _ _ pool0 (Ok 12%nat) w' _ H))).
  - intros c w b w2 [= _ <-]. reflexivity.
  - intros w r w2 [= _ <-]. reflexivity.
  - split_and!; [cbn; lia..|]. refine (bool_decide_eq_true_1 _ _). vm_compute. reflexivity.
Defined.

(** A gateway that serves one method on the path "eth". *)
Definition limit0 : AbuseLimit :=
  {| AbuseLimit_Id := "total"; AbuseLimit_Total := 10; AbuseLimit_Window := 1 |}.
Definition endpoint0 : EndpointSpec := {|
  Endpoint_Name := "public"; Endpoint_Paths := {[ "eth" := "ethereum" ]};
  Endpoint_Abuse := [limit0]; Endpoint_Usage := []; Endpoint_Methods := ["eth_gasPrice"];
  Endpoint_VennUrl := "http://venn" |}.
Definition request0 (method : string) : request :=
  {| r_ctx := []; r_method := method; r_params := None; r_peer := "10.0.0.1:80" |}.
Definition routed0 (method : string) : request :=
  default (request0 method) (routed endpoint0 "eth" (request0 method)).

(** The node answers with its path; the world counts the tokens taken. *)
Definition node0 (to : string) : handler nat := const_handler (reply_ok (VText to)).
Definition allow0 (l : AbuseLimit) (k : string) (n : Z) : prog nat (res goerr bool) :=
  λ w, (Return (Ok true), S w).
Definition down0 (r : request) : prog nat (option goerr) := mret (Some (EText "nats: no responders")).

Lemma gateway_whitelist_witness :
  ∃ e, New (λ _, 0) node0 (λ _ _, mret ()) down0 allow0 endpoint0 (λ next, next)
         (routed0 "debug_setHead") 0%nat = (Return [reply_err e], 0%nat).
Proof.
  apply gateway_whitelist; [discriminate| |reflexivity].
  refine (bool_decide_eq_true_1 _ _). vm_compute. reflexivity.
Defined.

(** An engine of subscriptions without any. *)
Definition engine0 : middleware nat := λ next r,
  if has_suffix "_subscribe" (r_method r) || has_suffix "_unsubscribe" (r_method r)
  then mret [reply_err (EText "no subscription")] else next r.

Lemma gateway_reaches_witness :
  New (λ _, 0) node0 (λ _ _, mret ()) down0 allow0 endpoint0 engine0
    (routed0 "eth_gasPrice") 0%nat
  = (Return [reply_ok (VText "ethereum"); reply_err (EText "nats: no responders")], 1%nat).
Proof.
  refine (gateway_reaches (λ _, 0) node0 (λ _ _, mret ()) down0 allow0 endpoint0 engine0 "eth" "ethereum"
    (request0 "eth_gasPrice") (routed0 "eth_gasPrice") [reply_ok (VText "ethereum")] 0%nat 1%nat
    1%nat (Some (EText "nats: no responders")) 1%nat 1%nat _ _ _ _ _ _ _ _ _ _ _ _ _ _);
    try reflexivity; try discriminate.
  - intros h r H1 H2. unfold engine0. by rewrite H1, H2.
  - right. by left.
  - simpl. lia.
  - exists 1%nat. split; reflexivity.
Defined.

(** A browser behind a trusted proxy. *)
Definition security0 : Security := {|
  TrustedOrigins := ["10.0.0.0/8"]; TrustedIpHeaders := ["X-Real-Ip"];
  AllowedOrigins := ["https://other.org"; "https://*.example.com"]; CorsEnabled := true;
  CorsAllowedMethods := []; CorsAllowedHeaders := []; CorsExposeHeaders := [];
  CorsAllowCredentials := true; CorsMaxAge := 0 |}.
Definition http0 : http_request := {| h_method := "POST"; h_remote := "10.0.0.1:80";
  h_header h := if bool_decide (h = "Origin") then "https://app.example.com"
                else if bool_decide (h = "X-Real-Ip") then "1.2.3.4" else "";
  h_length := 100 |}.
Definition url0 (s : string) : res goerr (string * string * string) :=
  Ok ("https", "app.example.com", "").

Lemma gateway_security_witness :
  h_length http0 <= maxRequestBodySize ∧
  match Route url0 (λ a, bool_decide (a = "10.0.0.1")) (λ _, true) (Some security0) http0 with
  | Return (Passed r' hs) => h_remote r' = "1.2.3.4" ∧ List.length hs = 2%nat
  | _ => False
  end.
Proof.
  destruct (Route url0 (λ a, bool_decide (a = "10.0.0.1")) (λ _, true) (Some security0) http0)
    as [[c hs|r' hs]|why|] eqn:H.
  - vm_compute in H. discriminate H.
  - split.
    + exact (proj1 (proj2 (gateway_security url0 _ _ security0 http0 r' hs H))).
    + revert H. vm_compute. intros [= <- <-]. split; reflexivity.
  - vm_compute in H. discriminate H.
  - vm_compute in H. discriminate H.
Defined.
End GatewayWitness.
