(* ===== verification/Lease.v ===== *)
(** * Leases of the leadership: [lib/election], [svc/node/atoms/election]

    A lease is a context that ends when the leadership does.  The leases a
    process has handed out are a store of contexts and channels;
    [RunWithLease] is a step relation over it, into which the goroutines of
    the election step.  The strategy without redis is here too; the election
    over redis is in [Election]. *)
From S2P Require Import Prelude Errors.
#[local] Open Scope Z_scope.

(** ** Contexts and channels *)

(** Package context: a node of the tree of contexts, with why it was
    cancelled and the contexts whose cancellation cancels it, itself
    included.  A context is the index of its node. *)
Module Ctx.
Record node := { cause : option goerr; ancestors : list nat }.
Abbreviation store := (list node).

(** [context.Background], the only context that is nobody's child. *)
Definition background : node := {| cause := None; ancestors := [] |}.
Definition node_of (s : store) (c : nat) : node := default background (s !! c).

Definition Cause (s : store) (c : nat) : option goerr := cause (node_of s c).
Definition Done (s : store) (c : nat) : bool := bool_decide (is_Some (Cause s c)).

(** [WithCancel] and [WithCancelCause]: a child of a cancelled context is
    cancelled. *)
Definition WithCancel (parent : nat) (s : store) : nat * store :=
  let p := node_of s parent in
  (List.length s, s ++ [{| cause := cause p; ancestors := List.length s :: ancestors p |}]).

Definition cancel_node (c : nat) (e : goerr) (n : node) : node :=
  if bool_decide (c ∈ ancestors n) then
    {| cause := match cause n with Some e' => Some e' | None => Some e end;
       ancestors := ancestors n |}
  else n.

(** The [CancelFunc] of [c], and its [CancelCauseFunc]. *)
Definition cancel (c : nat) (e : goerr) (s : store) : store := cancel_node c e <$> s.
End Ctx.

(** A channel of contexts, of which this goroutine is the only sender. *)
Module Chan.
Record t := { cap : nat; buffer : list nat; closed : bool }.
Definition make (n : nat) : t := {| cap := n; buffer := []; closed := false |}.

(** Nobody receives while this goroutine sends. *)
Definition send (x : nat) (c : t) : outcome t :=
  if closed c then Panic "send on closed channel"
  else if bool_decide (List.length (buffer c) < cap c)%nat
  then Return {| cap := cap c; buffer := buffer c ++ [x]; closed := false |}
  else Blocks.

Definition close (c : t) : outcome t :=
  if closed c then Panic "close of closed channel"
  else Return {| cap := cap c; buffer := buffer c; closed := true |}.

(** What a receive would give: nothing yet, the value and the rest, or [nil]
    of a closed channel. *)
Definition ready (c : t) : bool := closed c || bool_decide (buffer c ≠ []).
Definition recv (c : t) : option nat * t :=
  match buffer c with
  | x :: r => (Some x, {| cap := cap c; buffer := r; closed := closed c |})
  | [] => (None, c)
  end.
End Chan.

(** ** The leases of a process: [redsync.go] *)

Module Leases.

(** [ctx] is set until it is sent, [cancel] from then on. *)
Record spawnedCtx := { ctx : option nat; ch : nat; cancel : option nat }.

Record t := {
  isLeader : bool;
  ctxs : list spawnedCtx;
  contexts : Ctx.store;
  chans : list Chan.t;
}.

(** [isLeader.Store(b)]. *)
Definition store_leader (b : bool) (m : t) : t :=
  {| isLeader := b; ctxs := ctxs m; contexts := contexts m; chans := chans m |}.

Definition with_contexts (s : Ctx.store) (m : t) : t :=
  {| isLeader := isLeader m; ctxs := ctxs m; contexts := s; chans := chans m |}.

(** The channel is the result; the goroutine it starts is [updateSubs]. *)
Definition AcquireLease (c : nat) (m : t) : nat * t :=
  let o := List.length (chans m) in
  (o, {| isLeader := isLeader m;
         ctxs := ctxs m ++ [{| ctx := Some c; ch := o; cancel := None |}];
         contexts := contexts m;
         chans := chans m ++ [Chan.make 1] |}).

(** [v.ch <- subctx; close(v.ch)]. *)
Definition send_close (x o : nat) (chs : list Chan.t) : outcome (list Chan.t) :=
  match chs !! o with
  | None => Blocks
  | Some c => c ← Chan.send x c; c ← Chan.close c; Return (<[o := c]> chs)
  end.

(** The loop of [updateSubs] over the requests, with the new list. *)
Fixpoint update_loop (leader : bool) (vs : list spawnedCtx) (s : Ctx.store)
    (chs : list Chan.t) : outcome (list spawnedCtx * Ctx.store * list Chan.t) :=
  match vs with
  | [] => Return ([], s, chs)
  | v :: vs =>
      if leader then
        '(v, s, chs) ← match ctx v with
                       | Some p =>
                           let '(c, s) := Ctx.WithCancel p s in
                           chs ← send_close c (ch v) chs;
                           Return ({| ctx := None; ch := ch v; cancel := Some c |}, s, chs)
                       | None => Return (v, s, chs)
                       end;
        '(new, s, chs) ← update_loop leader vs s chs;
        Return (v :: new, s, chs)
      else
        match cancel v with
        | Some c => update_loop leader vs (Ctx.cancel c (ESentinel ErrLostLeadership) s) chs
        | None =>
            '(new, s, chs) ← update_loop leader vs s chs;
            Return (v :: new, s, chs)
        end
  end.

Definition updateSubs (m : t) : outcome t :=
  '(new, s, chs) ← update_loop (isLeader m) (ctxs m) (contexts m) (chans m);
  Return {| isLeader := isLeader m; ctxs := new; contexts := s; chans := chs |}.
End Leases.

(** ** The strategy without redis: [strategy.go] *)

Module AlwaysLeader.
Record t := { a_ctx : option nat; contexts : Ctx.store }.

Definition IsLeader (a : t) : bool := true.

Section ops.
Context {W : Type} `{L : !Lens t W}.

Definition with_cancel (c : nat) : prog W nat :=
  a ← read;
  let '(n, s) := Ctx.WithCancel c (contexts a) in
  _ ← write {| a_ctx := a_ctx a; contexts := s |};
  mret n.

Definition cancel (c : nat) : prog W () :=
  modify (λ a, {| a_ctx := a_ctx a;
                  contexts := Ctx.cancel c (ESentinel Canceled) (contexts a) |}).

Definition Join (c : nat) : prog W (option goerr) :=
  n ← with_cancel c;
  _ ← modify (λ a, {| a_ctx := Some n; contexts := contexts a |});
  a ← read;
  if Ctx.Done (contexts a) c then _ ← cancel n; mret None else block.

(** The goroutine of a lease. *)
Definition watch (c sctx : nat) : prog W () :=
  a ← read;
  match a_ctx a with
  | None => panic "nil pointer dereference"
  | Some own =>
      if Ctx.Done (contexts a) own then cancel sctx
      else if Ctx.Done (contexts a) c then mret ()
      else block
  end.

(** The channel is made without capacity. *)
Definition AcquireLease (c : nat) : prog W Chan.t :=
  sctx ← with_cancel c;
  out ← lift (Chan.send sctx (Chan.make 0));
  lift (Chan.close out).
End ops.
End AlwaysLeader.

(** ** Choosing and running: [svc/node/atoms/election/module.go] *)

Inductive strategy : Type := RedilockStrategy | AlwaysLeaderStrategy.

(** [New], for the configured name and whether redis was provided. *)
Definition New (Strategy : string) (Redis : bool) : outcome (res goerr strategy) :=
  let strategyString :=
    if bool_decide (Strategy = "") then (if Redis then "redis" else "alwaysleader")
    else Strategy in
  if bool_decide (strategyString ∈ ["redilock"; "redsync"; "redis"]) then
    if Redis then Return (Ok RedilockStrategy) else Panic "nil pointer dereference"
  else if bool_decide (strategyString = "alwaysleader") then Return (Ok AlwaysLeaderStrategy)
  else Return (Err (EText ("invalid election strategy: " +:+ strategyString))).

(** [RunWithLease] with the redis strategy, and what goes on around it. *)
Module Runner.

Inductive pc : Type :=
  | Top                              (* before [AcquireLease] *)
  | First (leaseCh : nat)            (* at the select with a default *)
  | Waiting (leaseCh fctx : nat)     (* at the select of the follower *)
  | Leading (lctx : nat)
  | Returned
  | Panicked.

(** With the contexts that [leaderFunc] and [followerFunc] were started on. *)
Record t := {
  strat : Leases.t;
  at_ : pc;
  leaders : list nat;
  followers : list nat;
}.

Definition goto (p : pc) (r : t) : t :=
  {| strat := strat r; at_ := p; leaders := leaders r; followers := followers r |}.
Definition with_strat (m : Leases.t) (r : t) : t :=
  {| strat := m; at_ := at_ r; leaders := leaders r; followers := followers r |}.

Section runner.
(** The context [RunWithLease] is called with. *)
Context (ctx : nat).

Definition done (r : t) (c : nat) : bool := Ctx.Done (Leases.contexts (strat r)) c.
Definition lease_ready (r : t) (o : nat) : bool :=
  match Leases.chans (strat r) !! o with Some c => Chan.ready c | None => false end.

(** [lctx = <-leaseCh]. *)
Definition receive (o : nat) (r : t) : option nat * t :=
  match Leases.chans (strat r) !! o with
  | None => (None, r)
  | Some c =>
      let '(x, c) := Chan.recv c in
      (x, with_strat {| Leases.isLeader := Leases.isLeader (strat r);
                        Leases.ctxs := Leases.ctxs (strat r);
                        Leases.contexts := Leases.contexts (strat r);
                        Leases.chans := <[o := c]> (Leases.chans (strat r)) |} r)
  end.

(** [go leaderFunc(lctx)], and [lctx.Done()], which panics on [nil]. *)
Definition lead (lctx : option nat) (r : t) : t :=
  match lctx with
  | None => goto Panicked r
  | Some c => {| strat := strat r; at_ := Leading c; leaders := leaders r ++ [c];
                 followers := followers r |}
  end.

(** [context.WithCancel(ctx)], and [go followerFunc(fctx)]. *)
Definition follow (o : nat) (r : t) : t :=
  let '(f, s) := Ctx.WithCancel ctx (Leases.contexts (strat r)) in
  {| strat := Leases.with_contexts s (strat r); at_ := Waiting o f;
     leaders := leaders r; followers := followers r ++ [f] |}.

Definition cancel_in (c : nat) (e : sentinel) (r : t) : t :=
  with_strat (Leases.with_contexts
    (Ctx.cancel c (ESentinel e) (Leases.contexts (strat r))) (strat r)) r.

(** The deferred [cn()], and the select on [ctx.Done()] behind it. *)
Definition after_wait (f : nat) (lctx : option nat) (r : t) : t :=
  let r := cancel_in f Canceled r in
  if done r ctx then goto Returned r else lead lctx r.

(** The runner's own steps, the loop of the election, which stores its verdict
    and updates the leases, the goroutine of [AcquireLease], which updates them
    at any time, and the end of the context. *)
Inductive step : t → t → Prop :=
  | acquire r o m : at_ r = Top → Leases.AcquireLease ctx (strat r) = (o, m) →
      step r (goto (First o) (with_strat m r))
  | first_done r o : at_ r = First o → done r ctx = true → step r (goto Returned r)
  | first_lease r o c r' : at_ r = First o → lease_ready r o = true →
      receive o r = (c, r') → step r (lead c r')
  | first_default r o : at_ r = First o → done r ctx = false → lease_ready r o = false →
      step r (follow o r)
  | wait_lease r o f c r' : at_ r = Waiting o f → lease_ready r o = true →
      receive o r = (c, r') → step r (after_wait f c r')
  | wait_done r o f : at_ r = Waiting o f → done r ctx = true →
      step r (after_wait f None r)
  | lead_end r c e : at_ r = Leading c → Ctx.Cause (Leases.contexts (strat r)) c = Some e →
      step r (goto (if errors_is e ErrLostLeadership then Top else Returned) r)
  | verdict r b : step r (with_strat (Leases.store_leader b (strat r)) r)
  | update r m : Leases.updateSubs (strat r) = Return m → step r (with_strat m r)
  | end_context r : step r (cancel_in ctx Canceled r).
End runner.

(** Before [RunWithLease] is called: [p.Ctx] is the context 1. *)
Definition p_ctx : nat := 1%nat.
Definition init : t := {|
  strat := {| Leases.isLeader := false; Leases.ctxs := [];
              Leases.contexts := (Ctx.WithCancel 0 [Ctx.background]).2;
              Leases.chans := [] |};
  at_ := Top; leaders := []; followers := [] |}.
Definition reachable (r : t) : Prop := rtc (step p_ctx) init r.
End Runner.

(** ** Leases: lemmas *)

Module LeaseFacts.
Import Leases.

(** Under the context 0 is only 1, the process's, and the others under 1. *)
Definition anc (c : nat) : list nat :=
  match c with O => [] | S O => [1%nat] | _ => [c; 1%nat] end.
Definition shaped (s : Ctx.store) : Prop :=
  (2 ≤ List.length s)%nat ∧ ∀ c n, s !! c = Some n → Ctx.ancestors n = anc c.

(** Contexts are added, and cancelled once and for all. *)
Definition grows (s s' : Ctx.store) : Prop :=
  (List.length s ≤ List.length s')%nat ∧
  ∀ c e, Ctx.Cause s c = Some e → Ctx.Cause s' c = Some e.

#[global] Instance grows_preorder : PreOrder grows.
Proof.
  split; [done|]. intros s t u [Hl Hc] [Hl' Hc']. split; [lia|]. eauto.
Qed.

Lemma Done_spec s c : Ctx.Done s c = true ↔ ∃ e, Ctx.Cause s c = Some e.
Proof. unfold Ctx.Done. by rewrite bool_decide_eq_true. Qed.

Lemma Done_grows s s' c : grows s s' → Ctx.Done s c = true → Ctx.Done s' c = true.
Proof. rewrite !Done_spec. intros [_ H] [e He]. eauto. Qed.

Lemma Cause_app s t c : (c < List.length s)%nat → Ctx.Cause (s ++ t) c = Ctx.Cause s c.
Proof. intros. unfold Ctx.Cause, Ctx.node_of. by rewrite lookup_app_l. Qed.

Lemma Cause_beyond s c : (List.length s ≤ c)%nat → Ctx.Cause s c = None.
Proof. intros. unfold Ctx.Cause, Ctx.node_of. by rewrite lookup_ge_None_2. Qed.

Lemma node_of_last s n : Ctx.node_of (s ++ [n]) (List.length s) = n.
Proof. unfold Ctx.node_of. by rewrite list_lookup_middle. Qed.

(** *** A new context *)

Lemma WithCancel_shaped p s c s' :
  p = 1%nat → Ctx.WithCancel p s = (c, s') → shaped s →
  shaped s' ∧ c = List.length s ∧ List.length s' = S (List.length s).
Proof.
  intros -> [= <- <-] [Hl Hs]. rewrite length_app. cbn. split_and!; [|done|lia].
  split; [rewrite length_app; cbn; lia|]. intros c n.
  rewrite lookup_app_Some. intros [H|[Hle H]]; [by apply Hs|].
  destruct (c - List.length s)%nat eqn:E; [|done]. cbn in H. simplify_eq/=.
  assert (c = List.length s) as -> by lia.
  destruct (lookup_lt_is_Some_2 s 1) as [n Hn]; [lia|].
  unfold Ctx.node_of. rewrite Hn. cbn. rewrite (Hs _ _ Hn).
  destruct (List.length s) as [|[|k]]; [lia|lia|done].
Qed.

Lemma WithCancel_grows p s c s' : Ctx.WithCancel p s = (c, s') → grows s s'.
Proof.
  intros [= <- <-]. split; [rewrite length_app; lia|]. intros c e H.
  destruct (decide (c < List.length s)%nat) as [Hc|Hc]; [by rewrite Cause_app|].
  rewrite Cause_beyond in H by lia. done.
Qed.

Lemma WithCancel_cause p s c s' d :
  Ctx.WithCancel p s = (c, s') →
  Ctx.Cause s' d = if decide (d = c) then Ctx.Cause s p else Ctx.Cause s d.
Proof.
  intros [= <- <-]. case_decide as Hd.
  - subst d. unfold Ctx.Cause at 1, Ctx.node_of at 1.
    by rewrite lookup_app_r, Nat.sub_diag by lia.
  - destruct (decide (d < List.length s)%nat); [by rewrite Cause_app|].
    rewrite !Cause_beyond; [done|lia|]. rewrite length_app. cbn. lia.
Qed.

(** *** A cancelled context *)

Lemma cancel_length c e s : List.length (Ctx.cancel c e s) = List.length s.
Proof. apply length_fmap. Qed.

Lemma cancel_shaped c e s : shaped s → shaped (Ctx.cancel c e s).
Proof.
  intros [Hl Hs]. split; [by rewrite cancel_length|]. intros d n.
  unfold Ctx.cancel. rewrite list_lookup_fmap, fmap_Some. intros (n0 & H & ->).
  rewrite <- (Hs _ _ H). unfold Ctx.cancel_node. by case_bool_decide.
Qed.

Lemma cancel_cause c e s d :
  shaped s → (d < List.length s)%nat →
  Ctx.Cause (Ctx.cancel c e s) d =
  match Ctx.Cause s d with
  | Some e' => Some e'
  | None => if decide (c ∈ anc d) then Some e else None
  end.
Proof.
  intros [_ Hs] Hd. unfold Ctx.Cause, Ctx.node_of, Ctx.cancel. rewrite list_lookup_fmap.
  destruct (lookup_lt_is_Some_2 s d) as [n Hn]; [done|]. rewrite Hn. cbn.
  unfold Ctx.cancel_node. rewrite (Hs _ _ Hn).
  case_decide; [rewrite bool_decide_eq_true_2 by done|rewrite bool_decide_eq_false_2 by done];
    by destruct (Ctx.cause n).
Qed.

Lemma cancel_grows c e s : grows s (Ctx.cancel c e s).
Proof.
  split; [by rewrite cancel_length|]. intros d e'. unfold Ctx.Cause, Ctx.node_of, Ctx.cancel.
  rewrite list_lookup_fmap. destruct (s !! d) as [n|]; [|done]. cbn. unfold Ctx.cancel_node.
  case_bool_decide; cbn; [|done]. by intros ->.
Qed.

Lemma anc_other c d : (2 ≤ c)%nat → c ∈ anc d → d = c.
Proof. destruct d as [|[|d]]; cbn; rewrite ?elem_of_cons, ?elem_of_nil; intuition lia. Qed.

Lemma anc_self c : (1 ≤ c)%nat → c ∈ anc c.
Proof. destruct c as [|[|c]]; cbn; rewrite ?elem_of_cons; [lia| |]; auto. Qed.

(** *** The entries of a process *)

Section entries.
(** The contexts of followers. *)
Context (fs : list nat).

Definition lease (s : Ctx.store) (c : nat) : Prop :=
  (2 ≤ c < List.length s)%nat ∧ c ∉ fs.

Definition entry_ok (s : Ctx.store) (chs : list Chan.t) (v : spawnedCtx) : Prop :=
  match ctx v, cancel v with
  | None, Some c => lease s c
  | Some p, None => p = 1%nat ∧ chs !! ch v = Some (Chan.make 1)
  | _, _ => False
  end.

Definition causes (s : Ctx.store) : Prop :=
  ∀ c e, Ctx.Cause s c = Some e →
    e = ESentinel ErrLostLeadership ∨ Ctx.Done s 1 = true ∨ c ∈ fs.

(** A channel that a lease was sent to. *)
Definition full (c : nat) : Chan.t := {| Chan.cap := 1; Chan.buffer := [c]; Chan.closed := true |}.

Definition granted (vs : list spawnedCtx) : list nat := omap cancel vs.

Lemma lease_grows s s' c : grows s s' → lease s c → lease s' c.
Proof. intros [Hl _] [? ?]. split; [lia|done]. Qed.

Lemma entry_granted s chs vs c :
  Forall (entry_ok s chs) vs → c ∈ granted vs → lease s c.
Proof.
  rewrite Forall_forall. intros H. unfold granted. rewrite list_elem_of_omap.
  intros (v & Hv & Hc). specialize (H v Hv). unfold entry_ok in H. rewrite Hc in H.
  by destruct (ctx v).
Qed.

(** What [updateSubs] does for a leader. *)
Record promoted (vs : list spawnedCtx) (s : Ctx.store) (chs : list Chan.t)
    (new : list spawnedCtx) (s' : Ctx.store) (chs' : list Chan.t) : Prop := {
  pr_shaped : shaped s';
  pr_grows : grows s s';
  pr_causes : causes s';
  pr_entries : Forall (entry_ok s' chs') new;
  pr_chs : ch <$> new = ch <$> vs;
  pr_kept c : c ∈ granted vs → c ∈ granted new;
  pr_length : List.length chs' = List.length chs;
  pr_other o : (∀ v, v ∈ vs → is_Some (ctx v) → ch v ≠ o) → chs' !! o = chs !! o;
  pr_sent v : v ∈ vs → is_Some (ctx v) →
    ∃ c, chs' !! ch v = Some (full c) ∧ c ∈ granted new;
}.

Lemma send_close_make x o chs :
  chs !! o = Some (Chan.make 1) → send_close x o chs = Return (<[o := full x]> chs).
Proof. intros H. unfold send_close. by rewrite H. Qed.

Lemma entry_ok_mono s s' chs o c v :
  grows s s' → ch v ≠ o → entry_ok s chs v → entry_ok s' (<[o := c]> chs) v.
Proof.
  intros Hg Ho. unfold entry_ok. destruct (ctx v), (cancel v); try done.
  - intros [-> H]. split; [done|]. by rewrite list_lookup_insert_ne.
  - by apply lease_grows.
Qed.

Lemma causes_new p s c s' :
  p = 1%nat → shaped s → Ctx.WithCancel p s = (c, s') → causes s → causes s'.
Proof.
  intros -> Hs Hw H d e. pose proof (WithCancel_grows _ _ _ _ Hw) as Hg.
  rewrite (WithCancel_cause _ _ _ _ d Hw). case_decide.
  - intros He. right; left. apply (Done_grows s); [done|]. apply Done_spec; eauto.
  - intros He. destruct (H d e He) as [->|[Hd|Hd]]; [by left| |by do 2 right].
    right; left. by apply (Done_grows s).
Qed.

Lemma update_promotes vs s chs :
  shaped s → causes s → Forall (entry_ok s chs) vs → NoDup (ch <$> vs) →
  (∀ f, f ∈ fs → (f < List.length s)%nat) →
  ∃ new s' chs', update_loop true vs s chs = Return (new, s', chs') ∧
    promoted vs s chs new s' chs'.
Proof.
  revert s chs. induction vs as [|v vs IH]; intros s chs Hs Hc Hok Hnd Hf.
  { exists [], s, chs. split; [done|]. split; try done; set_solver. }
  apply Forall_cons in Hok as [Hv Hvs]. apply NoDup_cons in Hnd as [Hnew Hnd].
  assert (Hne : Forall (λ v', ch v' ≠ ch v) vs).
  { apply Forall_forall. intros v' Hv' He. apply Hnew. rewrite <- He. by apply list_elem_of_fmap_2. }
  cbn [update_loop]. unfold entry_ok in Hv.
  destruct (ctx v) as [p|] eqn:Ep, (cancel v) as [c|] eqn:Ec; try done.
  - destruct Hv as [-> Hch]. destruct (Ctx.WithCancel 1 s) as [c s1] eqn:Hw.
    destruct (WithCancel_shaped 1 s c s1 eq_refl Hw Hs) as (Hs1 & Hcl & Hlen).
    pose proof (WithCancel_grows _ _ _ _ Hw) as Hg1.
    rewrite (send_close_make _ _ _ Hch).
    destruct (IH s1 (<[ch v := full c]> chs)) as (new & s' & chs' & Hrun & HP); try done.
    { by apply (causes_new 1 s c). }
    { rewrite Forall_forall in Hvs. rewrite Forall_forall in Hne. apply Forall_forall.
      intros v' Hv'. apply (entry_ok_mono s); auto. }
    { intros f Hff. specialize (Hf f Hff). lia. }
    exists ({| ctx := None; ch := ch v; cancel := Some c |} :: new), s', chs'.
    split; [unfold mbind, outcome_bind; by rewrite Hrun|]. destruct HP.
    split; try done.
    + by transitivity s1.
    + constructor; [|done]. cbn. apply (lease_grows s1); [done|].
      split; [destruct Hs; lia|]. intros Hin. specialize (Hf _ Hin). lia.
    + cbn. by f_equal.
    + intros d. unfold granted. cbn. rewrite Ec. cbn. intros Hd. right. by apply pr_kept0.
    + rewrite pr_length0. apply length_insert.
    + intros o Ho. rewrite pr_other0.
      * apply list_lookup_insert_ne. apply (Ho v); [by left|]. by rewrite Ep.
      * intros v' Hv'. apply Ho. by right.
    + intros v' [->|Hv']%elem_of_cons Hsome.
      * exists c. split; [|by left]. rewrite pr_other0.
        { apply list_lookup_insert_eq. by apply lookup_lt_Some in Hch. }
        intros v' Hv' _. rewrite Forall_forall in Hne. by apply Hne.
      * destruct (pr_sent0 v' Hv' Hsome) as (c' & ? & ?). exists c'. split; [done|by right].
  - destruct (IH s chs) as (new & s' & chs' & Hrun & HP); try done.
    exists (v :: new), s', chs'. split; [unfold mbind, outcome_bind; by rewrite Hrun|].
    destruct HP. split; try done.
    + constructor; [|done]. unfold entry_ok. rewrite Ep, Ec. by apply (lease_grows s).
    + cbn. by f_equal.
    + intros d. unfold granted. cbn. rewrite Ec. cbn.
      intros [->|Hd]%elem_of_cons; [by left|right; by apply pr_kept0].
    + intros o Ho. apply pr_other0. intros v' Hv'. apply Ho. by right.
    + intros v' [->|Hv']%elem_of_cons; [rewrite Ep; by intros []|]. intros Hsome.
      destruct (pr_sent0 v' Hv' Hsome) as (c' & ? & ?). exists c'. split; [done|].
      unfold granted. cbn. rewrite Ec. by right.
Qed.

(** What it does for a process that is not the leader. *)
Record demoted (vs : list spawnedCtx) (s : Ctx.store) (new : list spawnedCtx)
    (s' : Ctx.store) : Prop := {
  de_shaped : shaped s';
  de_length : List.length s' = List.length s;
  de_grows : grows s s';
  de_causes : causes s';
  de_new : new = filter (λ v, cancel v = None) vs;
  de_done c : c ∈ granted vs → Ctx.Done s' c = true;
  de_other d : (d < List.length s)%nat → d ∉ granted vs → Ctx.Cause s' d = Ctx.Cause s d;
}.

Lemma update_demotes vs s chs :
  shaped s → causes s → Forall (entry_ok s chs) vs →
  ∃ new s', update_loop false vs s chs = Return (new, s', chs) ∧ demoted vs s new s'.
Proof.
  revert s. induction vs as [|v vs IH]; intros s Hs Hc Hok.
  { exists [], s. split; [done|]. split; try done; set_solver. }
  apply Forall_cons in Hok as [Hv Hvs]. cbn [update_loop]. unfold entry_ok in Hv.
  destruct (cancel v) as [c|] eqn:Ec.
  - assert (lease s c) as [[Hc2 Hcl] Hcf] by (by destruct (ctx v)).
    set (s1 := Ctx.cancel c (ESentinel ErrLostLeadership) s).
    destruct (IH s1) as (new & s' & Hrun & HP).
    { by apply cancel_shaped. }
    { intros d e He. destruct (decide (d < List.length s)%nat).
      2: { rewrite Cause_beyond in He; [done|]. unfold s1. rewrite cancel_length. lia. }
      unfold s1 in He. rewrite cancel_cause in He by done.
      destruct (Ctx.Cause s d) as [e'|] eqn:Hd.
      - simplify_eq. destruct (Hc d e Hd) as [->|[H1|H1]]; [by left| |by do 2 right].
        right; left. apply (Done_grows s); [apply cancel_grows|done].
      - case_decide; simplify_eq. by left. }
    { rewrite Forall_forall in Hvs. apply Forall_forall. intros v' Hv'. specialize (Hvs v' Hv').
      unfold entry_ok in *. destruct (ctx v'), (cancel v'); try done.
      apply (lease_grows s); [apply cancel_grows|done]. }
    exists new, s'. split; [done|]. destruct HP. split; try done.
    + rewrite de_length0. apply cancel_length.
    + transitivity s1; [apply cancel_grows|done].
    + rewrite de_new0, filter_cons. by rewrite Ec.
    + intros d. unfold granted. cbn. rewrite Ec. cbn.
      intros [->|Hd]%elem_of_cons; [|by apply de_done0].
      apply (Done_grows s1); [done|]. apply Done_spec. unfold s1.
      rewrite cancel_cause by done. destruct (Ctx.Cause s c); [by eexists|].
      rewrite decide_True by (apply anc_self; lia). by eexists.
    + intros d Hd. unfold granted. cbn. rewrite Ec. cbn.
      intros [Hne Hnd]%not_elem_of_cons.
      rewrite de_other0; [|by unfold s1; rewrite cancel_length|done]. unfold s1.
      rewrite cancel_cause by done. destruct (Ctx.Cause s d); [done|].
      rewrite decide_False; [done|]. intros Hin%anc_other; [done|lia].
  - destruct (IH s) as (new & s' & Hrun & HP); try done.
    exists (v :: new), s'. split; [unfold mbind, outcome_bind; by rewrite Hrun|].
    destruct HP. split; try done.
    + rewrite filter_cons, Ec. by f_equal.
    + intros d. unfold granted. cbn. rewrite Ec. apply de_done0.
    + intros d Hd. unfold granted. cbn. rewrite Ec. by apply de_other0.
Qed.
End entries.
End LeaseFacts.

(** ** The runner: its invariant *)

Module RunnerFacts.
Import LeaseFacts Leases Runner.

(** A lease that ends with the leadership: it is over, or [updateSubs] will
    cancel it. *)
Definition tied (m : Leases.t) (c : nat) : Prop :=
  Ctx.Done (contexts m) c = true ∨ c ∈ granted (ctxs m).

(** The request of the channel [o] waits, or its lease lies in the channel. *)
Definition pending (fs : list nat) (m : Leases.t) (o : nat) : Prop :=
  (chans m !! o = Some (Chan.make 1) ∧ ∃ v, v ∈ ctxs m ∧ ch v = o ∧ is_Some (ctx v)) ∨
  (∃ c, chans m !! o = Some (full c) ∧ lease fs (contexts m) c ∧ tied m c).

Definition pc_ok (ls fs : list nat) (m : Leases.t) (p : pc) : Prop :=
  match p with
  | Top => True
  | First o => pending fs m o
  | Waiting o f => pending fs m o ∧ f ∈ fs
  | Leading c => c ∈ ls
  | Returned => Ctx.Done (contexts m) p_ctx = true
  | Panicked => False
  end.

(** What holds of the leases, whatever the runner does. *)
Record leases_ok (fs : list nat) (m : Leases.t) : Prop := {
  lo_shaped : shaped (contexts m);
  lo_causes : causes fs (contexts m);
  lo_fs f : f ∈ fs → (2 ≤ f < List.length (contexts m))%nat;
  lo_entries : Forall (entry_ok fs (contexts m) (chans m)) (ctxs m);
  lo_nodup : NoDup (ch <$> ctxs m);
  lo_small v : v ∈ ctxs m → (ch v < List.length (chans m))%nat;
}.

Record inv (r : Runner.t) : Prop := {
  iv_leases : leases_ok (followers r) (strat r);
  iv_lease c : c ∈ leaders r → lease (followers r) (contexts (strat r)) c;
  iv_leaders c : c ∈ leaders r → done r c = true ∨ at_ r = Leading c;
  iv_tied c : c ∈ leaders r → tied (strat r) c;
  iv_followers f : f ∈ followers r → done r f = true ∨ ∃ o, at_ r = Waiting o f;
  iv_pc : pc_ok (leaders r) (followers r) (strat r) (at_ r);
}.

(** *** One change at a time *)

Lemma waiting_entry fs m v :
  leases_ok fs m → v ∈ ctxs m → is_Some (ctx v) →
  cancel v = None ∧ chans m !! ch v = Some (Chan.make 1).
Proof.
  intros H Hv [p Hp]. pose proof (lo_entries _ _ H) as He. rewrite Forall_forall in He.
  specialize (He v Hv). unfold entry_ok in He. rewrite Hp in He.
  destruct (cancel v); [done|]. by destruct He.
Qed.

Lemma granted_lease fs m c : leases_ok fs m → c ∈ granted (ctxs m) → lease fs (contexts m) c.
Proof. intros H. apply (entry_granted _ _ (chans m)), H. Qed.

(** The contexts grow, and nothing else changes. *)
Lemma leases_ok_grow fs m s' :
  leases_ok fs m → shaped s' → grows (contexts m) s' → causes fs s' →
  leases_ok fs (with_contexts s' m).
Proof.
  intros [Hs Hc Hf He Hn Hl] Hs' Hg Hc'. split; try done; cbn.
  - intros f Hin. destruct Hg. specialize (Hf f Hin). lia.
  - apply (Forall_impl _ _ _ He). intros v. unfold entry_ok.
    destruct (ctx v), (cancel v); try done. by apply lease_grows.
Qed.

Lemma tied_grow m s' c : grows (contexts m) s' → tied m c → tied (with_contexts s' m) c.
Proof. intros Hg [H|H]; [left; by apply (Done_grows (contexts m))|by right]. Qed.

Lemma pending_grow fs m s' o :
  grows (contexts m) s' → pending fs m o → pending fs (with_contexts s' m) o.
Proof.
  intros Hg [H|(c & Hc & Hl & Ht)]; [by left|]. right. exists c. split_and!; [done| |].
  - by apply (lease_grows _ (contexts m)).
  - by apply tied_grow.
Qed.

Lemma pc_ok_grow ls fs m s' p :
  grows (contexts m) s' → pc_ok ls fs m p → pc_ok ls fs (with_contexts s' m) p.
Proof.
  intros Hg. destruct p; try done; cbn.
  - by apply pending_grow.
  - intros [? ?]. split; [by apply pending_grow|done].
  - by apply Done_grows.
Qed.

Lemma cancel_causes fs s c e :
  shaped s → causes fs s →
  (∀ d, c ∈ anc d → (d < List.length s)%nat →
     ESentinel e = ESentinel ErrLostLeadership ∨ Ctx.Done (Ctx.cancel c (ESentinel e) s) 1 = true ∨ d ∈ fs) →
  causes fs (Ctx.cancel c (ESentinel e) s).
Proof.
  intros Hs Hc Hnew d e' He. destruct (decide (d < List.length s)%nat) as [Hd|Hd].
  2: { rewrite Cause_beyond in He; [done|]. rewrite cancel_length. lia. }
  rewrite cancel_cause in He by done.
  destruct (Ctx.Cause s d) as [e0|] eqn:Hd0.
  - simplify_eq. destruct (Hc d e' Hd0) as [->|[H1|H1]]; [by left| |by do 2 right].
    right; left. apply (Done_grows s); [apply cancel_grows|done].
  - case_decide; simplify_eq. by apply Hnew.
Qed.

(** A context of the runner is cancelled. *)
Lemma inv_cancel r c e :
  inv r → causes (followers r) (Ctx.cancel c (ESentinel e) (contexts (strat r))) →
  inv (cancel_in c e r).
Proof.
  intros [Hlo Hl Hld Ht Hf Hp] Hc. set (s' := Ctx.cancel c (ESentinel e) (contexts (strat r))).
  assert (Hg : grows (contexts (strat r)) s') by apply cancel_grows.
  split; unfold cancel_in; cbn.
  - apply leases_ok_grow; try done. apply cancel_shaped, Hlo.
  - intros d Hd. apply (lease_grows _ (contexts (strat r))); auto.
  - intros d Hd. destruct (Hld d Hd); [left|by right]. by apply (Done_grows (contexts (strat r))).
  - intros d Hd. apply tied_grow; auto.
  - intros d Hd. destruct (Hf d Hd); [left|by right]. by apply (Done_grows (contexts (strat r))).
  - by apply pc_ok_grow.
Qed.

Lemma inv_end_context r : inv r → inv (cancel_in p_ctx Canceled r).
Proof.
  intros H. pose proof (iv_leases _ H) as Hlo. apply inv_cancel; [done|].
  apply cancel_causes; [apply Hlo|apply Hlo|]. intros d _ _. right; left.
  apply Done_spec. rewrite cancel_cause; [|apply Hlo|apply (lo_shaped _ _ Hlo)].
  destruct (Ctx.Cause _ 1); [by eexists|]. by eexists.
Qed.

Lemma inv_cancel_follower r f : inv r → f ∈ followers r → inv (cancel_in f Canceled r).
Proof.
  intros H Hf. pose proof (iv_leases _ H) as Hlo. apply inv_cancel; [done|].
  apply cancel_causes; [apply Hlo|apply Hlo|]. intros d Hd _. right; right.
  apply anc_other in Hd as ->; [done|]. by apply (lo_fs _ _ Hlo).
Qed.

(** *** A request *)

Lemma inv_acquire r o m :
  inv r → at_ r = Top → AcquireLease p_ctx (strat r) = (o, m) →
  inv (goto (First o) (with_strat m r)).
Proof.
  intros [Hlo Hl Hld Ht Hf Hp] Ha. intros [= <- <-]. destruct Hlo as [Hs Hc Hfs He Hn Hsm].
  set (m := strat r) in *. rewrite Ha in *.
  assert (Hgr : ∀ c, c ∈ granted (ctxs m) →
    c ∈ granted (ctxs m ++ [{| ctx := Some p_ctx; ch := List.length (chans m); cancel := None |}])).
  { intros c Hin. unfold granted. rewrite omap_app. apply elem_of_app. by left. }
  split; cbn; fold m.
  - split; cbn; try done.
    + apply Forall_app. split.
      * apply (Forall_impl _ _ _ He). intros v. unfold entry_ok.
        destruct (ctx v), (cancel v); try done. intros [-> Hch]. split; [done|].
        apply lookup_app_l_Some, Hch.
      * constructor; [|done]. split; [done|]. cbn. by rewrite list_lookup_middle.
    + rewrite fmap_app. apply NoDup_app. split_and!; [done| |apply NoDup_singleton].
      intros o (v & -> & Hv)%list_elem_of_fmap. cbn. rewrite list_elem_of_singleton.
      specialize (Hsm v Hv). lia.
    + intros v. rewrite elem_of_app, list_elem_of_singleton, length_app. cbn.
      intros [Hv| ->]; [specialize (Hsm v Hv)|cbn]; lia.
  - done.
  - intros c Hin. destruct (Hld c Hin); [by left|done].
  - intros c Hin. destruct (Ht c Hin); [by left|right; by apply Hgr].
  - intros f Hin. destruct (Hf f Hin) as [|[]]; [by left|done].
  - left. cbn. rewrite list_lookup_middle by done. split; [done|].
    eexists. rewrite elem_of_app, list_elem_of_singleton. split; [by right|]. cbn. eauto.
Qed.

(** *** The follower *)

Lemma inv_follow r o :
  inv r → at_ r = First o → done r p_ctx = false → inv (follow p_ctx o r).
Proof.
  intros [Hlo Hl Hld Ht Hf Hp] Ha Hd. rewrite Ha in *. unfold follow.
  destruct (Ctx.WithCancel p_ctx _) as [f s'] eqn:Hw.
  pose proof (lo_shaped _ _ Hlo) as Hs.
  destruct (WithCancel_shaped _ _ _ _ eq_refl Hw Hs) as (Hs' & -> & Hlen).
  pose proof (WithCancel_grows _ _ _ _ Hw) as Hg.
  set (m := strat r) in *. set (fs' := followers r ++ [List.length (contexts m)]).
  assert (Hfs : ∀ f, f ∈ fs' ↔ f ∈ followers r ∨ f = List.length (contexts m)).
  { intros f. unfold fs'. by rewrite elem_of_app, list_elem_of_singleton. }
  assert (Hle : ∀ c, lease (followers r) (contexts m) c → lease fs' s' c).
  { intros c [Hc Hn]. split; [lia|]. rewrite Hfs. intros [|]; [done|lia]. }
  split; cbn; fold m; fold fs'.
  - destruct Hlo as [_ Hc Hfs0 He Hn Hsm]. split; cbn; try done.
    + intros c e He'. destruct (causes_new _ _ _ _ _ eq_refl Hs Hw Hc c e He') as [|[|]];
        [by left|by right; left|]. right; right. apply Hfs. by left.
    + intros f Hin. apply Hfs in Hin as [Hin| ->]; [specialize (Hfs0 f Hin)|]; [lia|].
      destruct Hs. lia.
    + apply (Forall_impl _ _ _ He). intros v. unfold entry_ok.
      destruct (ctx v), (cancel v); try done. apply Hle.
  - intros c Hin. by apply Hle, Hl.
  - intros c Hin. destruct (Hld c Hin); [left|done]. by apply (Done_grows (contexts m)).
  - intros c Hin. apply tied_grow; auto.
  - intros f Hin. apply Hfs in Hin as [Hin| ->]; [|right; by eexists].
    destruct (Hf f Hin) as [|[]]; [left|done]. by apply (Done_grows (contexts m)).
  - split; [|apply Hfs; by right]. destruct Hp as [Hp|(c & Hc & Hlc & Htc)]; [by left|].
    right. exists c. split_and!; [done|by apply Hle|by apply tied_grow].
Qed.

(** *** A lease is received *)

Lemma ready_pending r fs o :
  pending fs (strat r) o → lease_ready r o = true →
  ∃ c, chans (strat r) !! o = Some (full c) ∧ lease fs (contexts (strat r)) c ∧ tied (strat r) c.
Proof.
  unfold lease_ready. intros [[Hc _]|H]; [|done]. by rewrite Hc.
Qed.

(** The store of leases without the one in the channel [o]. *)
Definition drain (o : nat) (m : Leases.t) : Leases.t :=
  {| isLeader := isLeader m; ctxs := ctxs m; contexts := contexts m;
     chans := <[o := {| Chan.cap := 1; Chan.buffer := []; Chan.closed := true |}]> (chans m) |}.

Lemma receive_full r o c :
  chans (strat r) !! o = Some (full c) →
  receive o r = (Some c, with_strat (drain o (strat r)) r).
Proof. intros H. unfold receive. by rewrite H. Qed.

Lemma drain_ok fs m o c :
  leases_ok fs m → chans m !! o = Some (full c) → leases_ok fs (drain o m).
Proof.
  intros [Hs Hc Hf He Hn Hsm] Hch. split; cbn; try done.
  - rewrite Forall_forall in He. apply Forall_forall. intros v Hv. specialize (He v Hv).
    unfold entry_ok in *. destruct (ctx v), (cancel v); try done. destruct He as [-> Hch'].
    split; [done|]. rewrite list_lookup_insert_ne; [done|]. intros ->. by rewrite Hch in Hch'.
  - intros v Hv. rewrite length_insert. by apply Hsm.
Qed.

(** Nothing that was started is still running. *)
Record quiet (r : Runner.t) : Prop := {
  qu_leases : leases_ok (followers r) (strat r);
  qu_leaders c : c ∈ leaders r → lease (followers r) (contexts (strat r)) c ∧ done r c = true;
  qu_followers f : f ∈ followers r → done r f = true;
}.

Lemma inv_quiet r :
  inv r → (∀ c, at_ r = Leading c → done r c = true) →
  (∀ o f, at_ r = Waiting o f → done r f = true) → quiet r.
Proof.
  intros [Hlo Hl Hld Ht Hf Hp] HL HW. split; [done| |].
  - intros c Hc. split; [auto|]. destruct (Hld c Hc); auto.
  - intros f Hin. destruct (Hf f Hin) as [|[o Ho]]; eauto.
Qed.

Lemma quiet_goto r p :
  quiet r → pc_ok (leaders r) (followers r) (strat r) p → inv (goto p r).
Proof.
  intros [Hlo Hl Hf] Hp. split; cbn; try done.
  - intros c Hc. by apply Hl.
  - intros c Hc. left. by apply Hl.
  - intros c Hc. left. by apply Hl.
  - intros f Hin. left. by apply Hf.
Qed.

Lemma quiet_drain r o c :
  quiet r → chans (strat r) !! o = Some (full c) → quiet (with_strat (drain o (strat r)) r).
Proof. intros [Hlo Hl Hf] Hc. split; cbn; [by apply (drain_ok _ _ _ c)|done|done]. Qed.

Lemma quiet_lead r c :
  quiet r → lease (followers r) (contexts (strat r)) c → tied (strat r) c →
  inv (lead (Some c) r).
Proof.
  intros [Hlo Hl Hf] Hc Ht. split; cbn; try done.
  - intros d [Hd| ->%list_elem_of_singleton]%elem_of_app; [by apply Hl|done].
  - intros d [Hd| ->%list_elem_of_singleton]%elem_of_app; [left; by apply Hl|by right].
  - intros d [Hd| ->%list_elem_of_singleton]%elem_of_app; [left; by apply Hl|done].
  - intros f Hin. left. by apply Hf.
  - apply elem_of_app. right. by left.
Qed.

Lemma inv_first_lease r o c r' :
  inv r → at_ r = First o → lease_ready r o = true → receive o r = (c, r') → inv (lead c r').
Proof.
  intros Hi Ha Hr Hx. pose proof (iv_pc _ Hi) as Hp. rewrite Ha in Hp.
  destruct (ready_pending _ _ _ Hp Hr) as (x & Hch & Hl & Ht).
  rewrite (receive_full _ _ _ Hch) in Hx. injection Hx as <- <-.
  apply quiet_lead; [|done|done]. apply (quiet_drain _ _ x); [|done].
  by apply inv_quiet; [done|intros ?|intros ??]; rewrite Ha.
Qed.

Lemma quiet_waiting r o f : inv r → at_ r = Waiting o f → quiet (cancel_in f Canceled r).
Proof.
  intros Hi Ha. pose proof (iv_pc _ Hi) as Hp. rewrite Ha in Hp. destruct Hp as [_ Hf].
  apply inv_quiet; [by apply inv_cancel_follower| |]; cbn; rewrite Ha; [done|].
  intros o' f' [= -> ->]. apply Done_spec. pose proof (iv_leases _ Hi) as Hlo.
  pose proof (lo_fs _ _ Hlo _ Hf). cbn. rewrite cancel_cause; [|apply Hlo|lia].
  destruct (Ctx.Cause _ _); [by eexists|]. rewrite decide_True by (apply anc_self; lia).
  by eexists.
Qed.

Lemma inv_wait_lease r o f c r' :
  inv r → at_ r = Waiting o f → lease_ready r o = true → receive o r = (c, r') →
  inv (after_wait p_ctx f c r').
Proof.
  intros Hi Ha Hr Hx. pose proof (iv_pc _ Hi) as Hp. rewrite Ha in Hp. destruct Hp as [Hp Hf].
  destruct (ready_pending _ _ _ Hp Hr) as (x & Hch & Hl & Ht).
  rewrite (receive_full _ _ _ Hch) in Hx. injection Hx as <- <-.
  assert (Hq : quiet (cancel_in f Canceled (with_strat (drain o (strat r)) r))).
  { apply (quiet_drain (cancel_in f Canceled r) o x); [by apply (quiet_waiting _ o)|done]. }
  unfold after_wait. destruct (done _ p_ctx) eqn:Hd; [by apply quiet_goto|].
  apply quiet_lead; [done| |].
  - apply (lease_grows _ (contexts (strat r))); [apply cancel_grows|done].
  - by refine (tied_grow (drain o (strat r)) _ x (cancel_grows _ _ _) _).
Qed.

Lemma inv_wait_done r o f :
  inv r → at_ r = Waiting o f → done r p_ctx = true → inv (after_wait p_ctx f None r).
Proof.
  intros Hi Ha Hd. unfold after_wait.
  assert (Hd' : done (cancel_in f Canceled r) p_ctx = true).
  { apply (Done_grows (contexts (strat r))); [apply cancel_grows|done]. }
  rewrite Hd'. apply quiet_goto; [by apply (quiet_waiting _ o)|done].
Qed.

Lemma inv_lead_end r c e :
  inv r → at_ r = Leading c → Ctx.Cause (contexts (strat r)) c = Some e →
  inv (goto (if errors_is e ErrLostLeadership then Top else Returned) r).
Proof.
  intros Hi Ha He. pose proof (iv_pc _ Hi) as Hp. rewrite Ha in Hp.
  destruct (iv_lease _ Hi _ Hp) as [_ Hn].
  apply quiet_goto.
  - apply inv_quiet; [done| |]; rewrite Ha; [|done]. intros d [= <-]. apply Done_spec; eauto.
  - destruct (errors_is e ErrLostLeadership) eqn:Hl; [done|].
    destruct (lo_causes _ _ (iv_leases _ Hi) _ _ He) as [->|[H|H]]; [done|done|done].
Qed.

(** *** The leases are updated *)

Lemma updated_leases fs m new s' chs' :
  leases_ok fs m → promoted fs (ctxs m) (contexts m) (chans m) new s' chs' →
  leases_ok fs {| isLeader := isLeader m; ctxs := new; contexts := s'; chans := chs' |}.
Proof.
  intros Hlo HP. pose proof (pr_grows _ _ _ _ _ _ _ HP) as [Hg _]. destruct HP.
  split; cbn; try done.
  - intros f Hf. pose proof (lo_fs _ _ Hlo f Hf). lia.
  - rewrite pr_chs0. apply Hlo.
  - intros v Hv. rewrite pr_length0. assert (Hin : ch v ∈ ch <$> new) by by apply list_elem_of_fmap_2.
    rewrite pr_chs0 in Hin. apply list_elem_of_fmap in Hin as (v' & -> & Hv'). by apply Hlo.
Qed.

Lemma promoted_pending fs m new s' chs' o :
  leases_ok fs m → promoted fs (ctxs m) (contexts m) (chans m) new s' chs' →
  pending fs m o →
  ∃ c, chs' !! o = Some (full c) ∧ lease fs s' c ∧ (Ctx.Done s' c = true ∨ c ∈ granted new).
Proof.
  intros Hlo HP. pose proof (updated_leases _ _ _ _ _ Hlo HP) as Hlo'.
  intros [[Hc (v & Hv & <- & Hs)]|(c & Hc & Hl & Ht)].
  - destruct (pr_sent _ _ _ _ _ _ _ HP v Hv Hs) as (c & Hc' & Hg). exists c. split_and!; [done| |by right].
    by apply (granted_lease _ _ _ Hlo').
  - exists c. split_and!.
    + rewrite (pr_other _ _ _ _ _ _ _ HP); [done|]. intros v Hv Hs Ho.
      destruct (waiting_entry _ _ _ Hlo Hv Hs) as [_ Hm]. rewrite Ho, Hc in Hm. done.
    + apply (lease_grows _ (contexts m)); [apply HP|done].
    + destruct Ht as [Hd|Hg]; [left; apply (Done_grows (contexts m)); [apply HP|done]|].
      right. by apply HP.
Qed.

Lemma demoted_leases fs m new s' :
  leases_ok fs m → demoted fs (ctxs m) (contexts m) new s' →
  leases_ok fs {| isLeader := isLeader m; ctxs := new; contexts := s'; chans := chans m |}.
Proof.
  intros Hlo [Hs Hlen Hg Hc -> Hd Ho]. split; cbn; try done.
  - intros f Hf. rewrite Hlen. by apply Hlo.
  - apply Forall_forall. intros v [_ Hv]%list_elem_of_filter.
    pose proof (lo_entries _ _ Hlo) as He. rewrite Forall_forall in He. specialize (He v Hv).
    unfold entry_ok in *. destruct (ctx v), (cancel v); try done.
    by apply (lease_grows _ (contexts m)).
  - apply (sublist_NoDup _ (ch <$> ctxs m)); [apply Hlo|]. by apply fmap_sublist, sublist_filter.
  - intros v [_ Hv]%list_elem_of_filter. by apply Hlo.
Qed.
(** [updateSubs] returns, and does what [AcquireLease] promises. *)
Record updated (fs : list nat) (m m' : Leases.t) : Prop := {
  up_leader : isLeader m' = isLeader m;
  up_leases : leases_ok fs m';
  up_grows : grows (contexts m) (contexts m');
  up_tied c : tied m c → tied m' c;
  up_pending o : pending fs m o → pending fs m' o;
  up_promoted o : isLeader m = true → pending fs m o → ∃ c, chans m' !! o = Some (full c);
  up_demoted c : isLeader m = false → tied m c → Ctx.Done (contexts m') c = true;
}.

Lemma updateSubs_run fs m :
  leases_ok fs m → ∃ m', updateSubs m = Return m' ∧ updated fs m m'.
Proof.
  intros Hlo. unfold updateSubs. pose proof Hlo as [Hs Hc Hf He Hn Hsm].
  destruct (isLeader m) eqn:Hb.
  - destruct (update_promotes fs (ctxs m) (contexts m) (chans m)) as (new & s' & chs' & -> & HP);
      try done; [intros f Hin; apply Hf in Hin; lia|].
    eexists. split; [done|]. pose proof (pr_grows _ _ _ _ _ _ _ HP) as Hg. split; cbn; try done.
    + rewrite <- Hb. by apply updated_leases.
    + intros c [Hd|Hin]; [left; by apply (Done_grows (contexts m))|right; by apply HP].
    + intros o Hp. right. by apply (promoted_pending _ m).
    + intros o _ Hp. destruct (promoted_pending _ _ _ _ _ _ Hlo HP Hp) as (c & ? & _). by exists c.
    + by rewrite Hb.
  - destruct (update_demotes fs (ctxs m) (contexts m) (chans m)) as (new & s' & -> & HD);
      try done.
    eexists. split; [done|]. pose proof (de_grows _ _ _ _ _ HD) as Hg.
    assert (Ht : ∀ c, tied m c → Ctx.Done s' c = true).
    { intros c [Hd|Hin]; [by apply (Done_grows (contexts m))|by apply (de_done _ _ _ _ _ HD)]. }
    split; cbn; try done.
    + rewrite <- Hb. by apply demoted_leases.
    + intros c Hc'. left. by apply Ht.
    + intros o [[Hch (v & Hv & Ho & Hs')]|(c & Hch & Hl & Hc')].
      * left. split; [done|]. exists v. split_and!; [|done|done]. cbn.
        rewrite (de_new _ _ _ _ _ HD). apply list_elem_of_filter. split; [|done].
        by apply (waiting_entry fs m).
      * right. exists c. split_and!; [done|by apply (lease_grows _ (contexts m))|].
        left. by apply Ht.
    + by rewrite Hb.
    + intros c _. apply Ht.
Qed.

Lemma inv_update r m : inv r → updateSubs (strat r) = Return m → inv (with_strat m r).
Proof.
  intros [Hlo Hl Hld Ht Hf Hp] Hu.
  destruct (updateSubs_run _ _ Hlo) as (m' & Hu' & [_ Hlo' Hg Ht' Hp' _ _]).
  rewrite Hu in Hu'. simplify_eq.
  assert (Hd : ∀ c, done r c = true → done (with_strat m' r) c = true).
  { intros c. apply Done_grows, Hg. }
  split; cbn; try done.
  - intros c Hc. apply (lease_grows _ (contexts (strat r))); auto.
  - intros c Hc. destruct (Hld c Hc); auto.
  - auto.
  - intros f Hin. destruct (Hf f Hin); auto.
  - destruct (at_ r); try done; cbn in *; [auto|naive_solver|by apply Hd].
Qed.

Lemma inv_verdict r b : inv r → inv (with_strat (store_leader b (strat r)) r).
Proof. by intros [[] ? ? ? ? ?]. Qed.

Lemma inv_init : inv init.
Proof.
  split; cbn; [|set_solver..|done]. split; cbn; [|..|done|constructor|]; [| |set_solver..].
  - split; [done|]. intros [|[|c]] n Hn; by inversion Hn.
  - intros [|[|c]] e; by inversion 1.
Qed.

Lemma runner_step_inv r r' : inv r → step p_ctx r r' → inv r'.
Proof.
  intros Hi Hs. destruct Hs.
  - by apply inv_acquire.
  - apply quiet_goto; [|done]. apply inv_quiet; [done| |]; congruence.
  - by apply (inv_first_lease r o).
  - by apply inv_follow.
  - by apply (inv_wait_lease r o).
  - by apply (inv_wait_done r o).
  - by apply (inv_lead_end r c).
  - by apply inv_verdict.
  - by apply inv_update.
  - by apply inv_end_context.
Qed.

Lemma reachable_inv r : reachable r → inv r.
Proof.
  unfold reachable. intros H. apply rtc_ind_r with (P := inv) (x := init) in H;
    [done|apply inv_init|]. intros; by eapply runner_step_inv.
Qed.
End RunnerFacts.

(** ** What holds *)

Module LeaseProps.
Import Runner Leases LeaseFacts RunnerFacts.

(** C13: However the election decides, the leases are updated and the context ends,
    and in whatever order: a leader function runs with a live lease only while
    [RunWithLease] waits for the end of that very lease, a follower function
    only while it waits for a lease, so there is never more than one of either;
    it does not panic, and it returns only when its context has ended; and
    [updateSubs] comes back, having ended every lease if the leadership is
    lost, and delivered the one that is waited for if it is held. *)
Theorem lease_follows_leadership r :
  reachable r →
  (∀ c, c ∈ leaders r → done r c = true ∨ at_ r = Leading c) ∧
  (∀ f, f ∈ followers r → done r f = true ∨ ∃ o, at_ r = Waiting o f) ∧
  at_ r ≠ Panicked ∧ (at_ r = Returned → done r p_ctx = true) ∧
  ∃ m, updateSubs (strat r) = Return m ∧
    (isLeader (strat r) = false → ∀ c, c ∈ leaders r → Ctx.Done (contexts m) c = true) ∧
    (isLeader (strat r) = true → ∀ o f, at_ r = First o ∨ at_ r = Waiting o f →
       lease_ready (with_strat m r) o = true).
Proof.
  intros Hi%reachable_inv. split_and!.
  - apply Hi. - apply Hi.
  - intros Hp. pose proof (iv_pc _ Hi) as H. by rewrite Hp in H.
  - intros Hp. pose proof (iv_pc _ Hi) as H. by rewrite Hp in H.
  - destruct (updateSubs_run _ _ (iv_leases _ Hi)) as (m & Hu & Hup). exists m.
    split_and!; [done| |].
    + intros Hb c Hc. apply Hup; [done|]. by apply Hi.
    + intros Hb o f Hp.
      assert (pending (followers r) (strat r) o) as Hpend.
      { pose proof (iv_pc _ Hi) as H. destruct Hp as [Hp|Hp]; rewrite Hp in H; [done|by destruct H]. }
      destruct (up_promoted _ _ _ Hup o Hb Hpend) as (c & Hch).
      unfold lease_ready. cbn. by rewrite Hch.
Qed.

(** The strategy [alwaysleader] never hands out a lease: the channel has no
    room for it, so [AcquireLease] blocks for good, and before that a start of
    the node waits in [Join] for as long as its context lives. *)
Theorem alwaysleader_stuck {W} `{L : !Lens AlwaysLeader.t W} (w : W) (c : nat) :
  (∃ w', AlwaysLeader.AcquireLease (L := L) c w = (Blocks, w')) ∧
  (Ctx.Done (AlwaysLeader.contexts (lget w)) c = false →
   ∃ w', AlwaysLeader.Join (L := L) c w = (Blocks, w')).
Proof.
  split.
  - unfold AlwaysLeader.AcquireLease, AlwaysLeader.with_cancel, mbind, prog_bind, read, write.
    destruct (Ctx.WithCancel c _) as [n s]. by eexists.
  - intros Hd. unfold AlwaysLeader.Join, AlwaysLeader.with_cancel, mbind, prog_bind, read, write, modify.
    destruct (Ctx.WithCancel c _) as [n s] eqn:Hw. cbn. rewrite !lget_lput. cbn.
    assert (Ctx.Done s c = false) as ->; [|by eexists].
    unfold Ctx.Done in *. rewrite (WithCancel_cause _ _ _ _ c Hw).
    by case_decide.
Qed.
End LeaseProps.

Module LeaseWitness.
Import Runner Leases LeaseProps.

(** A process asks for a lease, follows, and is then elected. *)
Definition r1 : Runner.t :=
  let '(o, m) := AcquireLease p_ctx (strat init) in goto (First o) (with_strat m init).
Definition r2 : Runner.t := follow p_ctx 0 r1.
Definition r3 : Runner.t := with_strat (store_leader true (strat r2)) r2.
Definition r4 : Runner.t :=
  match updateSubs (strat r3) with Return m => with_strat m r3 | _ => r3 end.
Definition r5 : Runner.t := let '(c, r) := receive 0 r4 in after_wait p_ctx 2 c r.
Definition r6 : Runner.t := with_strat (store_leader false (strat r5)) r5.

Lemma r6_reachable : reachable r6.
Proof.
  apply (rtc_l _ _ r1); [by apply (acquire p_ctx init 0)|].
  apply (rtc_l _ _ r2); [by apply (first_default p_ctx r1 0)|].
  apply (rtc_l _ _ r3); [by apply (verdict p_ctx r2 true)|].
  apply (rtc_l _ _ r4); [by apply (update p_ctx r3)|].
  apply (rtc_l _ _ r5); [by apply (wait_lease p_ctx r4 0 2 (Some 3%nat) (receive 0 r4).2)|].
  apply rtc_once, (verdict p_ctx r5 false).
Qed.

Lemma lease_follows_leadership_witness :
  leaders r6 = [3%nat] ∧ followers r6 = [2%nat] ∧ at_ r6 = Leading 3 ∧ done r6 2 = true ∧
  ∃ m, updateSubs (strat r6) = Return m ∧ Ctx.Done (contexts m) 3 = true.
Proof.
  split_and!; [reflexivity..|].
  destruct (lease_follows_leadership r6 r6_reachable) as (_ & _ & _ & _ & m & Hu & Hd & _).
  exists m. split; [exact Hu|]. apply Hd; [reflexivity|]. left.
Defined.

(** The node's context is 1. *)
Lemma alwaysleader_stuck_witness :
  ∃ w, AlwaysLeader.Join 1
         {| AlwaysLeader.a_ctx := None;
            AlwaysLeader.contexts := (Ctx.WithCancel 0 [Ctx.background]).2 |} = (Blocks, w).
Proof. apply (proj2 (alwaysleader_stuck _ 1)). reflexivity. Defined.
End LeaseWitness.
