(* ===== verification/Election.v ===== *)
(** * Leader election over redis: [lib/election/redsync.go]

    The processes of a deployment elect one of them.  A process is an
    interaction tree over the commands it gives to redis, to its redsync mutex
    and to its clock, since its loop for the leader's key has no bound; redis
    is an interface with the documented behaviour of the commands. *)
From S2P Require Import Prelude Errors Lease.
From ITree Require Import Core.ITreeDefinition.
#[local] Open Scope Z_scope.

#[export] Instance itree_ret {E : Type → Type} : MRet (itree E) := λ A a, Ret a.
#[export] Instance itree_bind {E : Type → Type} : MBind (itree E) := λ A B f m, ITree.bind m f.

(** ** The election of a process: [redsync.go] *)

(** google/uuid. *)
Class Uuid (U : Type) := {
  #[global] uuid_eq_dec :: EqDecision U;
  uuid_Nil : U;
  uuid_String : U → string;
  uuid_Parse : string → res goerr U;
}.
Class UuidSpec (U : Type) `{I : Uuid U} : Prop := {
  uuid_roundtrip u : uuid_Parse (uuid_String u) = Ok u;
}.

(** go-redis' [redis.Nil]. *)
Definition redis_Nil : goerr := EText "redis: nil".

(** The calls that leave the process, with their results.  A [ttl] of zero
    is none; the owner of a mutex is the process whose [leaderLock] it is. *)
Inductive remoteE (U : Type) : Type → Type :=
  | Exists_ (key : string) : remoteE U (res goerr Z)
  | Get_ (key : string) : remoteE U (res goerr string)
  | Set_ (key value : string) (ttl : Z) : remoteE U (option goerr)
  | Del_ (key : string) : remoteE U (option goerr)
  | SAdd_ (key member : string) : remoteE U (option goerr)
  | TryLock (mutex : string) (owner : U) : remoteE U (option goerr)
  | Extend (mutex : string) (owner : U) : remoteE U (option goerr)
  | Unlock (mutex : string) (owner : U) : remoteE U (option goerr)
  | Sleep (d : Z) : remoteE U ()
  | Tick : remoteE U bool.
Arguments Exists_ {U} _.
Arguments Get_ {U} _.
Arguments Set_ {U} _ _ _.
Arguments Del_ {U} _.
Arguments SAdd_ {U} _ _.
Arguments TryLock {U} _ _.
Arguments Extend {U} _ _.
Arguments Unlock {U} _ _.
Arguments Sleep {U} _.
Arguments Tick {U}.

(** The leases are changed by [isLeader.Store] and [updateSubs]; the latter
    may block, or panic. *)
Inductive electionE (U : Type) : Type → Type :=
  | Remote {X} (e : remoteE U X) : electionE U X
  | Local (f : Leases.t → outcome Leases.t) : electionE U ().
Arguments Remote {U X} _.
Arguments Local {U} _.

Definition Second : Z := 1000000000.

Module Redilock.
Section redilock.
Context {U : Type} `{I : Uuid U} (IsShutdownOrCancel : goerr → bool).

Record conf := { namespace : string; id : U }.

Definition call {X} (e : remoteE U X) : itree (electionE U) X := ITree.trigger (Remote e).
Definition local (f : Leases.t → outcome Leases.t) : itree (electionE U) () :=
  ITree.trigger (Local f).

(** The name of [leaderLock], which [NewRedilockStrategy] makes. *)
Definition mutexName (m : conf) : string := namespace m +:+ ":leader:redsync".

Definition leaderKey (m : conf) : string := "venn:" +:+ namespace m +:+ ":election:leader".
Definition healthKey (m : conf) (u : U) : string :=
  "venn:" +:+ namespace m +:+ ":election:health:" +:+ uuid_String u.
Definition outlawsKey (m : conf) : string := "venn:" +:+ namespace m +:+ ":election:outlaws".

Definition broadcast_health (m : conf) : itree (electionE U) (option goerr) :=
  call (Set_ (healthKey m (id m)) "OK" (5 * Second)).

Definition attempt_promotion (m : conf) : itree (electionE U) (res goerr bool) :=
  err ← call (TryLock (mutexName m) (id m));
  match err with
  | Some _ => mret (Ok false)
  | None =>
      err ← call (Set_ (leaderKey m) (uuid_String (id m)) 0);
      match err with
      | Some _ => _ ← call (Unlock (mutexName m) (id m)); mret (Ok false)
      | None => mret (Ok true)
      end
  end.

(** A turn of the loop: [inl] goes round again. *)
Definition discover_turn (m : conf) : itree (electionE U) (() + res goerr U) :=
  ea ← call (Exists_ (leaderKey m));
  match ea with
  | Err e => mret (inr (Err e))
  | Ok ea =>
      if ea =? 0 then
        promoted ← attempt_promotion m;
        match promoted with
        | Err _ => _ ← call (Sleep (2 * Second)); mret (inl ())
        | Ok true => mret (inr (Ok (id m)))
        | Ok false => mret (inl ())
        end
      else if ea =? 1 then
        leaderString ← call (Get_ (leaderKey m));
        match leaderString with
        | Err e => mret (inr (Err e))
        | Ok leaderString =>
            match uuid_Parse leaderString with
            | Err _ => _ ← call (Del_ (leaderKey m)); mret (inl ())
            | Ok result => mret (inr (Ok result))
            end
        end
      else mret (inl ())
  end.

Definition discoverLeader (m : conf) : itree (electionE U) (res goerr U) :=
  ITree.iter (λ _, discover_turn m) ().

Definition overthrow (m : conf) : itree (electionE U) (option goerr) :=
  err ← call (SAdd_ (outlawsKey m) (uuid_String (id m)));
  match err with
  | Some e => mret (Some e)
  | None => call (Del_ (leaderKey m))
  end.

Definition mutiny (m : conf) (knownLeader : U) : itree (electionE U) (res goerr bool) :=
  healthCheck ← call (Exists_ (healthKey m knownLeader));
  match healthCheck with
  | Err e => mret (Err e)
  | Ok healthCheck =>
      if healthCheck =? 1 then mret (Ok false)
      else
        err ← overthrow m;
        match err with
        | Some e => mret (Err e)
        | None => mret (Ok true)
        end
  end.

(** What follows once the leader is known. *)
Definition after_discovery (m : conf) (knownLeader : U) : itree (electionE U) (option goerr) :=
  if bool_decide (knownLeader = uuid_Nil) then
    _ ← call (Sleep (1 * Second)); mret None
  else
    let isLeader := bool_decide (knownLeader = id m) in
    _ ← local (λ l, Return (Leases.store_leader isLeader l));
    _ ← local Leases.updateSubs;
    if isLeader then
      _ ← call (Extend (mutexName m) (id m));
      _ ← broadcast_health m;
      mret None
    else
      success ← mutiny m knownLeader;
      match success with
      | Err e => mret (Some e)
      | Ok _ => mret None
      end.

Definition loop (m : conf) : itree (electionE U) (option goerr) :=
  err ← broadcast_health m;
  match err with
  | Some e => mret (Some e)
  | None =>
      knownLeader ← discoverLeader m;
      match knownLeader with
      | Err e => mret (Some e)
      | Ok knownLeader => after_discovery m knownLeader
      end
  end.

(** A turn of the goroutine of [Join]; [Tick] says that the context ended. *)
Definition join_turn (m : conf) : itree (electionE U) (() + ()) :=
  err ← loop m;
  if match err with Some e => IsShutdownOrCancel e | None => false end
  then mret (inr ())
  else
    ended ← call Tick;
    mret (if ended : bool then inr () else inl ()).

Definition join_goroutine (m : conf) : itree (electionE U) () :=
  _ ← ITree.iter (λ _, join_turn m) ();
  _ ← call (Unlock (mutexName m) (id m));
  mret ().

(** [Join] returns an error, or leaves the goroutine running. *)
Definition Join (m : conf) : itree (electionE U) (res goerr (itree (electionE U) ())) :=
  knownLeader ← discoverLeader m;
  match knownLeader with
  | Err e => mret (Err e)
  | Ok _ => mret (Ok (join_goroutine m))
  end.
End redilock.
Arguments conf : clear implicits.
End Redilock.


(** ** Redis and redsync *)

(** A redis that answers: the strings it holds, who holds a mutex, and the
    passing of time. *)
Class Shared (U S : Type) := {
  sh_get : string → S → option string;
  sh_set : string → string → Z → S → S;
  sh_del : string → S → S;
  sh_sadd : string → string → S → S;
  sh_holder : string → S → option U;
  sh_lock : string → U → S → S;
  sh_extend : string → U → S → S;
  sh_unlock : string → U → S → S;
  sh_wait : Z → S → S;
}.

(** A key [k] against the commands on another key, or mutex, [x]; waiting can
    only make something expire. *)
Class SharedSpec (U S : Type) `{H : Shared U S} : Prop := {
  sh_get_set x v ttl s k : sh_get k (sh_set x v ttl s) = if decide (x = k) then Some v else sh_get k s;
  sh_get_del x s k : sh_get k (sh_del x s) = if decide (x = k) then None else sh_get k s;
  sh_get_sadd x v s k : x ≠ k → sh_get k (sh_sadd x v s) = sh_get k s;
  sh_get_lock x u s k : x ≠ k → sh_get k (sh_lock x u s) = sh_get k s;
  sh_get_extend x u s k : x ≠ k → sh_get k (sh_extend x u s) = sh_get k s;
  sh_get_wait d s k : sh_get k (sh_wait d s) = sh_get k s ∨ sh_get k (sh_wait d s) = None;
  sh_holder_set x v ttl s k : x ≠ k → sh_holder k (sh_set x v ttl s) = sh_holder k s;
  sh_holder_del x s k : x ≠ k → sh_holder k (sh_del x s) = sh_holder k s;
  sh_holder_sadd x v s k : x ≠ k → sh_holder k (sh_sadd x v s) = sh_holder k s;
  sh_holder_lock x u s : sh_holder x (sh_lock x u s) = Some u;
  sh_holder_extend x u s : sh_holder x (sh_extend x u s) = sh_holder x s;
  sh_holder_wait d s k :
    sh_holder k (sh_wait d s) = sh_holder k s ∨ sh_holder k (sh_wait d s) = None;
}.

Definition redsync_error : goerr := EText "redsync: lock not acquired".

(** Its answers; a mutex is taken when it is free, and extended and released by
    its holder only. *)
Definition shared_answer {U S} `{!EqDecision U} `{Shared U S} :
    ∀ X, remoteE U X → S → X * S := λ X e,
  match e with
  | Exists_ k => λ s, (Ok match sh_get (U := U) k s with Some _ => 1 | None => 0 end, s)
  | Get_ k => λ s, (match sh_get (U := U) k s with Some v => Ok v | None => Err redis_Nil end, s)
  | Set_ k v ttl => λ s, (None, sh_set (U := U) k v ttl s)
  | Del_ k => λ s, (None, sh_del (U := U) k s)
  | SAdd_ k v => λ s, (None, sh_sadd (U := U) k v s)
  | TryLock k u => λ s,
      match sh_holder (U := U) k s with
      | None => (None, sh_lock k u s)
      | Some _ => (Some redsync_error, s)
      end
  | Extend k u => λ s, if bool_decide (sh_holder k s = Some u) then (None, sh_extend k u s)
                       else (Some redsync_error, s)
  | Unlock k u => λ s, if bool_decide (sh_holder k s = Some u) then (None, sh_unlock k u s)
                       else (Some redsync_error, s)
  | Sleep d => λ s, ((), sh_wait (U := U) d s)
  | Tick => λ s, (false, sh_wait (U := U) (1 * Second) s)
  end.

(** ** Running a process *)

(** A command with its answer. *)
Inductive entry (U : Type) : Type :=
  | Entry {X} (e : remoteE U X) (x : X).
Arguments Entry {U X} _ _.

Lemma observe_bind {E : Type → Type} {A B} (t : itree E A) (k : A → itree E B) :
  observe (ITree.bind t k) =
  match observe t with
  | RetF a => observe (k a)
  | TauF t' => TauF (ITree.bind t' k)
  | VisF e h => VisF e (λ x, ITree.bind (h x) k)
  end.
Proof. unfold observe at 1. cbn. by destruct (observe t). Qed.

Module Exec.
Section exec.
Context {U S : Type} (answer : ∀ X, remoteE U X → S → X * S).

(** A run over the answers of the outside, [S] being whatever they depend on:
    its result, its commands, and the states it ends in.  There is none if the
    fuel is not enough, or if a change of the leases does not return. *)
Fixpoint exec {R} (n : nat) (t : itree (electionE U) R) (s : S) (l : Leases.t) :
    option (R * list (entry U) * S * Leases.t) :=
  match n with
  | O => None
  | Datatypes.S n =>
      match observe t with
      | RetF r => Some (r, [], s, l)
      | TauF t => exec n t s l
      | VisF e k =>
          match e in electionE _ X return (X → itree (electionE U) R) → _ with
          | Remote e => λ k,
              let '(x, s) := answer _ e s in
              '(r, log, s, l) ← exec n (k x) s l;
              Some (r, Entry e x :: log, s, l)
          | Local f => λ k, match f l with Return l => exec n (k ()) s l | _ => None end
          end k
      end
  end.

Definition returns {R} (t : itree (electionE U) R) (s : S) (l : Leases.t)
    (r : R) (log : list (entry U)) (s' : S) (l' : Leases.t) : Prop :=
  ∃ n, exec n t s l = Some (r, log, s', l').

Lemma exec_mono {R} n m (t : itree (electionE U) R) s l o :
  (n ≤ m)%nat → exec n t s l = Some o → exec m t s l = Some o.
Proof.
  revert m t s l o. induction n as [|n IH]; [done|]. intros [|m] t s l o Hle; [lia|].
  assert (n ≤ m)%nat as Hle' by lia. cbn.
  destruct (observe t) as [r|t'|X e k]; [done|by apply IH|].
  destruct e as [X e|f].
  - destruct (answer X e s) as [x s1]. intros ((((r & lg) & s2) & l2) & Hn & [= <-])%bind_Some.
    by rewrite (IH _ _ _ _ _ Hle' Hn).
  - destruct (f l); [by apply IH|done|done].
Qed.

Lemma exec_bind {A B} n (t : itree (electionE U) A) (k : A → itree (electionE U) B)
    s l a lg s1 l1 m b lg' s2 l2 :
  exec n t s l = Some (a, lg, s1, l1) → exec m (k a) s1 l1 = Some (b, lg', s2, l2) →
  exec (n + m) (ITree.bind t k) s l = Some (b, lg ++ lg', s2, l2).
Proof.
  revert t s l lg. induction n as [|n IH]; [done|]. intros t s l lg. cbn [exec Nat.add].
  rewrite observe_bind. destruct (observe t) as [r|t'|X e h].
  - intros [= -> <- -> ->] Hk. cbn [app].
    apply (exec_mono m (Datatypes.S (n + m))) in Hk; [exact Hk|lia].
  - apply IH.
  - destruct e as [X e|f].
    + destruct (answer X e s) as [x s0].
      intros ((((r & lg0) & s3) & l3) & Hn & [= -> <- -> ->])%bind_Some Hk.
      by rewrite (IH _ _ _ _ Hn Hk).
    + destruct (f l) as [l0| |]; [|done|done]. apply IH.
Qed.

Lemma exec_bind_inv {A B} n (t : itree (electionE U) A) (k : A → itree (electionE U) B)
    s l b lg s2 l2 :
  exec n (ITree.bind t k) s l = Some (b, lg, s2, l2) →
  ∃ a lg1 s1 l1 lg2 m, exec n t s l = Some (a, lg1, s1, l1) ∧
    exec m (k a) s1 l1 = Some (b, lg2, s2, l2) ∧ (m ≤ n)%nat ∧ lg = lg1 ++ lg2.
Proof.
  revert t s l lg. induction n as [|n IH]; [done|]. intros t s l lg. cbn [exec].
  rewrite observe_bind. destruct (observe t) as [r|t'|X e h].
  - intros Hk. exists r, [], s, l, lg, (Datatypes.S n). by split_and!.
  - intros (a & lg1 & s1 & l1 & lg2 & m & ? & ? & ? & ?)%IH.
    exists a, lg1, s1, l1, lg2, m. split_and!; [done|done|lia|done].
  - destruct e as [X e|f].
    + destruct (answer X e s) as [x s0].
      intros ((((r & lg0) & s3) & l3) & Hn & [= -> <- -> ->])%bind_Some.
      apply IH in Hn as (a & lg1 & s1 & l1 & lg2 & m & Hn & ? & ? & ->).
      exists a, (Entry e x :: lg1), s1, l1, lg2, m. rewrite Hn. split_and!; [done|done|lia|done].
    + destruct (f l) as [l0| |]; [|done|done].
      intros (a & lg1 & s1 & l1 & lg2 & m & ? & ? & ? & ?)%IH.
      exists a, lg1, s1, l1, lg2, m. split_and!; [done|done|lia|done].
Qed.

(** *** The rules of a run *)

Lemma returns_ret {A} (a b : A) s l lg s' l' :
  returns (mret a) s l b lg s' l' ↔ b = a ∧ lg = [] ∧ s' = s ∧ l' = l.
Proof.
  split.
  - intros [[|n] H]; [done|]. cbn in H. by simplify_eq.
  - intros (-> & -> & -> & ->). by exists 1%nat.
Qed.

Lemma returns_bind {A B} (t : itree (electionE U) A) (k : A → itree (electionE U) B)
    s l b lg s' l' :
  returns (t ≫= k) s l b lg s' l' ↔
  ∃ a lg1 s1 l1 lg2, returns t s l a lg1 s1 l1 ∧ returns (k a) s1 l1 b lg2 s' l' ∧
    lg = lg1 ++ lg2.
Proof.
  split.
  - intros [n (a & lg1 & s1 & l1 & lg2 & m & ? & ? & ? & ?)%exec_bind_inv].
    exists a, lg1, s1, l1, lg2. split_and!; [by exists n|by exists m|done].
  - intros (a & lg1 & s1 & l1 & lg2 & [n Hn] & [m Hm] & ->). exists (n + m)%nat.
    by eapply exec_bind.
Qed.

Lemma returns_call {X} (e : remoteE U X) s l x lg s' l' :
  returns (Redilock.call e) s l x lg s' l' ↔
  x = (answer X e s).1 ∧ lg = [Entry e x] ∧ s' = (answer X e s).2 ∧ l' = l.
Proof.
  split.
  - intros [[|[|n]] H]; [done| |]; cbn in H; destruct (answer X e s) as [y s1]; by simplify_eq/=.
  - intros (-> & -> & -> & ->). exists 2%nat. cbn. by destruct (answer X e s).
Qed.

Lemma returns_local f s l x lg s' l' :
  returns (Redilock.local f) s l x lg s' l' ↔ lg = [] ∧ s' = s ∧ f l = Return l'.
Proof.
  split.
  - intros [[|[|n]] H]; [done| |]; cbn in H; destruct (f l); by simplify_eq.
  - intros (-> & -> & H). exists 2%nat. cbn. rewrite H. by destruct x.
Qed.

(** A loop goes one turn at a time. *)
Definition unrolled {A} (b : () → itree (electionE U) (() + A)) : itree (electionE U) A :=
  ITree.bind (b ()) (λ o, match o with inl i => Tau (ITree.iter b i) | inr r => Ret r end).

Lemma exec_iter {A} n (b : () → itree (electionE U) (() + A)) s l :
  exec n (ITree.iter b ()) s l = exec n (unrolled b) s l.
Proof.
  destruct n as [|n]; [done|]. cbn [exec].
  by change (observe (ITree.iter b ())) with (observe (unrolled b)).
Qed.

Lemma exec_iter_inv {A} n (b : () → itree (electionE U) (() + A)) s l r lg s' l' :
  exec n (ITree.iter b ()) s l = Some (r, lg, s', l') →
  ∃ o lg1 s1 l1, returns (b ()) s l o lg1 s1 l1 ∧
    match o with
    | inr r' => r = r' ∧ lg = lg1 ∧ s' = s1 ∧ l' = l1
    | inl () => ∃ m lg2, (m < n)%nat ∧
        exec m (ITree.iter b ()) s1 l1 = Some (r, lg2, s', l') ∧ lg = lg1 ++ lg2
    end.
Proof.
  rewrite exec_iter. intros H.
  apply exec_bind_inv in H as (o & lg1 & s1 & l1 & lg2 & m & Ht & Hk & Hm & ->).
  exists o, lg1, s1, l1. split; [by exists n|]. destruct o as [[]|r'].
  - destruct m as [|m]; [done|]. exists m, lg2. split_and!; [lia|exact Hk|done].
  - destruct m as [|m]; [done|]. cbn in Hk. simplify_eq. split_and!; [done| |done|done].
    by rewrite app_nil_r.
Qed.

Lemma returns_iter_done {A} (b : () → itree (electionE U) (() + A)) s l r lg s' l' :
  returns (b ()) s l (inr r) lg s' l' → returns (ITree.iter b ()) s l r lg s' l'.
Proof.
  intros [n Hn]. exists (n + 1)%nat. rewrite <- (app_nil_r lg).
  rewrite exec_iter. by eapply exec_bind.
Qed.
(** The next command of a program. *)
Lemma run_call {X B} (e : remoteE U X) (k : X → itree (electionE U) B) s l x s1 b lg s' l' :
  answer X e s = (x, s1) → returns (k x) s1 l b lg s' l' →
  returns (Redilock.call e ≫= k) s l b (Entry e x :: lg) s' l'.
Proof.
  intros He Hk. apply returns_bind. exists x, [Entry e x], s1, l, lg. split_and!; [|done|done].
  apply returns_call. by rewrite He.
Qed.

Lemma run_call_last {X} (e : remoteE U X) s l x s1 :
  answer X e s = (x, s1) → returns (Redilock.call e) s l x [Entry e x] s1 l.
Proof. intros He. apply returns_call. by rewrite He. Qed.

Lemma run_local {B} f (k : () → itree (electionE U) B) s l l1 b lg s' l' :
  f l = Return l1 → returns (k ()) s l1 b lg s' l' →
  returns (Redilock.local f ≫= k) s l b lg s' l'.
Proof.
  intros He Hk. apply returns_bind. exists (), [], s, l1, lg. split_and!; [|done|done].
  by apply returns_local.
Qed.

Lemma run_bind {A B} (t : itree (electionE U) A) (k : A → itree (electionE U) B)
    s l a lg1 s1 l1 b lg2 s' l' :
  returns t s l a lg1 s1 l1 → returns (k a) s1 l1 b lg2 s' l' →
  returns (t ≫= k) s l b (lg1 ++ lg2) s' l'.
Proof. intros. apply returns_bind. by exists a, lg1, s1, l1, lg2. Qed.

Lemma run_ret {A} (a : A) s l : returns (mret a) s l a [] s l.
Proof. by apply returns_ret. Qed.
End exec.
End Exec.

(** ** What a process learns in a turn *)

Module RedilockFacts.
Import Redilock Exec.

Section facts.
Context {U : Type} `{I : Uuid U} (m : conf U).

(** The last commands of a log say that [u] leads: its id was read from the
    leader's key, or the process has the lock and has set the key. *)
Definition seen (u : U) (log : list (entry U)) : Prop :=
  (∃ pre v, log = pre ++ [Entry (Exists_ (leaderKey m)) (Ok 1);
                          Entry (Get_ (leaderKey m)) (Ok v)] ∧ uuid_Parse v = Ok u) ∨
  (u = id m ∧ ∃ pre, log = pre ++ [Entry (Exists_ (leaderKey m)) (Ok 0);
     Entry (TryLock (mutexName m) (id m)) None;
     Entry (Set_ (leaderKey m) (uuid_String (id m)) 0) None]).

(** What it does about a leader: it keeps its own leadership alive, and removes
    another's only if that one's health is gone. *)
Definition acted (u : U) (log : list (entry U)) : Prop :=
  if bool_decide (u = id m) then
    ∃ x y, log = [Entry (Extend (mutexName m) (id m)) x;
                  Entry (Set_ (healthKey m (id m)) "OK" (5 * Second)) y]
  else ∃ h rest, log = Entry (Exists_ (healthKey m u)) h :: rest ∧
         (rest = [] ∨ ∃ n, h = Ok n ∧ n ≠ 1 ∧ ∃ x tail,
            rest = Entry (SAdd_ (outlawsKey m) (uuid_String (id m))) x :: tail ∧
            (tail = [] ∨ ∃ y, tail = [Entry (Del_ (leaderKey m)) y])).

Lemma seen_app u lg lg' : seen u lg' → seen u (lg ++ lg').
Proof.
  intros [(pre & v & -> & Hv)|(-> & pre & ->)]; [left|right; split; [done|]].
  - exists (lg ++ pre), v. by rewrite app_assoc.
  - exists (lg ++ pre). by rewrite app_assoc.
Qed.

Context {S : Type} (answer : ∀ X, remoteE U X → S → X * S).

(** Take a run apart, command by command. *)
Ltac run_inv :=
  repeat match goal with
  | H : returns _ (mret _) _ _ _ _ _ _ |- _ => apply returns_ret in H; destruct_and? H; simplify_eq
  | H : returns _ (call _) _ _ _ _ _ _ |- _ => apply returns_call in H; destruct_and? H
  | H : returns _ (local _) _ _ _ _ _ _ |- _ => apply returns_local in H; destruct_and? H; simplify_eq
  | H : returns _ (_ ≫= _) _ _ _ _ _ _ |- _ =>
      apply returns_bind in H as (? & ? & ? & ? & ? & ? & H & ->); cbv beta in H
  | H : returns _ (match ?x with _ => _ end) _ _ _ _ _ _ |- _ => destruct x eqn:?; subst
  end; simplify_eq.

Lemma discover_turn_verdict s l o lg s' l' :
  returns answer (discover_turn m) s l o lg s' l' →
  l' = l ∧ ∀ u, o = inr (Ok u) → seen u lg.
Proof.
  unfold discover_turn, attempt_promotion. intros H. run_inv.
  all: split; [done|intros u Hu; simplify_eq].
  - match goal with H : (_ =? 0) = true |- _ => apply Z.eqb_eq in H; subst end.
    right. split; [done|]. by exists [].
  - match goal with H : (_ =? 1) = true |- _ => apply Z.eqb_eq in H; subst end.
    left. exists []. eexists. split; [done|done].
Qed.

Lemma discover_verdict s l r lg s' l' :
  returns answer (discoverLeader m) s l r lg s' l' →
  l' = l ∧ ∀ u, r = Ok u → seen u lg.
Proof.
  intros [n H]. revert s l lg H. induction (lt_wf n) as [n _ IH]. intros s l lg H.
  apply exec_iter_inv in H as (o & lg1 & s1 & l1 & Ht & Ho).
  apply discover_turn_verdict in Ht as [-> Hseen]. destruct o as [[]|r'].
  - destruct Ho as (k & lg2 & Hk & Hrun & ->). destruct (IH k Hk _ _ _ Hrun) as [-> Hs].
    split; [done|]. intros u Hu. by apply seen_app, Hs.
  - destruct Ho as (-> & -> & _ & ->). split; [done|]. intros u ->. by apply Hseen.
Qed.

Lemma mutiny_acted u s l r lg s' l' :
  u ≠ id m → returns answer (mutiny m u) s l r lg s' l' → l' = l ∧ acted u lg.
Proof.
  intros Hu. unfold mutiny, overthrow, acted. rewrite bool_decide_eq_false_2 by done.
  intros H. run_inv.
  all: split; [done|].
  all: do 2 eexists; split; [reflexivity|].
  all: try (by left).
  all: right; eexists; split; [done|]; split; [by apply Z.eqb_neq|].
  all: do 2 eexists; split; [reflexivity|]; eauto.
Qed.

Lemma after_discovery_verdict u s l r lg s' l' :
  u ≠ uuid_Nil → returns answer (after_discovery m u) s l r lg s' l' →
  Leases.updateSubs (Leases.store_leader (bool_decide (u = id m)) l) = Return l' ∧ acted u lg.
Proof.
  intros Hu. unfold after_discovery, broadcast_health. rewrite bool_decide_eq_false_2 by done.
  intros H. destruct (bool_decide (u = id m)) eqn:Hid.
  - run_inv. split; [done|]. unfold acted. rewrite Hid. by do 2 eexists.
  - apply bool_decide_eq_false in Hid.
    apply returns_bind in H as (? & ? & ? & ? & ? & H1 & H & ->).
    apply returns_bind in H as (? & ? & ? & ? & ? & H2 & H & ->).
    apply returns_bind in H as (? & ? & ? & ? & ? & H3 & H & ->).
    apply mutiny_acted in H3 as [-> Ha]; [|done]. run_inv.
    all: cbn [app]; by rewrite app_nil_r.
Qed.
End facts.
End RedilockFacts.

(** ** A process over a redis that answers *)

Module KeyFacts.
Import Redilock.
Section keys.
Context {U : Type} `{I : Uuid U} (m : conf U).

Lemma app_cancel (a b c : string) : a +:+ b = a +:+ c → b = c.
Proof. induction a as [|x a IH]; [done|]. intros [= H]. by apply IH. Qed.

Lemma leader_health u : leaderKey m ≠ healthKey m u.
Proof. unfold leaderKey, healthKey. by intros ?%app_cancel%app_cancel. Qed.

Lemma leader_outlaws : leaderKey m ≠ outlawsKey m.
Proof. unfold leaderKey, outlawsKey. by intros ?%app_cancel%app_cancel. Qed.

Lemma health_inj `{!UuidSpec U} u v : healthKey m u = healthKey m v → u = v.
Proof.
  unfold healthKey. intros H%app_cancel%app_cancel%app_cancel.
  apply (f_equal uuid_Parse) in H. rewrite !uuid_roundtrip in H. by simplify_eq.
Qed.

Ltac lengths := intros H; apply (f_equal String.length) in H;
  unfold mutexName, leaderKey, healthKey, outlawsKey in H;
  rewrite ?str_app_length in H; cbn in H; lia.
Lemma mutex_leader : mutexName m ≠ leaderKey m. Proof. lengths. Qed.
Lemma mutex_health u : mutexName m ≠ healthKey m u. Proof. lengths. Qed.
Lemma mutex_outlaws : mutexName m ≠ outlawsKey m. Proof. lengths. Qed.
End keys.
End KeyFacts.

Module SharedFacts.
Import Redilock Exec KeyFacts.
Section shared.
Context {U S : Type} `{I : Uuid U, !UuidSpec U, R : Shared U S, !SharedSpec U S}.
Context (m : conf U).
#[local] Abbreviation returns := (Exec.returns (U := U) (S := S) shared_answer).
#[local] Abbreviation get := (sh_get (U := U)).
#[local] Abbreviation holder := (sh_holder (U := U)).

Lemma run_discover_known s l v u :
  get (leaderKey m) s = Some v → uuid_Parse v = Ok u →
  ∃ lg, returns (discoverLeader m) s l (Ok u) lg s l.
Proof.
  intros Hg Hp. eexists. apply returns_iter_done. unfold discover_turn.
  eapply run_call; [cbn; rewrite Hg; reflexivity|]. cbn.
  eapply run_call; [cbn; rewrite Hg; reflexivity|]. cbn. rewrite Hp. apply run_ret.
Qed.

Lemma run_discover_free s l :
  get (leaderKey m) s = None → holder (mutexName m) s = None →
  ∃ lg, returns (discoverLeader m) s l (Ok (id m)) lg
    (sh_set (U := U) (leaderKey m) (uuid_String (id m)) 0 (sh_lock (mutexName m) (id m) s)) l.
Proof.
  intros Hg Hh. eexists. apply returns_iter_done. unfold discover_turn.
  eapply run_call; [cbn; rewrite Hg; reflexivity|]. cbn. eapply run_bind.
  - unfold attempt_promotion. eapply run_call; [cbn; rewrite Hh; reflexivity|]. cbn.
    eapply run_call; [reflexivity|]. apply run_ret.
  - apply run_ret.
Qed.

(** A turn under a leader whose health is gone. *)
Lemma run_loop_mutiny s l l' v L :
  get (leaderKey m) s = Some v → uuid_Parse v = Ok L → L ≠ id m → L ≠ uuid_Nil →
  get (healthKey m L) s = None →
  Leases.updateSubs (Leases.store_leader false l) = Return l' →
  ∃ lg s', returns (loop m) s l None lg s' l' ∧ get (leaderKey m) s' = None ∧
    holder (mutexName m) s' = holder (mutexName m) s.
Proof.
  intros Hg Hp HL Hn Hh Hu. pose proof leader_health as Hlh. pose proof mutex_health as Hmh.
  set (s1 := sh_set (U := U) (healthKey m (id m)) "OK" (5 * Second) s).
  assert (get (leaderKey m) s1 = Some v) as Hg1.
  { unfold s1. rewrite sh_get_set. rewrite decide_False; [done|]. by intros ?%eq_sym%leader_health. }
  assert (get (healthKey m L) s1 = None) as Hh1.
  { unfold s1. rewrite sh_get_set, decide_False; [done|]. by intros ?%health_inj. }
  destruct (run_discover_known s1 l v L Hg1 Hp) as [lg Hd].
  do 2 eexists. split_and!.
  - unfold loop, broadcast_health. eapply run_call; [reflexivity|]. cbn.
    eapply run_bind; [exact Hd|]. cbn. unfold after_discovery.
    rewrite (bool_decide_eq_false_2 (L = uuid_Nil)), (bool_decide_eq_false_2 (L = id m)) by done.
    eapply run_local; [reflexivity|]. eapply run_local; [exact Hu|].
    eapply run_bind.
    { unfold mutiny. eapply run_call; [cbn; rewrite Hh1; reflexivity|]. cbn. eapply run_bind.
      - unfold overthrow. eapply run_call; [reflexivity|]. cbn. by apply run_call_last.
      - apply run_ret. }
    apply run_ret.
  - rewrite sh_get_del. by rewrite decide_True.
  - rewrite sh_holder_del, sh_holder_sadd; [|apply not_eq_sym, mutex_outlaws|apply not_eq_sym, mutex_leader].
    unfold s1. rewrite sh_holder_set; [done|]. apply not_eq_sym, mutex_health.
Qed.

(** A turn with the key and the lock free. *)
Lemma run_loop_promotion s l l' :
  id m ≠ uuid_Nil → get (leaderKey m) s = None → holder (mutexName m) s = None →
  Leases.updateSubs (Leases.store_leader true l) = Return l' →
  ∃ lg s', returns (loop m) s l None lg s' l' ∧
    get (leaderKey m) s' = Some (uuid_String (id m)) ∧ holder (mutexName m) s' = Some (id m).
Proof.
  intros Hn Hg Hh Hu.
  set (s1 := sh_set (U := U) (healthKey m (id m)) "OK" (5 * Second) s).
  assert (get (leaderKey m) s1 = None) as Hg1.
  { unfold s1. rewrite sh_get_set, decide_False; [done|]. by intros ?%eq_sym%leader_health. }
  assert (holder (mutexName m) s1 = None) as Hh1.
  { unfold s1. rewrite sh_holder_set; [done|]. apply not_eq_sym, mutex_health. }
  destruct (run_discover_free s1 l Hg1 Hh1) as [lg Hd].
  set (s2 := sh_set (leaderKey m) _ 0 _) in Hd.
  assert (holder (mutexName m) s2 = Some (id m)) as Hh2.
  { unfold s2. rewrite sh_holder_set; [apply sh_holder_lock|]. apply not_eq_sym, mutex_leader. }
  do 2 eexists. split_and!.
  - unfold loop, broadcast_health. eapply run_call; [reflexivity|]. cbn.
    eapply run_bind; [exact Hd|]. cbn. unfold after_discovery.
    rewrite (bool_decide_eq_false_2 (id m = uuid_Nil)), (bool_decide_eq_true_2 (id m = id m)) by done.
    eapply run_local; [reflexivity|]. eapply run_local; [exact Hu|]. cbv zeta.
    eapply run_call; [cbn; rewrite Hh2, bool_decide_eq_true_2 by done; reflexivity|].
    eapply run_call; [reflexivity|]. apply run_ret.
  - rewrite sh_get_set, decide_False by (by intros ?%eq_sym%leader_health).
    rewrite sh_get_extend by apply mutex_leader. unfold s2.
    rewrite sh_get_set. by rewrite decide_True.
  - rewrite sh_holder_set by apply not_eq_sym, mutex_health. by rewrite sh_holder_extend.
Qed.

(** The two turns of a process that takes over, with what happens between. *)
Lemma run_takeover fs s l v L :
  RunnerFacts.leases_ok fs l →
  get (leaderKey m) s = Some v → uuid_Parse v = Ok L →
  L ≠ id m → L ≠ uuid_Nil → id m ≠ uuid_Nil →
  get (healthKey m L) s = None → holder (mutexName m) s = None →
  ∃ lg1 s1 l1, returns (loop m) s l None lg1 s1 l1 ∧ Leases.isLeader l1 = false ∧
    get (leaderKey m) s1 = None ∧ holder (mutexName m) s1 = None ∧
    ∀ s1', get (leaderKey m) s1' = None → holder (mutexName m) s1' = None →
    ∃ lg2 s2 l2, returns (loop m) s1' l1 None lg2 s2 l2 ∧ Leases.isLeader l2 = true ∧
      get (leaderKey m) s2 = Some (uuid_String (id m)) ∧ holder (mutexName m) s2 = Some (id m) ∧
      ∀ o, RunnerFacts.pending fs l o → ∃ c, Leases.chans l2 !! o = Some (LeaseFacts.full c).
Proof.
  intros Hlo Hg Hp HL Hn Hid Hh Hl.
  assert (∀ b l0, RunnerFacts.leases_ok fs l0 →
    RunnerFacts.leases_ok fs (Leases.store_leader b l0)) as Hst by by intros b l0 [].
  destruct (RunnerFacts.updateSubs_run fs _ (Hst false l Hlo)) as (l1 & Hu1 & Hup1).
  destruct (run_loop_mutiny s l l1 v L Hg Hp HL Hn Hh Hu1) as (lg1 & s1 & Hr1 & Hg1 & Hl1).
  exists lg1, s1, l1. split_and!; [done|apply Hup1|done|by rewrite Hl1|]. intros s1' Hg' Hh'.
  destruct (RunnerFacts.updateSubs_run fs _ (Hst true l1 (RunnerFacts.up_leases _ _ _ Hup1)))
    as (l2 & Hu2 & Hup2).
  destruct (run_loop_promotion s1' l1 l2 Hid) as (lg2 & s2 & Hr2 & Hg2 & Hl2); [done..|].
  exists lg2, s2, l2. split_and!; try done; [apply Hup2|].
  intros o Ho. by apply Hup2, (RunnerFacts.up_pending _ _ _ Hup1).
Qed.

(** Without a leader, while somebody has the lock, the search goes on. *)
Lemma discovery_runs_on n s l :
  get (leaderKey m) s = None → is_Some (holder (mutexName m) s) →
  exec shared_answer n (discoverLeader m) s l = None.
Proof.
  intros Hg [x Hx]. destruct (exec _ n _ s l) as [[[[r lg] s'] l']|] eqn:He; [exfalso|done].
  revert lg He. induction (lt_wf n) as [n _ IH]. intros lg He.
  apply exec_iter_inv in He as (o & lg1 & s1 & l1 & Ht & Ho).
  unfold discover_turn, attempt_promotion in Ht.
  apply returns_bind in Ht as (a & ? & ? & ? & ? & (-> & _ & -> & ->)%returns_call & Ht & _).
  cbn in Ht. rewrite Hg in Ht. cbn in Ht.
  apply returns_bind in Ht as (b & ? & ? & ? & ? & H1 & Ht & _).
  apply returns_bind in H1 as (c & ? & ? & ? & ? & (-> & _ & -> & ->)%returns_call & H1 & _).
  cbn in H1. rewrite Hx in H1. apply returns_ret in H1 as (-> & _ & -> & ->).
  apply returns_ret in Ht as (-> & _ & -> & ->).
  destruct Ho as (k & lg2 & Hk & Hrun & _). by eapply (IH k Hk).
Qed.
End shared.
End SharedFacts.

(** ** What holds *)

Module ElectionProps.
Import Redilock Exec RedilockFacts SharedFacts.

Section open.
Context {U : Type} `{I : Uuid U} (m : conf U).
Context {S : Type} (answer : ∀ X, remoteE U X → S → X * S).

(** Whatever redis and the other processes do, a turn that ends leaves the
    leadership and the leases alone, which it does if redis fails it before it
    knows the leader; or it has just learned who leads, from the leader's key or
    by setting the key with the lock in its hand, and then exactly the leader's
    own process counts itself the leader and has its leases updated.  It removes
    the key of another leader only when that one's health has lapsed. *)
Theorem loop_verdict s l r lg s' l' :
  returns answer (loop m) s l r lg s' l' →
  (l' = l ∧ (is_Some r ∨ ∃ pre post, lg = pre ++ post ∧ seen m uuid_Nil pre)) ∨
  (∃ u pre post, u ≠ uuid_Nil ∧ lg = pre ++ post ∧ seen m u pre ∧ acted m u post ∧
     Leases.updateSubs (Leases.store_leader (bool_decide (u = id m)) l) = Return l').
Proof.
  unfold loop, broadcast_health.
  intros (e & lg1 & s1 & l1 & lg2 & (-> & -> & -> & ->)%returns_call & H & ->)%returns_bind.
  destruct (answer _ _ s).1 as [e|]; [apply returns_ret in H as (-> & -> & -> & ->); by eauto|].
  apply returns_bind in H as (k & lg3 & s2 & l2 & lg4 & [-> Hs]%discover_verdict & H & ->).
  destruct k as [u|e]; [|apply returns_ret in H as (-> & -> & -> & ->); by eauto].
  specialize (Hs u eq_refl).
  assert (seen m u ([Entry (Set_ (healthKey m (id m)) "OK" (5 * Second)) None] ++ lg3)) as Hpre
    by by apply seen_app.
  destruct (decide (u = uuid_Nil)) as [->|Hu].
  - left. unfold after_discovery in H. rewrite bool_decide_eq_true_2 in H by done.
    apply returns_bind in H as (? & ? & ? & ? & ? & (-> & -> & -> & ->)%returns_call & H & ->).
    apply returns_ret in H as (-> & -> & -> & ->). split; [done|]. right.
    eexists _, _. split; [|exact Hpre]. by rewrite <- app_assoc.
  - right. apply after_discovery_verdict in H as [Hup Ha]; [|done].
    exists u, ([Entry (Set_ (healthKey m (id m)) "OK" (5 * Second)) None] ++ lg3), lg4.
    split_and!; [done|by rewrite <- app_assoc|done|done|done].
Qed.
End open.

Section shared.
Context {U S : Type} `{I : Uuid U, !UuidSpec U, R : Shared U S, !SharedSpec U S}.

(** C15: When the leader is gone, its health and its lock lapsed, two turns of
    another process are enough to make it the leader, however long it waits
    between them: the key then has its id, the lock is its own, and whoever in
    it waits for a lease is given one. *)
Theorem takeover (m : conf U) fs s l v L d :
  RunnerFacts.leases_ok fs l →
  sh_get (U := U) (leaderKey m) s = Some v → uuid_Parse v = Ok L →
  L ≠ id m → L ≠ uuid_Nil → id m ≠ uuid_Nil →
  sh_get (U := U) (healthKey m L) s = None → sh_holder (U := U) (mutexName m) s = None →
  ∃ lg1 s1 l1 lg2 s2 l2,
    returns shared_answer (loop m) s l None lg1 s1 l1 ∧ Leases.isLeader l1 = false ∧
    returns shared_answer (loop m) (sh_wait (U := U) d s1) l1 None lg2 s2 l2 ∧
    Leases.isLeader l2 = true ∧ sh_get (U := U) (leaderKey m) s2 = Some (uuid_String (id m)) ∧
    sh_holder (mutexName m) s2 = Some (id m) ∧
    ∀ o, RunnerFacts.pending fs l o → ∃ c, Leases.chans l2 !! o = Some (LeaseFacts.full c).
Proof.
  intros Hlo Hg Hp HL Hn Hid Hh Hl.
  destruct (run_takeover m fs s l v L) as (lg1 & s1 & l1 & Hr1 & Hb1 & Hg1 & Hl1 & Hnext); try done.
  destruct (Hnext (sh_wait (U := U) d s1)) as (lg2 & s2 & l2 & Hr2 & Hb2 & Hg2 & Hl2 & Hpend).
  { destruct (sh_get_wait d s1 (leaderKey m)); congruence. }
  { destruct (sh_holder_wait d s1 (mutexName m)); congruence. }
  exists lg1, s1, l1, lg2, s2, l2. by split_and!.
Qed.

(** C32: The leadership has no expiry of its own: a leader that redis no longer
    answers goes through its turns without a change to its leadership or to a
    lease, while another process, when the first one's health and lock have
    lapsed, becomes the leader as well. *)
Theorem split_brain (ma mb : conf U) (shut : goerr → bool) {T : Type}
    (cut : ∀ X, remoteE U X → T → X * T) fs la lb s v t :
  (∀ k w ttl t, ∃ e, (cut _ (Set_ k w ttl) t).1 = Some e ∧ shut e = false) →
  (∀ t, (cut _ Tick t).1 = false) →
  Leases.isLeader la = true → namespace ma = namespace mb → RunnerFacts.leases_ok fs lb →
  sh_get (U := U) (leaderKey ma) s = Some v → uuid_Parse v = Ok (id ma) →
  id ma ≠ id mb → id ma ≠ uuid_Nil → id mb ≠ uuid_Nil →
  sh_get (U := U) (healthKey ma (id ma)) s = None → sh_holder (U := U) (mutexName ma) s = None →
  (∃ lg t', returns cut (join_turn shut ma) t la (inl ()) lg t' la) ∧
  ∃ lg1 s1 l1 lg2 s2 l2, returns shared_answer (loop mb) s lb None lg1 s1 l1 ∧
    returns shared_answer (loop mb) s1 l1 None lg2 s2 l2 ∧
    Leases.isLeader la = true ∧ Leases.isLeader l2 = true.
Proof.
  intros Hcut Htick Hla Hns Hlo Hg Hp Hne Ha Hb Hh Hl. split.
  - destruct (Hcut (healthKey ma (id ma)) "OK" (5 * Second) t) as (e & He & Hsh).
    destruct (cut _ (Set_ (healthKey ma (id ma)) "OK" (5 * Second)) t) as [x t1] eqn:Ht. cbn in He. subst x.
    destruct (cut _ Tick t1) as [b t2] eqn:Ht2. pose proof (Htick t1) as Hb2. rewrite Ht2 in Hb2.
    cbn in Hb2. subst b. do 2 eexists. unfold join_turn. eapply run_bind.
    + unfold loop, broadcast_health. eapply run_call; [exact Ht|]. apply run_ret.
    + cbn. rewrite Hsh. eapply run_call; [exact Ht2|]. apply run_ret.
  - unfold leaderKey, healthKey, mutexName in Hg, Hh, Hl. rewrite Hns in Hg, Hh, Hl.
    destruct (run_takeover mb fs s lb v (id ma)) as (lg1 & s1 & l1 & Hr1 & _ & Hg1 & Hl1 & Hnext);
      try done.
    destruct (Hnext s1 Hg1 Hl1) as (lg2 & s2 & l2 & Hr2 & Hb2 & _).
    by exists lg1, s1, l1, lg2, s2, l2.
Qed.

(** A process that finds no leader while the lock is held, be it by itself, does
    not come out of the search until the lock lapses: turn after turn it asks
    for the key and the lock, without a pause, and its own health and lock are
    not kept alive. *)
Theorem discovery_spins (m : conf U) n s l :
  sh_get (U := U) (leaderKey m) s = None → is_Some (sh_holder (U := U) (mutexName m) s) →
  exec shared_answer n (discoverLeader m) s l = None.
Proof. apply discovery_runs_on. Qed.
End shared.
End ElectionProps.

(** ** Instances and witnesses *)

Module StdShared.
Record store := {
  now : Z;
  strings : gmap string (string * option Z);
  mutexes : gmap string (string * Z);
}.

Definition live {A} (s : store) (x : A * option Z) : option A :=
  match x.2 with
  | None => Some x.1
  | Some t => if now s <? t then Some x.1 else None
  end.
Definition holder (k : string) (s : store) : option string :=
  mutexes s !! k ≫= λ '(u, t), if now s <? t then Some u else None.
Definition hold (k : string) (u : string) (s : store) : store :=
  {| now := now s; strings := strings s; mutexes := <[k := (u, now s + 8 * Second)]> (mutexes s) |}.

#[export] Instance std_shared : Shared string store := {
  sh_get k s := strings s !! k ≫= live s;
  sh_set k v ttl s := {| now := now s; mutexes := mutexes s;
    strings := <[k := (v, if 0 <? ttl then Some (now s + ttl) else None)]> (strings s) |};
  sh_del k s := {| now := now s; mutexes := mutexes s; strings := delete k (strings s) |};
  sh_sadd _ _ s := s;
  sh_holder := holder;
  sh_lock := hold;
  sh_extend k u s := if bool_decide (holder k s = Some u) then hold k u s else s;
  sh_unlock k u s := {| now := now s; strings := strings s; mutexes := delete k (mutexes s) |};
  sh_wait d s := {| now := now s + Z.max 0 d; strings := strings s; mutexes := mutexes s |};
}.

Lemma holder_hold k u s : holder k (hold k u s) = Some u.
Proof.
  unfold holder, hold. cbn. rewrite lookup_insert_eq. cbn.
  rewrite (proj2 (Z.ltb_lt _ _)); [done|unfold Second; lia].
Qed.

#[export] Instance std_shared_spec : SharedSpec string store.
Proof.
  split; try done.
  - intros x v ttl s k. cbn. case_decide as Hk; [subst|by rewrite lookup_insert_ne].
    rewrite lookup_insert_eq. cbn. unfold live. cbn. destruct (0 <? ttl) eqn:Ht; [|done]. cbn.
    apply Z.ltb_lt in Ht. rewrite (proj2 (Z.ltb_lt _ _)); [done|lia].
  - intros x s k. cbn. case_decide as Hk; [subst; by rewrite lookup_delete_eq|by rewrite lookup_delete_ne].
  - intros x u s k Hk. cbn. by case_bool_decide.
  - intros d s k. cbn. destruct (strings s !! k) as [[v [t|]]|]; cbn; [|by left|by left].
    unfold live. cbn. destruct (now s + Z.max 0 d <? t) eqn:Ht; [left|by right].
    apply Z.ltb_lt in Ht. rewrite (proj2 (Z.ltb_lt _ _)); [done|lia].
  - intros x u s. apply holder_hold.
  - intros x u s. cbn. case_bool_decide as H; [|done]. by rewrite holder_hold.
  - intros d s k. cbn. unfold holder. cbn. destruct (mutexes s !! k) as [[u t]|]; cbn; [|by left].
    destruct (now s + Z.max 0 d <? t) eqn:Ht; [left|by right].
    apply Z.ltb_lt in Ht. rewrite (proj2 (Z.ltb_lt _ _)); [done|lia].
Qed.

(** An id is its text. *)
#[export] Instance std_uuid : Uuid string :=
  { uuid_Nil := ""; uuid_String u := u; uuid_Parse v := Ok v }.
#[export] Instance std_uuid_spec : UuidSpec string.
Proof. done. Qed.
End StdShared.

Module ElectionWitness.
Import Redilock Exec RedilockFacts ElectionProps StdShared.

Definition ma : conf string := {| namespace := "prod"; id := "a" |}.
Definition mb : conf string := {| namespace := "prod"; id := "b" |}.

(** The process a led, and has been gone for ten seconds. *)
Definition shared0 : store :=
  sh_wait (U := string) (10 * Second)
    (sh_set (U := string) (healthKey ma "a") "OK" (5 * Second)
      (sh_set (U := string) (leaderKey ma) "a" 0
        (sh_lock (mutexName ma) "a" {| now := 0; strings := ∅; mutexes := ∅ |}))).

(** The process b waits for a lease. *)
Definition leases_b : Leases.t := Runner.strat LeaseWitness.r2.
Definition leases_a : Leases.t := Leases.store_leader true leases_b.

Lemma leases_b_ok : RunnerFacts.leases_ok [2%nat] leases_b.
Proof.
  apply (RunnerFacts.iv_leases LeaseWitness.r2), RunnerFacts.reachable_inv.
  apply (rtc_l _ _ LeaseWitness.r1); [by apply (Runner.acquire Runner.p_ctx Runner.init 0)|].
  apply rtc_once. by apply (Runner.first_default Runner.p_ctx LeaseWitness.r1 0).
Qed.

Lemma waits : RunnerFacts.pending [2%nat] leases_b 0.
Proof. left. split; [done|]. eexists. split; [by left|]. by split; [|eexists]. Qed.

Lemma takeover_witness :
  ∃ lg1 s1 l1 lg2 s2 l2,
    returns shared_answer (loop mb) shared0 leases_b None lg1 s1 l1 ∧
    returns shared_answer (loop mb) (sh_wait (U := string) Second s1) l1 None lg2 s2 l2 ∧
    Leases.isLeader l2 = true ∧ sh_get (U := string) (leaderKey mb) s2 = Some "b" ∧
    ∃ c, Leases.chans l2 !! 0%nat = Some (LeaseFacts.full c).
Proof.
  destruct (takeover mb [2%nat] shared0 leases_b "a" "a" Second leases_b_ok)
    as (lg1 & s1 & l1 & lg2 & s2 & l2 & H1 & _ & H2 & Hb & Hg & _ & Hp);
    [vm_compute; reflexivity|reflexivity|done|done|done|vm_compute; reflexivity|
     vm_compute; reflexivity|].
  exists lg1, s1, l1, lg2, s2, l2. split_and!; [exact H1|exact H2|exact Hb|exact Hg|].
  apply Hp, waits.
Defined.

(** No command gets through to redis. *)
Definition cut : ∀ X, remoteE string X → () → X * () := λ X e,
  match e with
  | Exists_ _ | Get_ _ => λ t, (Err (EText "i/o timeout"), t)
  | Set_ _ _ _ | Del_ _ | SAdd_ _ _ | TryLock _ _ | Extend _ _ | Unlock _ _ =>
      λ t, (Some (EText "i/o timeout"), t)
  | Sleep _ => λ t, ((), t)
  | Tick => λ t, (false, t)
  end.

Lemma split_brain_witness :
  (∃ lg t', returns cut (join_turn (λ _, false) ma) () leases_a (inl ()) lg t' leases_a) ∧
  ∃ lg1 s1 l1 lg2 s2 l2, returns shared_answer (loop mb) shared0 leases_b None lg1 s1 l1 ∧
    returns shared_answer (loop mb) s1 l1 None lg2 s2 l2 ∧
    Leases.isLeader leases_a = true ∧ Leases.isLeader l2 = true.
Proof.
  apply (split_brain (I := std_uuid) (R := std_shared) ma mb (λ _, false) cut [2%nat] leases_a leases_b shared0 "a" ());
    [intros; by eexists|done|done|done|apply leases_b_ok|vm_compute; reflexivity|reflexivity|
     done|done|done|vm_compute; reflexivity|vm_compute; reflexivity].
Defined.

(** The lock outlives a leader's key that somebody removed. *)
Definition shared1 : store := sh_lock (mutexName ma) "a" {| now := 0; strings := ∅; mutexes := ∅ |}.

Lemma discovery_spins_witness :
  exec shared_answer 1000 (discoverLeader ma) shared1 leases_a = None.
Proof.
  apply (discovery_spins (I := std_uuid) (R := std_shared) ma 1000 shared1 leases_a); [vm_compute; reflexivity|].
  exists "a". vm_compute. reflexivity.
Defined.

Lemma loop_verdict_witness :
  ∃ r lg s' l', returns shared_answer (loop mb) shared0 leases_b r lg s' l' ∧ r = None ∧
    ((l' = leases_b ∧ (is_Some r ∨ ∃ pre post, lg = pre ++ post ∧ seen mb uuid_Nil pre)) ∨
     (∃ u pre post, u ≠ uuid_Nil ∧ lg = pre ++ post ∧ seen mb u pre ∧ acted mb u post ∧
        Leases.updateSubs (Leases.store_leader (bool_decide (u = id mb)) leases_b) = Return l')).
Proof.
  destruct (exec shared_answer 60 (loop mb) shared0 leases_b) as [[[[r lg] s'] l']|] eqn:He;
    [|vm_compute in He; discriminate].
  exists r, lg, s', l'. split_and!.
  - by exists 60%nat.
  - vm_compute in He. congruence.
  - apply (loop_verdict (I := std_uuid) mb shared_answer shared0 leases_b r lg s' l'). by exists 60%nat.
Defined.
End ElectionWitness.
