(* ===== verification/Agreement.v ===== *)
(** * Two processes never lead: [lib/election/redsync.go], together

    The processes of a deployment run [Join] and its goroutine at the same
    time, one command at a time over one redis.  They are born with new ids and
    may crash at any moment; time passes, and with it what expires.  As long as
    no running process loses its lock to the clock, at most one of them is the
    leader ([AgreementProps.one_leader]). *)
From S2P Require Import Prelude Errors Lease Election.
From ITree Require Import Core.ITreeDefinition.
#[local] Open Scope Z_scope.

(** ** The deployment *)

Module Deployment.
Import Redilock.

Section deployment.
Context {U S : Type} `{I : Uuid U, R : Shared U S}.
Context (IsShutdownOrCancel : goerr → bool) (ns : string).

Definition conf_of (i : U) : conf U := {| namespace := ns; id := i |}.

(** [Join], and the goroutine it leaves running if there is no error. *)
Definition process (m : conf U) : itree (electionE U) () :=
  r ← Join IsShutdownOrCancel m;
  match r with
  | Ok goroutine => goroutine
  | Err _ => mret ()
  end.

(** What a process has left to do, and its leases. *)
Record proc := { todo : itree (electionE U) (); leases : Leases.t }.
Record t := { shared : S; procs : U → option proc }.

Definition put (i : U) (p : option proc) (s : S) (σ : t) : t :=
  {| shared := s; procs := λ j, if decide (j = i) then p else procs σ j |}.

Definition mutex : string := ns +:+ ":leader:redsync".
Definition key : string := "venn:" +:+ ns +:+ ":election:leader".

(** No running process has lost its lock on the way to [s]. *)
Definition in_time (σ : t) (s : S) : Prop :=
  ∀ i p, procs σ i = Some p → sh_holder mutex (shared σ) = Some i → sh_holder mutex s = Some i.
Definition takes_time {X} (e : remoteE U X) : bool :=
  match e with Sleep _ | Tick => true | _ => false end.

(** The process's other goroutines use its leases, but leave the verdict.  The
    id of a new process is in no use. *)
Inductive step (σ : t) : t → Prop :=
  | turn i p k : procs σ i = Some p → observe (todo p) = TauF k →
      step σ (put i (Some {| todo := k; leases := leases p |}) (shared σ) σ)
  | command i p X (e : remoteE U X) k x s : procs σ i = Some p →
      observe (todo p) = VisF (Remote e) k → shared_answer X e (shared σ) = (x, s) →
      (takes_time e = true → in_time σ s) →
      step σ (put i (Some {| todo := k x; leases := leases p |}) s σ)
  | verdict i p f k l : procs σ i = Some p → observe (todo p) = VisF (Local f) k →
      f (leases p) = Return l →
      step σ (put i (Some {| todo := k (); leases := l |}) (shared σ) σ)
  | other i p l : procs σ i = Some p → Leases.isLeader l = Leases.isLeader (leases p) →
      step σ (put i (Some {| todo := todo p; leases := l |}) (shared σ) σ)
  | wait d : in_time σ (sh_wait (U := U) d (shared σ)) →
      step σ {| shared := sh_wait (U := U) d (shared σ); procs := procs σ |}
  | crash i : step σ (put i None (shared σ) σ)
  | born i l : procs σ i = None → sh_holder mutex (shared σ) ≠ Some i →
      (∀ v, sh_get (U := U) key (shared σ) = Some v → uuid_Parse v ≠ Ok i) →
      Leases.isLeader l = false →
      step σ (put i (Some {| todo := process (conf_of i); leases := l |}) (shared σ) σ).

(** At first nobody runs; redis may hold anything. *)
Definition reachable (σ : t) : Prop := ∃ s, rtc step {| shared := s; procs := λ _, None |} σ.

Definition leads (σ : t) (i : U) : Prop :=
  ∃ p, procs σ i = Some p ∧ Leases.isLeader (leases p) = true.
End deployment.
Arguments proc : clear implicits.
Arguments t : clear implicits.
End Deployment.

(** ** Lemmas: what a process does, with the answers redis can give *)

Module AgreementFacts.
Import Redilock Exec RedilockFacts KeyFacts Deployment.

Section safe.
Context {U : Type} `{US : UuidSpec U} (ns : string) (i : U).
Abbreviation m := (conf_of ns i).

(** The commands of a process that holds the lock if [mine]; [K] of what its
    lock and the answer may then be. *)
Definition allowed {X} (e : remoteE U X) (mine : bool) : (bool → X → Prop) → Prop :=
  match e with
  | Exists_ _ => λ K, ∀ n, K mine (Ok n)
  | Get_ k => λ K, K mine (Err redis_Nil) ∧
      ∀ v, (k = key ns → uuid_Parse v = Ok i → mine = true) → K mine (Ok v)
  | Set_ k v _ => λ K, k ≠ mutex ns ∧ (k = key ns → uuid_Parse v = Ok i ∧ mine = true) ∧ K mine None
  | Del_ k => λ K, k ≠ mutex ns ∧ K mine None
  | SAdd_ k _ => λ K, k ≠ mutex ns ∧ k ≠ key ns ∧ K mine None
  | TryLock k u => λ K, k = mutex ns ∧ u = i ∧ K true None ∧ K mine (Some redsync_error)
  | Extend k u => λ K, k = mutex ns ∧ u = i ∧ ∀ x, K mine x
  | Unlock _ _ => λ _, False
  | Sleep _ => λ K, K mine ()
  | Tick => λ K, K mine false
  end.

(** [n] steps of a process: it takes the lead only with the lock, names itself
    only with the lock, and keeps to itself; [Q] of its result. *)
Fixpoint safe {A} (n : nat) (mine : bool) (t : itree (electionE U) A) (Q : bool → A → Prop) : Prop :=
  match n with
  | O => True
  | Datatypes.S n =>
      match observe t with
      | RetF a => Q mine a
      | TauF t => safe n mine t Q
      | VisF e k =>
          match e in electionE _ X return (X → itree (electionE U) A) → Prop with
          | Remote e => λ k, allowed e mine (λ mine x, safe n mine (k x) Q)
          | Local f => λ k, (∀ l l', f l = Return l' → Leases.isLeader l' = true →
                               Leases.isLeader l = true ∨ mine = true) ∧ safe n mine (k ()) Q
          end k
      end
  end.

Lemma allowed_mono {X} (e : remoteE U X) mine (K K' : bool → X → Prop) :
  (∀ b x, K b x → K' b x) → allowed e mine K → allowed e mine K'.
Proof. intros HK. destruct e; simpl; naive_solver. Qed.

Lemma safe_mono {A} n mine (t : itree (electionE U) A) (Q Q' : bool → A → Prop) :
  (∀ b a, Q b a → Q' b a) → safe n mine t Q → safe n mine t Q'.
Proof.
  intros HQ. revert mine t. induction n as [|n IH]; intros mine t; [done|]. cbn [safe].
  destruct (observe t) as [a|t'|X e k]; [apply HQ|apply IH|].
  destruct e as [X e|f]; [|intros [Hf Hk]; by split; [|apply IH]].
  apply allowed_mono. intros b x. apply IH.
Qed.

Lemma safe_bind {A B} n mine (t : itree (electionE U) A) (k : A → itree (electionE U) B) Q :
  safe n mine t (λ b a, ∀ n', (n' ≤ n)%nat → safe n' b (k a) Q) → safe n mine (t ≫= k) Q.
Proof.
  unfold mbind, itree_bind. revert mine t. induction n as [|n IH]; intros mine t Ht; [done|].
  assert (∀ b t', safe n b t' (λ b a, ∀ n', (n' ≤ Datatypes.S n)%nat → safe n' b (k a) Q) →
    safe n b (ITree.bind t' k) Q) as Hnext.
  { intros b t' H'. apply IH. eapply safe_mono; [|exact H']. intros c a Hk n' Hn. apply Hk. lia. }
  cbn [safe] in *. rewrite observe_bind.
  destruct (observe t) as [a|t'|X e h]; [by apply (Ht (Datatypes.S n))|by apply Hnext|].
  destruct e as [X e|f]; [|destruct Ht as [Hf Hk]; by split; [|apply Hnext]].
  eapply allowed_mono; [|exact Ht]. intros b x. apply Hnext.
Qed.

Lemma safe_iter {A} n mine (b : () → itree (electionE U) (() + A)) Q :
  (∀ n mine, safe n mine (b ()) (λ mine o, match o with inl _ => True | inr a => Q mine a end)) →
  safe n mine (ITree.iter b ()) Q.
Proof.
  intros Hb. revert mine. induction (lt_wf n) as [n _ IH]. intros mine.
  assert (safe n mine (unrolled b) Q) as H.
  { apply (safe_bind n mine (b ())). eapply safe_mono; [|apply Hb].
    intros c [[]|a] Ho [|n'] Hn; [done| |done|exact Ho]. apply IH. lia. }
  destruct n as [|n]; [done|]. cbn [safe] in *.
  by change (observe (ITree.iter b ())) with (observe (unrolled b)).
Qed.

(** *** The rules of a process *)

Definition ok {A} (mine : bool) (t : itree (electionE U) A) (Q : bool → A → Prop) : Prop :=
  ∀ n, safe n mine t Q.

Lemma ok_ret {A} mine (a : A) (Q : bool → A → Prop) : Q mine a → ok mine (mret a) Q.
Proof. by intros HQ [|n]. Qed.

Lemma ok_bind {A B} mine (t : itree (electionE U) A) (k : A → itree (electionE U) B)
    (P : bool → A → Prop) Q :
  ok mine t P → (∀ b a, P b a → ok b (k a) Q) → ok mine (t ≫= k) Q.
Proof. intros Ht Hk n. apply safe_bind. eapply safe_mono; [|apply Ht]. intros b a Ha n' _. by apply Hk. Qed.

Lemma ok_call {X B} mine (e : remoteE U X) (k : X → itree (electionE U) B) Q :
  allowed e mine (λ b x, ok b (k x) Q) → ok mine (call e ≫= k) Q.
Proof.
  intros He [|n]; [done|]. cbn. eapply allowed_mono; [|exact He].
  intros b x Hk. specialize (Hk n). by destruct n.
Qed.

Lemma ok_call_last {X} mine (e : remoteE U X) Q : allowed e mine Q → ok mine (call e) Q.
Proof.
  intros He [|n]; [done|]. cbn. eapply allowed_mono; [|exact He]. by intros b x Hk; destruct n.
Qed.

Lemma ok_local {B} mine f (k : () → itree (electionE U) B) Q :
  (∀ l l', f l = Return l' → Leases.isLeader l' = true → Leases.isLeader l = true ∨ mine = true) →
  ok mine (k ()) Q → ok mine (local f ≫= k) Q.
Proof. intros Hf Hk [|n]; [done|]. cbn. split; [done|]. specialize (Hk n). by destruct n. Qed.

(** *** What [redsync.go] does *)

Lemma key_leader : key ns = leaderKey m. Proof. done. Qed.
Lemma mutex_name : mutex ns = mutexName m. Proof. done. Qed.

(** The leader's key names a process that runs only if it holds the lock. *)
Definition found (mine : bool) (r : res goerr U) : Prop :=
  match r with
  | Ok u => u = i → mine = true
  | Err e => e = redis_Nil
  end.

Lemma discover_turn_ok mine :
  ok mine (discover_turn m) (λ b o, match o with inl _ => True | inr r => found b r end).
Proof.
  unfold discover_turn, attempt_promotion. apply ok_call. intros ea.
  destruct (ea =? 0).
  - apply (ok_bind _ _ _ (λ b r, r = Ok false ∨ r = Ok true ∧ b = true)).
    + apply ok_call. split_and!; [done|done| |apply ok_ret; by left].
      apply ok_call. split; [apply not_eq_sym, (mutex_leader m)|].
      split; [intros _; split; [apply uuid_roundtrip|done]|]. apply ok_ret. by right.
    + intros b r [->|[-> ->]]; by apply ok_ret.
  - destruct (ea =? 1); [|by apply ok_ret]. apply ok_call. split; [by apply ok_ret|].
    intros v Hv. destruct (uuid_Parse v) as [u|e] eqn:Hp.
    + apply ok_ret. intros ->. by apply Hv.
    + apply ok_call. split; [apply not_eq_sym, (mutex_leader m)|]. by apply ok_ret.
Qed.

Lemma discover_ok mine : ok mine (discoverLeader m) found.
Proof. intros n. apply safe_iter. intros n' b. apply discover_turn_ok. Qed.

Lemma health_set mine u v ttl (K : bool → option goerr → Prop) :
  K mine None → allowed (Set_ (healthKey m u) v ttl) mine K.
Proof.
  intros HK. split; [apply not_eq_sym, (mutex_health m)|]. split; [|done].
  intros Hk. by destruct (leader_health m u).
Qed.

Lemma mutiny_ok mine u : ok mine (mutiny m u) (λ _ r, ∃ x, r = Ok x).
Proof.
  unfold mutiny, overthrow. apply ok_call. intros h.
  destruct (h =? 1); [apply ok_ret; by eexists|].
  apply (ok_bind _ _ _ (λ _ r, r = None)); [|intros b r ->; apply ok_ret; by eexists].
  apply ok_call. split; [apply not_eq_sym, (mutex_outlaws m)|].
  split; [apply not_eq_sym, (leader_outlaws m)|].
  apply ok_call_last. by split; [apply not_eq_sym, (mutex_leader m)|].
Qed.

Lemma updateSubs_leader l l' : Leases.updateSubs l = Return l' → Leases.isLeader l' = Leases.isLeader l.
Proof.
  unfold Leases.updateSubs. destruct (Leases.update_loop _ _ _ _) as [[[new s] chs]| |]; [|done|done].
  by intros [= <-].
Qed.

Lemma after_discovery_ok mine u :
  (u = i → mine = true) → ok mine (after_discovery m u) (λ _ err, err = None).
Proof.
  intros Hu. unfold after_discovery. destruct (bool_decide (u = uuid_Nil)).
  { apply ok_call. by apply ok_ret. }
  cbv zeta. apply ok_local.
  { intros l l' [= <-] Hl. right. apply Hu. by apply bool_decide_eq_true in Hl. }
  apply ok_local.
  { intros l l' Hl. rewrite (updateSubs_leader l l' Hl). by left. }
  destruct (bool_decide (u = id m)).
  - apply ok_call. split_and!; [done|done|]. intros x.
    apply (ok_bind _ _ _ (λ _ _, True)).
    + apply ok_call_last. by apply health_set.
    + intros b r _. by apply ok_ret.
  - apply (ok_bind _ _ _ (λ _ r, ∃ x, r = Ok x)); [apply mutiny_ok|].
    intros b r [x ->]. by apply ok_ret.
Qed.

Lemma loop_ok mine : ok mine (loop m) (λ _ err, err = None ∨ err = Some redis_Nil).
Proof.
  unfold loop, broadcast_health. apply (ok_bind _ _ _ (λ _ r, r = None)).
  { apply ok_call_last. by apply health_set. }
  intros b r ->. apply (ok_bind _ _ _ found); [apply discover_ok|].
  intros c [u|e] Hu; [|apply ok_ret; right; by f_equal].
  intros n. eapply safe_mono; [|by apply after_discovery_ok]. intros d err ->. by left.
Qed.

Context (IsShutdownOrCancel : goerr → bool) (Hnil : IsShutdownOrCancel redis_Nil = false).

(** The goroutine goes on for ever. *)
Lemma goroutine_ok mine : ok mine (join_goroutine IsShutdownOrCancel m) (λ _ _, True).
Proof.
  unfold join_goroutine. apply (ok_bind _ _ _ (λ _ _, False)); [|done].
  intros n. apply safe_iter. clear n mine. intros n mine. revert n.
  change (ok mine (join_turn IsShutdownOrCancel m)
    (λ (_ : bool) (o : () + ()), match o with inl _ => True | inr _ => False end)).
  unfold join_turn. apply (ok_bind _ _ _ (λ _ err, err = None ∨ err = Some redis_Nil)); [apply loop_ok|].
  intros b err [-> | ->]; [|rewrite Hnil]; apply ok_call; by apply ok_ret.
Qed.

Lemma process_ok mine : ok mine (process IsShutdownOrCancel m) (λ _ _, True).
Proof.
  unfold process, Join. apply (ok_bind _ _ _ (λ _ r,
    match r with Ok g => g = join_goroutine IsShutdownOrCancel m | Err _ => True end)).
  - apply (ok_bind _ _ _ found); [apply discover_ok|]. intros b [u|e] _; by apply ok_ret.
  - intros b [g|e]; [intros ->; apply goroutine_ok|intros _; by apply ok_ret].
Qed.
End safe.
End AgreementFacts.

(** ** Lemmas: the deployment *)

Module AgreementRuns.
Import Redilock Deployment AgreementFacts.

Section runs.
Context {U S : Type} `{I : Uuid U, !UuidSpec U, R : Shared U S, !SharedSpec U S}.
Context (IsShutdownOrCancel : goerr → bool) (ns : string).
Hypothesis Hnil : IsShutdownOrCancel redis_Nil = false.

Abbreviation holder := (sh_holder (U := U) (mutex ns)).
Abbreviation named s i := (∃ v, sh_get (U := U) (key ns) s = Some v ∧ uuid_Parse v = Ok i).
Definition mine (s : S) (i : U) : bool := bool_decide (holder s = Some i).

(** A process goes on safely, leads only with the lock, and has its id under
    the leader's key only with the lock. *)
Record proc_ok (s : S) (i : U) (p : proc U) : Prop := {
  po_safe n : safe ns i n (mine s i) (todo p) (λ _ _, True);
  po_leads : Leases.isLeader (leases p) = true → holder s = Some i;
  po_named : named s i → holder s = Some i;
}.
Definition sys_ok (σ : t U S) : Prop := ∀ i p, procs σ i = Some p → proc_ok (shared σ) i p.

(** What a command does to the lock and to the key, seen by a process. *)
Record quiet (s s' : S) (i : U) : Prop := {
  qu_holder : holder s' = Some i ↔ holder s = Some i;
  qu_named : named s' i → named s i;
}.

Lemma proc_ok_quiet s s' i p : quiet s s' i → proc_ok s i p → proc_ok s' i p.
Proof.
  intros [Hh Hn] [Hs Hl Hk].
  assert (mine s' i = mine s i) as Hm by by apply bool_decide_ext.
  split; [intros n; rewrite Hm; apply Hs|intros ?; by apply Hh, Hl|intros ?; by apply Hh, Hk, Hn].
Qed.

(** Waiting only loses, and not what the clock leaves alone. *)
Lemma wait_quiet s d i :
  (holder s = Some i → holder (sh_wait (U := U) d s) = Some i) → quiet s (sh_wait (U := U) d s) i.
Proof.
  intros Ht. split.
  - split; [|done]. destruct (sh_holder_wait d s (mutex ns)) as [->| ->]; [done|done].
  - intros (v & Hv & Hpv). exists v.
    destruct (sh_get_wait d s (key ns)) as [He|He]; rewrite He in Hv; [done|done].
Qed.

(** What a command of [j] does to the lock and the key. *)
Record effect (s s' : S) (j : U) : Prop := {
  ef_keeps : holder s = Some j → holder s' = Some j;
  ef_named : named s' j → named s j ∨ holder s' = Some j;
}.
Definition timely {X} (e : remoteE U X) (s s' : S) (i : U) : Prop :=
  takes_time e = true → holder s = Some i → holder s' = Some i.

Lemma key_mutex : mutex ns ≠ key ns.
Proof. exact (KeyFacts.mutex_leader (conf_of ns uuid_Nil)). Qed.

(** A change of another key, or of the leader's key to nothing. *)
Lemma key_change s s' i :
  holder s' = holder s →
  (sh_get (U := U) (key ns) s' = sh_get (U := U) (key ns) s ∨ sh_get (U := U) (key ns) s' = None) →
  quiet s s' i ∧ effect s s' i.
Proof.
  intros Hh Hk. assert (named s' i → named s i) as Hn.
  { intros (v & Hv & Hp). exists v. destruct Hk as [He|He]; rewrite He in Hv; done. }
  split; split; rewrite ?Hh; auto.
Qed.

Lemma wait_runs s d j (K : bool → Prop) :
  (holder s = Some j → holder (sh_wait (U := U) d s) = Some j) → K (mine s j) →
  K (mine (sh_wait (U := U) d s) j) ∧ effect s (sh_wait (U := U) d s) j.
Proof.
  intros Ht HK. pose proof (wait_quiet s d j Ht) as [Hh Hn]. split.
  - replace (mine _ j) with (mine s j); [done|]. symmetry. by apply bool_decide_ext.
  - split; [apply Hh|]. intros ?. left. by apply Hn.
Qed.

Lemma lock_runs s j :
  holder s = None →
  effect s (sh_lock (mutex ns) j s) j ∧ ∀ i, i ≠ j → quiet s (sh_lock (mutex ns) j s) i.
Proof.
  intros Hh. split.
  - split; [by rewrite Hh|]. intros _. right. apply sh_holder_lock.
  - intros i Hi. split; [|intros (v & Hv & Hp)].
    + rewrite sh_holder_lock, Hh. split; [by intros [= ->]|done].
    + exists v. by rewrite sh_get_lock in Hv by exact key_mutex.
Qed.

Lemma command_runs {X} (e : remoteE U X) s s' x j (K : bool → X → Prop) :
  (named s j → holder s = Some j) → allowed ns j e (mine s j) K →
  shared_answer X e s = (x, s') → timely e s s' j →
  K (mine s' j) x ∧ effect s s' j ∧ ∀ i, i ≠ j → timely e s s' i → quiet s s' i.
Proof.
  intros Hnamed Ha Hans Ht.
  assert (∀ i, quiet s s i ∧ effect s s i) as Hsame by (intros i; apply key_change; auto).
  assert (∀ i s1, holder s1 = holder s → mine s1 i = mine s i) as Hmine.
  { intros i s1 He. apply bool_decide_ext. by rewrite He. }
  destruct e as [k|k|k v ttl|k|k v|k u|k u|k u|d|]; cbn in Hans, Ha.
  - injection Hans as <- <-. split; [apply Ha|]. split; [apply Hsame|]. intros i _ _. apply Hsame.
  - injection Hans as <- <-. split; [|split; [apply Hsame|intros i _ _; apply Hsame]].
    destruct Ha as [Hnone Hsome]. destruct (sh_get k s) as [v|] eqn:Hv; [|done].
    apply Hsome. intros -> Hp. apply bool_decide_eq_true, Hnamed. by exists v.
  - injection Hans as <- <-. destruct Ha as (Hk & Hkey & HK).
    assert (holder (sh_set (U := U) k v ttl s) = holder s) as Hh by by apply sh_holder_set.
    split; [by rewrite Hmine|]. destruct (decide (k = key ns)) as [->|Hne].
    + destruct (Hkey eq_refl) as [Hp Hm]. apply bool_decide_eq_true in Hm. split; [split; rewrite Hh; auto|].
      intros i Hi _. split; [by rewrite Hh|]. intros (v' & Hv' & Hp').
      rewrite sh_get_set, decide_True in Hv' by done. congruence.
    + split; [|intros i _ _]; apply key_change; try done; left; by rewrite sh_get_set, decide_False.
  - injection Hans as <- <-. destruct Ha as (Hk & HK).
    assert (holder (sh_del (U := U) k s) = holder s) as Hh by by apply sh_holder_del.
    assert (sh_get (U := U) (key ns) (sh_del (U := U) k s) = sh_get (U := U) (key ns) s ∨
      sh_get (U := U) (key ns) (sh_del (U := U) k s) = None) as Hg.
    { rewrite sh_get_del. case_decide; auto. }
    split; [by rewrite Hmine|]. split; [|intros i _ _]; by apply key_change.
  - injection Hans as <- <-. destruct Ha as (Hk & Hkey & HK).
    assert (holder (sh_sadd (U := U) k v s) = holder s) as Hh by by apply sh_holder_sadd.
    split; [by rewrite Hmine|]. split; [|intros i _ _]; apply key_change; try done; left;
      by apply sh_get_sadd.
  - destruct Ha as (-> & -> & Hgot & Hnot). destruct (holder s) as [h|] eqn:Hh.
    + injection Hans as <- <-. split; [exact Hnot|]. split; [apply Hsame|]. intros i _ _. apply Hsame.
    + injection Hans as <- <-. assert (mine (sh_lock (mutex ns) j s) j = true) as Hm.
      { apply bool_decide_eq_true, sh_holder_lock. }
      split; [by rewrite Hm|]. destruct (lock_runs s j Hh) as [He Hq]. split; [exact He|].
      intros i Hi _. by apply Hq.
  - destruct Ha as (-> & -> & HK). case_bool_decide as Hh; injection Hans as <- <-.
    + assert (holder (sh_extend (mutex ns) j s) = holder s) as He by apply sh_holder_extend.
      split; [by rewrite Hmine|]. split; [|intros i _ _]; apply key_change; try done; left;
        apply sh_get_extend, key_mutex.
    + split; [apply HK|]. split; [apply Hsame|]. intros i _ _. apply Hsame.
  - done.
  - injection Hans as <- <-. destruct (wait_runs s d j (λ b, K b ()) (Ht eq_refl) Ha) as [HK He].
    split; [done|]. split; [done|]. intros i _ Hi. by apply wait_quiet, Hi.
  - injection Hans as <- <-.
    destruct (wait_runs s (1 * Second) j (λ b, K b false) (Ht eq_refl) Ha) as [HK He].
    split; [done|]. split; [done|]. intros i _ Hi. by apply wait_quiet, Hi.
Qed.

(** *** Every step keeps the processes well *)

Lemma put_ok σ i o s :
  (∀ p, o = Some p → proc_ok s i p) →
  (∀ j p, j ≠ i → procs σ j = Some p → proc_ok s j p) → sys_ok (put i o s σ).
Proof. intros Ho Hr j p. cbn. case_decide as Hj; [subst j; apply Ho|by apply Hr]. Qed.

Lemma proc_next s i p t (l : Leases.t) :
  proc_ok s i p → (∀ n, safe ns i n (mine s i) t (λ _ _, True)) →
  (Leases.isLeader l = true → Leases.isLeader (leases p) = true ∨ mine s i = true) →
  proc_ok s i {| todo := t; leases := l |}.
Proof.
  intros [_ Hl Hn] Ht Hlead. split; [done| |done]. cbn. intros Hb.
  destruct (Hlead Hb) as [Hp|Hm]; [by apply Hl|by apply bool_decide_eq_true in Hm].
Qed.

Lemma step_ok σ σ' : step IsShutdownOrCancel ns σ σ' → sys_ok σ → sys_ok σ'.
Proof.
  intros Hstep Hok. destruct Hstep as
    [i p k Hp Ho|i p X e k x s Hp Ho Hans Ht|i p f k l Hp Ho Hf|i p l Hp Hl|d Hd|i|i l Hp Hh Hk Hl].
  - apply put_ok; [|by intros j q _; apply Hok]. intros q [= <-]. eapply proc_next; [by apply Hok| |by left].
    intros n. pose proof (po_safe _ _ _ (Hok i p Hp) (Datatypes.S n)) as H. cbn [safe] in H.
    by rewrite Ho in H.
  - pose proof (Hok i p Hp) as [Hs Hlead Hn].
    assert (∀ n, allowed ns i e (mine (shared σ) i) (λ b x, safe ns i n b (k x) (λ _ _, True))) as Ha.
    { intros n. specialize (Hs (Datatypes.S n)). cbn [safe] in Hs. by rewrite Ho in Hs. }
    assert (timely e (shared σ) s i) as Hti by (intros Htt; by apply (Ht Htt i p)).
    apply put_ok.
    + intros q [= <-]. destruct (command_runs e _ s x i _ Hn (Ha 0%nat) Hans Hti) as (_ & [Hkeep Hna] & _).
      split; cbn.
      * intros n. by destruct (command_runs e _ s x i _ Hn (Ha n) Hans Hti).
      * intros Hb. by apply Hkeep, Hlead.
      * intros H. destruct (Hna H) as [H'|H']; [by apply Hkeep, Hn|done].
    + intros j q Hj Hq. destruct (command_runs e _ s x i _ Hn (Ha 0%nat) Hans Hti) as (_ & _ & Hother).
      eapply proc_ok_quiet; [apply Hother; [done|]|by apply Hok]. intros Htt. by apply (Ht Htt j q).
  - apply put_ok; [|by intros j q _; apply Hok]. intros q [= <-].
    pose proof (po_safe _ _ _ (Hok i p Hp)) as Hs.
    eapply proc_next; [by apply Hok| |].
    + intros n. specialize (Hs (Datatypes.S n)). cbn [safe] in Hs. rewrite Ho in Hs. apply Hs.
    + specialize (Hs 1%nat). cbn [safe] in Hs. rewrite Ho in Hs. by apply Hs.
  - apply put_ok; [|by intros j q _; apply Hok]. intros q [= <-]. eapply proc_next; [by apply Hok|by apply Hok|].
    rewrite Hl. by left.
  - intros j q Hq. eapply proc_ok_quiet; [|by apply Hok]. apply wait_quiet. by apply (Hd j q).
  - apply put_ok; [done|by intros j q _; apply Hok].
  - apply put_ok; [|by intros j q _; apply Hok]. intros q [= <-]. split; cbn.
    + intros n. by apply process_ok.
    + by rewrite Hl.
    + intros (v & Hv & Hpv). by destruct (Hk v Hv).
Qed.

Lemma reachable_ok σ : reachable IsShutdownOrCancel ns σ → sys_ok σ.
Proof.
  intros [s H]. remember {| shared := s; procs := λ _, None |} as σ0 eqn:Hσ.
  assert (sys_ok σ0) as H0 by by subst.
  clear Hσ. induction H as [σ|σ σ1 σ2 Hs _ IH]; [done|]. by eapply IH, step_ok.
Qed.
End runs.
End AgreementRuns.

(** ** Properties *)

Module AgreementProps.
Import Redilock Deployment AgreementRuns.

Section props.
Context {U S : Type} `{I : Uuid U, !UuidSpec U, R : Shared U S, !SharedSpec U S}.
Context (IsShutdownOrCancel : goerr → bool) (ns : string).

(** C14: However the processes of a deployment take turns, crash and join, at
    most one of them takes itself for the leader at any time, and it holds the
    lock: as long as redis answers and no running process loses its lock to the
    clock. *)
Theorem one_leader (σ : t U S) i j :
  IsShutdownOrCancel redis_Nil = false →
  reachable IsShutdownOrCancel ns σ → leads σ i → leads σ j →
  i = j ∧ sh_holder (mutex ns) (shared σ) = Some i.
Proof.
  intros Hnil Hr (p & Hp & Hlp) (q & Hq & Hlq).
  pose proof (reachable_ok _ _ Hnil σ Hr) as Hok.
  pose proof (po_leads _ _ _ _ (Hok i p Hp) Hlp) as Hi.
  pose proof (po_leads _ _ _ _ (Hok j q Hq) Hlq) as Hj. split; congruence.
Qed.
End props.
End AgreementProps.

(** ** Witnesses *)

Module AgreementWitness.
Import Redilock Deployment AgreementProps StdShared.

Abbreviation sys := (t string store).
Abbreviation shut := (λ _ : goerr, false).

(** The next step of a process, unless it waits. *)
Definition advance (i : string) (σ : sys) : option sys :=
  match procs σ i with
  | None => None
  | Some p =>
      match observe (todo p) with
      | RetF _ => None
      | TauF k => Some (put i (Some {| todo := k; leases := leases p |}) (shared σ) σ)
      | VisF e k =>
          match e in electionE _ X return (X → itree (electionE string) ()) → option sys with
          | Remote e => λ k,
              if takes_time e then None
              else let '(x, s) := shared_answer _ e (shared σ) in
                   Some (put i (Some {| todo := k x; leases := leases p |}) s σ)
          | Local f => λ k,
              match f (leases p) with
              | Return l => Some (put i (Some {| todo := k (); leases := l |}) (shared σ) σ)
              | _ => None
              end
          end k
      end
  end.

Lemma advance_step i σ σ' : advance i σ = Some σ' → step shut "prod" σ σ'.
Proof.
  unfold advance. destruct (procs σ i) as [p|] eqn:Hp; [|done].
  destruct (observe (todo p)) as [r|k|X e k] eqn:Ho; [done| |].
  - intros [= <-]. by apply turn.
  - destruct e as [X e|f].
    + destruct (takes_time e) eqn:Ht; [done|].
      destruct (shared_answer X e (shared σ)) as [x s] eqn:Ha. intros [= <-].
      eapply command; [exact Hp|exact Ho|exact Ha|by rewrite Ht].
    + destruct (f (leases p)) as [l| |] eqn:Hf; [|done|done]. intros [= <-].
      by eapply verdict.
Qed.

Definition advances (os : list string) (σ : sys) : option sys :=
  foldl (λ o i, o ≫= advance i) (Some σ) os.

Lemma advances_steps os σ σ' : advances os σ = Some σ' → rtc (step shut "prod") σ σ'.
Proof.
  unfold advances. revert σ. induction os as [|i os IH]; intros σ; cbn [foldl]; [by intros [= ->]|].
  cbn. destruct (advance i σ) as [σ1|] eqn:H1.
  - intros H. eapply rtc_l; [by eapply advance_step|]. by apply IH.
  - intros H. exfalso. clear -H. induction os; [done|]. by apply IHos.
Qed.

(** Two processes join a deployment whose redis is empty, and take turns. *)
Definition empty0 : store := {| now := 0; strings := ∅; mutexes := ∅ |}.
Definition leases0 : Leases.t := Runner.strat Runner.init.
Definition new (i : string) (σ : sys) : sys :=
  put i (Some {| todo := process shut (conf_of "prod" i); leases := leases0 |}) (shared σ) σ.
Definition σ0 : sys := new "b" (new "a" {| shared := empty0; procs := λ _, None |}).
Definition turns : list string := replicate 8 "a" ++ replicate 4 "b".
Definition σ1 : sys := default σ0 (advances turns σ0).

Lemma reachable1 : reachable shut "prod" σ1.
Proof.
  exists empty0. eapply rtc_l; [|eapply rtc_l].
  - apply (born shut "prod" {| shared := empty0; procs := λ _, None |} "a" leases0); [done|done| |done].
    intros v Hv. by vm_compute in Hv.
  - apply (born shut "prod" (new "a" {| shared := empty0; procs := λ _, None |}) "b" leases0);
      [done|done| |done]. intros v Hv. by vm_compute in Hv.
  - change (rtc (step shut "prod") σ0 σ1). apply (advances_steps turns).
    unfold σ1. destruct (advances turns σ0) eqn:H; [done|]. by vm_compute in H.
Qed.

Lemma leads1 : leads σ1 "a".
Proof.
  unfold leads. destruct (procs σ1 "a") as [p|] eqn:Hp; [|by vm_compute in Hp].
  exists p. split; [done|].
  assert (Leases.isLeader <$> (leases <$> procs σ1 "a") = Some true) as H by (vm_compute; reflexivity).
  rewrite Hp in H. by injection H.
Qed.

Lemma one_leader_witness :
  leads σ1 "a" ∧ (∀ j, leads σ1 j → "a" = j) ∧
  sh_holder (mutex "prod") (shared σ1) = Some "a".
Proof.
  split; [exact leads1|]. split.
  - intros j Hj. exact (proj1 (one_leader (I := std_uuid) (R := std_shared) shut "prod" σ1 "a" j
      eq_refl reachable1 leads1 Hj)).
  - exact (proj2 (one_leader (I := std_uuid) (R := std_shared) shut "prod" σ1 "a" "a"
      eq_refl reachable1 leads1 leads1)).
Defined.
End AgreementWitness.
