(* ===== verification/Oracles.v ===== *)
(** * Oracles: [lib/oracles/oracle.go]

    An oracle reports a value, or fails; the others combine the reports of
    several, or guard one.  The values are of a type with a decidable total
    order and a zero value, as [cmp.Ordered] has without the floating-point
    numbers; the context is handed down unchanged but for a deadline. *)
From S2P Require Import Prelude Errors.
#[local] Open Scope Z_scope.

(** What a generic function may use of its type parameter. *)
Class Ordered (T : Type) := {
  zero : T;
  le : relation T;
  #[global] le_dec :: RelDecision le;
  #[global] le_total :: TotalOrder le;
}.

(** [a > b]. *)
Definition gtb {T} `{!Ordered T} (a b : T) : bool := bool_decide (¬ le a b).

Module Oracle.
Section oracles.
(** The world, the contexts, and [context.WithTimeout]. *)
Context {W C : Type} (WithTimeout : C → Z → C).

(** [Report]: a Go function returns a value besides the error. *)
Definition t (T : Type) : Type := C → prog W (T * option goerr).

Section combine.
Context {T : Type} `{!Ordered T}.

(** The loop over the oracles: the answers in order, and the errors. *)
Fixpoint report_all (oracles : list (t T)) (ctx : C) (responses : list T)
    (merr : option goerr) : prog W (list T * option goerr) :=
  match oracles with
  | [] => mret (responses, merr)
  | v :: oracles =>
      '(ans, err) ← v ctx;
      match err with
      | Some e => report_all oracles ctx responses (multierr_append merr e)
      | None => report_all oracles ctx (responses ++ [ans]) merr
      end
  end.

(** [slices.Sort]. *)
Definition Sort (l : list T) : list T := merge_sort le l.

(** The loop that keeps the largest, from [best] on. *)
Definition largest (best : T) (l : list T) : T :=
  foldl (λ best v, if gtb v best then v else best) best l.

(** [responses[1 : len(responses)-1]]. *)
Definition trim (l : list T) : list T := drop 1 (take (List.length l - 1) l).

Definition max_trim (responses : list T) : T :=
  let responses := Sort responses in
  let responses := if (5 <=? List.length responses)%nat then trim responses else responses in
  largest zero responses.

Definition MaxTrimOracle (oracles : list (t T)) : t T := λ ctx,
  '(responses, merr) ← report_all oracles ctx [] None;
  if bool_decide (List.length responses = 0%nat) then mret (zero, merr)
  else mret (max_trim responses, None).

(** The loop of [MaxOracle], with [best] and [hit]. *)
Fixpoint max_loop (oracles : list (t T)) (ctx : C) (best : T) (hit : bool)
    (merr : option goerr) : prog W (T * bool * option goerr) :=
  match oracles with
  | [] => mret (best, hit, merr)
  | v :: oracles =>
      '(ans, err) ← v ctx;
      match err with
      | Some e => max_loop oracles ctx best hit (multierr_append merr e)
      | None => if gtb ans best then max_loop oracles ctx ans true merr
                else max_loop oracles ctx best hit merr
      end
  end.

Definition MaxOracle (oracles : list (t T)) : t T := λ ctx,
  '(best, hit, merr) ← max_loop oracles ctx zero false None;
  if negb hit then mret (zero, merr) else mret (best, None).

Definition median (responses : list T) : outcome T :=
  let responses := Sort responses in
  index responses (Z.of_nat (List.length responses) `quot` 2).

Definition MedianOracle (oracles : list (t T)) : t T := λ ctx,
  '(responses, merr) ← report_all oracles ctx [] None;
  if bool_decide (List.length responses = 0%nat) then mret (zero, merr)
  else m ← lift (median responses); mret (m, None).
End combine.

Section guard.
Context {T : Type} (zero_value : T).

Definition TimeoutOracle (primary : t T) (timeout : Z) : t T := λ ctx,
  primary (WithTimeout ctx timeout).

Definition FallbackOracle (primary fallback : t T) : t T := λ ctx,
  '(res, err1) ← primary ctx;
  match err1 with
  | None => mret (res, None)
  | Some e1 =>
      '(res, err) ← fallback ctx;
      match err with
      | Some e => mret (zero_value, multierr_append (Some e1) e)
      | None => mret (res, None)
      end
  end.

(** What the mutex and the single flight let through of one call. *)
Definition MutexOracle (primary : t T) : t T := λ ctx,
  '(res, err) ← primary ctx;
  match err with Some e => mret (zero_value, Some e) | None => mret (res, None) end.

(** [expireTime], of which the zero time is long gone, and [lastValue]. *)
Record ttl_state := { expireTime : option Z; lastValue : T }.

Context (now : prog W Z).

Definition TtlOracle `{L : !Lens ttl_state W} (primary : t T) (ttl : Z) : t T := λ ctx,
  st ← read;
  n ← now;
  if match expireTime st with Some e => 0 <? e - n | None => false end
  then mret (lastValue st, None)
  else
    '(res, err) ← primary ctx;
    match err with
    | Some e =>
        _ ← write {| expireTime := None; lastValue := lastValue st |};
        mret (zero_value, Some e)
    | None =>
        n ← now;
        _ ← write {| expireTime := Some (n + ttl); lastValue := res |};
        mret (res, None)
    end.
End guard.
End oracles.
Arguments t : clear implicits.
End Oracle.

(** ** Sorted answers *)

Module OracleFacts.
Import Oracle.
Section facts.
Context {T : Type} `{!Ordered T}.
Implicit Types l : list T.

Lemma Sort_perm l : Sort l ≡ₚ l.
Proof. apply merge_sort_Permutation. Qed.

Lemma Sort_sorted l : StronglySorted le (Sort l).
Proof. apply Sorted_StronglySorted; [apply _|]. apply Sorted_merge_sort. apply _. Qed.

Lemma Sort_length l : List.length (Sort l) = List.length l.
Proof. by rewrite Sort_perm. Qed.

(** In a sorted list the order of the positions is the order of the values. *)
Lemma sorted_lookup l i j x y :
  StronglySorted le l → l !! i = Some x → l !! j = Some y → (i ≤ j)%nat → le x y.
Proof.
  intros Hs. revert i j. induction Hs as [|z l Hs IH Hz]; intros i j Hi Hj Hle; [done|].
  destruct i as [|i], j as [|j]; cbn in *; simplify_eq.
  - done.
  - rewrite Forall_forall in Hz. apply Hz. by eapply list_elem_of_lookup_2.
  - lia.
  - eapply IH; eauto with lia.
Qed.

(** *** The largest *)

Lemma gtb_le a b : gtb a b = false ↔ le a b.
Proof. unfold gtb. rewrite bool_decide_eq_false. split; [by intros ?%dec_stable|auto]. Qed.

Lemma gtb_lt a b : gtb a b = true → le b a.
Proof. unfold gtb. rewrite bool_decide_eq_true. intros H. by destruct (total le a b). Qed.

(** Of [best] and the elements of [l]. *)
Lemma largest_spec best l :
  (largest best l = best ∨ largest best l ∈ l) ∧ le best (largest best l) ∧
  ∀ x, x ∈ l → le x (largest best l).
Proof.
  revert best. induction l as [|v l IH]; intros best; cbn.
  - split_and!; [by left|done|by intros ? ?%not_elem_of_nil].
  - destruct (gtb v best) eqn:Hv.
    + destruct (IH v) as ([Hm|Hm] & Hb & Hl); split_and!;
        try (right; apply elem_of_cons; by auto).
      * transitivity v; [by apply gtb_lt|done].
      * intros x [->|Hx]%elem_of_cons; auto.
      * transitivity v; [by apply gtb_lt|done].
      * intros x [->|Hx]%elem_of_cons; auto.
    + apply gtb_le in Hv. destruct (IH best) as ([Hm|Hm] & Hb & Hl); split_and!;
        try done; try (by left); try (right; apply elem_of_cons; by auto).
      * intros x [->|Hx]%elem_of_cons; [by transitivity best|auto].
      * intros x [->|Hx]%elem_of_cons; [by transitivity best|auto].
Qed.

Lemma largest_below best l h : le best h → (∀ x, x ∈ l → le x h) → le (largest best l) h.
Proof. intros Hb Hl. destruct (largest_spec best l) as ([->|Hm] & _ & _); auto. Qed.

(** *** Counting in sorted lists *)

Definition count (P : T → Prop) `{!∀ x, Decision (P x)} l : nat := List.length (filter P l).

Lemma count_Sort P `{!∀ x, Decision (P x)} l : count P (Sort l) = count P l.
Proof. unfold count. by rewrite Sort_perm. Qed.

Lemma count_split P `{!∀ x, Decision (P x)} k l :
  count P l = (count P (take k l) + count P (drop k l))%nat.
Proof. unfold count. by rewrite <- length_app, <- filter_app, take_drop. Qed.

Lemma count_le P `{!∀ x, Decision (P x)} l : (count P l ≤ List.length l)%nat.
Proof. apply length_filter. Qed.

Lemma count_none P `{!∀ x, Decision (P x)} l :
  (∀ i x, l !! i = Some x → ¬ P x) → count P l = 0%nat.
Proof.
  intros Hn. unfold count. induction l as [|y l IH]; [done|].
  rewrite filter_cons, decide_False by exact (Hn 0%nat y eq_refl). apply IH.
  intros i x Hi. exact (Hn (S i) x Hi).
Qed.

(** If the element at [k] is not above [x], none before it is, and so on. *)
Lemma count_before P `{!∀ x, Decision (P x)} l k x :
  StronglySorted le l → l !! k = Some x → (∀ y, le y x → ¬ P y) →
  (count P l ≤ List.length l - S k)%nat.
Proof.
  intros Hs Hk Hx. rewrite (count_split P (S k)), (count_none P (take (S k) l)).
  - rewrite <- length_drop. apply count_le.
  - intros i y [Hi Hl]%lookup_take_Some. apply Hx. apply (sorted_lookup l i k); [done..|lia].
Qed.

Lemma count_after P `{!∀ x, Decision (P x)} l k x :
  StronglySorted le l → l !! k = Some x → (∀ y, le x y → ¬ P y) → (count P l ≤ k)%nat.
Proof.
  intros Hs Hk Hx. rewrite (count_split P k), (count_none P (drop k l)).
  - pose proof (count_le P (take k l)). rewrite length_take in *. lia.
  - intros i y Hi. rewrite lookup_drop in Hi. apply Hx.
    apply (sorted_lookup l k (k + i)); [done..|lia].
Qed.

(** *** The median and the trimmed maximum of a list *)

Lemma not_le a b : ¬ le a b → le b a.
Proof. intros H. by destruct (total le a b). Qed.

Lemma median_majority_run l a b :
  (List.length l < 2 * count (λ x, le a x ∧ le x b) l)%nat →
  ∃ x, median l = Return x ∧ le a x ∧ le x b.
Proof.
  intros Hc. pose proof (count_le (λ x, le a x ∧ le x b) l) as Hle.
  set (n := List.length l) in *. set (k := (n / 2)%nat).
  assert (2 * k ≤ n < 2 * k + 2)%nat as Hk.
  { unfold k. pose proof (Nat.div_mod_eq n 2). pose proof (Nat.mod_upper_bound n 2). lia. }
  destruct (lookup_lt_is_Some_2 (Sort l) k) as [x Hx].
  { rewrite Sort_length. fold n. lia. }
  exists x. split.
  - unfold median, index. rewrite Sort_length. fold n.
    replace (Z.of_nat n `quot` 2) with (Z.of_nat k).
    2: { unfold k. rewrite Nat2Z.inj_div, Z.quot_div_nonneg by lia. done. }
    by rewrite (proj2 (Z.ltb_ge _ _)), Nat2Z.id, Hx by lia.
  - split; apply dec_stable; intros Hn.
    + pose proof (count_before (λ x, le a x ∧ le x b) (Sort l) k x (Sort_sorted l) Hx) as Hb.
      rewrite count_Sort, Sort_length in Hb. fold n in Hb.
      assert (∀ y, le y x → ¬ (le a y ∧ le y b)) as Hy; [|specialize (Hb Hy); lia].
      intros y Hyx [Hay _]. apply Hn. by transitivity y.
    + pose proof (count_after (λ x, le a x ∧ le x b) (Sort l) k x (Sort_sorted l) Hx) as Hb.
      rewrite count_Sort in Hb.
      assert (∀ y, le x y → ¬ (le a y ∧ le y b)) as Hy; [|specialize (Hb Hy); lia].
      intros y Hxy [_ Hyb]. apply Hn. by transitivity y.
Qed.

Lemma trim_lookup l i : (i < List.length l - 2)%nat → trim l !! i = l !! S i.
Proof. intros Hi. unfold trim. rewrite lookup_drop. apply lookup_take_lt. lia. Qed.

Lemma trim_length l : List.length (trim l) = (List.length l - 2)%nat.
Proof. unfold trim. rewrite length_drop, length_take. lia. Qed.

Lemma max_trim_run l h :
  (5 ≤ List.length l)%nat →
  (le zero h → (count (λ x, ¬ le x h) l ≤ 1)%nat → le (max_trim l) h) ∧
  ((2 ≤ count (λ x, le h x) l)%nat → le h (max_trim l)).
Proof.
  intros Hn. pose proof (Sort_sorted l) as Hs. pose proof (Sort_length l) as Hl.
  unfold max_trim. rewrite (proj2 (Nat.leb_le _ _)) by lia. split.
  - intros Hz Hc. apply largest_below; [done|]. intros x [i Hi]%list_elem_of_lookup.
    pose proof (lookup_lt_Some _ _ _ Hi) as Hlt. rewrite trim_length, Hl in Hlt.
    rewrite trim_lookup in Hi by lia. apply dec_stable. intros Hx.
    assert (count (λ x, le x h) (Sort l) ≤ S i)%nat as Hb.
    { apply (count_after _ _ _ x Hs Hi). intros y Hxy Hyh. apply Hx. by transitivity y. }
    assert (count (λ x, le x h) (Sort l) + count (λ x, ¬ le x h) (Sort l) = List.length l)%nat as Hsum.
    { rewrite <- Hl. unfold count. clear. induction (Sort l) as [|y s IH]; [done|].
      rewrite !filter_cons. repeat case_decide; cbn; try done; lia. }
    rewrite (count_Sort (λ x, ¬ le x h)) in Hsum. lia.
  - intros Hc. destruct (largest_spec zero (trim (Sort l))) as (_ & _ & Hin).
    destruct (lookup_lt_is_Some_2 (Sort l) (List.length l - 2)) as [x Hx]; [lia|].
    transitivity x.
    + apply dec_stable. intros Hh.
      pose proof (count_before (λ x, le h x) (Sort l) _ x Hs Hx) as Hb.
      rewrite count_Sort, Hl in Hb.
      assert (∀ y, le y x → ¬ le h y) as Hy; [|specialize (Hb Hy); lia].
      intros y Hyx Hhy. apply Hh. by transitivity y.
    + apply Hin. apply (list_elem_of_lookup_2 _ (List.length l - 3)).
      rewrite trim_lookup by lia. rewrite <- Hx. f_equal. lia.
Qed.
End facts.

(** *** Asking the oracles *)

Section ask.
Context {W C T : Type} `{!Ordered T}.

(** Every oracle is asked once, in order. *)
Fixpoint ask_all (oracles : list (Oracle.t W C T)) (ctx : C) : prog W (list (T * option goerr)) :=
  match oracles with
  | [] => mret []
  | v :: oracles => x ← v ctx; outs ← ask_all oracles ctx; mret (x :: outs)
  end.

Definition answers (outs : list (T * option goerr)) : list T :=
  omap (λ '(x, e), match e with None => Some x | Some _ => None end) outs.
Definition failures (outs : list (T * option goerr)) : list goerr := omap snd outs.
Definition joined (merr : option goerr) (es : list goerr) : option goerr :=
  foldl multierr_append merr es.

Lemma report_all_run oracles ctx rs merr w outs w' :
  ask_all oracles ctx w = (Return outs, w') →
  report_all oracles ctx rs merr w = (Return (rs ++ answers outs, joined merr (failures outs)), w').
Proof.
  revert rs merr w outs. induction oracles as [|v oracles IH]; intros rs merr w outs H.
  { apply prog_ret_inv in H as [<- ->]. cbn. by rewrite app_nil_r. }
  cbn [ask_all report_all] in *. prog_inv H. destruct a as [x e]. prog_inv H.
  apply prog_ret_inv in H as [<- ->]. rewrite (prog_bind_return _ _ _ _ _ Hm).
  destruct e as [e|]; rewrite (IH _ _ _ _ Hm0); [done|]. cbn. by rewrite <- app_assoc.
Qed.

(** [MaxOracle] when no answer is above the zero value. *)
Lemma max_loop_none oracles ctx merr w outs w' :
  ask_all oracles ctx w = (Return outs, w') → Forall (λ x, le x zero) (answers outs) →
  max_loop oracles ctx zero false merr w =
    (Return (zero, false, joined merr (failures outs)), w').
Proof.
  revert merr w outs. induction oracles as [|v oracles IH]; intros merr w outs Hr Hall.
  { by apply prog_ret_inv in Hr as [<- ->]. }
  cbn [ask_all max_loop] in *. prog_inv Hr. destruct a as [x e]. prog_inv Hr.
  apply prog_ret_inv in Hr as [<- ->]. rewrite (prog_bind_return _ _ _ _ _ Hm).
  destruct e as [e|]; [by rewrite (IH _ _ _ Hm0)|]. cbn in Hall.
  apply Forall_cons in Hall as [Hx Hall]. rewrite (proj2 (gtb_le x zero) Hx).
  by rewrite (IH _ _ _ Hm0 Hall).
Qed.

Lemma max_trim_low l : Forall (λ x, le x zero) l → max_trim l = zero.
Proof.
  rewrite Forall_forall. intros Hl. unfold max_trim.
  assert (∀ x, x ∈ Sort l → le x zero) as Hs by (intros x; rewrite Sort_perm; apply Hl).
  set (l' := if (5 <=? List.length (Sort l))%nat then trim (Sort l) else Sort l).
  assert (∀ x, x ∈ l' → le x zero) as Hs'.
  { unfold l'. destruct (5 <=? _)%nat; [|done]. intros x [i Hi]%list_elem_of_lookup.
    unfold trim in Hi. rewrite lookup_drop in Hi. apply lookup_take_Some in Hi as [Hi _].
    by apply Hs, (list_elem_of_lookup_2 _ (1 + i)). }
  destruct (largest_spec zero l') as (_ & Hz & _).
  apply (anti_symm le); [|done]. by apply largest_below.
Qed.
End ask.
End OracleFacts.

(** ** What holds *)

Module OracleProps.
Import Oracle OracleFacts.
Section props.
Context {W C T : Type} `{!Ordered T}.

(** The median of a majority: if more than half of the answers lie between two
    values, so does the median, whatever the other oracles answer and however
    many of them fail. *)
Theorem median_majority (oracles : list (Oracle.t W C T)) ctx w outs w' a b :
  ask_all oracles ctx w = (Return outs, w') →
  (List.length (answers outs) < 2 * count (λ x, le a x ∧ le x b) (answers outs))%nat →
  ∃ x, MedianOracle oracles ctx w = (Return (x, None), w') ∧ le a x ∧ le x b.
Proof.
  intros Ha Hc. destruct (median_majority_run _ _ _ Hc) as (x & Hx & Hab).
  exists x. split; [|done]. unfold MedianOracle.
  rewrite (prog_bind_return _ _ _ _ _ (report_all_run _ _ [] None _ _ _ Ha)). cbn [app].
  rewrite bool_decide_eq_false_2.
  - unfold lift, mbind, prog_bind. by rewrite Hx.
  - pose proof (count_le (λ x, le a x ∧ le x b) (answers outs)). lia.
Qed.

(** Among at least five answers a single one is not trusted: if only one is
    above [h], the trimmed maximum is not; and two are enough for it. *)
Theorem max_trim_robust (oracles : list (Oracle.t W C T)) ctx w outs w' h :
  ask_all oracles ctx w = (Return outs, w') → (5 ≤ List.length (answers outs))%nat → le zero h →
  ∃ x, MaxTrimOracle oracles ctx w = (Return (x, None), w') ∧
    ((count (λ x, ¬ le x h) (answers outs) ≤ 1)%nat → le x h) ∧
    ((2 ≤ count (λ x, le h x) (answers outs))%nat → le h x).
Proof.
  intros Ha Hn Hz. destruct (max_trim_run (answers outs) h Hn) as [Hup Hlow].
  exists (max_trim (answers outs)). split; [|by auto]. unfold MaxTrimOracle.
  rewrite (prog_bind_return _ _ _ _ _ (report_all_run _ _ [] None _ _ _ Ha)). cbn [app].
  rewrite bool_decide_eq_false_2; [done|lia].
Qed.

(** The two maxima differ where nothing is trimmed: when oracles answered, but
    none above the zero value, [MaxOracle] gives the errors of the others, if
    there are any, and [MaxTrimOracle] the zero value. *)
Theorem max_oracles_differ (oracles : list (Oracle.t W C T)) ctx w outs w' :
  ask_all oracles ctx w = (Return outs, w') → answers outs ≠ [] →
  Forall (λ x, le x zero) (answers outs) →
  MaxOracle oracles ctx w = (Return (zero, joined None (failures outs)), w') ∧
  MaxTrimOracle oracles ctx w = (Return (zero, None), w').
Proof.
  intros Ha Hn Hall. split.
  - unfold MaxOracle. by rewrite (prog_bind_return _ _ _ _ _ (max_loop_none _ _ None _ _ _ Ha Hall)).
  - unfold MaxTrimOracle.
    rewrite (prog_bind_return _ _ _ _ _ (report_all_run _ _ [] None _ _ _ Ha)). cbn [app].
    rewrite bool_decide_eq_false_2; [by rewrite (max_trim_low _ Hall)|].
    by intros ?%nil_length_inv.
Qed.
End props.
End OracleProps.

Module OracleWitness.
Import Oracle OracleFacts OracleProps.

(** [BlockOracle], of block numbers. *)
#[local] Instance Z_le_total : TotalOrder Z.le.
Proof. split; [apply _|]. intros x y. unfold strict. lia. Qed.
#[local] Instance block_numbers : Ordered Z := { zero := 0; le := Z.le }.

Definition oracle (x : Z) : Oracle.t () () Z := λ _, mret (x, None).
Definition broken : Oracle.t () () Z := λ _, mret (0, Some (EText "no route to host")).

Definition reports : list (Z * option goerr) :=
  [(100, None); (7, None); (101, None); (100, None); (99999, None)].

Lemma median_majority_witness :
  ∃ x, MedianOracle (oracle <$> [100; 7; 101; 100; 99999]) () () = (Return (x, None), ()) ∧
    le 100 x ∧ le x 101.
Proof.
  apply (median_majority _ () () reports () 100 101);
    [reflexivity|vm_compute; lia].
Defined.

Lemma max_trim_robust_witness :
  ∃ x, MaxTrimOracle (oracle <$> [100; 7; 101; 100; 99999]) () () = (Return (x, None), ()) ∧
    le x 101 ∧ le 101 x.
Proof.
  destruct (max_trim_robust (oracle <$> [100; 7; 101; 100; 99999]) () ()
    reports () 101) as (x & Hx & Hu & Hl);
    [reflexivity|vm_compute; lia|vm_compute; discriminate|].
  exists x. split_and!; [exact Hx|apply Hu; vm_compute; lia|apply Hl; vm_compute; lia].
Defined.

Lemma max_oracles_differ_witness :
  MaxOracle [oracle 0; broken] () () = (Return (0, Some (EText "no route to host")), ()) ∧
  MaxTrimOracle [oracle 0; broken] () () = (Return (0, None), ()).
Proof.
  apply (@max_oracles_differ () () Z block_numbers [oracle 0; broken] () ()
    [(0, None); (0, Some (EText "no route to host"))] ());
    [reflexivity|discriminate|]. by apply Forall_singleton.
Defined.
End OracleWitness.
