(* ===== verification/BlockOracle.v ===== *)
(** * Oracles of the newest block: [lib/oracles/helpers.go] and
    [lib/oracles/blockoracle/oracles.go], and the single flight of [oracle.go]

    An oracle that gets a JSON document and evaluates an expression on it.  The
    HTTP client, the parser of URLs and cel-go, the engine of the expressions,
    are classes; the map the expression is evaluated in is made once and shared
    by all reports. *)
From S2P Require Import Prelude Errors Json Oracles.
#[local] Open Scope Z_scope.

(** ** What is called *)

(** github.com/google/cel-go: an environment that declares variables, a checked
    expression, a program, and its run on values. *)
Class Cel (W C En A P V : Type) := {
  NewEnv : list string → res goerr En;
  Compile : En → string → A * option goerr;
  Program : En → A → res goerr P;
  ContextEval : C → P → gmap string V → prog W (res goerr V);
  int_value : Z → V;
  map_value : gmap string json → V;
  is_int : V → bool;
  as_int64 : V → option Z;
}.

(** net/url and net/http: a parsed URL as text, whether a request can be made
    of it, and the first JSON value in the body of the answer. *)
Class Http (W C : Type) := {
  url_Parse : string → res goerr string;
  NewRequest : string → option goerr;
  http_get : C → string → prog W (res goerr json);
}.

Module BlockOracle.
Section oracle.
Context {W C En A P V : Type} `{X : !Cel W C En A P V} `{Y : !Http W C}.
(** The clock, in nanoseconds since 1970, and the map of the expression. *)
Context (now : prog W Z) `{L : !Lens (gmap string V) W}.

Definition HttpJsonMap (ctx : C) (url : string) : prog W (res goerr (gmap string json)) :=
  resp ← http_get ctx url;
  mret (v ← resp; unmarshal_map v).

(** [CompileCel] with the variables of its options; the times are those of now. *)
Definition CompileCel (celExpr : string) (opts : list string) : prog W (res goerr (P * gmap string V)) :=
  match NewEnv (["time.now.unix_ms"; "time.now.unix"] ++ opts) with
  | Err e => mret (Err e)
  | Ok env =>
      match Compile env celExpr with
      | (_, Some e) => mret (Err e)
      | (ast, None) =>
          match Program env ast with
          | Err e => mret (Err (EWrap "cel program construction error: " e ""))
          | Ok prg =>
              t ← now;
              mret (Ok (prg, <["time.now.unix_ms" := int_value (t / 1000000)]>
                             (<["time.now.unix" := int_value (t / 1000000000)]> ∅)))
          end
      end
  end.

(** A report: the document goes into the shared map, ... *)
Definition set_body (res : gmap string json) : prog W () :=
  m ← read;
  write (<["body" := map_value res]> m).

(** ... and the expression is evaluated in it. *)
Definition evaluate (prg : P) (ctx : C) : prog W (Z * option goerr) :=
  m ← read;
  val ← ContextEval ctx prg m;
  mret match val with
       | Err e => (0, Some e)
       | Ok val =>
           if negb (is_int val) then (0, Some (EText "cel return type"))
           else match as_int64 val with
                | Some n => (n, None)
                | None => (0, Some (EText "expected go type int64"))
                end
       end.

Definition report (prg : P) (url : string) : Oracle.t W C Z := λ ctx,
  res ← HttpJsonMap ctx url;
  match res with
  | Err e => mret (0, Some e)
  | Ok res => _ ← set_body res; evaluate prg ctx
  end.

Definition HttpJsonOracle (urlString celExpr : string) : prog W (res goerr (Oracle.t W C Z)) :=
  c ← CompileCel celExpr ["body"];
  match c with
  | Err e => mret (Err e)
  | Ok (prg, evalCtx) =>
      _ ← write evalCtx;
      match url_Parse urlString with
      | Err e => mret (Err e)
      | Ok url =>
          match NewRequest url with
          | Some e => mret (Err e)
          | None => mret (Ok (report prg url))
          end
      end
  end.
End oracle.

(** [SingleFlightOracle]; the calls share one key. *)
Definition SingleFlightOracle {W C T : Type} (zero_value : T)
    (sf_Do : string → prog W (T * option goerr) → prog W (T * option goerr))
    (primary : Oracle.t W C T) : Oracle.t W C T := λ ctx,
  '(res, err) ← sf_Do "" (primary ctx);
  match err with Some e => mret (zero_value, Some e) | None => mret (res, None) end.
End BlockOracle.

(** ** Properties *)

Module BlockOracleProps.
Import BlockOracle.

Section props.
Context {W C En A P V : Type} `{X : !Cel W C En A P V} `{Y : !Http W C}.
Context (now : prog W Z) `{L : !Lens (gmap string V) W}.

(** The times that the expression sees. *)
Definition times (w : W) : option V * option V :=
  (lget w !! "time.now.unix_ms", lget w !! "time.now.unix").

(** The client and the engine leave the map alone. *)
Definition apart {T} (m : prog W T) : Prop := ∀ w, lget (m w).2 = lget w.

Context (Hhttp : ∀ ctx url, apart (http_get ctx url)) (Heval : ∀ ctx p m, apart (ContextEval ctx p m)).

Lemma set_body_times r w : times (set_body r w).2 = times w.
Proof.
  unfold times, set_body, read, write, mbind, prog_bind. cbn [snd]. rewrite lget_lput.
  by rewrite !lookup_insert_ne.
Qed.

Lemma report_times prg url ctx w : times (report prg url ctx w).2 = times w.
Proof.
  unfold report, HttpJsonMap. rewrite prog_bind_assoc. unfold mbind at 1, prog_bind at 1.
  pose proof (Hhttp ctx url w) as Hg. destruct (http_get ctx url w) as [[resp|?|] w1]; cbn [snd] in Hg;
    [|unfold times; cbn [snd]; by rewrite Hg..].
  rewrite prog_ret_bind. destruct (v ← resp; unmarshal_map v) as [r|e]; [|unfold times; cbn; by rewrite Hg].
  assert (∀ w, times (evaluate prg ctx w).2 = times w) as He.
  { intros v. unfold evaluate, read, mbind, prog_bind.
    pose proof (Heval ctx prg (lget v) v) as Hv.
    destruct (ContextEval ctx prg (lget v) v) as [[val|?|] v']; unfold times; cbn in *; by rewrite Hv. }
  transitivity (times w1); [|unfold times; by rewrite Hg].
  unfold mbind at 1, prog_bind at 1. rewrite <- (set_body_times r w1).
  unfold set_body at 1, read, write, mbind, prog_bind. rewrite He. done.
Qed.

(** the clock of an oracle stands still: every evaluation, in whatever
    state the world is by then, sees the times at which the expression was
    compiled. *)
Theorem oracle_clock_frozen url expr w t o w1 w2 (ctxs : list C) :
  HttpJsonOracle now url expr w = (Return (Ok o), w1) →
  (now w).1 = Return t →
  foldl (λ w ctx, (o ctx w).2) w1 ctxs = w2 →
  times w2 = (Some (int_value (t / 1000000)), Some (int_value (t / 1000000000))).
Proof.
  intros Ho Ht <-. unfold HttpJsonOracle, CompileCel in Ho.
  destruct (NewEnv _) as [env|e]; [|by rewrite prog_ret_bind in Ho].
  destruct (Compile env expr) as [ast [e|]]; [by rewrite prog_ret_bind in Ho|].
  destruct (Program env ast) as [prg|e]; [|by rewrite prog_ret_bind in Ho].
  destruct (now w) as [t' w0] eqn:Hn. cbn [fst] in Ht. subst t'.
  rewrite prog_bind_assoc, (prog_bind_return _ _ _ _ _ Hn), prog_ret_bind in Ho.
  unfold write in Ho. unfold mbind at 1, prog_bind at 1 in Ho.
  destruct (url_Parse url) as [u|e]; [|done]. destruct (NewRequest u); [done|].
  injection Ho as <- <-.
  assert (∀ w, times (foldl (λ w ctx, (report prg u ctx w).2) w ctxs) = times w) as Hall.
  { induction ctxs as [|ctx ctxs IH]; intros v; [done|]. cbn [foldl]. by rewrite IH, report_times. }
  rewrite Hall. unfold times. rewrite lget_lput. by rewrite lookup_insert_eq, lookup_insert_ne, lookup_insert_eq.
Qed.

(** two reports at a time evaluate one document: when a second one has its
    answer before the first evaluates its own, the first reports on the second's. *)
Theorem oracle_reports_share prg ctx r1 r2 w :
  (_ ← set_body r1; _ ← set_body r2; evaluate prg ctx) w = (_ ← set_body r2; evaluate prg ctx) w.
Proof.
  unfold set_body, read, write, mbind, prog_bind. by rewrite lget_lput, insert_insert_eq, lput_lput.
Qed.
End props.
End BlockOracleProps.

Module BlockOracleWitness.
Import BlockOracle BlockOracleProps.

(** A world with the map and a clock that moves; an engine whose expressions
    are names of variables, numbers only. *)
Record world := { w_map : gmap string Z; w_clock : Z }.
#[local] Instance map0 : Lens (gmap string Z) world.
Proof. by refine {| lget := w_map; lput m w := Build_world m (w_clock w) |}; [..|intros []]. Defined.

#[local] Instance cel0 : Cel world () () string string Z := {|
  NewEnv _ := Ok ();
  Compile _ s := (s, None);
  Program _ s := Ok s;
  ContextEval _ s m := mret (match m !! s with Some v => Ok v | None => Err (EText "no such key") end);
  int_value z := z;
  map_value m := Z.of_nat (size m);
  is_int _ := true;
  as_int64 z := Some z |}.
#[local] Instance http0 : Http world () := {|
  url_Parse s := Ok s;
  NewRequest _ := None;
  http_get _ _ := mret (Ok (JObj [("height", JNum "7")])) |}.

Definition now0 : prog world Z := λ w, (Return (w_clock w), Build_world (w_map w) (w_clock w + 1000000000)).
Definition start : world := {| w_map := ∅; w_clock := 5000000000 |}.

Lemma oracle_clock_frozen_witness : ∃ o w1,
  HttpJsonOracle now0 "http://a/" "time.now.unix" start = (Return (Ok o), w1) ∧
  times (foldl (λ w ctx, (o ctx w).2) w1 [(); ()]) = (Some 5000, Some 5).
Proof.
  eexists _, _. split; [reflexivity|].
  change (Some 5000, Some 5) with
    (Some (int_value (5000000000 / 1000000)), Some (int_value (5000000000 / 1000000000))).
  eapply (oracle_clock_frozen now0) with (w := start) (t := 5000000000) (ctxs := [(); ()]);
    [by intros [] url v|by intros [] p m v|reflexivity..].
Defined.
End BlockOracleWitness.
