(* ===== verification/Dashboard.v ===== *)
(** * The dashboard: [dashboard/handler.go]

    What the dashboard shows of the chains and their remotes.  The HTML
    is in [Templates] and the requests are in [Pages]; here are the data of the
    pages, and what asking for them does to the remotes: a doctor that is asked whether its remote can be used
    counts that as a use.  A Go map is iterated in an order that is an argument;
    single flight only lets concurrent requests share one result. *)
From S2P Require Import Prelude Errors Json EthTypes Config Rpc.
From S2P Require Import Validator Doctor HeadStore Clusters.
From Stdlib Require Import QArith_base QArith Lqa.
#[local] Open Scope Z_scope.

Module Dashboard.
Import Doctor.

(** ** What is shown *)

Record RemoteInfo := {
  Info_Name : string;
  Status : HealthStatus;
  LatestBlock : Z;
  BlocksBehind : Z;
  ResponseTime : string;
  Latency : Z * Z * Z;            (* average, least, largest *)
  LastError : string;
  Info_Priority : Z;
  MaxBlockLookback : Z;
  RequestsPerMin : Q;
}.

Record ChainInfo := {
  ChainInfo_Name : string;
  ChainID : Z;
  HeadBlock : Z;
  Chain_Status : HealthStatus;
  RemoteCount : Z;
  HealthyCount : Z;
  UnhealthyCount : Z;
}.

(** [Clusters.middlewares]: the remotes by chain and name. *)
Abbreviation targets := (gmap string (gmap string RemoteTarget.t)).

Definition target_of (T : targets) (chain name : string) : option RemoteTarget.t :=
  T !! chain ≫= λ m, m !! name.
Definition put_target (chain name : string) (x : RemoteTarget.t) (T : targets) : targets :=
  alter (λ m, <[name := x]> m) chain T.

Definition with_doctor (d : Doctor.t) (x : RemoteTarget.t) : RemoteTarget.t := {|
  RemoteTarget.Backer := RemoteTarget.Backer x; RemoteTarget.Validator := RemoteTarget.Validator x;
  RemoteTarget.Doctor := d; RemoteTarget.RateLimit := RemoteTarget.RateLimit x;
  RemoteTarget.methods := RemoteTarget.methods x;
  RemoteTarget.BlockLookBack := RemoteTarget.BlockLookBack x |}.

(** The loop for the configuration of a remote. *)
Definition config_of (chain : Chain) (name : string) : option Remote :=
  List.find (λ cfg, bool_decide (Remote_Name cfg = name)) (Chain_Remotes chain).

Definition status_lt (a b : RemoteInfo) : bool :=
  if negb (Info_Priority a =? Info_Priority b) then Info_Priority a <? Info_Priority b
  else negb (String.leb (Info_Name b) (Info_Name a)).

(** [sort.Slice] with a [less]: a sorting by "not greater". *)
Definition info_le (a b : RemoteInfo) : Prop := status_lt b a = false.
#[export] Instance info_le_dec : RelDecision info_le.
Proof. intros a b. apply bool_eq_dec. Defined.
Definition chain_le (a b : ChainInfo) : Prop :=
  String.leb (ChainInfo_Name a) (ChainInfo_Name b) = true.
#[export] Instance chain_le_dec : RelDecision chain_le.
Proof. intros a b. apply bool_eq_dec. Defined.

Section dashboard.
Context {W : Type} `{L : !Lens targets W} `{H : HeadStore W}.
(** [GetLatencyStats] over the window, [GetRequestsPerMinute], and the text of
    the time since an instant; the chains that have a cluster. *)
Context (stats : list Z → Z * Z * Z) (requests : string → string → Q) (since : Z → string).
Context (Remotes : gset string).

(** ** The remotes of a chain *)

Definition remote_info (chainName : string) (headBlock : Z) (name : string)
    (cfg : Remote) (target : RemoteTarget.t) (usable : bool) : RemoteInfo :=
  let '(hd, lastUpdated) := Validator.GetHead (RemoteTarget.Validator target) in
  let latestBlock := hd in {|
    Info_Name := name;
    Status := if usable then HealthStatusHealthy else HealthStatusUnhealthy;
    LatestBlock := latestBlock;
    BlocksBehind := if (0 <? headBlock) && (0 <? latestBlock)
                    then i64 (i64 headBlock - i64 latestBlock) else 0;
    ResponseTime := if lastUpdated =? Validator.zero_time then "N/A" else since lastUpdated;
    Latency := stats (latencyWindow (RemoteTarget.Doctor target));
    LastError := GetLastError (RemoteTarget.Doctor target);
    Info_Priority := Remote_Priority cfg;
    MaxBlockLookback := match RemoteTarget.BlockLookBack target with
                        | Some _ => Remote_MaxBlockLookback cfg
                        | None => 0
                        end;
    RequestsPerMin := requests chainName name |}.

(** [target.Doctor.CanUse()]. *)
Definition can_use (clock : Z) (chainName name : string) (target : RemoteTarget.t)
    : prog W bool :=
  let '(usable, d) := CanUse 1 clock (RemoteTarget.Doctor target) in
  _ ← modify (put_target chainName name (with_doctor d target));
  lift usable.

(** A turn of the loop; the clock is read for each remote. *)
Definition visit (clock : string → Z) (chainName : string) (chain : Chain) (headBlock : Z)
    (name : string) : prog W (list RemoteInfo) :=
  T ← read;
  match target_of T chainName name, config_of chain name with
  | Some target, Some cfg =>
      usable ← can_use (clock name) chainName name target;
      mret [remote_info chainName headBlock name cfg target usable]
  | _, _ => mret []
  end.

Fixpoint visit_all (clock : string → Z) (chainName : string) (chain : Chain) (headBlock : Z)
    (names : list string) : prog W (list RemoteInfo) :=
  match names with
  | [] => mret []
  | name :: names =>
      i ← visit clock chainName chain headBlock name;
      rest ← visit_all clock chainName chain headBlock names;
      mret (i ++ rest)
  end.

(** [order] is the order in which the chain's remotes are iterated. *)
Definition getRemoteInfos (order : list string) (clock : string → Z) (chainName : string)
    (chain : Chain) (headBlock : Z) : prog W (list RemoteInfo) :=
  remotes ← visit_all clock chainName chain headBlock order;
  mret (merge_sort info_le remotes).

(** ** The chains *)

(** The loop of [getChainStatus], which stops at a healthy remote. *)
Fixpoint any_usable (clock : string → Z) (chainName : string) (names : list string)
    : prog W HealthStatus :=
  match names with
  | [] => mret HealthStatusUnhealthy
  | name :: names =>
      T ← read;
      match target_of T chainName name with
      | None => any_usable clock chainName names
      | Some target =>
          usable ← can_use (clock name) chainName name target;
          if usable : bool then mret HealthStatusHealthy
          else any_usable clock chainName names
      end
  end.

Definition getChainStatus (order : list string) (clock : string → Z) (chainName : string)
    : prog W HealthStatus :=
  if bool_decide (chainName ∈ Remotes) then any_usable clock chainName order
  else mret HealthStatusUnknown.

Definition healthy (remotes : list RemoteInfo) : Z :=
  Z.of_nat (List.length (filter (λ i, Status i = HealthStatusHealthy) remotes)).

Definition head_block (chain : Chain) : prog W Z :=
  r ← hs_Get chain; mret (match r with Ok hd => hd | Err _ => 0 end).

Definition chain_info (chain : Chain) (headBlock : Z) (remotes : list RemoteInfo)
    (status : HealthStatus) : ChainInfo := {|
  ChainInfo_Name := Chain_Name chain;
  ChainID := u64 (Chain_Id chain);
  HeadBlock := headBlock;
  Chain_Status := status;
  RemoteCount := Z.of_nat (List.length remotes);
  HealthyCount := healthy remotes;
  UnhealthyCount := Z.of_nat (List.length remotes) - healthy remotes |}.

(** The orders in which the remotes of a chain are iterated, for the infos and
    for the status. *)
Context (orders : string → list string * list string) (clocks : string → string → Z).

Definition visit_chain (chain : Chain) : prog W ChainInfo :=
  let name := Chain_Name chain in
  headBlock ← head_block chain;
  remotes ← getRemoteInfos (orders name).1 (clocks name) name chain headBlock;
  status ← getChainStatus (orders name).2 (clocks name) name;
  mret (chain_info chain headBlock remotes status).

Fixpoint visit_chains (chains : list Chain) : prog W (list ChainInfo) :=
  match chains with
  | [] => mret []
  | c :: chains => i ← visit_chain c; rest ← visit_chains chains; mret (i :: rest)
  end.

(** [chains] are those of the map, in the order of its iteration. *)
Definition getChainInfos (chains : list Chain) : prog W (list ChainInfo) :=
  infos ← visit_chains chains; mret (merge_sort chain_le infos).
End dashboard.
End Dashboard.

(** ** Lemmas *)

Module DashboardFacts.
Import Doctor Dashboard.

(** What asking a doctor does, once its first check is done. *)
Definition used (z : Z) (d : Doctor.t) : Doctor.t :=
  if bool_decide (health d = HealthStatusHealthy) then reset_min z d else d.

Lemma CanUse_known z d :
  health d ≠ HealthStatusUnknown →
  CanUse 1 z d = (Return (bool_decide (health d = HealthStatusHealthy)), used z d).
Proof. unfold used. cbn. by destruct (health d). Qed.

Lemma used_health z d : health (used z d) = health d.
Proof. unfold used. by case_bool_decide. Qed.

Definition info_health (x : RemoteTarget.t) : HealthStatus := health (RemoteTarget.Doctor x).

Lemma target_of_put T c n x y c' n' :
  target_of T c n = Some y →
  target_of (put_target c n x T) c' n' =
    if decide (c = c' ∧ n = n') then Some x else target_of T c' n'.
Proof.
  unfold target_of, put_target. intros Hy. apply bind_Some in Hy as (m & Hm & _).
  destruct (decide (c = c')) as [<-|Hc].
  - rewrite lookup_alter_eq, Hm. cbn. destruct (decide (n = n')) as [<-|Hn].
    + rewrite decide_True by done. apply lookup_insert_eq.
    + rewrite decide_False by naive_solver. by apply lookup_insert_ne.
  - rewrite lookup_alter_ne by done. by rewrite decide_False by naive_solver.
Qed.

Section facts.
Context {W : Type} `{L : !Lens targets W}.
Context (stats : list Z → Z * Z * Z) (requests : string → string → Q) (since : Z → string).
Context (clock : string → Z) (chainName : string) (chain : Chain) (headBlock : Z).

(** The remotes that are shown: those with a target and a configuration. *)
Definition shown (T : targets) (n : string) : option (RemoteTarget.t * Remote) :=
  x ← target_of T chainName n; cfg ← config_of chain n; Some (x, cfg).

Definition info_of (T : targets) (n : string) : option RemoteInfo :=
  '(x, cfg) ← shown T n;
  Some (remote_info stats requests since chainName headBlock n cfg x
          (bool_decide (info_health x = HealthStatusHealthy))).

Definition touched (n : string) (x : RemoteTarget.t) : RemoteTarget.t :=
  with_doctor (used (clock n) (RemoteTarget.Doctor x)) x.

(** Every remote that is shown has been checked. *)
Definition known (T : targets) (names : list string) : Prop :=
  ∀ n x cfg, n ∈ names → shown T n = Some (x, cfg) → info_health x ≠ HealthStatusUnknown.

(** [T'] is [T] after the remotes of [names] have been asked. *)
Definition asked (names : list string) (T T' : targets) : Prop :=
  ∀ c n, target_of T' c n =
    if decide (c = chainName ∧ n ∈ names ∧ is_Some (shown T n))
    then touched n <$> target_of T c n else target_of T c n.

Lemma shown_spec T n x cfg :
  shown T n = Some (x, cfg) ↔ target_of T chainName n = Some x ∧ config_of chain n = Some cfg.
Proof using Type.
  clear stats requests since clock headBlock. unfold shown. destruct (target_of _ _ _), (config_of _ _); cbn; naive_solver.
Qed.

Lemma shown_asked names T T' n :
  asked names T T' → n ∉ names → shown T' n = shown T n.
Proof. intros Ha Hn. unfold shown. by rewrite Ha, decide_False by naive_solver. Qed.

Lemma visit_run n w :
  known (lget w) [n] →
  ∃ T', asked [n] (lget w) T' ∧
    visit stats requests since clock chainName chain headBlock n w =
      (Return (option_list (info_of (lget w) n)), lput T' w).
Proof.
  intros Hk. unfold visit, info_of. rewrite (prog_bind_return _ _ (lget w) w w) by done.
  destruct (target_of (lget w) chainName n) as [x|] eqn:Hx.
  2: { exists (lget w). split.
       - intros c n'. rewrite decide_False; [done|].
         intros (-> & ->%list_elem_of_singleton & [[] (? & _)%shown_spec]). congruence.
       - unfold shown. rewrite Hx, lput_lget. done. }
  destruct (config_of chain n) as [cfg|] eqn:Hcfg.
  2: { exists (lget w). split.
       - intros c n'. rewrite decide_False; [done|].
         intros (-> & ->%list_elem_of_singleton & [[] (_ & ?)%shown_spec]). congruence.
       - unfold shown. rewrite Hx, Hcfg, lput_lget. done. }
  assert (Hs : shown (lget w) n = Some (x, cfg)) by by apply shown_spec.
  exists (put_target chainName n (touched n x) (lget w)). split.
  - intros c n'. rewrite (target_of_put _ _ _ _ _ _ _ Hx).
    destruct (decide (chainName = c ∧ n = n')) as [[<- <-]|Hne].
    + rewrite decide_True; [by rewrite Hx|]. split_and!; [done|by left|by eexists].
    + rewrite decide_False; [done|]. intros (-> & ->%list_elem_of_singleton & _). by apply Hne.
  - specialize (Hk n x cfg ltac:(by left) Hs). rewrite Hs. cbn.
    unfold can_use. rewrite (CanUse_known _ _ Hk). done.
Qed.

Lemma asked_cons n names T T1 T2 :
  n ∉ names → asked [n] T T1 → asked names T1 T2 → asked (n :: names) T T2.
Proof.
  intros Hn H1 H2 c n'. rewrite H2. destruct (decide (n' = n)) as [->|Hne].
  - rewrite decide_False by naive_solver. rewrite H1.
    repeat case_decide; set_solver.
  - rewrite (shown_asked _ _ _ _ H1) by set_solver.
    rewrite (H1 c n'), (decide_False (P := c = chainName ∧ n' ∈ [n] ∧ _)) by set_solver.
    repeat case_decide; set_solver.
Qed.

Lemma visit_all_run names w :
  NoDup names → known (lget w) names →
  ∃ T', asked names (lget w) T' ∧
    visit_all stats requests since clock chainName chain headBlock names w =
      (Return (omap (info_of (lget w)) names), lput T' w).
Proof.
  revert w. induction names as [|n names IH]; intros w Hnd Hk.
  { exists (lget w). split; [|by rewrite lput_lget].
    intros c n. rewrite decide_False; [done|set_solver]. }
  apply NoDup_cons in Hnd as [Hn Hnd].
  destruct (visit_run n w) as (T1 & H1 & Hr1).
  { intros n' x cfg ->%list_elem_of_singleton. apply Hk. by left. }
  destruct (IH (lput T1 w) Hnd) as (T2 & H2 & Hr2).
  { rewrite lget_lput. intros n' x cfg Hin. rewrite (shown_asked _ _ _ _ H1) by set_solver.
    apply Hk. by right. }
  rewrite lget_lput in H2, Hr2. exists T2. split; [by eapply asked_cons|].
  cbn [visit_all]. rewrite (prog_bind_return _ _ _ _ _ Hr1), (prog_bind_return _ _ _ _ _ Hr2).
  unfold mret, prog_ret. rewrite lput_lput. do 2 f_equal.
  change (omap (info_of (lget w)) (n :: names)) with
    (match info_of (lget w) n with Some y => y :: omap (info_of (lget w)) names
     | None => omap (info_of (lget w)) names end).
  assert (omap (info_of T1) names = omap (info_of (lget w)) names) as ->.
  { apply list_omap_ext, Forall2_same_length_lookup_2; [done|]. intros i a b Ha Hb. simplify_eq.
    unfold info_of. rewrite (shown_asked _ _ _ _ H1); [done|].
    intros ->%list_elem_of_singleton. apply Hn. by eapply list_elem_of_lookup_2. }
  by destruct (info_of (lget w) n).
Qed.
Lemma info_of_name T n i : info_of T n = Some i → Info_Name i = n.
Proof. unfold info_of. by intros ([x cfg] & _ & [= <-])%bind_Some. Qed.

(** A remote that is shown but was not checked yet. *)
Definition unchecked (T : targets) (n : string) : bool :=
  match shown T n with
  | Some (x, _) => bool_decide (info_health x = HealthStatusUnknown)
  | None => false
  end.

Lemma unchecked_spec T n :
  unchecked T n = true ↔ ∃ x cfg, shown T n = Some (x, cfg) ∧ info_health x = HealthStatusUnknown.
Proof using Type.
  clear stats requests since clock headBlock. unfold unchecked. destruct (shown T n) as [[x cfg]|]; [rewrite bool_decide_eq_true|]; naive_solver.
Qed.

Lemma known_or T names : known T names ∨ ∃ n, n ∈ names ∧ unchecked T n = true.
Proof using Type.
  clear stats requests since clock headBlock. destruct (decide (Exists (λ n, unchecked T n = true) names)) as [He%Exists_exists|Hn]; [by right|].
  left. intros n x cfg Hin Hs Hu. apply Hn, Exists_exists. exists n. split; [done|].
  apply unchecked_spec; eauto.
Qed.

(** A remote whose first check runs is waited for. *)
Lemma visit_all_blocks names w :
  NoDup names →
  (∀ n x cfg, n ∈ names → shown (lget w) n = Some (x, cfg) →
     info_health x = HealthStatusUnknown → firstCheck (RemoteTarget.Doctor x) = true) →
  ¬ known (lget w) names →
  (visit_all stats requests since clock chainName chain headBlock names w).1 = Blocks.
Proof.
  revert w. induction names as [|n names IH]; intros w Hnd Hf Hk.
  { destruct Hk. by intros n x cfg ?%not_elem_of_nil. }
  apply NoDup_cons in Hnd as [Hn Hnd]. cbn [visit_all].
  destruct (unchecked (lget w) n) eqn:Hkn.
  - apply unchecked_spec in Hkn as (x & cfg & Hs & Hu). pose proof (Hf n x cfg ltac:(by left) Hs Hu) as Hfirst.
    pose proof Hs as [Hx Hcfg]%shown_spec. unfold visit.
    unfold mbind at 1, prog_bind at 1. rewrite (prog_bind_return _ _ (lget w) w w) by done.
    rewrite Hx, Hcfg. unfold can_use. cbn [CanUse]. unfold info_health in Hu.
    by rewrite Hu, Hfirst.
  - destruct (visit_run n w) as (T1 & H1 & Hr1).
    { intros n' x cfg ->%list_elem_of_singleton Hs Hu. apply (not_true_iff_false (unchecked _ n)) in Hkn.
      apply Hkn, unchecked_spec; eauto. }
    rewrite (prog_bind_return _ _ _ _ _ Hr1).
    assert (Hsh : ∀ n', n' ∈ names → shown T1 n' = shown (lget w) n').
    { intros n' Hin. apply (shown_asked _ _ _ _ H1). set_solver. }
    assert ((visit_all stats requests since clock chainName chain headBlock names (lput T1 w)).1
      = Blocks) as Hb.
    { apply IH; [done| |]; rewrite lget_lput.
      - intros n' x cfg Hin. rewrite Hsh by done. apply Hf. by right.
      - intros Hk'. apply Hk. intros n' x cfg [->|Hin]%elem_of_cons Hs Hu.
        + apply not_true_iff_false in Hkn. apply Hkn, unchecked_spec; eauto.
        + apply (Hk' n' x cfg Hin); [by rewrite Hsh|done]. }
    unfold mbind, prog_bind. by destruct (visit_all _ _ _ _ _ _ _ _ _) as [[] ?].
Qed.
End facts.

(** *** The order of the remotes *)

Lemma info_le_spec a b :
  info_le a b ↔ Info_Priority a < Info_Priority b ∨
    Info_Priority a = Info_Priority b ∧ String.leb (Info_Name a) (Info_Name b) = true.
Proof.
  unfold info_le, status_lt. destruct (Z.eqb_spec (Info_Priority b) (Info_Priority a)) as [E|E]; cbn.
  - rewrite negb_false_iff. naive_solver lia.
  - rewrite Z.ltb_ge. naive_solver lia.
Qed.

#[global] Instance info_le_total : Total info_le.
Proof.
  intros a b. rewrite !info_le_spec.
  destruct (Z.lt_trichotomy (Info_Priority a) (Info_Priority b)) as [|[|]]; [by auto| |by auto].
  destruct (String.leb_total (Info_Name a) (Info_Name b)); auto.
Qed.
#[global] Instance info_le_trans : Transitive info_le.
Proof.
  intros a b c. rewrite !info_le_spec. intros [H1|[H1 H1']] [H2|[H2 H2']]; [left; lia..|].
  right. split; [lia|]. apply Is_true_true. eapply (transitivity (R := String.le));
    by apply Is_true_true.
Qed.
End DashboardFacts.

(** ** What holds *)

Module DashboardProps.
Import Doctor Dashboard DashboardFacts.
Section props.
Context {W : Type} `{J : Jrpc} `{L : !Lens targets W}.
Context (stats : list Z → Z * Z * Z) (requests : string → string → Q) (since : Z → string).
Context (chainName : string) (chain : Chain) (headBlock : Z).
#[local] Abbreviation infos order clock := (getRemoteInfos stats requests since order clock chainName chain headBlock).

(** The remotes of a chain are shown once each and sorted by priority and name,
    every one that is configured and running and no other, and as healthy
    exactly if its doctor finds it so, whatever the order of the map; unless the
    first check of one still runs, for which the whole page waits. *)
Theorem dashboard_remotes order clock w :
  NoDup order → (∀ n, is_Some (target_of (lget w) chainName n) → n ∈ order) →
  (∀ n x cfg, shown chainName chain (lget w) n = Some (x, cfg) →
     info_health x = HealthStatusUnknown → firstCheck (RemoteTarget.Doctor x) = true) →
  (∃ l w', infos order clock w = (Return l, w') ∧ Sorted info_le l ∧
     NoDup (Info_Name <$> l) ∧
     ∀ i, i ∈ l ↔ ∃ n x cfg, target_of (lget w) chainName n = Some x ∧
       config_of chain n = Some cfg ∧
       i = remote_info stats requests since chainName headBlock n cfg x
             (bool_decide (info_health x = HealthStatusHealthy))) ∨
  (infos order clock w).1 = Blocks ∧
  ∃ n x cfg, shown chainName chain (lget w) n = Some (x, cfg) ∧
    firstCheck (RemoteTarget.Doctor x) = true.
Proof.
  intros Hnd Hin Hf. unfold getRemoteInfos.
  destruct (known_or chainName chain (lget w) order) as
    [Hk|(n & Hn & (x & cfg & Hs & Hu)%unchecked_spec)].
  - left. destruct (visit_all_run stats requests since clock chainName chain headBlock order w Hnd Hk)
      as (T' & _ & Hr).
    rewrite (prog_bind_return _ _ _ _ _ Hr).
    set (l := omap _ order). exists (merge_sort info_le l), (lput T' w).
    split; [done|]. split; [apply Sorted_merge_sort, _|].
    assert (Hl : ∀ i, i ∈ l ↔ ∃ n x cfg, target_of (lget w) chainName n = Some x ∧
       config_of chain n = Some cfg ∧ i = remote_info stats requests since chainName headBlock n cfg x
             (bool_decide (info_health x = HealthStatusHealthy))).
    { intros i. unfold l. rewrite list_elem_of_omap. unfold info_of. split.
      - intros (n & Hn & Hi). apply bind_Some in Hi as ([x cfg] & [? ?]%shown_spec & [= <-]).
        by exists n, x, cfg.
      - intros (n & x & cfg & Hx & Hcfg & ->). exists n. split; [apply Hin; by eexists|].
        by rewrite (proj2 (shown_spec _ _ _ n x cfg) (conj Hx Hcfg)). }
    split.
    + rewrite (merge_sort_Permutation info_le l). unfold l. clear -Hnd.
      induction Hnd as [|n order Hn Hnd IH]; [constructor|].
      change (NoDup (Info_Name <$> match info_of stats requests since chainName chain headBlock (lget w) n with
        | Some y => y :: omap (info_of stats requests since chainName chain headBlock (lget w)) order
        | None => omap (info_of stats requests since chainName chain headBlock (lget w)) order end)).
      destruct (info_of _ _ _ _ _ _ _ n) as [y|] eqn:Hy; [|done].
      apply info_of_name in Hy. cbn. rewrite Hy. constructor; [|done].
      intros (i & Hni & (n' & Hn' & Hi%info_of_name)%list_elem_of_omap)%list_elem_of_fmap.
      congruence.
    + intros i. by rewrite (merge_sort_Permutation info_le l).
  - right. split; [|exists n, x, cfg; eauto].
    unfold mbind, prog_bind.
    assert ((visit_all stats requests since clock chainName chain headBlock order w).1 = Blocks) as Hb.
    { apply visit_all_blocks; [done| |].
      - intros; eauto.
      - intros Hk. by apply (Hk n x cfg). }
    by destruct (visit_all _ _ _ _ _ _ _ _ _) as [[] ?].
Qed.

(** The requests of a page that stays open. *)
Fixpoint refresh (polls : list (list string * (string → Z))) : prog W (list (list RemoteInfo)) :=
  match polls with
  | [] => mret []
  | (order, clock) :: polls =>
      l ← infos order clock; rest ← refresh polls; mret (l :: rest)
  end.

Lemma touched_shown clock order T T' n x cfg :
  asked clock chainName chain order T T' → shown chainName chain T n = Some (x, cfg) →
  shown chainName chain T' n = Some (if decide (n ∈ order) then touched clock n x else x, cfg).
Proof.
  intros Ha Hs. pose proof Hs as [Hx Hcfg]%shown_spec.
  apply shown_spec. split; [|done]. rewrite Ha. destruct (decide (n ∈ order)).
  - rewrite decide_True; [by rewrite Hx|]. split_and!; [done|done|by eexists].
  - by rewrite decide_False by naive_solver.
Qed.

Lemma touched_shown_inv clock order T T' n x cfg :
  asked clock chainName chain order T T' → shown chainName chain T' n = Some (x, cfg) →
  ∃ x0, shown chainName chain T n = Some (x0, cfg) ∧ info_health x = info_health x0.
Proof.
  intros Ha [Hx Hcfg]%shown_spec. rewrite Ha in Hx. case_decide.
  - apply fmap_Some in Hx as (x0 & Hx0 & ->). exists x0. split; [by apply shown_spec|].
    apply used_health.
  - exists x. split; [by apply shown_spec|done].
Qed.

(** One load of the page. *)
Lemma poll_run order clock w name x cfg :
  NoDup order → name ∈ order → shown chainName chain (lget w) name = Some (x, cfg) →
  info_health x = HealthStatusHealthy → known chainName chain (lget w) order →
  ∃ l T', infos order clock w = (Return l, lput T' w) ∧
    asked clock chainName chain order (lget w) T' ∧
    ∃ i, i ∈ l ∧ Info_Name i = name ∧ Status i = HealthStatusHealthy.
Proof.
  intros Hnd Hin Hs Hh Hk. unfold getRemoteInfos.
  destruct (visit_all_run stats requests since clock chainName chain headBlock order w Hnd Hk)
    as (T' & Ha & Hr).
  rewrite (prog_bind_return _ _ _ _ _ Hr). do 2 eexists. split; [reflexivity|]. split; [done|].
  assert (info_of stats requests since chainName chain headBlock (lget w) name =
    Some (remote_info stats requests since chainName headBlock name cfg x true)) as Hi.
  { unfold info_of. rewrite Hs. cbn. by rewrite bool_decide_eq_true_2. }
  exists (remote_info stats requests since chainName headBlock name cfg x true).
  split_and!; [|by apply info_of_name in Hi|done].
  - rewrite (merge_sort_Permutation info_le _). apply list_elem_of_omap. by exists name.
Qed.

(** C33: Looking at a remote is using it: an open page keeps a healthy remote from
    being checked.  However often the page is loaded, the remote is shown as
    healthy each time, though nothing was asked of it, and its next check is
    never nearer than [minInterval] from the last load: pages loaded more often
    than that put it off for ever. *)
Theorem dashboard_starves polls clock order name x cfg w :
  shown chainName chain (lget w) name = Some (x, cfg) → info_health x = HealthStatusHealthy →
  (∀ n x cfg, shown chainName chain (lget w) n = Some (x, cfg) →
     info_health x ≠ HealthStatusUnknown) →
  Forall (λ p, NoDup p.1 ∧ name ∈ p.1) (polls ++ [(order, clock)]) →
  ∃ pages w' x', refresh (polls ++ [(order, clock)]) w = (Return pages, w') ∧
    List.length pages = S (List.length polls) ∧
    Forall (λ l, ∃ i, i ∈ l ∧ Info_Name i = name ∧ Status i = HealthStatusHealthy) pages ∧
    target_of (lget w') chainName name = Some x' ∧ info_health x' = HealthStatusHealthy ∧
    ∀ now v, now < clock name + minInterval (cf (RemoteTarget.Doctor x)) →
      Doctor.step (Tick now v) (RemoteTarget.Doctor x') = None.
Proof.
  revert w x. induction polls as [|[order1 clock1] polls IH]; intros w x Hs Hh Hk Hp.
  - apply Forall_singleton in Hp as [Hnd Hin]. cbn in Hnd, Hin.
    destruct (poll_run order clock w name x cfg Hnd Hin Hs Hh) as (l & T' & Hr & Ha & Hi).
    { intros n y c _. apply Hk. }
    exists [l], (lput T' w), (touched clock name x).
    pose proof (touched_shown _ _ _ _ _ _ _ Ha Hs) as Hs'. rewrite decide_True in Hs' by done.
    apply shown_spec in Hs' as [Hx' _]. rewrite lget_lput. split_and!; [|done|by constructor|done| |].
    + cbn. by rewrite (prog_bind_return _ _ _ _ _ Hr).
    + unfold info_health, touched. cbn. by rewrite used_health.
    + intros now v Hn. unfold touched, used. cbn.
      unfold info_health in Hh. rewrite bool_decide_eq_true_2 by done. cbn.
      destruct (negb _); [done|]. by rewrite (proj2 (Z.leb_gt _ _)).
  - cbn [app] in Hp. apply Forall_cons in Hp as [[Hnd Hin] Hp]. cbn in Hnd, Hin.
    destruct (poll_run order1 clock1 w name x cfg Hnd Hin Hs Hh) as (l & T' & Hr & Ha & Hi).
    { intros n y c _. apply Hk. }
    pose proof (touched_shown _ _ _ _ _ _ _ Ha Hs) as Hs'. rewrite decide_True in Hs' by done.
    assert (Hh' : info_health (touched clock1 name x) = HealthStatusHealthy).
    { unfold info_health, touched. cbn. by rewrite used_health. }
    destruct (IH (lput T' w) (touched clock1 name x)) as (pages & w' & x' & Hr' & Hl & Hf & Hx' & Hn & Hst).
    { by rewrite lget_lput. }
    { done. }
    { rewrite lget_lput. intros n y c Hy.
      destruct (touched_shown_inv _ _ _ _ _ _ _ Ha Hy) as (y0 & Hy0 & ->). by eapply Hk. }
    { done. }
    exists (l :: pages), w', x'. split_and!; [|cbn; by f_equal|by constructor|done|done|].
    + cbn [app refresh]. rewrite (prog_bind_return _ _ _ _ _ Hr).
      by rewrite (prog_bind_return _ _ _ _ _ Hr').
    + intros now v Hlt. apply Hst. unfold touched, used. cbn.
      by case_bool_decide.
Qed.
End props.
End DashboardProps.

Module DashboardWitness.
Import Doctor Dashboard DashboardFacts DashboardProps StdJrpc.

Definition cfg0 : Remote := ClustersWitness.cfg0.
Definition chain0 : Chain := ClustersWitness.chain0.

(** A remote whose first check has been done. *)
Definition target0 : RemoteTarget.t :=
  let x := RemoteTarget.NewRemoteTarget cfg0 chain0 in
  with_doctor (well 0 (RemoteTarget.Doctor x)) x.
Definition targets0 : targets :=
  {[ "ethereum" := {[ Remote_Name cfg0 := target0 ]} ]}.

Definition conf0 : Doctor.conf := Doctor.cf (RemoteTarget.Doctor target0).

Definition stats0 : list Z → Z * Z * Z := λ _, (0, 0, 0).
Definition requests0 : string → string → Q := λ _ _, 0%Q.
Definition since0 : Z → string := λ _, "1s".

Lemma shown0 : shown "ethereum" chain0 targets0 (Remote_Name cfg0) = Some (target0, cfg0).
Proof. reflexivity. Qed.

Lemma shown0_only n x cfg : shown "ethereum" chain0 targets0 n = Some (x, cfg) → x = target0.
Proof.
  intros [Hx _]%shown_spec. unfold target_of, targets0 in Hx.
  rewrite lookup_singleton_eq in Hx. cbn in Hx.
  apply lookup_singleton_Some in Hx as [_ <-]. done.
Qed.

Lemma dashboard_remotes_witness :
  ∃ l w', getRemoteInfos stats0 requests0 since0 [Remote_Name cfg0] (λ _, 5 * Second)
            "ethereum" chain0 100 targets0 = (Return l, w') ∧
    Info_Name <$> l = [Remote_Name cfg0].
Proof.
  destruct (dashboard_remotes stats0 requests0 since0 "ethereum" chain0 100 [Remote_Name cfg0]
    (λ _, 5 * Second) targets0) as [(l & w' & Hr & _)|[Hb _]].
  - apply NoDup_singleton.
  - intros n [x Hx]. unfold target_of, targets0 in Hx. cbn in Hx.
    rewrite lookup_singleton_eq in Hx. cbn in Hx.
    apply lookup_singleton_Some in Hx as [<- _]. by left.
  - intros n x cfg ->%shown0_only Hu. vm_compute in Hu. discriminate.
  - exists l, w'. split; [exact Hr|]. vm_compute in Hr. by injection Hr as <- <-.
  - exfalso. vm_compute in Hb. discriminate.
Defined.

(** The page asks every five seconds, the doctor every minute. *)
Lemma dashboard_starves_witness :
  ∃ pages w' x', refresh stats0 requests0 since0 "ethereum" chain0 100
      [([Remote_Name cfg0], λ _, 5 * Second); ([Remote_Name cfg0], λ _, 10 * Second)] targets0
      = (Return pages, w') ∧ List.length pages = 2%nat ∧
    target_of w' "ethereum" (Remote_Name cfg0) = Some x' ∧
    ∀ v, Doctor.step (Tick (10 * Second) v) (RemoteTarget.Doctor x') = None.
Proof.
  destruct (dashboard_starves stats0 requests0 since0 "ethereum" chain0 100
    [([Remote_Name cfg0], λ _, 5 * Second)] (λ _, 10 * Second) [Remote_Name cfg0]
    (Remote_Name cfg0) target0 cfg0 targets0) as (pages & w' & x' & Hr & Hl & _ & Hx & _ & Hs).
  - exact shown0.
  - reflexivity.
  - intros n x cfg ->%shown0_only Hu. vm_compute in Hu. discriminate.
  - apply Forall_cons; split; [|apply Forall_singleton]; (split; [apply NoDup_singleton|by left]).
  - exists pages, w', x'. split; [exact Hr|]. split; [exact Hl|]. split; [exact Hx|].
    intros v. apply Hs. vm_compute. reflexivity.
Defined.
End DashboardWitness.

(** ** The health of a chain in the metrics: [UpdateChainHealthMetrics] of
    [svc/node/quarks/cluster], [lib/callcenter/collector.go] *)

Module ChainHealth.
Import Doctor.
#[local] Open Scope Q_scope.

(** What the two rolling windows of a [Collector] hold. *)
Record Collector := {
  requestWindow : list Q;
  successWindow : list Q;
}.

Definition sum (l : list Q) : Q := foldr Qplus 0 l.

Definition GetRequestsPerMinute (T : Collector) : Q := sum (requestWindow T).

Definition GetSuccessRate (T : Collector) : Q :=
  let totalRequests := inject_Z (Z.of_nat (List.length (requestWindow T))) in
  if Qeq_bool totalRequests 0 then 100
  else sum (successWindow T) / totalRequests * 100.

(** The gauges of a chain. *)
Record metrics := {
  HealthyRemoteCount : Z;
  TotalRemoteCount : Z;
  AvailabilityPercent : Q;
  RequestSuccessRate : Q;
}.

(** A turn of the loop over the remotes of a chain, with their doctors. *)
Definition turn (acc : Z * Q * Q) (remote : Doctor.t * Collector) : Z * Q * Q :=
  let '(healthyCount, totalRequests, totalSuccesses) := acc in
  let '(doctor, collector) := remote in
  let healthyCount := if bool_decide (GetHealthStatus doctor = HealthStatusHealthy)
                      then (healthyCount + 1)%Z else healthyCount in
  let requests := GetRequestsPerMinute collector in
  let successRate := GetSuccessRate collector in
  (healthyCount, totalRequests + requests, totalSuccesses + requests * successRate / 100).

Definition totals (remotes : list (Doctor.t * Collector)) : Z * Q * Q :=
  foldl turn (0%Z, 0, 0) remotes.

Definition UpdateChainHealthMetrics (remotes : list (Doctor.t * Collector)) : metrics :=
  let totalCount := Z.of_nat (List.length remotes) in
  let '(healthyCount, totalRequests, totalSuccesses) := totals remotes in {|
    HealthyRemoteCount := healthyCount;
    TotalRemoteCount := totalCount;
    AvailabilityPercent := if (0 <? totalCount)%Z
                           then inject_Z healthyCount / inject_Z totalCount * 100 else 0;
    RequestSuccessRate := if negb (Qle_bool totalRequests 0)
                          then totalSuccesses / totalRequests * 100 else 100 |}.

(** *** Lemmas *)

Lemma percentage h n : (0 < n)%Z → (0 <= h <= n)%Z →
  0 <= inject_Z h / inject_Z n * 100 ∧ inject_Z h / inject_Z n * 100 <= 100.
Proof.
  intros Hn [Hh Hle]. assert (0 < inject_Z n) as Hn' by (rewrite Zlt_Qlt in Hn; exact Hn).
  rewrite Zle_Qle in Hh, Hle. change (inject_Z 0) with 0 in Hh.
  assert (inject_Z h / inject_Z n * 100 == 100 * inject_Z h / inject_Z n) as -> by (field; lra).
  split; [apply Qle_shift_div_l|apply Qle_shift_div_r]; try done; lra.
Qed.

Section facts.
Context (lo hi : Q).

(** A collector whose windows count requests and whose rate is in bounds. *)
Definition bounded (x : Doctor.t * Collector) : Prop :=
  0 <= GetRequestsPerMinute x.2 ∧ lo <= GetSuccessRate x.2 <= hi.

Lemma totals_spec remotes h r s :
  Forall bounded remotes → (0 <= h)%Z → 0 <= r → r * lo / 100 <= s <= r * hi / 100 →
  let '(h', r', s') := foldl turn (h, r, s) remotes in
  (h <= h' <= h + Z.of_nat (List.length remotes))%Z ∧ 0 <= r' ∧
  r' * lo / 100 <= s' <= r' * hi / 100.
Proof.
  intros Hall. revert h r s. induction Hall as [|[d c] remotes [Hq [Hl Hu]] Hall IH]; intros h r s Hh Hr [Hs1 Hs2].
  { cbn. split; [lia|done]. }
  cbn [foldl turn]. cbn in Hq, Hl, Hu.
  set (q := GetRequestsPerMinute c) in *. set (p := GetSuccessRate c) in *.
  assert (q * lo <= q * p) by nra. assert (q * p <= q * hi) by nra.
  assert (0 <= r + q) as Hr' by lra.
  assert ((r + q) * lo / 100 <= s + q * p / 100 <= (r + q) * hi / 100) as Hs'
    by (unfold Qdiv in *; change (/ 100) with (1 # 100) in *; split; lra).
  case_bool_decide;
    [specialize (IH (h + 1)%Z _ _ ltac:(lia) Hr' Hs')|specialize (IH h _ _ Hh Hr' Hs')];
    destruct (foldl _ _ _) as [[h' r'] s']; cbn [List.length]; (split; [lia|apply IH]).
Qed.
End facts.
End ChainHealth.

Module ChainHealthProps.
Import ChainHealth.
#[local] Open Scope Q_scope.

(** The availability of a chain is a percentage, and its success rate, with any
    requests at all, lies between the rates of its remotes: requests weigh them,
    so a remote without any does not count. *)
Theorem chain_health lo hi remotes :
  Forall (bounded lo hi) remotes →
  let m := UpdateChainHealthMetrics remotes in
  (0 <= HealthyRemoteCount m <= TotalRemoteCount m)%Z ∧
  0 <= AvailabilityPercent m <= 100 ∧
  (lo <= RequestSuccessRate m <= hi ∨
   RequestSuccessRate m = 100 ∧ (totals remotes).1.2 == 0).
Proof.
  intros Hall. unfold UpdateChainHealthMetrics, totals.
  assert (0 * lo / 100 <= 0 <= 0 * hi / 100) as H0
    by (unfold Qdiv; change (/ 100) with (1 # 100); split; lra).
  pose proof (totals_spec lo hi remotes 0 0 0 Hall ltac:(lia) ltac:(lra) H0) as H.
  destruct (foldl turn _ remotes) as [[h r] s]. destruct H as ([Hh1 Hh2] & Hr & Hs1 & Hs2).
  cbn. split_and!; [lia|lia| | |].
  - destruct (0 <? _)%Z eqn:Hn; [|lra]. apply Z.ltb_lt in Hn. by apply percentage.
  - destruct (0 <? _)%Z eqn:Hn; [|lra]. apply Z.ltb_lt in Hn. by apply percentage.
  - destruct (Qle_bool r 0) eqn:Hr0; cbn.
    + right. split; [done|]. apply Qle_bool_iff in Hr0. lra.
    + left. assert (0 < r) as Hpos.
      { apply Qnot_le_lt. intros Hle%Qle_bool_iff. congruence. }
      assert (s / r * 100 == 100 * s / r) as -> by (field; lra).
      unfold Qdiv in Hs1, Hs2. change (/ 100) with (1 # 100) in Hs1, Hs2.
      split; [apply Qle_shift_div_l|apply Qle_shift_div_r]; try done; lra.
Qed.
End ChainHealthProps.

Module ChainHealthWitness.
Import ChainHealth ChainHealthProps.
#[local] Open Scope Q_scope.

(** One healthy remote with two successes in three requests, one idle. *)
Definition remotes0 : list (Doctor.t * Collector) :=
  [(RemoteTarget.Doctor DashboardWitness.target0,
    {| requestWindow := [1; 1; 1]; successWindow := [1; 0; 1] |});
   (Doctor.NewDoctor DashboardWitness.conf0, {| requestWindow := []; successWindow := [] |})].

Lemma chain_health_witness :
  let m := UpdateChainHealthMetrics remotes0 in
  HealthyRemoteCount m = 1%Z ∧ AvailabilityPercent m == 50 ∧
  (50 <= RequestSuccessRate m <= 100 ∨ RequestSuccessRate m = 100 ∧ (totals remotes0).1.2 == 0).
Proof.
  destruct (chain_health 50 100 remotes0) as (_ & _ & H).
  - unfold remotes0. apply Forall_cons; split; [|apply Forall_singleton];
      vm_compute; repeat split; discriminate.
  - split; [vm_compute; reflexivity|]. split; [vm_compute; reflexivity|]. exact H.
Defined.
End ChainHealthWitness.
