(* ===== verification/Html.v ===== *)
(** * HTML: the escaping of package [html], and a reader of pages

    [Html] has [EscapeString] of the standard library.  [Reader] is what the
    dashboard's pages are judged by: a scanner of tags, attributes, comments,
    scripts and text for as much of HTML as they use, the events of a page as a
    reader meets them, and what it means for its elements to be well nested. *)
From S2P Require Import Prelude.

(** ** [html.EscapeString] *)

Module Html.
Definition dq : ascii := "034".
Definition sq : ascii := "039".

Definition escape_char (c : ascii) : string :=
  if Ascii.eqb c "&" then "&amp;"
  else if Ascii.eqb c sq then "&#39;"
  else if Ascii.eqb c "<" then "&lt;"
  else if Ascii.eqb c ">" then "&gt;"
  else if Ascii.eqb c dq then "&#34;"
  else String c "".

Fixpoint EscapeString (s : string) : string :=
  match s with
  | EmptyString => ""
  | String c s => escape_char c +:+ EscapeString s
  end.

(** The character references a reader knows: those above, and the arrow of the
    pages. *)
Definition references : list (string * string) :=
  [("&amp;", "&"); ("&#39;", String sq ""); ("&lt;", "<"); ("&gt;", ">");
   ("&#34;", String dq ""); ("&larr;", "←")].

Fixpoint starts (p s : string) {struct p} : bool :=
  match p, s with
  | EmptyString, _ => true
  | String a p, String b s => Ascii.eqb a b && starts p s
  | String _ _, EmptyString => false
  end.

(** The text that is meant; [skip] bytes belong to a reference just read. *)
Fixpoint decode_from (skip : nat) (s : string) : string :=
  match s with
  | EmptyString => ""
  | String c rest =>
      match skip with
      | S skip => decode_from skip rest
      | O =>
          match List.find (λ r, starts r.1 s) references with
          | Some (name, text) => text +:+ decode_from (String.length name - 1) rest
          | None => String c (decode_from 0 rest)
          end
      end
  end.
Definition decode : string → string := decode_from 0.

(** *** Lemmas *)

(** Is it one of the five? *)
Ltac by_char c :=
  match goal with
  | |- context [if Ascii.eqb c ?x then _ else _] => destruct (Ascii.eqb_spec c x) as [->|?]
  end.

(** No byte of [s] ends a text or an attribute. *)
Fixpoint tame (s : string) : Prop :=
  match s with
  | EmptyString => True
  | String c s => c ≠ "<"%char ∧ c ≠ dq ∧ tame s
  end.

Lemma tame_app s t : tame s → tame t → tame (s +:+ t).
Proof. induction s as [|c s IH]; [done|]. intros (? & ? & ?) ?. repeat split; auto. Qed.

Lemma escape_tame s : tame (EscapeString s).
Proof.
  induction s as [|c s IH]; [done|]. cbn [EscapeString]. apply tame_app; [|done].
  unfold escape_char, dq, sq.
  repeat (by_char c;
    [cbn [tame]; repeat (apply conj; [discriminate|]); done|]).
  cbn [tame]. repeat (apply conj; [assumption|]). exact I.
Qed.

(** A byte that starts no reference stands for itself. *)
Lemma decode_plain c s : c ≠ "&"%char → decode (String c s) = String c (decode s).
Proof.
  intros Hc. unfold decode. cbn [decode_from references List.find fst starts].
  rewrite (proj2 (Ascii.eqb_neq "&" c)) by congruence. reflexivity.
Qed.

Lemma decode_escape s : decode (EscapeString s) = s.
Proof.
  induction s as [|c s IH]; [done|]. cbn [EscapeString]. unfold escape_char.
  repeat (by_char c;
    [match goal with |- _ = String ?c _ => trans (String c (decode (EscapeString s))) end;
     [reflexivity|by rewrite IH]|]).
  change (decode (String c (EscapeString s)) = String c s). by rewrite decode_plain, IH.
Qed.
End Html.

(** ** Reading a page *)

Module Reader.
Import Html.

(** The states of the scanner, with what was read of the text or the attribute
    at hand; [n] is the element whose start tag is read. *)
Inductive state : Type :=
  | Data (text : string)
  | Tag
  | StartTag (n : string)
  | EndTag (n : string)
  | Attrs (n : string)
  | AttrName (n a : string)
  | AttrEq (n a : string)
  | AttrValue (n a v : string)
  | Bang
  | Dash
  | Comment (dashes : nat)
  | Doctype
  | Script (matched : nat)
  | Bad.

Inductive token : Type :=
  | Chars (text : string)
  | Start (n : string)
  | Attr (a v : string)
  | End_ (n : string).

Definition snoc (s : string) (c : ascii) : string := s +:+ String c "".

(** What a start tag opens. *)
Definition opened (n : string) : state := if bool_decide (n = "script") then Script 0 else Data "".

Definition script_end : string := "</script".

Definition step (st : state) (c : ascii) : list token * state :=
  match st with
  | Data t => if Ascii.eqb c "<" then ([Chars t], Tag) else ([], Data (snoc t c))
  | Tag => if Ascii.eqb c "/" then ([], EndTag "")
           else if Ascii.eqb c "!" then ([], Bang)
           else ([], StartTag (String c ""))
  | StartTag n => if Ascii.eqb c " " then ([Start n], Attrs n)
                  else if Ascii.eqb c ">" then ([Start n], opened n)
                  else ([], StartTag (snoc n c))
  | EndTag n => if Ascii.eqb c ">" then ([End_ n], Data "") else ([], EndTag (snoc n c))
  | Attrs n => if Ascii.eqb c " " then ([], Attrs n)
               else if Ascii.eqb c ">" then ([], opened n)
               else ([], AttrName n (String c ""))
  | AttrName n a => if Ascii.eqb c "=" then ([], AttrEq n a)
                    else if Ascii.eqb c ">" || Ascii.eqb c " " then ([], Bad)
                    else ([], AttrName n (snoc a c))
  | AttrEq n a => if Ascii.eqb c dq then ([], AttrValue n a "") else ([], Bad)
  | AttrValue n a v => if Ascii.eqb c dq then ([Attr a v], Attrs n)
                       else ([], AttrValue n a (snoc v c))
  | Bang => if Ascii.eqb c "-" then ([], Dash) else ([], Doctype)
  | Dash => if Ascii.eqb c "-" then ([], Comment 0) else ([], Bad)
  | Comment d => if Ascii.eqb c "-" then ([], Comment (Nat.min 2 (S d)))
                 else if Ascii.eqb c ">" && (d =? 2)%nat then ([], Data "")
                 else ([], Comment 0)
  | Doctype => if Ascii.eqb c ">" then ([], Data "") else ([], Doctype)
  | Script k => if (k =? String.length script_end)%nat && Ascii.eqb c ">"
                then ([End_ "script"], Data "")
                else if bool_decide (String.get k script_end = Some c) then ([], Script (S k))
                else ([], Script (if Ascii.eqb c "<" then 1 else 0))
  | Bad => ([], Bad)
  end.

Fixpoint read (st : state) (s : string) : list token * state :=
  match s with
  | EmptyString => ([], st)
  | String c s => let '(o, st) := step st c in let '(o', st') := read st s in (o ++ o', st')
  end.

(** What a reader meets: elements, where they lead, text, and their ends. *)
Inductive event : Type :=
  | Elem (n : string)
  | Link (url : string)
  | Text (t : string)
  | Fin (n : string).

Definition say (t : string) : list event := if bool_decide (t = "") then [] else [Text t].

Definition links : list string := ["href"; "hx-get"; "src"].

Definition events_of (k : token) : list event :=
  match k with
  | Chars t => say (decode t)
  | Start n => [Elem n]
  | Attr a v => if bool_decide (a ∈ links) then [Link (decode v)] else []
  | End_ n => [Fin n]
  end.

Definition events (ks : list token) : list event := mjoin (events_of <$> ks).

(** The events of a page, if it ends in its text. *)
Definition outline (page : string) : option (list event) :=
  match read (Data "") page with
  | (ks, Data t) => Some (events ks ++ say (decode t))
  | _ => None
  end.

(** Elements without an end tag. *)
Definition void : list string := ["meta"; "link"].

(** The open elements after the events, innermost first. *)
Fixpoint nest (stack : list string) (es : list event) : option (list string) :=
  match es with
  | [] => Some stack
  | Elem n :: es => nest (if bool_decide (n ∈ void) then stack else n :: stack) es
  | Fin n :: es => match stack with
                   | m :: stack => if bool_decide (n = m) then nest stack es else None
                   | [] => None
                   end
  | _ :: es => nest stack es
  end.
Definition well_nested (es : list event) : Prop := nest [] es = Some [].

(** *** Lemmas *)

Lemma str_app_nil s : s +:+ "" = s.
Proof. induction s as [|c s IH]; [done|]. change (String c (s +:+ "") = String c s). by rewrite IH. Qed.

Lemma snoc_app t c s : snoc t c +:+ s = t +:+ String c s.
Proof. unfold snoc. by rewrite str_app_assoc. Qed.

Lemma read_app s t st :
  read st (s +:+ t) =
  (let '(o, st1) := read st s in let '(o', st2) := read st1 t in (o ++ o', st2)).
Proof.
  revert st. induction s as [|c s IH]; intros st.
  { change ("" +:+ t) with t. cbn [read]. by destruct (read st t). }
  change (String c s +:+ t) with (String c (s +:+ t)). cbn [read].
  destruct (step st c) as [o st1]. rewrite IH. destruct (read st1 s) as [o1 st2].
  destruct (read st2 t) as [o2 st3]. by rewrite app_assoc.
Qed.

(** A tame text stays in the text or in the attribute it is read in. *)
Lemma read_text t s : tame s → read (Data t) s = ([], Data (t +:+ s)).
Proof.
  revert t. induction s as [|c s IH]; intros t Hs.
  { by rewrite str_app_nil. }
  destruct Hs as (Hc & _ & Hs). cbn [read step]. rewrite (proj2 (Ascii.eqb_neq _ _)) by done.
  by rewrite IH, snoc_app by done.
Qed.

Lemma read_value n a v s : tame s → read (AttrValue n a v) s = ([], AttrValue n a (v +:+ s)).
Proof.
  revert v. induction s as [|c s IH]; intros v Hs.
  { by rewrite str_app_nil. }
  destruct Hs as (_ & Hc & Hs). cbn [read step]. rewrite (proj2 (Ascii.eqb_neq _ _)) by done.
  by rewrite IH, snoc_app by done.
Qed.

Lemma events_app ks ls : events (ks ++ ls) = events ks ++ events ls.
Proof. unfold events. by rewrite fmap_app, join_app. Qed.

Lemma nest_app st es fs : nest st (es ++ fs) = nest st es ≫= λ st, nest st fs.
Proof.
  revert st. induction es as [|[n|u|t|n] es IH]; intros st; cbn [app nest]; [done|apply IH..|].
  destruct st as [|m st]; [done|]. case_bool_decide; [apply IH|done].
Qed.

(** Events that leave the open elements as they are. *)
Definition balanced (es : list event) : Prop := ∀ st, nest st es = Some st.

Lemma balanced_app es fs : balanced es → balanced fs → balanced (es ++ fs).
Proof. intros He Hf st. rewrite nest_app, He. apply Hf. Qed.

Lemma balanced_nil : balanced [].
Proof. done. Qed.

Lemma balanced_say t : balanced (say t).
Proof. intros st. unfold say. by case_bool_decide. Qed.

Lemma balanced_elem n es : n ∉ void → balanced es → balanced (Elem n :: es ++ [Fin n]).
Proof.
  intros Hn He st. cbn [nest]. rewrite bool_decide_eq_false_2 by done.
  rewrite nest_app, He. cbn. by rewrite bool_decide_eq_true_2.
Qed.

Lemma balanced_link u es : balanced es → balanced (Link u :: es).
Proof. intros He st. apply He. Qed.

Lemma balanced_void n es : n ∈ void → balanced es → balanced (Elem n :: es).
Proof. intros Hn He st. cbn [nest]. rewrite bool_decide_eq_true_2 by done. apply He. Qed.

Lemma balanced_join {A} (f : A → list event) l :
  (∀ x, balanced (f x)) → balanced (mjoin (f <$> l)).
Proof.
  intros Hf. induction l as [|x l IH]; [done|]. cbn [fmap list_fmap mjoin list_join].
  by apply balanced_app.
Qed.
End Reader.
#[export] Hint Resolve Reader.balanced_app Reader.balanced_nil Reader.balanced_say
  Reader.balanced_link Reader.balanced_join : venn.
