(* ===== verification/Templates.v ===== *)
(** * The pages of the dashboard: [dashboard/templates]

    The templates as the Go files of the package have them: what they write, in
    the order they write it, and where they stop when a write fails or the
    request is given up.  [Templ] is the run-time library of templ, with what it
    documents; a component is told whether its writer is a buffer already.  A
    literal is written with the grave accent for the double quote. *)
From S2P Require Import Prelude Errors Config Html Duration Doctor Dashboard.
From Stdlib Require Import QArith_base QArith Qround.
#[local] Open Scope Z_scope.

(** ** Package [net/http]: the writer of a response *)

Module Http.
Record Response := {
  Header : gmap string string;
  Status : option Z;            (* none: the header was not written yet *)
  Body : string;
}.

Definition StatusOK : Z := 200.
Definition StatusNotFound : Z := 404.
Definition StatusInternalServerError : Z := 500.

Definition fresh : Response := {| Header := ∅; Status := None; Body := "" |}.

(** [w.Header().Set]: without effect once the header is written. *)
Definition Set_ (k v : string) (x : Response) : Response :=
  match Status x with
  | Some _ => x
  | None => {| Header := <[k := v]> (Header x); Status := None; Body := Body x |}
  end.
Definition Del (k : string) (x : Response) : Response :=
  match Status x with
  | Some _ => x
  | None => {| Header := delete k (Header x); Status := None; Body := Body x |}
  end.
(** The first call counts. *)
Definition WriteHeader (code : Z) (x : Response) : Response := {|
  Header := Header x; Status := Some (default code (Status x)); Body := Body x |}.
Definition Write (s : string) (x : Response) : Response :=
  let x := WriteHeader StatusOK x in
  {| Header := Header x; Status := Status x; Body := Body x +:+ s |}.

Definition newline : string := String "010" "".

(** [http.Error]. *)
Definition Error (error : string) (code : Z) (x : Response) : Response :=
  Write (error +:+ newline) (WriteHeader code
    (Set_ "X-Content-Type-Options" "nosniff"
      (Set_ "Content-Type" "text/plain; charset=utf-8" (Del "Content-Length" x)))).
End Http.

(** ** github.com/a-h/templ *)

Definition prefix_of (p s : string) : Prop := ∃ t, s = p +:+ t.

(** The writing into a buffer in front of the response, which passes on what it
    holds when it is full and when it is released; the functions that escape
    and join; the error that says where a template failed. *)
Class Templ (W : Type) := {
  ctx_Err : prog W (option goerr);
  GetBuffer : prog W ();
  WriteString : string → prog W (option goerr);
  ReleaseBuffer : prog W (option goerr);
  EscapeString : string → string;
  JoinStringErrs : string → res goerr string;
  JoinURLErrs : string → res goerr string;
  templ_Error : goerr → string → Z → Z → goerr;
}.

(** [held] is what the buffer holds.  A write that succeeds adds the text
    behind what was written; one that fails loses a part of it. *)
Class TemplSpec (W : Type) `{L : !Lens Http.Response W} `{T : !Templ W} := {
  held : W → string;
  written (w : W) : string := Http.Body (lget w) +:+ held w;
  (** The header stays, and is written with the first text at the latest. *)
  answering (w w' : W) : Prop :=
    Http.Header (lget w') = Http.Header (lget w) ∧
    (Http.Status (lget w') = Http.Status (lget w) ∨
     Http.Status (lget w) = None ∧ Http.Status (lget w') = Some Http.StatusOK);
  ctx_Err_spec w : ∃ e w', ctx_Err w = (Return e, w') ∧
    Http.Body (lget w') = Http.Body (lget w) ∧ held w' = held w ∧ answering w w';
  GetBuffer_spec w : ∃ w', GetBuffer w = (Return (), w') ∧
    Http.Body (lget w') = Http.Body (lget w) ∧ held w' = "" ∧ answering w w';
  WriteString_spec s w : ∃ e w', WriteString s w = (Return e, w') ∧ answering w w' ∧
    match e with
    | None => written w' = written w +:+ s
    | Some _ => prefix_of (written w') (written w +:+ s)
    end;
  ReleaseBuffer_spec w : ∃ e w', ReleaseBuffer w = (Return e, w') ∧ answering w w' ∧ held w' = "" ∧
    match e with
    | None => Http.Body (lget w') = written w
    | Some _ => prefix_of (Http.Body (lget w')) (written w)
    end;
  EscapeString_tame s : Html.tame (EscapeString s);
  EscapeString_decode s : Html.decode (EscapeString s) = s;
  JoinStringErrs_one s : JoinStringErrs s = Ok s;
  JoinURLErrs_one s : JoinURLErrs s = Ok s;
}.

(** ** The templates *)

Module Templates.
Import Doctor Dashboard.

(** The grave accents of a literal. *)
Fixpoint q (s : string) : string :=
  match s with
  | EmptyString => ""
  | String c s => String (if Ascii.eqb c "`" then Html.dq else c) (q s)
  end.

(** [fmt.Sprintf("%d", n)] and [strconv.FormatUint(n, 10)]. *)
Definition fmt_d (n : Z) : string := pretty n.

(** [fmt.Sprintf("%.1f", x)]: the nearest tenth, the even one of two. *)
Definition tenths (x : Q) : Z :=
  let n := 10 * Z.abs (Qnum x) in
  let d := Zpos (Qden x) in
  let t := n / d in
  match 2 * (n mod d) ?= d with
  | Lt => t
  | Gt => t + 1
  | Eq => if Z.even t then t else t + 1
  end.
Definition fmt_1f (x : Q) : string :=
  (if Qnum x <? 0 then "-" else "") +:+ fmt_d (tenths x / 10) +:+ "." +:+ fmt_d (tenths x mod 10).

(** [Duration.Round]. *)
Definition lessThanHalf (x y : Z) : bool := u64 (u64 x + u64 x) <? u64 y.
Definition Round (d m : Z) : Z :=
  if m <=? 0 then d
  else
    let r := Z.rem d m in
    if d <? 0 then
      let r := i64 (- r) in
      if lessThanHalf r m then i64 (d + r)
      else let d1 := i64 (i64 (d - m) + r) in if d1 <? d then d1 else - two63
    else
      if lessThanHalf r m then i64 (d - r)
      else let d1 := i64 (i64 (d + m) - r) in if d <? d1 then d1 else max_int64.

Section templates.
Context {W : Type} `{T : !Templ W}.

(** Go on unless there was an error. *)
Definition and_then (m k : prog W (option goerr)) : prog W (option goerr) :=
  e ← m; match e with None => k | Some _ => mret e end.
#[local] Notation "m ;;; k" := (and_then m k) (at level 60, right associativity).

Definition lit (s : string) : prog W (option goerr) := WriteString (q s).

(** A value: joined with its errors, escaped, written. *)
Definition value (joined : res goerr string) (file : string) (line col : Z) : prog W (option goerr) :=
  match joined with
  | Err e => mret (Some (templ_Error e file line col))
  | Ok s => WriteString (EscapeString s)
  end.
Definition text (file : string) (line col : Z) (s : string) : prog W (option goerr) :=
  value (JoinStringErrs s) file line col.
Definition href (file : string) (line col : Z) (s : string) : prog W (option goerr) :=
  value (JoinURLErrs s) file line col.

(** A component and its [Render]: is the writer a buffer? *)
Definition Component : Type := bool → prog W (option goerr).

(** What all templates do around their own part. *)
Definition GeneratedTemplate (body : prog W (option goerr)) : Component := λ isBuffer,
  ctxErr ← ctx_Err;
  match ctxErr with
  | Some _ => mret ctxErr
  | None =>
      if isBuffer then body
      else
        _ ← GetBuffer;
        err ← body;
        bufErr ← ReleaseBuffer;
        mret (match err with None => bufErr | Some _ => err end)
  end.

Fixpoint render_each {A} (c : A → Component) (xs : list A) : prog W (option goerr) :=
  match xs with
  | [] => mret None
  | x :: xs => c x true ;;; render_each c xs
  end.

(** *** [components_templ.go] *)

Definition StatusBadge (status : HealthStatus) : Component := GeneratedTemplate (
  match status with
  | HealthStatusHealthy =>
      lit ("<span class=`inline-flex items-center text-green-400`>"
            +:+ "<span class=`w-2 h-2 bg-green-400 rounded-full mr-2 animate-pulse`></span> Healthy</span>")
  | HealthStatusUnhealthy =>
      lit ("<span class=`inline-flex items-center text-red-400`>"
            +:+ "<span class=`w-2 h-2 bg-red-500 rounded-full mr-2`></span> Unhealthy</span>")
  | HealthStatusUnknown =>
      lit ("<span class=`inline-flex items-center text-gray-500`>"
            +:+ "<span class=`w-2 h-2 bg-gray-500 rounded-full mr-2`></span> Unknown</span>")
  end).

(** *** [layout_templ.go] *)

(** What follows the content: the sign that the page reloads, and its script. *)
Definition Layout_tail : string :=
  "<!-- Reload Timer Modal -->"
  +:+ "<div class=`fixed bottom-4 right-4 bg-gray-800 border border-gray-700 rounded-lg p-3 shadow-lg`>"
  +:+ "<div class=`flex items-center gap-3`><div class=`relative h-5 w-5`>"
  +:+ "<svg class=`h-5 w-5 transform -rotate-90`><circle cx=`10` cy=`10` r=`8` stroke=`#4B5563` "
  +:+ "stroke-width=`2` fill=`none`></circle> <circle id=`progress-circle` cx=`10` cy=`10` r=`8` "
  +:+ "stroke=`#60A5FA` stroke-width=`2` fill=`none` stroke-dasharray=`50.26548` "
  +:+ "stroke-dashoffset=`50.26548`></circle></svg></div><div class=`text-sm`>"
  +:+ "<span class=`text-gray-400`>Refreshes every 5 seconds</span></div></div></div>"
  +:+ "<script>
            // Progress circle for HTMX refresh
            (function() {
                let countdown = 5;
                let isUpdating = false;
                const progressCircle = document.getElementById('progress-circle');
                const circumference = 2 * Math.PI * 8; // 2πr where r=8
                
                function updateProgress() {
                    if (isUpdating) return;
                    
                    const progress = (5 - countdown) / 5;
                    const offset = circumference - (progress * circumference);
                    if (progressCircle) {
                        progressCircle.style.strokeDashoffset = offset;
                        progressCircle.style.transition = 'stroke-dashoffset 1s linear';
                    }
                }
                
                // Reset when HTMX makes a request
                document.body.addEventListener('htmx:beforeRequest', function() {
                    isUpdating = true;
                    countdown = 5;
                    // Keep circle full during update
                    if (progressCircle) {
                        progressCircle.style.strokeDashoffset = '0';
                        progressCircle.style.transition = 'none';
                    }
                });
                
                // Resume after request completes
                document.body.addEventListener('htmx:afterRequest', function() {
                    isUpdating = false;
                    countdown = 5;
                    if (progressCircle) {
                        progressCircle.style.strokeDashoffset = circumference;
                        progressCircle.style.transition = 'none';
                    }
                });
                
                // Update every second
                setInterval(function() {
                    if (!isUpdating && countdown > 0) {
                        countdown--;
                        updateProgress();
                    }
                    if (countdown <= 0 && !isUpdating) {
                        countdown = 5;
                    }
                }, 1000);
                
                // Initialize
                updateProgress();
            })();
        </script></body></html>".

Definition Layout (content : Component) : Component := GeneratedTemplate (
    lit ("<!doctype html><html lang=`en`><head><meta charset=`UTF-8`><meta name=`viewport` "
          +:+ "content=`width=device-width, initial-scale=1.0`><title>Venn Dashboard</title><link rel=`stylesheet` "
          +:+ "href=`/dashboard/static/css/output.css`><script src=`/dashboard/static/js/htmx.min.js`></script>"
          +:+ "<script src=`/dashboard/static/js/hyperscript.min.js`></script></head>"
          +:+ "<body class=`bg-gray-900 text-gray-100 min-h-screen`>") ;;;
    content true ;;;
    lit Layout_tail).

(** *** [index_templ.go] *)

Definition ChainCard (chain : ChainInfo) : Component := GeneratedTemplate (
    lit "<a href=`" ;;;
    href "pages/index.templ" 55 69 ("/dashboard/" +:+ ChainInfo_Name chain) ;;;
    lit ("` class=`block`><div class=`bg-gray-800 rounded-lg p-6 hover:shadow-xl transition-all border "
          +:+ "border-gray-700 hover:border-gray-600`><div class=`mb-4`><h2 class=`text-2xl font-semibold mb-2`>") ;;;
    text "pages/index.templ" 58 68 (ChainInfo_Name chain) ;;;
    lit "</h2><p class=`text-gray-400 text-sm`>Chain ID: " ;;;
    text "pages/index.templ" 59 98 (fmt_d (ChainID chain)) ;;;
    lit ("</p></div><div class=`grid grid-cols-2 gap-4 mb-4`><div class=`bg-gray-700/30 rounded p-3`>"
          +:+ "<p class=`text-gray-400 text-xs mb-1`>Head Block</p><p class=`text-xl font-mono`>") ;;;
    text "pages/index.templ" 65 85 (fmt_d (HeadBlock chain)) ;;;
    lit "</p></div><div class=`bg-gray-700/30 rounded p-3`><p class=`text-gray-400 text-xs mb-1`>Status</p>" ;;;
    StatusBadge (Chain_Status chain) true ;;;
    lit ("</div></div><div class=`border-t border-gray-700 pt-4`><div class=`grid grid-cols-2 gap-4 text-sm`>"
          +:+ "<div><span class=`text-gray-400`>Remotes:</span> <span class=`ml-1`>") ;;;
    text "pages/index.templ" 77 81 (fmt_d (RemoteCount chain)) ;;;
    lit ("</span></div><div class=`flex items-center gap-3`><div class=`flex items-center`>"
          +:+ "<div class=`w-2 h-2 bg-green-400 rounded-full mr-1`></div><span>") ;;;
    text "pages/index.templ" 82 73 (fmt_d (HealthyCount chain)) ;;;
    lit ("</span></div><div class=`flex items-center`><div class=`w-2 h-2 bg-red-500 rounded-full mr-1`>"
          +:+ "</div><span>") ;;;
    text "pages/index.templ" 86 75 (fmt_d (UnhealthyCount chain)) ;;;
    lit "</span></div></div></div></div></div></a>").

Definition IndexContent (chains : list ChainInfo) : Component := GeneratedTemplate (
    lit ("<div class=`container mx-auto px-4 py-8 max-w-7xl`>"
          +:+ "<h1 class=`text-4xl font-bold mb-8 text-center`>Venn Dashboard</h1><div id=`chains-container` "
          +:+ "class=`grid grid-cols-1 md:grid-cols-2 lg:grid-cols-3 gap-6` hx-get=`/dashboard/chains` "
          +:+ "hx-trigger=`every 5s`>") ;;;
    render_each ChainCard chains ;;;
    lit "</div></div>").

Definition Index (chains : list ChainInfo) : Component := GeneratedTemplate (
    Layout (IndexContent chains) true).

(** *** [chain_templ.go] *)

(** The parts of [RemoteCard], in their order. *)
Definition RemoteCard_name (remote : RemoteInfo) : prog W (option goerr) :=
    lit ("<div class=`bg-gray-800 rounded-lg p-4 border border-gray-700`><div class=`flex flex-col gap-3`>"
          +:+ "<div class=`flex items-center justify-between`><div class=`flex items-center gap-4 min-w-0 flex-1`>"
          +:+ "<div class=`flex-shrink-0`>") ;;;
    StatusBadge (Status remote) true ;;;
    lit "</div><div class=`min-w-0 flex-1`><h3 class=`font-semibold truncate`>" ;;;
    text "pages/chain.templ" 80 72 (Info_Name remote) ;;;
    lit "</h3><p class=`text-xs text-gray-500`>Priority: " ;;;
    text "pages/chain.templ" 81 103 (fmt_d (Info_Priority remote)).

Definition RemoteCard_behind (remote : RemoteInfo) : prog W (option goerr) :=
  if 0 <? BlocksBehind remote then
    lit "<span class=`text-yellow-400`>-" ;;;
    text "pages/chain.templ" 96 99 (fmt_d (BlocksBehind remote)) ;;;
    lit "</span>"
  else
    lit "<span class=`text-green-400`>0</span>".

Definition RemoteCard_lookback (remote : RemoteInfo) : prog W (option goerr) :=
  if 0 <? MaxBlockLookback remote then
    text "pages/chain.templ" 114 72 (fmt_d (MaxBlockLookback remote))
  else
    lit "∞".

Definition RemoteCard_stats (remote : RemoteInfo) : prog W (option goerr) :=
    lit ("</p></div></div></div><!-- Stats Grid -->"
          +:+ "<div class=`grid grid-cols-2 md:grid-cols-5 gap-3 text-sm`><div>"
          +:+ "<p class=`text-xs text-gray-400 mb-1`>Latest Block</p><p class=`font-mono`>") ;;;
    text "pages/chain.templ" 90 80 (fmt_d (LatestBlock remote)) ;;;
    lit "</p></div><div><p class=`text-xs text-gray-400 mb-1`>Blocks Behind</p><p class=`font-mono`>" ;;;
    RemoteCard_behind remote ;;;
    lit "</p></div><div><p class=`text-xs text-gray-400 mb-1`>Last Updated</p><p class=`font-mono text-xs`>" ;;;
    text "pages/chain.templ" 104 70 (ResponseTime remote) ;;;
    lit "</p></div><div><p class=`text-xs text-gray-400 mb-1`>Requests/min</p><p class=`font-mono`>" ;;;
    text "pages/chain.templ" 108 85 (fmt_1f (RequestsPerMin remote)) ;;;
    lit "</p></div><div><p class=`text-xs text-gray-400 mb-1`>Max Lookback</p><p class=`font-mono`>" ;;;
    RemoteCard_lookback remote.

(** A latency; the three are written alike, [line] apart. *)
Definition RemoteCard_duration (line : Z) (d : Z) : prog W (option goerr) :=
  if 0 <? d then
    text "pages/chain.templ" line 80 (Time.format (Round d Microsecond))
  else
    lit "0s".

Definition RemoteCard_latency (remote : RemoteInfo) : prog W (option goerr) :=
  let '(LatencyAvg, LatencyMin, LatencyMax) := Latency remote in
    lit ("</p></div></div><!-- Latency Stats --><div class=`grid grid-cols-3 gap-3 text-sm`><div>"
          +:+ "<p class=`text-xs text-gray-400 mb-1`>Avg Latency</p><p class=`font-mono`>") ;;;
    RemoteCard_duration 128 LatencyAvg ;;;
    lit "</p></div><div><p class=`text-xs text-gray-400 mb-1`>Min Latency</p><p class=`font-mono`>" ;;;
    RemoteCard_duration 138 LatencyMin ;;;
    lit "</p></div><div><p class=`text-xs text-gray-400 mb-1`>Max Latency</p><p class=`font-mono`>" ;;;
    RemoteCard_duration 148 LatencyMax ;;;
    lit "</p></div></div>".

Definition RemoteCard_error (remote : RemoteInfo) : prog W (option goerr) :=
  if negb (bool_decide (LastError remote = "")) then
    lit ("<div class=`bg-red-900/20 border border-red-800 rounded p-2`>"
          +:+ "<p class=`text-xs text-red-400 font-semibold mb-1`>Last Error:</p>"
          +:+ "<p class=`text-xs text-red-300 font-mono break-all`>") ;;;
    text "pages/chain.templ" 159 90 (LastError remote) ;;;
    lit "</p></div>"
  else mret None.

Definition RemoteCard (remote : RemoteInfo) : Component := GeneratedTemplate (
    RemoteCard_name remote ;;;
    RemoteCard_stats remote ;;;
    RemoteCard_latency remote ;;;
    RemoteCard_error remote ;;;
    lit "</div></div>").

Definition RemotesList (remotes : list RemoteInfo) : Component := GeneratedTemplate (
    render_each RemoteCard remotes).

(** The data of the page: those of the chain, and its remotes. *)
Definition ChainDetailContent (data : ChainInfo) (remotes : list RemoteInfo) : Component :=
  GeneratedTemplate (
    lit ("<div class=`container mx-auto px-4 py-8 max-w-7xl`><div class=`mb-8`><a href=`/dashboard` "
          +:+ "class=`text-gray-400 hover:text-white transition-colors mb-4 block`>&larr; Back to Dashboard</a>"
          +:+ "<h1 class=`text-4xl font-bold`>") ;;;
    text "pages/chain.templ" 21 54 (ChainInfo_Name data) ;;;
    lit "</h1><p class=`text-gray-400 mt-2`>Chain ID: " ;;;
    text "pages/chain.templ" 22 85 (fmt_d (ChainID data)) ;;;
    lit ("</p></div><div class=`grid grid-cols-1 md:grid-cols-4 gap-4 mb-8`>"
          +:+ "<div class=`bg-gray-800 rounded-lg p-4 border border-gray-700`>"
          +:+ "<p class=`text-gray-400 text-sm mb-1`>Head Block</p><p class=`text-2xl font-mono`>") ;;;
    text "pages/chain.templ" 28 81 (fmt_d (HeadBlock data)) ;;;
    lit ("</p></div><div class=`bg-gray-800 rounded-lg p-4 border border-gray-700`>"
          +:+ "<p class=`text-gray-400 text-sm mb-1`>Status</p><div class=`mt-2`>") ;;;
    StatusBadge (Chain_Status data) true ;;;
    lit ("</div></div><div class=`bg-gray-800 rounded-lg p-4 border border-gray-700`>"
          +:+ "<p class=`text-gray-400 text-sm mb-1`>Total Remotes</p><p class=`text-2xl`>") ;;;
    text "pages/chain.templ" 38 73 (fmt_d (RemoteCount data)) ;;;
    lit ("</p></div><div class=`bg-gray-800 rounded-lg p-4 border border-gray-700`>"
          +:+ "<p class=`text-gray-400 text-sm mb-1`>Health</p><div class=`flex items-center gap-3 mt-2`>"
          +:+ "<div class=`flex items-center`><div class=`w-3 h-3 bg-green-400 rounded-full mr-1`></div>"
          +:+ "<span class=`text-lg`>") ;;;
    text "pages/chain.templ" 45 84 (fmt_d (HealthyCount data)) ;;;
    lit ("</span></div><div class=`flex items-center`><div class=`w-3 h-3 bg-red-500 rounded-full mr-1`>"
          +:+ "</div><span class=`text-lg`>") ;;;
    text "pages/chain.templ" 49 86 (fmt_d (UnhealthyCount data)) ;;;
    lit ("</span></div></div></div></div><h2 class=`text-2xl font-semibold mb-6`>Remote Endpoints</h2>"
          +:+ "<div id=`remotes-container` class=`space-y-3` hx-get=`") ;;;
    text "pages/chain.templ" 58 69 ("/dashboard/" +:+ ChainInfo_Name data +:+ "/remotes") ;;;
    lit "` hx-trigger=`every 5s`>" ;;;
    RemotesList remotes true ;;;
    lit "</div></div>").

Definition ChainDetail (data : ChainInfo) (remotes : list RemoteInfo) : Component :=
  GeneratedTemplate (Layout (ChainDetailContent data remotes) true).

End templates.
End Templates.

(** ** What a reader of the pages meets *)

Module Outline.
Import Doctor Dashboard Reader Templates.

Definition el (n : string) (es : list event) : list event := Elem n :: es ++ [Fin n].

Definition badge (status : HealthStatus) : list event :=
  el "span" (el "span" [] ++ [Text match status with
    | HealthStatusHealthy => " Healthy"
    | HealthStatusUnhealthy => " Unhealthy"
    | HealthStatusUnknown => " Unknown"
    end]).

(** A label with what it labels. *)
Definition stat (label : string) (es : list event) : list event :=
  el "div" (el "p" [Text label] ++ el "p" es).

Definition duration (d : Z) : string := if 0 <? d then Time.format (Round d Microsecond) else "0s".

Definition behind (n : Z) : list event :=
  el "span" [Text (if 0 <? n then "-" +:+ fmt_d n else "0")].

Definition last_error (e : string) : list event :=
  if bool_decide (e = "") then []
  else el "div" (el "p" [Text "Last Error:"] ++ el "p" (say e)).

Definition remote_card (r : RemoteInfo) : list event :=
  el "div" (el "div" (
    el "div" (el "div" (el "div" (badge (Status r))
      ++ el "div" (el "h3" (say (Info_Name r)) ++ el "p" (say ("Priority: " +:+ fmt_d (Info_Priority r))))))
    ++ el "div" (
      stat "Latest Block" (say (fmt_d (LatestBlock r)))
      ++ stat "Blocks Behind" (behind (BlocksBehind r))
      ++ stat "Last Updated" (say (ResponseTime r))
      ++ stat "Requests/min" (say (fmt_1f (RequestsPerMin r)))
      ++ stat "Max Lookback"
           (say (if 0 <? MaxBlockLookback r then fmt_d (MaxBlockLookback r) else "∞")))
    ++ el "div" (
      stat "Avg Latency" (say (duration (Latency r).1.1))
      ++ stat "Min Latency" (say (duration (Latency r).1.2))
      ++ stat "Max Latency" (say (duration (Latency r).2)))
    ++ last_error (LastError r))).

Definition remotes (rs : list RemoteInfo) : list event := mjoin (remote_card <$> rs).

Definition count (n : Z) : list event :=
  el "div" (el "div" [] ++ el "span" (say (fmt_d n))).

Definition chain_card (c : ChainInfo) : list event :=
  Elem "a" :: Link ("/dashboard/" +:+ ChainInfo_Name c) :: el "div" (
    el "div" (el "h2" (say (ChainInfo_Name c)) ++ el "p" (say ("Chain ID: " +:+ fmt_d (ChainID c))))
    ++ el "div" (stat "Head Block" (say (fmt_d (HeadBlock c)))
         ++ el "div" (el "p" [Text "Status"] ++ badge (Chain_Status c)))
    ++ el "div" (el "div" (
         el "div" (el "span" [Text "Remotes:"] ++ [Text " "] ++ el "span" (say (fmt_d (RemoteCount c))))
         ++ el "div" (count (HealthyCount c) ++ count (UnhealthyCount c))))) ++ [Fin "a"].

Definition chain_content (c : ChainInfo) (rs : list RemoteInfo) : list event :=
  el "div" (
    el "div" ((Elem "a" :: Link "/dashboard" :: [Text "← Back to Dashboard"] ++ [Fin "a"])
      ++ el "h1" (say (ChainInfo_Name c)) ++ el "p" (say ("Chain ID: " +:+ fmt_d (ChainID c))))
    ++ el "div" (stat "Head Block" (say (fmt_d (HeadBlock c)))
      ++ el "div" (el "p" [Text "Status"] ++ el "div" (badge (Chain_Status c)))
      ++ stat "Total Remotes" (say (fmt_d (RemoteCount c)))
      ++ el "div" (el "p" [Text "Health"]
           ++ el "div" (count (HealthyCount c) ++ count (UnhealthyCount c))))
    ++ el "h2" [Text "Remote Endpoints"]
    ++ Elem "div" :: Link ("/dashboard/" +:+ ChainInfo_Name c +:+ "/remotes")
         :: remotes rs ++ [Fin "div"]).

Definition index_content (cs : list ChainInfo) : list event :=
  el "div" (el "h1" [Text "Venn Dashboard"]
    ++ Elem "div" :: Link "/dashboard/chains" :: mjoin (chain_card <$> cs) ++ [Fin "div"]).

Definition script (url : string) : list event := Elem "script" :: Link url :: [Fin "script"].

Definition layout (content : list event) : list event :=
  el "html" (
    el "head" (Elem "meta" :: Elem "meta" :: el "title" [Text "Venn Dashboard"]
      ++ Elem "link" :: Link "/dashboard/static/css/output.css"
      :: script "/dashboard/static/js/htmx.min.js"
      ++ script "/dashboard/static/js/hyperscript.min.js")
    ++ el "body" (content
      ++ el "div" (el "div" (
           el "div" (el "svg" (el "circle" [] ++ [Text " "] ++ el "circle" []))
           ++ el "div" (el "span" [Text "Refreshes every 5 seconds"])))
      ++ el "script" [])).

(** *** Whatever the data, the elements are nested. *)

Lemma balanced_el n es : n ∉ void → balanced es → balanced (el n es).
Proof. apply balanced_elem. Qed.

Lemma balanced_text t es : balanced es → balanced (Text t :: es).
Proof. intros He st. apply He. Qed.

Ltac nest :=
  repeat first
    [ apply balanced_say | apply balanced_nil | assumption
    | apply balanced_el; [set_solver|] | apply balanced_text | apply balanced_link
    | apply balanced_app | apply balanced_void; [set_solver|] ].

Lemma badge_balanced s : balanced (badge s).
Proof. unfold badge. nest. Qed.

Lemma remote_card_balanced r : balanced (remote_card r).
Proof.
  unfold remote_card, behind, last_error, stat. pose proof (badge_balanced (Status r)).
  case_bool_decide; nest.
Qed.

Lemma remotes_balanced rs : balanced (remotes rs).
Proof. apply balanced_join, remote_card_balanced. Qed.

Lemma chain_card_balanced c : balanced (chain_card c).
Proof.
  unfold chain_card, stat, count. pose proof (badge_balanced (Chain_Status c)).
  nest.
Qed.

Lemma chain_content_balanced c rs : balanced (chain_content c rs).
Proof.
  unfold chain_content, stat, count. pose proof (badge_balanced (Chain_Status c)).
  pose proof (remotes_balanced rs). nest.
Qed.

Lemma index_content_balanced cs : balanced (index_content cs).
Proof.
  unfold index_content. pose proof (balanced_join _ cs chain_card_balanced). nest.
Qed.

Lemma layout_balanced es : balanced es → balanced (layout es).
Proof.
  intros Hes. unfold layout, script. nest.
Qed.
End Outline.

(** ** What is written, and what is read of it *)

Module TemplatesFacts.
Import Doctor Dashboard Reader Templates Outline.

Lemma prefix_of_refl s : prefix_of s s.
Proof. exists "". by rewrite str_app_nil. Qed.

Lemma prefix_of_app p s t : prefix_of p s → prefix_of p (s +:+ t).
Proof. intros [u ->]. exists (u +:+ t). by rewrite str_app_assoc. Qed.

Lemma prefix_of_trans p s t : prefix_of p s → prefix_of s t → prefix_of p t.
Proof. intros Hp [u ->]. by apply prefix_of_app. Qed.

(** The character references of a value that follows plain text. *)
Fixpoint plain (s : string) : bool :=
  match s with
  | EmptyString => true
  | String c s => negb (Ascii.eqb c "&") && plain s
  end.

Lemma decode_app p s : plain p = true → Html.decode (p +:+ s) = p +:+ Html.decode s.
Proof.
  induction p as [|c p IH]; [done|]. cbn [plain]. intros [Hc Hp]%andb_true_iff.
  change (Html.decode (String c (p +:+ s)) = String c (p +:+ Html.decode s)).
  rewrite Html.decode_plain, IH by (done || by intros ->). done.
Qed.

Section facts.
Context {W : Type} `{L : !Lens Http.Response W} `{T : !Templ W} `{S : !TemplSpec W}.

Lemma answering_refl w : answering w w.
Proof. split; [done|by left]. Qed.

Lemma answering_trans w w1 w2 : answering w w1 → answering w1 w2 → answering w w2.
Proof.
  intros [Hh Hs] [Hh' Hs']. split; [congruence|].
  destruct Hs as [Hs|[Hs Hs1]], Hs' as [Hs'|[Hs' ?]]; try (left; congruence); right; split; congruence.
Qed.

(** A run of [m] writes [s], or a part of it when it gives an error. *)
Definition writes (m : prog W (option goerr)) (s : string) : Prop := ∀ w, ∃ e w',
  m w = (Return e, w') ∧ answering w w' ∧
  match e with
  | None => written w' = written w +:+ s
  | Some _ => prefix_of (written w') (written w +:+ s)
  end.

Lemma writes_done : writes (mret None) "".
Proof. intros w. exists None, w. split; [done|]. split; [apply answering_refl|]. by rewrite str_app_nil. Qed.

Lemma writes_string s : writes (WriteString s) s.
Proof. intros w. apply WriteString_spec. Qed.

Lemma writes_then m k s t : writes m s → writes k t → writes (and_then m k) (s +:+ t).
Proof.
  intros Hm Hk w. unfold and_then. destruct (Hm w) as (e & w1 & Hr & Ha & He).
  destruct e as [e|].
  - exists (Some e), w1. rewrite (prog_bind_return _ _ _ _ _ Hr). split; [done|]. split; [done|].
    rewrite <- str_app_assoc. by apply prefix_of_app.
  - destruct (Hk w1) as (e & w2 & Hr' & Ha' & He'). exists e, w2.
    rewrite (prog_bind_return _ _ _ _ _ Hr). split; [done|]. split; [by eapply answering_trans|].
    by rewrite <- str_app_assoc, <- He.
Qed.

Lemma writes_generated body s : writes body s → writes (GeneratedTemplate body true) s.
Proof.
  intros Hb w. unfold GeneratedTemplate. destruct (ctx_Err_spec w) as (e & w1 & Hr & Hb1 & Hh1 & Ha).
  assert (written w1 = written w) as He by (unfold written; by rewrite Hb1, Hh1).
  destruct e as [e|].
  - exists (Some e), w1. rewrite (prog_bind_return _ _ _ _ _ Hr). split; [done|]. split; [done|].
    rewrite He. apply prefix_of_app, prefix_of_refl.
  - destruct (Hb w1) as (e & w2 & Hr' & Ha' & He'). exists e, w2.
    rewrite (prog_bind_return _ _ _ _ _ Hr). split; [done|]. split; [by eapply answering_trans|].
    by rewrite <- He.
Qed.

(** From [st], what [m] writes is read as [es] and leads to [st']. *)
Definition leads (st : state) (m : prog W (option goerr)) (es : list event) (st' : state) : Prop :=
  ∃ s ks, writes m s ∧ Reader.read st s = (ks, st') ∧ events ks = es.

Lemma leads_done st : leads st (mret None) [] st.
Proof. exists "", []. split; [apply writes_done|done]. Qed.

Lemma leads_then st m es st1 k fs st2 :
  leads st m es st1 → leads st1 k fs st2 → leads st (and_then m k) (es ++ fs) st2.
Proof.
  intros (s & ks & Hm & Hs & <-) (t & ls & Hk & Ht & <-). exists (s +:+ t), (ks ++ ls).
  split; [by apply writes_then|]. by rewrite read_app, Hs, Ht, events_app.
Qed.

Lemma leads_generated st body es st' :
  leads st body es st' → leads st (GeneratedTemplate body true) es st'.
Proof. intros (s & ks & Hb & Hs). exists s, ks. split; [by apply writes_generated|done]. Qed.

Lemma leads_eq st m es es' st' : leads st m es st' → es = es' → leads st m es' st'.
Proof. by intros H <-. Qed.

(** A literal, evaluated. *)
Definition scan (st : state) (s : string) : list event * state :=
  let '(ks, st') := Reader.read st (q s) in (events ks, st').

Lemma leads_lit st s es st' : scan st s = (es, st') → leads st (lit s) es st'.
Proof.
  unfold scan. destruct (Reader.read st (q s)) as [ks st1] eqn:Hs. intros [= <- <-].
  exists (q s), ks. split; [apply writes_string|done].
Qed.

(** A literal that ends a text. *)
Lemma leads_close t s es st' :
  scan Tag s = (es, st') → leads (Data t) (lit (String "<" s)) (say (Html.decode t) ++ es) st'.
Proof.
  unfold scan. destruct (Reader.read Tag (q s)) as [ks st1] eqn:Hs. intros [= <- <-].
  exists (q (String "<" s)), (Chars t :: ks). split; [apply writes_string|]. split; [|done].
  change (q (String "<" s)) with (String "<" (q s)). cbn [Reader.read step Ascii.eqb Bool.eqb].
  by rewrite Hs.
Qed.

(** A literal that ends an attribute. *)
Lemma leads_quote n a v s es st' :
  scan (Attrs n) s = (es, st') →
  leads (AttrValue n a v) (lit (String "`" s)) (events_of (Attr a v) ++ es) st'.
Proof.
  unfold scan. destruct (Reader.read (Attrs n) (q s)) as [ks st1] eqn:Hs. intros [= <- <-].
  exists (q (String "`" s)), (Attr a v :: ks). split; [apply writes_string|]. split; [|done].
  change (q (String "`" s)) with (String Html.dq (q s)). cbn [Reader.read step Ascii.eqb Bool.eqb Html.dq].
  by rewrite Hs.
Qed.

Lemma leads_value_text t joined s f l c :
  joined = Ok s → leads (Data t) (value joined f l c) [] (Data (t +:+ EscapeString s)).
Proof.
  intros ->. exists (EscapeString s), []. split; [apply writes_string|].
  by rewrite read_text by apply EscapeString_tame.
Qed.

Lemma leads_text t f l c s : leads (Data t) (text f l c s) [] (Data (t +:+ EscapeString s)).
Proof. apply leads_value_text, JoinStringErrs_one. Qed.

Lemma leads_value_attr n a v joined s f l c :
  joined = Ok s → leads (AttrValue n a v) (value joined f l c) [] (AttrValue n a (v +:+ EscapeString s)).
Proof.
  intros ->. exists (EscapeString s), []. split; [apply writes_string|].
  by rewrite read_value by apply EscapeString_tame.
Qed.

Lemma leads_attr n a v f l c s :
  leads (AttrValue n a v) (text f l c s) [] (AttrValue n a (v +:+ EscapeString s)).
Proof. apply leads_value_attr, JoinStringErrs_one. Qed.

Lemma leads_href n a v f l c s :
  leads (AttrValue n a v) (href f l c s) [] (AttrValue n a (v +:+ EscapeString s)).
Proof. apply leads_value_attr, JoinURLErrs_one. Qed.

Lemma leads_each {A} (f : A → Component) (o : A → list event) xs :
  (∀ x, leads (Data "") (f x true) (o x) (Data "")) →
  leads (Data "") (render_each f xs) (mjoin (o <$> xs)) (Data "").
Proof.
  intros Hf. induction xs as [|x xs IH]; [apply leads_done|].
  rewrite mjoin_fmap_cons. eapply leads_then; [apply Hf|exact IH].
Qed.
End facts.

(** Follow a template, one write after the other. *)
Ltac scanned := vm_compute; reflexivity.
Ltac follow :=
  lazymatch goal with
  | |- leads _ (and_then _ _) _ _ => eapply leads_then; [follow|follow]
  | |- leads _ (GeneratedTemplate _ true) _ _ => apply leads_generated; follow
  | |- leads (AttrValue _ _ _) (lit _) _ _ => eapply leads_quote; scanned
  | |- leads (Data _) (lit _) _ _ => first [eapply leads_close; scanned | apply leads_lit; scanned]
  | |- leads (Data _) (text _ _ _ _) _ _ => first [apply leads_text | apply (leads_text "")]
  | |- leads (AttrValue _ _ _) (text _ _ _ _) _ _ => apply leads_attr
  | |- leads (AttrValue _ _ _) (href _ _ _ _) _ _ => apply leads_href
  | |- leads _ (mret None) _ _ => apply leads_done
  | |- _ => eauto with pages
  end.

(** Both sides as one list of events. *)
Ltac settle :=
  change (say (Html.decode "")) with (@nil event);
  repeat match goal with
  | |- context [events_of (Attr ?a ?v)] => change (events_of (Attr a v)) with [Link (Html.decode v)]
  end;
  repeat (rewrite decode_app by reflexivity); rewrite ?EscapeString_decode;
  repeat (rewrite <- app_assoc; cbn [app]); reflexivity.
Ltac template := eapply leads_eq; [follow|].

Create HintDb pages.

Section templates.
Context {W : Type} `{L : !Lens Http.Response W} `{T : !Templ W} `{S : !TemplSpec W}.

Lemma leads_badge s : leads (Data "") (StatusBadge s true) (badge s) (Data "").
Proof. unfold StatusBadge. destruct s; (template; reflexivity). Qed.
#[local] Hint Resolve leads_badge : pages.

Lemma leads_card_body c : ∃ body, ChainCard c = GeneratedTemplate body ∧
  leads (Data "") body (chain_card c) (Data "").
Proof.
  eexists. split; [reflexivity|]. template. unfold chain_card, stat, count, el. settle.
Qed.

Lemma leads_chain_card c : leads (Data "") (ChainCard c true) (chain_card c) (Data "").
Proof. destruct (leads_card_body c) as (body & -> & Hb). by apply leads_generated. Qed.

Lemma leads_cards cs :
  leads (Data "") (render_each ChainCard cs) (mjoin (chain_card <$> cs)) (Data "").
Proof. apply leads_each, leads_chain_card. Qed.
#[local] Hint Resolve leads_cards : pages.

Lemma leads_index_content cs : leads (Data "") (IndexContent cs true) (index_content cs) (Data "").
Proof. unfold IndexContent. template. unfold index_content, el. settle. Qed.

Lemma leads_layout c es :
  leads (Data "") (c true) es (Data "") → leads (Data "") (Layout c true) (layout es) (Data "").
Proof. intros Hc. unfold Layout. template. unfold layout, script, el. settle. Qed.

(** The parts of a card. *)
Lemma leads_lookback r : leads (Data "") (RemoteCard_lookback r) []
  (Data (if 0 <? MaxBlockLookback r then EscapeString (fmt_d (MaxBlockLookback r)) else "∞")).
Proof. unfold RemoteCard_lookback. case_match; follow. Qed.

Lemma leads_duration line d : leads (Data "") (RemoteCard_duration line d) []
  (Data (if 0 <? d then EscapeString (Time.format (Round d Microsecond)) else "0s")).
Proof. unfold RemoteCard_duration. case_match; follow. Qed.

Lemma decode_choice (b : bool) s t : plain t = true →
  Html.decode (if b then EscapeString s else t) = if b then s else t.
Proof.
  intros Ht. destruct b; [apply EscapeString_decode|].
  rewrite <- (str_app_nil t) at 1. by rewrite decode_app, str_app_nil.
Qed.

Lemma leads_behind r : leads (Data "") (RemoteCard_behind r) (behind (BlocksBehind r)) (Data "").
Proof. unfold RemoteCard_behind, behind. case_match; template; unfold el; settle. Qed.

Lemma leads_error r : leads (Data "") (RemoteCard_error r) (last_error (LastError r)) (Data "").
Proof.
  unfold RemoteCard_error, last_error. case_bool_decide; cbn [negb]; [follow|].
  template. unfold el. settle.
Qed.
#[local] Hint Resolve leads_lookback leads_duration leads_behind leads_error : pages.

Lemma leads_remote_card r : leads (Data "") (RemoteCard r true) (remote_card r) (Data "").
Proof.
  unfold RemoteCard, RemoteCard_name, RemoteCard_stats, RemoteCard_latency.
  destruct (Latency r) as [[avg least] most] eqn:Hl. template.
  rewrite !decode_choice by reflexivity.
  unfold remote_card, stat, duration, el. rewrite Hl. settle.
Qed.

Lemma leads_remotes rs : leads (Data "") (RemotesList rs true) (remotes rs) (Data "").
Proof. apply leads_generated, leads_each, leads_remote_card. Qed.
#[local] Hint Resolve leads_remotes : pages.

Lemma leads_chain_content c rs :
  leads (Data "") (ChainDetailContent c rs true) (chain_content c rs) (Data "").
Proof. unfold ChainDetailContent. template. unfold chain_content, stat, count, el. settle. Qed.
End templates.
End TemplatesFacts.

(** ** Properties *)

Module TemplatesProps.
Import Doctor Dashboard Reader Templates Outline TemplatesFacts.

Section props.
Context {W : Type} `{L : !Lens Http.Response W} `{T : !Templ W} `{S : !TemplSpec W}.

(** A response with [c] rendered into it: the page reads as [es], whose elements
    are nested; with an error, it may have been cut off anywhere. *)
Definition shows (c : Component) (es : list event) : Prop := ∀ w, held w = "" → ∃ e w' page,
  c false w = (Return e, w') ∧ answering w w' ∧ held w' = "" ∧
  outline page = Some es ∧ well_nested es ∧
  match e with
  | None => Http.Body (lget w') = Http.Body (lget w) +:+ page
  | Some _ => prefix_of (Http.Body (lget w')) (Http.Body (lget w) +:+ page)
  end.

Lemma generated_shows body es :
  leads (Data "") body es (Data "") → balanced es → shows (GeneratedTemplate body) es.
Proof.
  intros (page & ks & Hw & Hr & <-) Hes w Hw0.
  assert (outline page = Some (events ks)) as Ho.
  { unfold outline. rewrite Hr. change (say (Html.decode "")) with (@nil event). by rewrite app_nil_r. }
  unfold GeneratedTemplate. destruct (ctx_Err_spec w) as (e & w1 & Hr1 & Hb1 & Hh1 & Ha1).
  destruct e as [e|].
  { exists (Some e), w1, page. rewrite (prog_bind_return _ _ _ _ _ Hr1), Hb1, Hh1.
    split_and!; try done. - apply Hes. - apply prefix_of_app, prefix_of_refl. }
  destruct (GetBuffer_spec w1) as (w2 & Hr2 & Hb2 & Hh2 & Ha2).
  destruct (Hw w2) as (e & w3 & Hr3 & Ha3 & He3).
  destruct (ReleaseBuffer_spec w3) as (e' & w4 & Hr4 & Ha4 & Hh4 & He4).
  assert (written w2 = Http.Body (lget w)) as H2.
  { unfold written. by rewrite Hh2, str_app_nil, Hb2. }
  rewrite H2 in He3.
  exists (match e with None => e' | Some _ => e end), w4, page.
  rewrite (prog_bind_return _ _ _ _ _ Hr1), (prog_bind_return _ _ _ _ _ Hr2),
    (prog_bind_return _ _ _ _ _ Hr3), (prog_bind_return _ _ _ _ _ Hr4).
  split; [done|]. split; [eauto using answering_trans|].
  split; [done|]. split; [done|]. split; [apply Hes|].
  destruct e as [e|], e' as [e'|].
  - by eapply prefix_of_trans.
  - by rewrite He4.
  - by rewrite <- He3.
  - by rewrite He4.
Qed.

Lemma detail_shows c rs : shows (ChainDetail c rs) (layout (chain_content c rs)).
Proof.
  apply generated_shows; [apply leads_layout, leads_chain_content|].
  apply layout_balanced, chain_content_balanced.
Qed.

(** C9: what the dashboard's pages say.  Whatever the names of chains and remotes
    are, and whatever error a remote answered with, a reader of the page meets
    the elements of the template, nested, and the data as text or as the target
    of a link, byte for byte: none of it can become markup.  The detail of a
    chain and the overview are framed by the layout; their parts are also sent
    alone. *)
Theorem pages_read cs c rs :
  shows (Index cs) (layout (index_content cs)) ∧
  shows (ChainDetail c rs) (layout (chain_content c rs)) ∧
  shows (RemotesList rs) (remotes rs) ∧
  shows (ChainCard c) (chain_card c).
Proof.
  split; [|split; [|split]].
  - apply generated_shows.
    + apply leads_layout, leads_index_content.
    + apply layout_balanced, index_content_balanced.
  - apply detail_shows.
  - apply generated_shows; [apply leads_each, leads_remote_card|apply remotes_balanced].
  - destruct (leads_card_body c) as (body & -> & Hb).
    apply generated_shows; [exact Hb|apply chain_card_balanced].
Qed.
End props.
End TemplatesProps.

(** ** The library over a connection that may be gone *)

Module StdTempl.
Section world.
Context {X : Type}.

(** Beside the rest: the response, what the buffer holds, and whether the client
    still reads. *)
Abbreviation world := (X * (Http.Response * (string * bool)))%type.

#[export] Instance std : Templ world := {|
  ctx_Err := λ w : world, (Return (if w.2.2.2 then None else Some (ESentinel Canceled)), w);
  GetBuffer := λ w : world, (Return (), (w.1, (w.2.1, ("", w.2.2.2))));
  WriteString := λ s (w : world), (Return None, (w.1, (w.2.1, (w.2.2.1 +:+ s, w.2.2.2))));
  ReleaseBuffer := λ w : world,
    if w.2.2.2 then (Return None, (w.1, (Http.Write w.2.2.1 w.2.1, ("", true))))
    else (Return (Some (ESentinel ErrClosed)), (w.1, (w.2.1, ("", false))));
  EscapeString := Html.EscapeString;
  JoinStringErrs := Ok;
  JoinURLErrs := Ok;
  templ_Error := λ e _ _ _, e;
|}.

#[export] Instance std_spec : TemplSpec world.
Proof.
  refine {| held := λ w : world, w.2.2.1 |}.
  - intros w. eexists _, w. split; [done|]. split_and!; try done. by left.
  - intros w. eexists. split; [done|]. split_and!; try done. by left.
  - intros s [y [x [b alive]]]. eexists None, _. split; [done|]. split; [split; [done|by left]|].
    cbn. by rewrite str_app_assoc.
  - intros [y [x [b []]]]; cbn; eexists _, _; (split; [done|]).
    + split; [|done]. split; [done|]. cbn. destruct (Http.Status x); [by left|by right].
    + split; [split; [done|by left]|]. split; [done|]. cbn. by exists b.
  - apply Html.escape_tame.
  - apply Html.decode_escape.
  - done.
  - done.
Defined.
End world.
End StdTempl.

Module TemplatesWitness.
Import Doctor Dashboard Reader Templates Outline TemplatesFacts TemplatesProps StdTempl.

(** A remote that answered with markup. *)
Definition r0 : RemoteInfo := {|
  Info_Name := "a&b"; Dashboard.Status := HealthStatusUnhealthy; LatestBlock := 100; BlocksBehind := 3;
  ResponseTime := "4s"; Latency := (1500000, 0, 2000000000);
  LastError := "</p><script>alert(1)</script>"; Info_Priority := 1; MaxBlockLookback := 0;
  RequestsPerMin := (1 # 4) |}.
Definition c0 : ChainInfo := {|
  ChainInfo_Name := "ethereum"; ChainID := 1; HeadBlock := 103; Chain_Status := HealthStatusUnhealthy;
  RemoteCount := 1; HealthyCount := 0; UnhealthyCount := 1 |}.
Definition w0 : () * (Http.Response * (string * bool)) := ((), (Http.fresh, ("", true))).

(** Its error is text. *)
Lemma pages_read_witness :
  ∃ page, RemotesList [r0] false w0 =
      (Return None, ((), ({| Http.Header := ∅; Http.Status := Some 200; Http.Body := page |}, ("", true)))) ∧
    outline page = Some (remotes [r0]) ∧
    Text "</p><script>alert(1)</script>" ∈ remotes [r0] ∧ Elem "script" ∉ remotes [r0].
Proof.
  destruct (pages_read (S := std_spec (X := ())) [c0] c0 [r0]) as (_ & _ & Hr & _).
  destruct (Hr w0 eq_refl) as (e & w' & page & Hrun & _ & _ & Ho & _ & Hb).
  remember (RemotesList [r0] false w0) as run eqn:Hrem. vm_compute in Hrem. rewrite Hrem in Hrun.
  injection Hrun as <- <-. exists page. split.
  { rewrite Hrem. cbn in Hb. by rewrite Hb. }
  split; [exact Ho|]. split.
  - apply list_elem_of_In. vm_compute. tauto.
  - intros Hin%list_elem_of_In. vm_compute in Hin. intuition discriminate.
Defined.
End TemplatesWitness.
