(* ===== verification/Pages.v ===== *)
(** * The requests to the dashboard: [dashboard/handler.go]

    The routes under /dashboard, and what each answers: the data of [Dashboard]
    rendered by [Templates] into the response of the standard library.  How chi
    finds a route is [Mux], with what holds of any of its routers: a path that
    is a pattern itself gets its handler, and a path that one pattern matches
    gets that one's. *)
From S2P Require Import Prelude Errors Json EthTypes Config HeadStore Clusters Html Doctor Dashboard Templates.
From Stdlib Require Import QArith_base.
#[local] Open Scope Z_scope.

(** ** Patterns of github.com/go-chi/chi *)

Inductive segment : Type :=
  | Lit (s : string)
  | Param (name : string)       (* {name} *)
  | Rest.                       (* * *)

#[export] Instance segment_eq_dec : EqDecision segment.
Proof. solve_decision. Defined.

(** What the pattern's parameters stand for, if it matches the path, a list of
    segments too; a parameter is not empty. *)
Fixpoint matches (pattern : list segment) (path : list string) : option (list (string * string)) :=
  match pattern, path with
  | [], [] => Some []
  | Rest :: _, _ :: _ => Some []
  | Lit s :: pattern, d :: path => if bool_decide (s = d) then matches pattern path else None
  | Param x :: pattern, d :: path =>
      if bool_decide (d = "") then None else cons (x, d) <$> matches pattern path
  | _, _ => None
  end.

Definition literal (path : list string) : list segment := Lit <$> path.

Class Mux := {
  find_route : ∀ {A}, list (list segment * A) → list string → option (A * list (string * string));
}.
Class MuxSpec `{M : Mux} : Prop := {
  find_literal {A} (rs : list (list segment * A)) path a :
    NoDup rs.*1 → (literal path, a) ∈ rs → find_route rs path = Some (a, []);
  find_only {A} (rs : list (list segment * A)) path p a ps :
    (p, a) ∈ rs → matches p path = Some ps →
    (∀ p' a', (p', a') ∈ rs → is_Some (matches p' path) → p' = p ∧ a' = a) →
    find_route rs path = Some (a, ps);
}.

(** ** The handlers *)

Module Pages.
Import Doctor Dashboard Templates.

Section pages.
Context {W : Type} `{M : Mux} `{L : !Lens targets W} `{H : HeadStore W}.
Context `{LR : !Lens Http.Response W} `{T : !Templ W}.
Context (stats : list Z → Z * Z * Z) (requests : string → string → Q) (since : Z → string).
Context (Remotes : gset string).
Context (orders : string → list string * list string) (clocks : string → string → Z).
(** The chains of the handler, and the order in which their map is iterated. *)
Context (chains : gmap string Chain) (order : list Chain).

Definition respond (f : Http.Response → Http.Response) : prog W () := modify f.

Definition setNoCacheHeaders (w : Http.Response) : Http.Response :=
  Http.Set_ "Expires" "0" (Http.Set_ "Pragma" "no-cache"
    (Http.Set_ "Cache-Control" "no-cache, no-store, must-revalidate" w)).

Definition failed : Http.Response → Http.Response :=
  Http.Error "Failed to render template" Http.StatusInternalServerError.
Definition notFound : Http.Response → Http.Response :=
  Http.Error "Chain not found" Http.StatusNotFound.

(** [component.Render], and the error. *)
Definition render (component : Component) : prog W () :=
  err ← component false;
  match err with
  | Some _ => respond failed
  | None => mret ()
  end.

Definition infos : prog W (list ChainInfo) :=
  getChainInfos stats requests since Remotes orders clocks order.

Definition handleDashboard : prog W () := chains ← infos; render (Index chains).

Fixpoint render_cards (chains : list ChainInfo) : prog W () :=
  match chains with
  | [] => mret ()
  | chain :: chains =>
      err ← ChainCard chain false;
      match err with
      | Some _ => respond failed
      | None => render_cards chains
      end
  end.

Definition handleChainsUpdate : prog W () :=
  _ ← respond setNoCacheHeaders;
  chains ← infos;
  render_cards chains.

Definition remote_infos (chainName : string) (chain : Chain) (headBlock : Z)
    : prog W (list RemoteInfo) :=
  getRemoteInfos stats requests since (orders chainName).1 (clocks chainName) chainName chain headBlock.

(** The data of the page of a chain. *)
Definition chain_detail (chainName : string) (chain : Chain) : prog W (ChainInfo * list RemoteInfo) :=
  headBlock ← head_block chain;
  remotes ← remote_infos chainName chain headBlock;
  status ← getChainStatus Remotes (orders chainName).2 (clocks chainName) chainName;
  mret (chain_info chain headBlock remotes status, remotes).

Definition handleChainDetail (chainName : string) : prog W () :=
  match chains !! chainName with
  | None => respond notFound
  | Some chain =>
      '(data, remotes) ← chain_detail chainName chain;
      render (ChainDetail data remotes)
  end.

Definition handleRemotesUpdate (chainName : string) : prog W () :=
  _ ← respond setNoCacheHeaders;
  match chains !! chainName with
  | None => respond notFound
  | Some chain =>
      headBlock ← head_block chain;
      remotes ← remote_infos chainName chain headBlock;
      render (RemotesList remotes)
  end.

(** ** The routes *)

Inductive endpoint : Type := Static | Dashboard | ChainsUpdate | ChainDetail_ | RemotesUpdate.

(** The paths are those behind /dashboard. *)
Definition Mount : list (list segment * endpoint) :=
  [([Lit "static"; Rest], Static);
   ([Lit ""], Dashboard);
   ([Lit "chains"], ChainsUpdate);
   ([Param "chainName"], ChainDetail_);
   ([Param "chainName"; Lit "remotes"], RemotesUpdate)].

(** [chi.URLParam]: empty without the parameter. *)
Definition URLParam (ps : list (string * string)) (x : string) : string :=
  default "" (snd <$> List.find (λ p, bool_decide (p.1 = x)) ps).

Context (files : list string → prog W ()).   (* http.FileServer *)
Context (no_route : prog W ()).              (* chi: not found *)

Definition serve (path : list string) : prog W () :=
  match find_route Mount path with
  | None => no_route
  | Some (Static, _) => files path
  | Some (Dashboard, _) => handleDashboard
  | Some (ChainsUpdate, _) => handleChainsUpdate
  | Some (ChainDetail_, ps) => handleChainDetail (URLParam ps "chainName")
  | Some (RemotesUpdate, ps) => handleRemotesUpdate (URLParam ps "chainName")
  end.
End pages.
End Pages.

(** ** Lemmas *)

Module PagesFacts.
Import Doctor Pages.

Section facts.
Context `{MS : MuxSpec}.

Lemma mount_patterns : NoDup Mount.*1.
Proof. apply (bool_decide_unpack (NoDup Mount.*1)). vm_compute. done. Qed.

Lemma route_chains : find_route Mount ["chains"] = Some (ChainsUpdate, []).
Proof. apply find_literal; [apply mount_patterns|]. set_solver. Qed.

(** Any other name of one segment is the name of a chain. *)
Lemma route_chain name :
  name ≠ "" → name ≠ "chains" → find_route Mount [name] = Some (ChainDetail_, [("chainName", name)]).
Proof.
  intros Hn Hc. apply find_only with (p := [Param "chainName"]).
  - apply list_elem_of_In. cbn. tauto.
  - cbn. by rewrite bool_decide_eq_false_2.
  - intros p' a' Hin%list_elem_of_In [ps Hm]. cbn in Hin. destruct_or! Hin; simplify_eq;
      cbn in Hm; repeat case_bool_decide; naive_solver.
Qed.

Lemma route_remotes name :
  name ≠ "" → name ≠ "static" →
  find_route Mount [name; "remotes"] = Some (RemotesUpdate, [("chainName", name)]).
Proof.
  intros Hn Hc. apply find_only with (p := [Param "chainName"; Lit "remotes"]).
  - apply list_elem_of_In. cbn. tauto.
  - cbn. by rewrite bool_decide_eq_false_2.
  - intros p' a' Hin%list_elem_of_In [ps Hm]. cbn in Hin. destruct_or! Hin; simplify_eq;
      cbn in Hm; repeat case_bool_decide; naive_solver.
Qed.
End facts.

Section render.
Context {W : Type} `{LR : !Lens Http.Response W} `{T : !Templ W} `{S : !TemplSpec W}.
Import Reader TemplatesFacts TemplatesProps.

(** A response that was complete before and has been completed with the page, or
    with a part of it and the text of the error. *)
Definition sent (es : list event) (x y : Http.Response) : Prop := ∃ page,
  outline page = Some es ∧ well_nested es ∧
  ((Http.Header y = Http.Header x ∧ Http.Body y = Http.Body x +:+ page ∧
    (Http.Status y = Http.Status x ∨ Http.Status x = None ∧ Http.Status y = Some Http.StatusOK)) ∨
   ∃ part status, prefix_of part (Http.Body x +:+ page) ∧
     Http.Body y = part +:+ "Failed to render template" +:+ Http.newline ∧
     Http.Status y = Some status ∧
     (Http.Status x = Some status ∨ Http.Status x = None ∧
        (status = Http.StatusOK ∨ status = Http.StatusInternalServerError))).

Lemma Set_keeps k v x : Http.Body (Http.Set_ k v x) = Http.Body x ∧ Http.Status (Http.Set_ k v x) = Http.Status x.
Proof. unfold Http.Set_. by destruct (Http.Status x) eqn:Hx. Qed.

Lemma Del_keeps k x : Http.Body (Http.Del k x) = Http.Body x ∧ Http.Status (Http.Del k x) = Http.Status x.
Proof. unfold Http.Del. by destruct (Http.Status x) eqn:Hx. Qed.

Lemma Error_body text code x : Http.Body (Http.Error text code x) = Http.Body x +:+ text +:+ Http.newline.
Proof. cbn. by rewrite !(proj1 (Set_keeps _ _ _)), (proj1 (Del_keeps _ _)). Qed.

Lemma Error_status text code x : Http.Status (Http.Error text code x) = Some (default code (Http.Status x)).
Proof. cbn. by rewrite !(proj2 (Set_keeps _ _ _)), (proj2 (Del_keeps _ _)). Qed.

Lemma render_run c es w :
  shows c es → held w = "" →
  ∃ w', render c w = (Return (), w') ∧ sent es (lget w) (lget w').
Proof.
  intros Hc Hw. destruct (Hc w Hw) as (e & w1 & page & Hr & [Hh Hs] & _ & Ho & Hn & Hb).
  unfold render. rewrite (prog_bind_return _ _ _ _ _ Hr). destruct e as [e|].
  - unfold respond, modify. eexists. split; [reflexivity|]. exists page. split; [done|]. split; [done|].
    right. rewrite lget_lput. exists (Http.Body (lget w1)).
    eexists. split; [done|]. split; [apply Error_body|]. split; [apply Error_status|].
    destruct Hs as [->|[-> ->]]; [destruct (Http.Status (lget w)); [by left|right]|right];
      (split; [done|]); [by right|by left].
  - exists w1. split; [done|]. exists page. split; [done|]. split; [done|]. by left.
Qed.
End render.
End PagesFacts.

(** ** Properties *)

Module PagesProps.
Import Doctor Dashboard Templates Outline Pages PagesFacts TemplatesProps.

Section props.
Context {W : Type} `{MS : MuxSpec} `{L : !Lens targets W} `{H : HeadStore W}.
Context `{LR : !Lens Http.Response W} `{T : !Templ W} `{S : !TemplSpec W}.
Context (stats : list Z → Z * Z * Z) (requests : string → string → Q) (since : Z → string).
Context (Remotes : gset string).
Context (orders : string → list string * list string) (clocks : string → string → Z).
Context (chains : gmap string Chain) (order : list Chain).
Context (files : list string → prog W ()) (no_route : prog W ()).

#[local] Abbreviation get :=
  (serve stats requests since Remotes orders clocks chains order files no_route).

(** GET /dashboard/{name}.  A name that is not configured is not found; the
    page of a configured chain reads as its data and its remotes, whatever they
    are named and answered; a failure to render leaves a part of the page with the
    text of the error behind it, under the status that was sent with the part.  A
    chain named "chains" has no page: its path is that of the overview's cards. *)
Theorem chain_page name w :
  name ≠ "" →
  if decide (name = "chains") then
    get [name] w = handleChainsUpdate stats requests since Remotes orders clocks order w
  else match chains !! name with
  | None => get [name] w = (Return (), lput (notFound (lget w)) w)
  | Some chain => ∀ data remotes w1,
      chain_detail stats requests since Remotes orders clocks name chain w
        = (Return (data, remotes), w1) → held w1 = "" →
      ∃ w', get [name] w = (Return (), w') ∧
        sent (layout (chain_content data remotes)) (lget w1) (lget w')
  end.
Proof.
  intros Hn. unfold serve. destruct (decide (name = "chains")) as [->|Hc].
  { by rewrite route_chains. }
  rewrite route_chain by done. cbn [URLParam List.find fst bool_decide]. unfold handleChainDetail.
  change (URLParam [("chainName", name)] "chainName") with name.
  destruct (chains !! name) as [chain|]; [|done].
  intros data rs w1 Hr Hw. rewrite (prog_bind_return _ _ _ _ _ Hr).
  apply render_run; [|done]. apply detail_shows.
Qed.
End props.
End PagesProps.

Module PagesWitness.
Import Doctor Dashboard Templates Outline Pages PagesFacts PagesProps StdTempl.

(** A router that looks for the path, then for the first pattern. *)
#[local] Instance mux : Mux := {|
  find_route A rs path :=
    match List.find (λ x, bool_decide (x.1 = literal path)) rs with
    | Some (_, a) => Some (a, [])
    | None => '(_, a, ps) ← head (omap (λ x, pair x <$> matches x.1 path) rs); Some (a, ps)
    end |}.

Lemma matches_literal path : matches (literal path) path = Some [].
Proof. induction path as [|d path IH]; [done|]. cbn. by rewrite bool_decide_eq_true_2. Qed.

Lemma one_handler {A B} (rs : list (A * B)) p a b :
  NoDup rs.*1 → (p, a) ∈ rs → (p, b) ∈ rs → a = b.
Proof.
  intros Hnd [i Hi]%list_elem_of_lookup [j Hj]%list_elem_of_lookup.
  assert (i = j) as -> by (eapply (NoDup_lookup rs.*1); [done|..]; by rewrite list_lookup_fmap, ?Hi, ?Hj).
  by simplify_eq.
Qed.

#[local] Instance mux_spec : MuxSpec.
Proof.
  split; intros A rs path.
  - intros a Hnd Hin. cbn. destruct (List.find _ rs) as [[p b]|] eqn:Hf.
    + apply find_some in Hf as [Hb Hp%bool_decide_eq_true]. cbn in Hp. subst p.
      apply list_elem_of_In in Hb. by rewrite (one_handler _ _ _ _ Hnd Hin Hb).
    + apply list_elem_of_In in Hin. apply (find_none _ _ Hf) in Hin.
      cbn in Hin. by rewrite bool_decide_eq_true_2 in Hin.
  - intros p a ps Hin Hm Honly. cbn. destruct (List.find _ rs) as [[p' b]|] eqn:Hf.
    + apply find_some in Hf as [Hb Hp%bool_decide_eq_true]. cbn in Hp. subst p'.
      apply list_elem_of_In in Hb. destruct (Honly _ _ Hb) as [<- ->].
      { by rewrite matches_literal. }
      rewrite matches_literal in Hm. by injection Hm as <-.
    + destruct (omap _ rs) as [|[[p' b] qs] l] eqn:Ho.
      * exfalso. assert ((p, a, ps) ∈ omap (λ x, pair x <$> matches x.1 path) rs) as Hx.
        { apply list_elem_of_omap. exists (p, a). cbn. by rewrite Hm. }
        rewrite Ho in Hx. by apply elem_of_nil in Hx.
      * assert ((p', b, qs) ∈ omap (λ x, pair x <$> matches x.1 path) rs) as Hx.
        { rewrite Ho. by left. }
        apply list_elem_of_omap in Hx as ([p1 b1] & Hx & Hq).
        destruct (matches p1 path) as [qs1|] eqn:Hm1; cbn in Hq; rewrite Hm1 in Hq; [|done].
        injection Hq as -> -> ->. destruct (Honly _ _ Hx) as [-> ->]; [by eexists|].
        cbn. rewrite Hm in Hm1. by injection Hm1 as ->.
Qed.

(** A node with one chain and one checked remote; the client reads, or not. *)
Definition chain0 : Chain := ClustersWitness.chain0.
Definition world0 (alive : bool) : targets * (Http.Response * (string * bool)) :=
  (DashboardWitness.targets0, (Http.fresh, ("", alive))).
#[local] Instance heads0 : HeadStore (targets * (Http.Response * (string * bool))) :=
  {| hs_Get _ := mret (Ok 100); hs_Put _ _ := mret (Ok 100) |}.

Definition order0 : string → list string * list string :=
  λ _, ([Remote_Name ClustersWitness.cfg0], [Remote_Name ClustersWitness.cfg0]).
Definition get0 (path : list string) : prog (targets * (Http.Response * (string * bool))) () :=
  serve (M := mux) DashboardWitness.stats0 DashboardWitness.requests0 DashboardWitness.since0
    {["ethereum"]} order0 (λ _ _, 5 * Second) {["ethereum" := chain0]} [chain0]
    (λ _, mret ()) (mret ()) path.

Definition detail0 : outcome (ChainInfo * list RemoteInfo) * (targets * (Http.Response * (string * bool))) :=
  Eval vm_compute in chain_detail DashboardWitness.stats0 DashboardWitness.requests0
    DashboardWitness.since0 {["ethereum"]} order0 (λ _ _, 5 * Second) "ethereum" chain0 (world0 true).

Lemma chain_page_witness :
  ∃ data remotes w', get0 ["ethereum"] (world0 true) = (Return (), w') ∧
    sent (layout (chain_content data remotes)) Http.fresh w'.2.1 ∧
    HealthyCount data = 1 ∧ Info_Name <$> remotes = [Remote_Name ClustersWitness.cfg0].
Proof.
  pose proof (chain_page (S := std_spec) DashboardWitness.stats0 DashboardWitness.requests0
    DashboardWitness.since0 {["ethereum"]} order0 (λ _ _, 5 * Second) {["ethereum" := chain0]}
    [chain0] (λ _, mret ()) (mret ()) "ethereum" (world0 true) ltac:(done)) as H.
  rewrite decide_False in H by done. rewrite lookup_singleton_eq in H.
  assert (chain_detail DashboardWitness.stats0 DashboardWitness.requests0 DashboardWitness.since0
    {["ethereum"]} order0 (λ _ _, 5 * Second) "ethereum" chain0 (world0 true) = detail0) as Hd
    by (vm_compute; reflexivity).
  destruct (H _ _ _ Hd eq_refl) as (w' & Hr & Hs).
  eexists _, _, w'. split; [exact Hr|]. split; [exact Hs|]. split; vm_compute; reflexivity.
Defined.
End PagesWitness.
