(* ===== verification/Wiring.v ===== *)
(** * How the processes are put together: [cmd/venn], and the [Params], [Result]
    and lifecycle hooks of the components

    [node.go] and [gateway.go] hand constructors to fx, which finds out by the
    types of their parameters in which order to call them.  A constructor is here
    what fx sees of it: the types it takes, those it gives, and the hooks it
    appends to the lifecycle.  Of fx itself ([Fx]) only what it documents is
    used.  The types that libraries give (fxplus, gotel, fx) are [supplied], and
    fxplus.StatLogger, which both commands invoke too, is left out. *)
From S2P Require Import Prelude.

(** ** Constructors *)

Inductive param : Type :=
  | Need (t : string)
  | Optional (t : string)
  | Group (g : string).         (* all values of the group *)

Definition param_type (p : param) : string :=
  match p with Need t | Optional t => t | Group g => "group:" +:+ g end.

(** What hooks do. *)
Inductive action : Type :=
  | FastForward                 (* the clock of the redis inside the process *)
  | CloseRedis
  | HandleMetrics
  | UpdateHealth
  | AddRemote (r : string) | CloseRemote (r : string)
  | JoinElection
  | RunWithLease
  | WaitRequests                (* waiter.Wait *)
  | Serve | Shutdown            (* the http server *)
  | LogHeads
  | WaitNats | FlushTelemetry.

Record hook := { OnStart : option action; OnStop : option action }.
Definition on_start (a : action) : hook := {| OnStart := Some a; OnStop := None |}.
Definition on_stop (a : action) : hook := {| OnStart := None; OnStop := Some a |}.

Record constructor := {
  name : string;
  params : list param;
  results : list string;
  hooks : list hook;
}.

Record app := { provide : list constructor; invoke : list constructor; supplied : list string }.

(** ** What is promised of an application *)

Section app.
Context (A : app).

Definition functions : list constructor := provide A ++ invoke A.

(** [c] takes something that [d] gives. *)
Definition takes (c d : constructor) : bool :=
  existsb (λ p, bool_decide (param_type p ∈ results d)) (params c).

Definition sources (t : string) : nat :=
  List.length (List.filter (λ d, bool_decide (t ∈ results d)) (provide A))
  + (if bool_decide (t ∈ supplied A) then 1 else 0).

(** There is one source of all that is needed, and not more than one of what is
    not. *)
Definition satisfied (p : param) : bool :=
  match p with
  | Need t => (sources t =? 1)%nat
  | Optional t => (sources t <=? 1)%nat
  | Group _ => true
  end.
Definition complete : bool := forallb (λ c, forallb satisfied (params c)) functions.

(** An order in which every function comes behind those it takes from: the first
    that is ready, again and again. *)
Definition ready (called : list constructor) (c : constructor) : bool :=
  forallb (λ d, negb (takes c d) || bool_decide (name d ∈ name <$> called)) (provide A).

Fixpoint pick (called rest : list constructor) : option (constructor * list constructor) :=
  match rest with
  | [] => None
  | c :: rest =>
      if ready called c then Some (c, rest)
      else '(d, rest) ← pick called rest; Some (d, c :: rest)
  end.

Fixpoint arrange (fuel : nat) (called rest : list constructor) : option (list constructor) :=
  match fuel, rest with
  | _, [] => Some called
  | O, _ => None
  | S fuel, _ => '(c, rest) ← pick called rest; arrange fuel (called ++ [c]) rest
  end.

Definition arranged : option (list constructor) :=
  arrange (List.length functions) [] functions.

Definition wired : bool :=
  complete && bool_decide (NoDup (name <$> functions)) && bool_decide (is_Some arranged).

(** The constructors that an invoked function needs, whatever is between. *)
Inductive needed : constructor → Prop :=
  | needed_invoke c : c ∈ invoke A → needed c
  | needed_param c d : needed c → d ∈ provide A → takes c d = true → needed d.
End app.

(** [d] was called before [c]. *)
Definition earlier {T} (d c : T) (l : list T) : Prop := ∃ l1 l2, l = l1 ++ c :: l2 ∧ d ∈ l1.

(** go.uber.org/fx: the functions it calls, in their order, and the actions of
    a lifecycle as a process starts and stops. *)
Class Fx := {
  calls : app → list constructor;
  starting : list hook → list action;
  stopping : list hook → list action;
}.

(** Of an application whose dependencies are complete and without a cycle, each
    constructor that is needed is called, once, and before what takes its results.
    Hooks start in the order they were appended in and stop in the reverse. *)
Class FxSpec `{F : Fx} : Prop := {
  calls_once A : wired A = true → NoDup (calls A);
  calls_needed A c : wired A = true → needed A c → c ∈ calls A;
  calls_before A c d : wired A = true → c ∈ calls A → d ∈ provide A → takes c d = true →
    earlier d c (calls A);
  starting_order hs : starting hs = omap OnStart hs;
  stopping_order hs : stopping hs = reverse (omap OnStop hs);
}.

Definition lifecycle `{F : Fx} (A : app) : list hook := mjoin (hooks <$> calls A).

(** ** The constructors *)

Module Wiring.

(** What the hooks depend on: is redis inside the process, is nats, is the
    telemetry enabled; the remotes of all chains, in the order of their maps. *)
Record config := {
  embedded_redis : bool;
  embedded_nats : bool;
  telemetry_enabled : bool;
  remotes : list string;
}.

Definition Lifecycle : string := "fx.Lifecycle".
Definition Context_ : string := "context.Context".
Definition Logger : string := "*slog.Logger".
Definition Chains : string := "map[string]*config.Chain".
Definition Engine : string := "*subscription.Engine".
Definition TraceProvider : string := "*gotel.TraceProvider".

(** *** What both processes have *)

Definition NewHttpRouter : constructor := {|
  name := "NewHttpRouter";
  params := [Group "route"];
  results := ["*chi.Mux"];
  hooks := [] |}.

Definition NewHttpServer : constructor := {|
  name := "NewHttpServer";
  params := [Need Lifecycle; Need Logger; Need "*config.HTTP"; Need "*chi.Mux"];
  results := ["*http.Server"];
  hooks := [{| OnStart := Some Serve; OnStop := Some Shutdown |}] |}.

Definition NewSubscriptionEngine : constructor := {|
  name := "NewSubscriptionEngine"; params := []; results := [Engine]; hooks := [] |}.

Definition prom_New : constructor := {|
  name := "prom.New";
  params := [Need Lifecycle; Need Logger];
  results := ["*prom.Prometheus"];
  hooks := [on_start HandleMetrics] |}.

Definition redi_New (cfg : config) : constructor := {|
  name := "redi.New";
  params := [Need "*config.Redis"; Need Logger; Need Lifecycle];
  results := ["*redi.Redis"];
  hooks := [if embedded_redis cfg then {| OnStart := Some FastForward; OnStop := Some CloseRedis |}
            else on_stop CloseRedis] |}.

Definition server : constructor := {|
  name := "func(*http.Server)"; params := [Need "*http.Server"]; results := []; hooks := [] |}.

Definition metrics : constructor := {|
  name := "func(*config.Metrics, *slog.Logger)";
  params := [Need "*config.Metrics"; Need Logger]; results := []; hooks := [] |}.

(** *** The node *)

Definition NodeFileParser : constructor := {|
  name := "config.NodeFileParser";
  params := [];
  results := ["*config.HTTP"; "*config.Redis"; "*config.AbuseLimit"; "*config.Election"; Chains;
    "[]*config.Remote"; "*config.Metrics"; Logger];
  hooks := [] |}.

(** A hook for the gauges, and one for every remote of every chain. *)
Definition cluster_New (cfg : config) : constructor := {|
  name := "cluster.New";
  params := [Need Logger; Need Chains; Need "headstore.Store"; Need Lifecycle];
  results := ["*cluster.Clusters"];
  hooks := on_start UpdateHealth
    :: ((λ r, {| OnStart := Some (AddRemote r); OnStop := Some (CloseRemote r) |}) <$> remotes cfg) |}.

Definition chainblock_New : constructor := {|
  name := "chainblock.New";
  params := [Need "*cluster.Clusters"; Need Logger];
  results := ["*chainblock.Chainblock"];
  hooks := [] |}.

Definition rediblock_New : constructor := {|
  name := "rediblock.New";
  params := [Need Chains; Need Logger; Need "*redi.Redis"];
  results := ["*rediblock.Rediblock"];
  hooks := [] |}.

Definition redihead_New : constructor := {|
  name := "redihead.New";
  params := [Need Logger; Need Context_; Optional "*redi.Redis"; Need Chains];
  results := ["*redihead.Redihead"];
  hooks := [] |}.

Definition headstoreProvider_New : constructor := {|
  name := "headstoreProvider.New";
  params := [Optional "*redihead.Redihead"];
  results := ["headstore.Store"];
  hooks := [] |}.

Definition subcenter_New : constructor := {|
  name := "subcenter.New";
  params := [Need Logger; Need "headstore.Store"; Need Chains];
  results := ["*subcenter.Subcenter"];
  hooks := [] |}.

Definition election_New : constructor := {|
  name := "election.New";
  params := [Need "*config.Election"; Need Logger; Need Lifecycle; Optional "*redi.Redis"; Need Context_];
  results := ["*election.Election"];
  hooks := [on_start JoinElection] |}.

Definition vennstore_New : constructor := {|
  name := "vennstore.New";
  params := [Need Lifecycle; Need Logger; Need Chains; Optional "*rediblock.Rediblock";
    Need "*chainblock.Chainblock"];
  results := ["blockstore.Store"];
  hooks := [] |}.

Definition cacher_New : constructor := {|
  name := "cacher.New";
  params := [Need Chains; Need "*cluster.Clusters"; Need "blockstore.Store"];
  results := ["*cacher.Cacher"];
  hooks := [] |}.

Definition stalker_New : constructor := {|
  name := "stalker.New";
  params := [Need Context_; Need Logger; Need Lifecycle; Need Chains; Need "*cluster.Clusters";
    Need "headstore.Store"; Need "*election.Election"];
  results := ["*stalker.Stalker"];
  hooks := [on_start RunWithLease] |}.

Definition headreplacer_New : constructor := {|
  name := "headreplacer.New";
  params := [Need "headstore.Store"; Need Chains];
  results := ["*headreplacer.HeadReplacer"];
  hooks := [] |}.

Definition promcollect_New : constructor := {|
  name := "promcollect.New";
  params := [Need Logger; Need "*prom.Prometheus"];
  results := ["*promcollect.Collector"];
  hooks := [] |}.

Definition node_New : constructor := {|
  name := "node.New";
  params := [Need Lifecycle; Need Chains; Need "*config.AbuseLimit"; Need "*redi.Redis"; Optional Engine;
    Optional "*promcollect.Collector"; Need "*stalker.Stalker"; Need "*headreplacer.HeadReplacer";
    Need "*cacher.Cacher"; Need "*cluster.Clusters"; Need "headstore.Store";
    Need "*subcenter.Subcenter"; Optional TraceProvider];
  results := ["jrpc.Handler"; "group:route"];
  hooks := [on_stop WaitRequests] |}.

Definition NewHeadLogger : constructor := {|
  name := "NewHeadLogger";
  params := [Need Context_; Need Logger; Need Lifecycle; Need "jrpc.Handler"; Need Chains];
  results := [];
  hooks := [on_start LogHeads] |}.

Definition StartNode (cfg : config) : app := {|
  provide := [NodeFileParser; NewHttpRouter; NewHttpServer; prom_New; redi_New cfg; cluster_New cfg;
    chainblock_New; rediblock_New; redihead_New; headstoreProvider_New; subcenter_New; election_New;
    vennstore_New; cacher_New; stalker_New; NewSubscriptionEngine; headreplacer_New;
    promcollect_New; node_New];
  invoke := [server; NewHeadLogger; metrics];
  supplied := [Lifecycle; Context_; TraceProvider] |}.

(** *** The gateway *)

Definition GatewayFileParser : constructor := {|
  name := "config.GatewayFileParser";
  params := [];
  results := ["*config.HTTP"; "*config.Redis"; "*config.Metrics"; "*config.Nats"; "*config.Telemetry";
    "*config.EndpointSpec"; "*config.Security"; Logger];
  hooks := [] |}.

Definition gnat_New (cfg : config) : constructor := {|
  name := "gnat.New";
  params := [Need "*config.Nats"; Need Context_; Need Lifecycle; Need Logger];
  results := ["*gnat.Gnat"; "fxplus.Healther"];
  hooks := if embedded_nats cfg then [on_stop WaitNats] else [] |}.

Definition telemetry_New (cfg : config) : constructor := {|
  name := "telemetry.New";
  params := [Need "*config.Telemetry"; Need "*gnat.Gnat"; Need Context_; Need Lifecycle; Need Logger];
  results := ["*telemetry.Telemetry"];
  hooks := if telemetry_enabled cfg then [on_stop FlushTelemetry] else [] |}.

Definition gateway_New : constructor := {|
  name := "gateway.New";
  params := [Need Lifecycle; Optional Engine; Need "*config.EndpointSpec"; Need "*config.Security";
    Need Logger; Need "*redi.Redis"; Need "*telemetry.Telemetry"; Optional TraceProvider];
  results := ["group:route"];
  hooks := [] |}.

Definition prometheus : constructor := {|
  name := "func(*prom.Prometheus)"; params := [Need "*prom.Prometheus"]; results := []; hooks := [] |}.

Definition StartGateway (cfg : config) : app := {|
  provide := [GatewayFileParser; NewHttpRouter; NewHttpServer; prom_New; redi_New cfg; gnat_New cfg;
    telemetry_New cfg; NewSubscriptionEngine; gateway_New];
  invoke := [prometheus; server; metrics];
  supplied := [Lifecycle; Context_; TraceProvider] |}.
End Wiring.

(** ** Lemmas *)

Module WiringFacts.
Import Wiring.

Section earlier.
Context {T : Type}.
Implicit Types (a b c : T) (l : list T).

Lemma earlier_lookup a b l : earlier a b l ↔ ∃ i j, (i < j)%nat ∧ l !! i = Some a ∧ l !! j = Some b.
Proof.
  split.
  - intros (l1 & l2 & -> & [i Hi]%list_elem_of_lookup). exists i, (List.length l1).
    split; [by eapply lookup_lt_Some|]. split; [by apply lookup_app_l_Some|].
    by rewrite lookup_app_r, Nat.sub_diag by lia.
  - intros (i & j & Hij & Hi & Hj). exists (take j l), (drop (S j) l).
    split; [by rewrite take_drop_middle|]. apply list_elem_of_lookup. exists i.
    by rewrite lookup_take_lt.
Qed.

Lemma earlier_trans a b c l : NoDup l → earlier a b l → earlier b c l → earlier a c l.
Proof.
  rewrite !earlier_lookup. intros Hnd (i & j & Hij & Hi & Hj) (j' & k & Hjk & Hj' & Hk).
  assert (j = j') as <- by by eapply NoDup_lookup. exists i, k. split; [lia|done].
Qed.

Lemma earlier_reverse a b l : earlier a b l → earlier b a (reverse l).
Proof.
  intros (l1 & l2 & -> & (k1 & k2 & ->)%list_elem_of_split).
  exists (reverse l2 ++ [b] ++ reverse k2), (reverse k1).
  rewrite ?reverse_app, ?reverse_cons, ?reverse_app, ?reverse_cons, <- !app_assoc.
  split; [done|]. set_solver.
Qed.

Lemma earlier_omap {B} (f : T → option B) a b x y l :
  f a = Some x → f b = Some y → earlier a b l → earlier x y (omap f l).
Proof.
  intros Ha Hb (l1 & l2 & -> & Hin). exists (omap f l1), (omap f l2).
  rewrite omap_app. cbn. rewrite Hb. split; [done|]. apply list_elem_of_omap. by exists a.
Qed.

Lemma earlier_join {B} (f : T → list B) a b x y l :
  x ∈ f a → y ∈ f b → earlier a b l → earlier x y (mjoin (f <$> l)).
Proof.
  intros Hx (s1 & s2 & Hy)%list_elem_of_split (l1 & l2 & -> & Hin).
  exists (mjoin (f <$> l1) ++ s1), (s2 ++ mjoin (f <$> l2)).
  rewrite fmap_app, join_app, fmap_cons. cbn [mjoin list_join]. rewrite Hy, <- !app_assoc.
  split; [done|]. apply elem_of_app. left. apply list_elem_of_join. exists (f a).
  split; [done|]. by apply list_elem_of_fmap_2.
Qed.
End earlier.

Section fx.
Context `{F : FxSpec}.

(** [d] is reached from [c] through what is taken. *)
Fixpoint path (A : app) (c : constructor) (ds : list constructor) : Prop :=
  match ds with
  | [] => True
  | d :: ds => In d (provide A) ∧ takes c d = true ∧ path A d ds
  end.

Lemma earlier_in {T} (a b : T) l : earlier a b l → a ∈ l.
Proof. intros (l1 & l2 & -> & Hin). apply elem_of_app. by left. Qed.

Lemma path_earlier A c ds d :
  wired A = true → c ∈ calls A → path A c (ds ++ [d]) → earlier d c (calls A).
Proof.
  intros Hw. revert c. induction ds as [|e ds IH]; intros c Hc (He%list_elem_of_In & Ht & Hp).
  - by eapply calls_before.
  - pose proof (calls_before A c e Hw Hc He Ht) as Hec.
    eapply earlier_trans; [by apply calls_once| |exact Hec].
    apply IH; [by eapply earlier_in|exact Hp].
Qed.

(** The actions of two constructors, as the process starts and as it stops. *)
Lemma starts_earlier A d c h k x y :
  earlier d c (calls A) → h ∈ hooks d → k ∈ hooks c → OnStart h = Some x → OnStart k = Some y →
  earlier x y (starting (lifecycle A)).
Proof.
  intros He Hh Hk Hx Hy. rewrite starting_order. eapply earlier_omap; [exact Hx|exact Hy|].
  by eapply earlier_join.
Qed.

Lemma stops_earlier A d c h k x y :
  earlier d c (calls A) → h ∈ hooks d → k ∈ hooks c → OnStop h = Some x → OnStop k = Some y →
  earlier y x (stopping (lifecycle A)).
Proof.
  intros He Hh Hk Hx Hy. rewrite stopping_order. apply earlier_reverse.
  eapply earlier_omap; [exact Hx|exact Hy|]. by eapply earlier_join.
Qed.

Lemma server_called A : wired A = true → server ∈ invoke A → NewHttpServer ∈ provide A →
  NewHttpServer ∈ calls A.
Proof.
  intros Hw Hs Hp. apply calls_needed; [done|].
  eapply needed_param; [by apply needed_invoke|done|reflexivity].
Qed.
End fx.

(** Membership in a list that is written out, and a path that is. *)
Ltac listed := repeat first [left; reflexivity | right].
Ltac on_path := cbn [path List.app]; repeat (split; [first [reflexivity | listed]|]); exact I.
End WiringFacts.

(** ** Properties *)

Module WiringProps.
Import Wiring WiringFacts.

Section props.
Context `{F : FxSpec} (cfg : config).

Lemma node_wired : wired (StartNode cfg) = true.
Proof. vm_compute. reflexivity. Qed.

Lemma gateway_wired : wired (StartGateway cfg) = true.
Proof. vm_compute. reflexivity. Qed.

Lemma node_serves : NewHttpServer ∈ calls (StartNode cfg).
Proof. apply server_called; [apply node_wired|apply list_elem_of_In; cbn; listed..]. Qed.

Lemma gateway_serves : NewHttpServer ∈ calls (StartGateway cfg).
Proof. apply server_called; [apply gateway_wired|apply list_elem_of_In; cbn; listed..]. Qed.

(** What comes before what in a node. *)
Lemma node_before_server : earlier node_New NewHttpServer (calls (StartNode cfg)).
Proof. apply (path_earlier _ _ [NewHttpRouter]); [apply node_wired|apply node_serves|on_path]. Qed.

Lemma election_before_server : earlier election_New NewHttpServer (calls (StartNode cfg)).
Proof.
  apply (path_earlier _ _ [NewHttpRouter; node_New; stalker_New]);
    [apply node_wired|apply node_serves|on_path].
Qed.

Lemma cluster_before_node : earlier (cluster_New cfg) node_New (calls (StartNode cfg)).
Proof.
  apply (path_earlier _ _ []); [apply node_wired|by eapply earlier_in, node_before_server|on_path].
Qed.

Lemma redis_before_cluster : earlier (redi_New cfg) (cluster_New cfg) (calls (StartNode cfg)).
Proof.
  apply (path_earlier _ _ [headstoreProvider_New; redihead_New]);
    [apply node_wired|by eapply earlier_in, cluster_before_node|on_path].
Qed.

(** The hook of a remote. *)
Definition remote_hook (r : string) : hook :=
  {| OnStart := Some (AddRemote r); OnStop := Some (CloseRemote r) |}.

Lemma remote_hook_in r : r ∈ remotes cfg → remote_hook r ∈ hooks (cluster_New cfg).
Proof. intros Hr. right. by apply (list_elem_of_fmap_2 remote_hook). Qed.

Lemma redis_hook : ∃ h, h ∈ hooks (redi_New cfg) ∧ OnStop h = Some CloseRedis.
Proof. eexists. split; [by left|]. by destruct (embedded_redis cfg). Qed.

(** C7: in whatever order fx calls the constructors of a node, it starts and
    stops in the right one.  When the server begins to listen, the election has
    been joined and every remote is in its cluster.  When the process ends, the
    hook that shuts the server down runs before the one that waits for the
    running requests, that one before the first connection to a remote is
    closed, and redis is closed after all of them. *)
Theorem node_lifecycle :
  let hs := lifecycle (StartNode cfg) in
  earlier JoinElection Serve (starting hs) ∧
  earlier Shutdown WaitRequests (stopping hs) ∧
  ∀ r, r ∈ remotes cfg →
    earlier (AddRemote r) Serve (starting hs) ∧
    earlier WaitRequests (CloseRemote r) (stopping hs) ∧
    earlier (CloseRemote r) CloseRedis (stopping hs).
Proof.
  intros hs. split; [|split].
  - eapply starts_earlier; [apply election_before_server|by left|by left|done..].
  - eapply stops_earlier; [apply node_before_server|by left|by left|done..].
  - intros r Hr%remote_hook_in. destruct redis_hook as (h & Hh & Hs). split; [|split].
    + eapply (starts_earlier _ (cluster_New cfg) NewHttpServer); [|exact Hr|by left|done..].
      eapply earlier_trans; [by apply calls_once, node_wired|..];
        [apply cluster_before_node|apply node_before_server].
    + eapply stops_earlier; [apply cluster_before_node|exact Hr|by left|done..].
    + eapply stops_earlier; [apply redis_before_cluster|exact Hh|exact Hr|done..].
Qed.

(** The gateway: the server, then the telemetry, then nats. *)
Theorem gateway_lifecycle :
  telemetry_enabled cfg = true → embedded_nats cfg = true →
  let hs := lifecycle (StartGateway cfg) in
  earlier Shutdown FlushTelemetry (stopping hs) ∧ earlier FlushTelemetry WaitNats (stopping hs).
Proof.
  intros Ht Hn hs.
  assert (earlier (telemetry_New cfg) NewHttpServer (calls (StartGateway cfg))) as H1.
  { apply (path_earlier _ _ [NewHttpRouter; gateway_New]);
      [apply gateway_wired|apply gateway_serves|on_path]. }
  assert (on_stop FlushTelemetry ∈ hooks (telemetry_New cfg)) as Hf.
  { cbn. rewrite Ht. by left. }
  assert (on_stop WaitNats ∈ hooks (gnat_New cfg)) as Hw.
  { cbn. rewrite Hn. by left. }
  split; [eapply stops_earlier; [exact H1|exact Hf|by left|done..]|].
  eapply stops_earlier; [|exact Hw|exact Hf|done..].
  apply (path_earlier _ _ []); [apply gateway_wired|by eapply earlier_in|on_path].
Qed.
End props.
End WiringProps.

Module WiringWitness.
Import Wiring WiringFacts WiringProps.

(** fx as an arrangement of all functions. *)
#[local] Instance fx0 : Fx := {|
  calls A := default [] (arranged A);
  starting := omap OnStart;
  stopping hs := reverse (omap OnStop hs) |}.

Section arrange.
Context (A : app) (HA : NoDup (name <$> functions A)).

Definition ordered (l : list constructor) : Prop :=
  ∀ c d, c ∈ l → d ∈ provide A → takes c d = true → earlier d c l.

Lemma pick_ready called rest c rest' :
  pick A called rest = Some (c, rest') → ready A called c = true ∧ rest ≡ₚ c :: rest'.
Proof.
  revert rest'. induction rest as [|e rest IH]; intros rest'; [done|]. cbn [pick].
  destruct (ready A called e) eqn:Hr; [by intros [= <- <-]|].
  destruct (pick A called rest) as [[d l]|] eqn:Hp; cbn; [|done]. intros [= <- <-].
  destruct (IH _ eq_refl) as [Hd ->]. split; [done|]. apply perm_swap.
Qed.

Lemma same_name c d : c ∈ functions A → d ∈ functions A → name c = name d → c = d.
Proof.
  intros [i Hi]%list_elem_of_lookup [j Hj]%list_elem_of_lookup Hn.
  assert (i = j) as <-; [|congruence].
  eapply (NoDup_lookup (name <$> functions A)); [done|..]; rewrite list_lookup_fmap.
  - by rewrite Hi.
  - rewrite Hj. cbn. by rewrite Hn.
Qed.

Lemma arrange_spec fuel called rest l :
  arrange A fuel called rest = Some l → called ++ rest ≡ₚ functions A → ordered called →
  l ≡ₚ functions A ∧ ordered l.
Proof.
  revert called rest. induction fuel as [|fuel IH]; intros called rest Hl Hp Ho.
  { destruct rest; [|done]. injection Hl as <-. by rewrite app_nil_r in Hp. }
  destruct rest as [|e rest]; [injection Hl as <-; by rewrite app_nil_r in Hp|].
  cbn [arrange] in Hl. destruct (pick A called (e :: rest)) as [[c rest']|] eqn:Hc; [|done].
  apply pick_ready in Hc as [Hr Hperm]. apply IH in Hl; [done|..].
  { rewrite <- Hp, Hperm, <- app_assoc. done. }
  intros x d Hx Hd Ht. apply elem_of_app in Hx as [Hx| ->%list_elem_of_singleton].
  - destruct (Ho x d Hx Hd Ht) as (l1 & l2 & -> & Hin). exists l1, (l2 ++ [c]).
    by rewrite <- app_assoc.
  - exists called, []. split; [done|].
    apply forallb_forall with (x := d) in Hr; [|by apply list_elem_of_In].
    rewrite Ht in Hr. apply bool_decide_eq_true, list_elem_of_fmap in Hr as (d' & Hn & Hd').
    assert (d = d') as ->; [|done]. apply same_name; [..|done].
    + apply elem_of_app. by left.
    + rewrite <- Hp. apply elem_of_app. by left.
Qed.
End arrange.

Lemma wired_arranged A : wired A = true →
  ∃ l, arranged A = Some l ∧ NoDup l ∧ l ≡ₚ functions A ∧ ordered A l.
Proof.
  unfold wired. intros [[_ Hn%bool_decide_eq_true]%andb_true_iff [l Hl]%bool_decide_eq_true]%andb_true_iff.
  exists l. destruct (arrange_spec A Hn _ _ _ _ Hl) as [Hp Ho]; [done|by intros ??[]%elem_of_nil|].
  split; [done|]. split; [|done]. rewrite Hp. by eapply NoDup_fmap_1.
Qed.

Lemma needed_function A c : needed A c → c ∈ functions A.
Proof. intros [c' Hc|c' d _ Hd _]; apply elem_of_app; [by right|by left]. Qed.

#[local] Instance fx0_spec : FxSpec.
Proof.
  split; cbn; [intros A Hw|intros A c Hw Hc|intros A c d Hw|done|done];
    destruct (wired_arranged A Hw) as (l & -> & Hnd & Hp & Ho); cbn.
  - done.
  - rewrite Hp. by apply needed_function.
  - intros Hc Hd Ht. by apply Ho.
Qed.

Definition cfg0 : config := {|
  embedded_redis := true; embedded_nats := true; telemetry_enabled := true;
  remotes := ["ethereum/a"; "ethereum/b"] |}.

Lemma node_lifecycle_witness :
  let stop := stopping (lifecycle (StartNode cfg0)) in
  stop = [Shutdown; WaitRequests; CloseRemote "ethereum/b"; CloseRemote "ethereum/a"; CloseRedis] ∧
  earlier WaitRequests (CloseRemote "ethereum/a") stop.
Proof.
  destruct (node_lifecycle cfg0) as (_ & _ & H). split; [vm_compute; reflexivity|].
  apply (H "ethereum/a"). by left.
Defined.

Lemma gateway_lifecycle_witness :
  let stop := stopping (lifecycle (StartGateway cfg0)) in
  earlier Shutdown FlushTelemetry stop ∧ earlier FlushTelemetry WaitNats stop.
Proof. by apply (gateway_lifecycle cfg0). Defined.
End WiringWitness.
