(* ===== verification/Proxier.v ===== *)
(** * The proxy of a remote: [lib/callcenter/proxier.go]

    The handler at the bottom of a remote's middlewares: it keeps one connection
    to the remote, dials when there is none or the last one has closed, and
    forwards calls and subscriptions.  Dialling, the connection and the notifier
    are the jrpc library's, and arguments here. *)
From S2P Require Import Prelude Errors Json EthTypes Config Rpc.

Module Proxier.
Section proxier.
(** A connection, with [Closed], [Do], [Subscribe] and [Close]; the handler's
    context decides whether there is a notifier. *)
Context {W C : Type} `{J : Jrpc}.
Context (connect : context → prog W (option C * option goerr)).
Context (Closed : C → prog W bool).
Context (conn_Do : C → request → prog W (json * option goerr)).
Context (Subscribe : C → context → string → option json → prog W (option goerr)).
Context (conn_Close : C → prog W (option goerr)).
Context (has_notifier : context → bool).
(** The field [conn]; [nil] is none. *)
Context `{L : !Lens (option C) W}.

Definition trim_suffix (p s : string) : string :=
  if has_suffix p s then substring 0 (String.length s - String.length p) s else s.

(** What the goroutine of a subscription receives. *)
Inductive feed : Type :=
  | Data (v : json) (notify : option goerr)   (* and what [Notify] answers *)
  | SubEnded
  | NotifierEnded.

(** The goroutine: the data it notifies.  Its [select] calls a method of the
    notifier first of all. *)
Fixpoint forward (notifier : bool) (fs : list feed) : outcome (list json) :=
  if negb notifier then Panic "nil pointer dereference"
  else
    match fs with
    | [] => Blocks
    | Data v (Some e) :: _ => Return []
    | Data v None :: fs => rest ← forward notifier fs; Return (v :: rest)
    | (SubEnded | NotifierEnded) :: _ => Return []
    end.

(** [T.conn, err = subscription.UpgradeConn(T.connect(r.Context()))]. *)
Definition dial (ctx : context) : prog W (option goerr) :=
  x ← connect ctx;
  _ ← write (S := option C) x.1;
  mret x.2.

(** Whether there is a connection that is not closed. *)
Definition connected : prog W bool :=
  conn ← read (S := option C);
  match conn with
  | Some c => closed ← Closed c; mret (negb closed)
  | None => mret false
  end.

(** A subscription: the replies, and the goroutine, if it is started, with
    whether it has a notifier.  Without one the error is sent, and no return
    follows. *)
Definition serve_subscription (c : C) (r : request) : prog W (list reply * option bool) :=
  let notifier := has_notifier (r_ctx r) in
  let sends := if notifier then [] else [reply_err (ESentinel ErrNotificationsUnsupported)] in
  err ← Subscribe c (r_ctx r) (trim_suffix "_subscribe" (r_method r)) (r_params r);
  mret match err with
       | Some e => (sends ++ [reply_err e], None)
       | None => (sends, Some notifier)
       end.

Definition ServeRPC (r : request) : prog W (list reply * option bool) :=
  ok ← connected;
  err ← (if ok : bool then mret None else dial (r_ctx r));
  match err with
  | Some e => mret ([reply_err e], None)
  | None =>
      conn ← read (S := option C);
      match conn with
      | None => panic "nil pointer dereference"
      | Some c =>
          if has_suffix "_subscribe" (r_method r) then serve_subscription c r
          else
            x ← conn_Do c r;
            mret ([(VRaw x.1, x.2)], None)
      end
  end.

(** The handler that the middlewares get; its goroutines run beside it. *)
Definition Handler : handler W := λ r, x ← ServeRPC r; mret x.1.

Definition Close : prog W (option goerr) :=
  conn ← read (S := option C);
  match conn with
  | None => panic "nil pointer dereference"
  | Some c => conn_Close c
  end.
End proxier.
End Proxier.

(** ** What holds *)

Module ProxierProps.
Import Proxier.
Section props.
Context {W C : Type} `{J : Jrpc} `{L : !Lens (option C) W}.
Context (connect : context → prog W (option C * option goerr)).
Context (Closed : C → prog W bool).
Context (conn_Do : C → request → prog W (json * option goerr)).
Context (Subscribe : C → context → string → option json → prog W (option goerr)).
Context (has_notifier : context → bool).

(** What a connection answers is its own business: it does not replace itself,
    and a dial gives a connection or an error. *)
Record env_ok : Prop := {
  ok_closed c w : ∃ b w', Closed c w = (Return b, w') ∧ lget (S := option C) w' = lget w;
  ok_do c r w : ∃ x w', conn_Do c r w = (Return x, w') ∧ lget (S := option C) w' = lget w;
  ok_connect ctx w : ∃ c e w', connect ctx w = (Return (c, e), w') ∧ (e = None → is_Some c);
}.

#[local] Abbreviation serve := (ServeRPC connect Closed conn_Do Subscribe has_notifier).

(** A call is answered exactly once: over the connection it finds open, without
    a dial, or over a new one, which is then kept, or with the error of the
    dial, after which the next call dials again. *)
Theorem proxier_call r w :
  env_ok → has_suffix "_subscribe" (r_method r) = false →
  ∃ ok w1, connected Closed w = (Return ok, w1) ∧ lget (S := option C) w1 = lget w ∧
  if ok : bool then
    ∃ c x w', lget w = Some c ∧ conn_Do c r w1 = (Return x, w') ∧
      serve r w = (Return ([(VRaw x.1, x.2)], None), w') ∧ lget w' = Some c
  else
    ∃ c e w2, connect (r_ctx r) w1 = (Return (c, e), w2) ∧
      match e with
      | Some e => serve r w = (Return ([reply_err e], None), lput c w2)
      | None => ∃ d x w', c = Some d ∧ conn_Do d r (lput c w2) = (Return x, w') ∧
          serve r w = (Return ([(VRaw x.1, x.2)], None), w') ∧ lget w' = Some d
      end.
Proof.
  intros He Hm.
  assert (∃ ok w1, connected Closed w = (Return ok, w1) ∧ lget (S := option C) w1 = lget w ∧
    (ok = true → ∃ c, lget w = Some c)) as (ok & w1 & Hc & Hw1 & Hok).
  { unfold connected. rewrite (prog_bind_return _ _ (lget w) w w) by done.
    destruct (lget w) as [c|] eqn:Hl; [|by exists false, w].
    destruct (ok_closed He c w) as (b & w1 & Hb & Hw1). exists (negb b), w1.
    rewrite (prog_bind_return _ _ _ _ _ Hb). split_and!; [done|by rewrite Hw1|eauto]. }
  exists ok, w1. split_and!; [done|done|].
  assert (serve r w = (err ← (if ok then mret None else dial connect (r_ctx r));
    match err with
    | Some e => mret ([reply_err e], None)
    | None => conn ← read (S := option C);
        match conn with
        | None => panic "nil pointer dereference"
        | Some c => x ← conn_Do c r; mret ([(VRaw x.1, x.2)], None)
        end
    end) w1) as Hrun.
  { unfold ServeRPC. rewrite (prog_bind_return _ _ _ _ _ Hc). by rewrite Hm. }
  rewrite Hrun. destruct ok.
  - destruct (Hok eq_refl) as [c Hl]. destruct (ok_do He c r w1) as (x & w' & Hx & Hw').
    exists c, x, w'. split_and!; [done|done| |by rewrite Hw', Hw1].
    rewrite (prog_bind_return _ _ None w1 w1) by done.
    rewrite (prog_bind_return _ _ (lget w1) w1 w1) by done. rewrite Hw1, Hl.
    by rewrite (prog_bind_return _ _ _ _ _ Hx).
  - destruct (ok_connect He (r_ctx r) w1) as (c & e & w2 & Hd & Hsome). exists c, e, w2.
    split; [done|].
    assert (dial connect (r_ctx r) w1 = (Return e, lput c w2)) as Hdial.
    { unfold dial. by rewrite (prog_bind_return _ _ _ _ _ Hd). }
    destruct e as [e|]; [by rewrite (prog_bind_return _ _ _ _ _ Hdial)|].
    destruct (Hsome eq_refl) as [d ->].
    destruct (ok_do He d r (lput (Some d) w2)) as (x & w' & Hx & Hw').
    exists d, x, w'. split_and!; [done|done| |by rewrite Hw', lget_lput].
    rewrite (prog_bind_return _ _ _ _ _ Hdial).
    rewrite (prog_bind_return _ _ (Some d) (lput (Some d) w2) (lput (Some d) w2)).
    + by rewrite (prog_bind_return _ _ _ _ _ Hx).
    + unfold read. by rewrite lget_lput.
Qed.

(** A subscription without a notifier is not refused: the error is sent, the
    remote is subscribed to all the same, and the goroutine that should forward
    its data panics. *)
Theorem proxier_no_notifier r w c w1 w2 :
  has_suffix "_subscribe" (r_method r) = true → has_notifier (r_ctx r) = false →
  connected Closed w = (Return true, w1) → lget w1 = Some c →
  Subscribe c (r_ctx r) (trim_suffix "_subscribe" (r_method r)) (r_params r) w1 = (Return None, w2) →
  serve r w = (Return ([reply_err (ESentinel ErrNotificationsUnsupported)], Some false), w2) ∧
  ∀ fs, forward false fs = Panic "nil pointer dereference".
Proof.
  intros Hm Hn Hc Hl Hs. split; [|by intros []].
  unfold ServeRPC. rewrite (prog_bind_return _ _ _ _ _ Hc).
  rewrite (prog_bind_return _ _ None w1 w1) by done.
  rewrite (prog_bind_return _ _ (lget w1) w1 w1) by done. rewrite Hl, Hm.
  unfold serve_subscription. rewrite Hn. by rewrite (prog_bind_return _ _ _ _ _ Hs).
Qed.
End props.
End ProxierProps.

Module ProxierWitness.
Import Proxier ProxierProps StdJrpc.

(** Connections are numbered; those below the second part are closed. *)
Definition world : Type := option Z * Z.
Definition connect0 : context → prog world (option Z * option goerr) :=
  λ _ w, (Return (Some w.2, None), w).
Definition closed0 (c : Z) : prog world bool := λ w, (Return (c <? w.2), w).
Definition do0 (c : Z) (r : request) : prog world (json * option goerr) :=
  λ w, (Return (JNum (pretty c), None), w).
Definition subscribe0 : Z → context → string → option json → prog world (option goerr) :=
  λ _ _ _ _, mret None.
Definition request0 (method : string) : request :=
  {| r_ctx := []; r_method := method; r_params := None; r_peer := "" |}.

Lemma env0 : env_ok connect0 closed0 do0.
Proof.
  split; intros; unfold closed0, do0, connect0; eauto.
Qed.

(** The connection 4 has closed. *)
Lemma proxier_call_witness :
  ∃ w', ServeRPC connect0 closed0 do0 subscribe0 (λ _, false) (request0 "eth_chainId") (Some 4, 5)
    = (Return ([(VRaw (JNum "5"), None)], None), w') ∧ lget w' = Some 5.
Proof.
  destruct (proxier_call connect0 closed0 do0 subscribe0 (λ _, false) (request0 "eth_chainId")
    (Some 4, 5) env0 eq_refl) as (ok & w1 & Hc & _ & H).
  vm_compute in Hc. injection Hc as <- <-. destruct H as (c & e & w2 & Hd & H).
  vm_compute in Hd. injection Hd as <- <- <-. destruct H as (d & x & w' & Hd & Hx & Hs & Hw).
  exists w'. injection Hd as <-. vm_compute in Hx. injection Hx as <- <-.
  split; [exact Hs|exact Hw].
Defined.

Lemma proxier_no_notifier_witness :
  ServeRPC connect0 closed0 do0 subscribe0 (λ _, false) (request0 "eth_subscribe") (Some 5, 5)
    = (Return ([reply_err (ESentinel ErrNotificationsUnsupported)], Some false), (Some 5, 5)) ∧
  ∀ fs, forward false fs = Panic "nil pointer dereference".
Proof.
  apply (proxier_no_notifier connect0 closed0 do0 subscribe0 (λ _, false)
    (request0 "eth_subscribe") (Some 5, 5) 5 (Some 5, 5) (Some 5, 5)); reflexivity.
Defined.
End ProxierWitness.
