(* ===== verification/BlockRef.v ===== *)
(** * A block by number or by hash: [BlockNumberOrHash] of [lib/ethtypes/rpc.go]

    The reference to a block that a request may make in three ways: an object
    with the number or the hash, a bare number, or a string that is a tag, a
    hash or a number. *)
From S2P Require Import Prelude Errors Json EthTypes.

Module BlockNumberOrHash.

Record t := {
  BlockNumber : option Z;
  BlockHash : option hash;
  RequireCanonical : bool;
}.

Definition empty : t := {| BlockNumber := None; BlockHash := None; RequireCanonical := false |}.
Definition of_number (n : Z) : t :=
  {| BlockNumber := Some n; BlockHash := None; RequireCanonical := false |}.
Definition of_hash (h : hash) : t :=
  {| BlockNumber := None; BlockHash := Some h; RequireCanonical := false |}.

Definition Number (bnh : t) : Z * bool :=
  match BlockNumber bnh with Some n => (n, true) | None => (0, false) end.

Section codec.
Context `{E : Eth}.

Definition Hash (bnh : t) : hash * bool :=
  match BlockHash bnh with Some h => (h, true) | None => (replicate HashLength 0, false) end.

Definition member (e : t) (kv : string * json) : res goerr t :=
  let '(k, v) := kv in
  if field_match "blockNumber" k then
    n ← unmarshal_ptr BlockNumber.unmarshal v;
    mret {| BlockNumber := n; BlockHash := BlockHash e; RequireCanonical := RequireCanonical e |}
  else if field_match "blockHash" k then
    h ← unmarshal_ptr hash_unmarshal v;
    mret {| BlockNumber := BlockNumber e; BlockHash := h; RequireCanonical := RequireCanonical e |}
  else if field_match "requireCanonical" k then
    match v with
    | JBool b => Ok {| BlockNumber := BlockNumber e; BlockHash := BlockHash e; RequireCanonical := b |}
    | JNull => Ok e
    | _ => Err json_error
    end
  else Ok e.

Fixpoint members (e : t) (fs : list (string * json)) : res goerr t :=
  match fs with
  | [] => Ok e
  | kv :: fs => e ← member e kv; members e fs
  end.

(** [json.Unmarshal] into [erased], the type without the decoder. *)
Definition unmarshal_erased (v : json) : res goerr t :=
  match v with
  | JObj fs => members empty fs
  | JNull => Ok empty
  | _ => Err json_error
  end.

Definition too_high : goerr := EText "blocknumber too high".

(** A number that is no tag, after the 66 characters of a hash. *)
Definition UnmarshalText (input : string) : res goerr t :=
  if bool_decide (input = "earliest") then Ok (of_number BlockNumber.EarliestBlockNumber)
  else if bool_decide (input = "latest") then Ok (of_number BlockNumber.LatestBlockNumber)
  else if bool_decide (input = "pending") then Ok (of_number BlockNumber.PendingBlockNumber)
  else if bool_decide (input = "safe") then Ok (of_number BlockNumber.SafeBlockNumber)
  else if bool_decide (input = "finalized") then Ok (of_number BlockNumber.FinalizedBlockNumber)
  else if bool_decide (String.length input = 66%nat) then
    h ← hash_unmarshal (JStr input);
    mret (of_hash h)
  else
    let blckNum := big_Uint64 (big_SetString input) in
    if max_int64 <? blckNum then Err too_high else Ok (of_number blckNum).

Definition UnmarshalJSON (v : json) : res goerr t :=
  match unmarshal_erased v with
  | Ok e =>
      match BlockNumber e, BlockHash e with
      | Some _, Some _ =>
          Err (EText "cannot specify both BlockHash and BlockNumber, choose one or the other")
      | None, None =>
          Err (EText "at least one of BlockNumber or BlockHash is needed if a dictionary is provided")
      | _, _ => Ok e
      end
  | Err _ =>
      match ParseUint10 (render v) with
      | Some blckNum => if max_int64 <? blckNum then Err too_high else Ok (of_number blckNum)
      | None => input ← unmarshal_string v; UnmarshalText input
      end
  end.

(** [json.Marshal] of the struct; every field is [omitempty]. *)
Definition marshal (bnh : t) : json :=
  JObj (opt_field "blockNumber" BlockNumber.MarshalJSON (BlockNumber bnh)
    ++ opt_field "blockHash" hash_marshal (BlockHash bnh)
    ++ if RequireCanonical bnh then [("requireCanonical", JBool true)] else []).
End codec.

(** A reference names its block in one way. *)
Definition proper (bnh : t) : Prop :=
  match BlockNumber bnh, BlockHash bnh with
  | Some n, None => bn_ok n
  | None, Some h => is_bytes HashLength h
  | _, _ => False
  end.
End BlockNumberOrHash.

(** ** What holds *)

Module BlockRefProps.
Import BlockNumberOrHash.
Section props.
Context `{E : Eth, !EthSpec}.

(** A decoded reference names its block by its number or by its hash, never by
    both or by neither; and a proper one survives its JSON encoding. *)
Theorem BlockNumberOrHash_roundtrip :
  (∀ v x, UnmarshalJSON v = Ok x → (Number x).2 = negb (Hash x).2) ∧
  (∀ x, proper x → UnmarshalJSON (marshal x) = Ok x).
Proof.
  split.
  - intros v x. unfold UnmarshalJSON, Number, Hash.
    destruct (unmarshal_erased v) as [e|?].
    + by destruct (BlockNumber e) eqn:?, (BlockHash e) eqn:?; intros [= <-]; simplify_option_eq.
    + destruct (ParseUint10 (render v)) as [n|].
      * by destruct (max_int64 <? n); intros [= <-].
      * destruct (unmarshal_string v) as [s|?]; [|done]. cbn. unfold UnmarshalText.
        repeat (case_bool_decide; [by intros [= <-] || (destruct (hash_unmarshal _); [|done]; by intros [= <-])|]).
        by destruct (max_int64 <? _); intros [= <-].
  - intros [n h b] Hp. unfold proper in Hp. cbn in Hp.
    unfold UnmarshalJSON, marshal. cbn [BlockNumber BlockHash RequireCanonical].
    destruct n as [n|], h as [h|]; try done; cbn [opt_field app unmarshal_erased members].
    + assert (member empty ("blockNumber", BlockNumber.MarshalJSON n) = Ok (of_number n)) as Hm.
      { change ((x ← unmarshal_ptr BlockNumber.unmarshal (BlockNumber.MarshalJSON n);
          (mret {| BlockNumber := x; BlockHash := None; RequireCanonical := false |} : res goerr t))
          = Ok (of_number n)). by rewrite unmarshal_ptr_bn. }
      rewrite Hm. by destruct b.
    + assert (member empty ("blockHash", hash_marshal h) = Ok (of_hash h)) as Hm.
      { assert (unmarshal_ptr hash_unmarshal (hash_marshal h) = Ok (Some h)) as Hh.
        { pose proof (hash_roundtrip h Hp) as Hr. destruct (hash_text h Hp) as (s & Hs & _).
          rewrite Hs in *. cbn. by rewrite Hr. }
        change ((x ← unmarshal_ptr hash_unmarshal (hash_marshal h);
          (mret {| BlockNumber := None; BlockHash := x; RequireCanonical := false |} : res goerr t))
          = Ok (of_hash h)). by rewrite Hh. }
      rewrite Hm. by destruct b.
Qed.
End props.
End BlockRefProps.

Module BlockRefWitness.
Import BlockNumberOrHash BlockRefProps StdEth.

Lemma BlockNumberOrHash_roundtrip_witness :
  UnmarshalJSON (marshal (of_hash (replicate HashLength 7))) = Ok (of_hash (replicate HashLength 7)) ∧
  UnmarshalJSON (marshal (of_number (-1))) = Ok (of_number (-1)).
Proof.
  split; apply (proj2 BlockNumberOrHash_roundtrip); cbn.
  - repeat constructor; lia.
  - vm_compute. split; congruence.
Defined.
End BlockRefWitness.
